(** * The JSON import / export pipeline of the board application

    A shallow embedding of [packages/api/src/routers/json-import.ts]:
    the tolerant preprocessor, the strict schema validator, the label and
    list reconciliation, the per-list bulk writer with its warning
    collector and import ledger, and the export assembler.

    JavaScript strings are modelled as [string]; a character stands for
    one code unit in the range 0..255.  Rows of the relational store are
    records, tables are lists in insertion order. *)

From Stdlib Require Import List String Ascii Arith Bool ZArith Lia DecimalString Sorted.
Import ListNotations.
Open Scope string_scope.
Open Scope nat_scope.

Set Implicit Arguments.
#[local] Set Warnings "-abstract-large-number".

(* ===================================================================== *)
(** ** JavaScript strings *)
(* ===================================================================== *)

Module Js.

(** [WhiteSpace] and [LineTerminator] code units below 256, as stripped by
    [String.prototype.trim]. *)
Definition isWhiteSpace (c : ascii) : bool :=
  let n := nat_of_ascii c in
  (n =? 9) || (n =? 10) || (n =? 11) || (n =? 12) || (n =? 13)
  || (n =? 32) || (n =? 160).

(** Lower-casing of one code unit below 256: A-Z and the accented capitals
    0xC0-0xDE (0xD7, the multiplication sign, has no case). *)
Definition toLowerChar (c : ascii) : ascii :=
  let n := nat_of_ascii c in
  if ((65 <=? n) && (n <=? 90))
     || ((192 <=? n) && (n <=? 222) && negb (n =? 215))
  then ascii_of_nat (n + 32) else c.

Fixpoint toLowerCase (s : string) : string :=
  match s with
  | EmptyString => EmptyString
  | String c s' => String (toLowerChar c) (toLowerCase s')
  end.

Fixpoint trimStart (s : string) : string :=
  match s with
  | EmptyString => EmptyString
  | String c s' => if isWhiteSpace c then trimStart s' else s
  end.

Fixpoint trimEnd (s : string) : string :=
  match s with
  | EmptyString => EmptyString
  | String c s' =>
      let t := trimEnd s' in
      if isWhiteSpace c && (t =? "")%string then EmptyString else String c t
  end.

Definition trim (s : string) : string := trimEnd (trimStart s).

(** [s.substring(0, n)] *)
Definition substring0 (n : nat) (s : string) : string := substring 0 n s.

(** Decimal rendering of a number inside a template literal. *)
Definition numberToString (n : nat) : string :=
  NilZero.string_of_uint (Nat.to_uint n).

(** Truthiness of a string: non-empty. *)
Definition truthy (s : string) : bool := negb (s =? "")%string.

End Js.

(* ===================================================================== *)
(** ** Errors and results *)
(* ===================================================================== *)

Inductive ErrorCode :=
  | UNAUTHORIZED | BAD_REQUEST | NOT_FOUND | FORBIDDEN | INTERNAL_SERVER_ERROR.

(** What a [throw] carries: a [TRPCError] with its code and message, or a
    plain [Error] raised by the underlying store. *)
Inductive JsError :=
  | TRPCError (code : ErrorCode) (message : string)
  | StoreError (message : string).

Definition errorMessage (e : JsError) : string :=
  match e with
  | TRPCError _ m => m
  | StoreError m => m
  end.

Inductive Res (A : Type) : Type :=
  | Ok (a : A)
  | Throw (e : JsError).
Arguments Ok {A} a.
Arguments Throw {A} e.

Definition bindRes {A B} (r : Res A) (k : A -> Res B) : Res B :=
  match r with
  | Ok a => k a
  | Throw e => Throw e
  end.

Definition isBadRequest {A} (r : Res A) : bool :=
  match r with
  | Throw (TRPCError BAD_REQUEST _) => true
  | _ => false
  end.

(* ===================================================================== *)
(** ** JSON values *)
(* ===================================================================== *)

(** The result of [JSON.parse].  The numeric payload is never inspected by
    the pipeline; only the tag of a number matters. *)
#[local] Unset Elimination Schemes.
Inductive json :=
  | JNull
  | JBool (b : bool)
  | JNum (n : Z)
  | JStr (s : string)
  | JArr (elems : list json)
  | JObj (fields : list (string * json)).
#[local] Set Elimination Schemes.

Fixpoint assoc {V} (k : string) (fs : list (string * V)) : option V :=
  match fs with
  | [] => None
  | (k', v) :: fs' => if (k =? k')%string then Some v else assoc k fs'
  end.

(** Property read [v.k]; [None] is [undefined].  Only own data properties
    of objects are ever named by the pipeline. *)
Definition prop (k : string) (v : json) : option json :=
  match v with
  | JObj fs => assoc k fs
  | _ => None
  end.

(** [v && typeof v === 'object'] *)
Definition isObjectLike (v : json) : bool :=
  match v with
  | JObj _ | JArr _ => true
  | _ => false
  end.

(** [v.k && typeof v.k === 'string'], returning the string. *)
Definition nonEmptyStringProp (k : string) (v : json) : option string :=
  match prop k v with
  | Some (JStr s) => if Js.truthy s then Some s else None
  | _ => None
  end.

(** [x ?? d] *)
Definition nullish (x : option json) (d : json) : json :=
  match x with
  | None | Some JNull => d
  | Some v => v
  end.

(** [Array.isArray(x) ? x : []] *)
Definition arrayOrEmpty (x : option json) : list json :=
  match x with
  | Some (JArr l) => l
  | _ => []
  end.

Definition isNull (v : json) : bool :=
  match v with JNull => true | _ => false end.

(** One property [k: x] of an object literal; a property whose value is
    [undefined] counts as absent. *)
Definition field (k : string) (x : option json) : list (string * json) :=
  match x with
  | Some v => [(k, v)]
  | None => []
  end.

(* ===================================================================== *)
(** ** Preprocessor *)
(* ===================================================================== *)

Definition preprocessItem (item : json) : json :=
  JObj (field "title" (prop "title" item)
        ++ [("completed", nullish (prop "completed" item) (JBool false))]).

Definition itemIsValid (item : json) : bool :=
  isObjectLike item &&
  match nonEmptyStringProp "title" item with Some _ => true | None => false end.

Definition checklistIsValid (cl : json) : bool :=
  isObjectLike cl &&
  match nonEmptyStringProp "name" cl with Some _ => true | None => false end.

Definition preprocessChecklist (checklist : json) : json :=
  let processedItems :=
    map preprocessItem (filter itemIsValid (arrayOrEmpty (prop "items" checklist))) in
  JObj (field "name" (prop "name" checklist)
        ++ [("items", JArr processedItems)]).

Definition preprocessCard (index : nat) (card : json) : Res json :=
  if negb (isObjectLike card) then
    Throw (TRPCError BAD_REQUEST
             ("Card at index " ++ Js.numberToString index ++ " is invalid"))
  else
    let processedChecklists :=
      map preprocessChecklist
          (filter checklistIsValid (arrayOrEmpty (prop "checklists" card))) in
    Ok (JObj [("title", nullish (prop "title" card) (JStr ""));
              ("description", nullish (prop "description" card) (JStr ""));
              ("labels", JArr (filter (fun l => negb (isNull l))
                                      (arrayOrEmpty (prop "labels" card))));
              ("checklists", JArr processedChecklists)]).

(** [xs.map((x, index) => f(index, x))] for a callback that may throw. *)
Fixpoint mapRes {A B} (f : nat -> A -> Res B) (index : nat) (xs : list A)
  : Res (list B) :=
  match xs with
  | [] => Ok []
  | x :: xs' =>
      bindRes (f index x) (fun y =>
      bindRes (mapRes f (S index) xs') (fun ys => Ok (y :: ys)))
  end.

Definition preprocessCards (cards : list json) : Res (list json) :=
  mapRes preprocessCard 0 cards.

Definition preprocessList (index : nat) (list : json) : Res json :=
  if negb (isObjectLike list) then
    Throw (TRPCError BAD_REQUEST
             ("List at index " ++ Js.numberToString index ++ " is invalid"))
  else
    match nonEmptyStringProp "listName" list with
    | None =>
        Throw (TRPCError BAD_REQUEST
                 ("List at index " ++ Js.numberToString index
                  ++ " has invalid or missing listName"))
    | Some listName =>
        bindRes (preprocessCards (arrayOrEmpty (prop "cards" list))) (fun cards =>
        Ok (JObj [("listName", JStr (Js.trim listName)); ("cards", JArr cards)]))
    end.

(** The whole preprocessing [try] block.  Every error it lets out is a
    [TRPCError]; the generic re-wrapping branch of its [catch] is never
    taken because no other exception can arise. *)
Definition preprocess (parsedData : json) : Res json :=
  match parsedData with
  | JArr lists =>
      bindRes (mapRes preprocessList 0 lists) (fun ls => Ok (JArr ls))
  | JObj fs =>
      match assoc "cards" fs with
      | Some (JArr cards) =>
          bindRes (preprocessCards cards) (fun cards' =>
          Ok (JObj (field "listName" (assoc "listName" fs)
                    ++ [("cards", JArr cards')])))
      | _ => Ok parsedData
      end
  | _ => Ok parsedData
  end.

(* ===================================================================== *)
(** ** Schema validator *)
(* ===================================================================== *)

Record ChecklistItemData := {
  itemTitle : string;
  itemCompleted : bool
}.

Record ChecklistData := {
  checklistName : string;
  checklistItemData : list ChecklistItemData
}.

Record CardData := {
  cardTitle : string;
  cardDescription : string;
  cardLabels : list string;
  cardChecklists : list ChecklistData
}.

Record ListData := {
  listName : string;
  listCards : list CardData
}.

Definition bindOpt {A B} (o : option A) (k : A -> option B) : option B :=
  match o with
  | Some a => k a
  | None => None
  end.

Fixpoint traverse {A B} (f : A -> option B) (xs : list A) : option (list B) :=
  match xs with
  | [] => Some []
  | x :: xs' =>
      bindOpt (f x) (fun y => bindOpt (traverse f xs') (fun ys => Some (y :: ys)))
  end.

(** [z.string().min(lo).max(hi)] *)
Definition zString (lo hi : nat) (v : json) : option string :=
  match v with
  | JStr s => if (lo <=? String.length s) && (String.length s <=? hi) then Some s else None
  | _ => None
  end.

(** [z.array(elem).min(lo).max(hi)] *)
Definition zArray {A} (elem : json -> option A) (lo hi : nat) (v : json)
  : option (list A) :=
  match v with
  | JArr l =>
      if (lo <=? List.length l) && (List.length l <=? hi) then traverse elem l else None
  | _ => None
  end.

(** [schema.optional().default(d)]: an absent key takes the default. *)
Definition zDefault {A} (schema : json -> option A) (d : A) (x : option json)
  : option A :=
  match x with
  | None => Some d
  | Some v => schema v
  end.

(** A required key. *)
Definition zRequired {A} (schema : json -> option A) (x : option json)
  : option A :=
  bindOpt x schema.

Definition zBoolean (v : json) : option bool :=
  match v with
  | JBool b => Some b
  | _ => None
  end.

(** [z.object] accepts plain objects only, not arrays. *)
Definition isPlainObject (v : json) : bool :=
  match v with
  | JObj _ => true
  | _ => false
  end.

Definition ChecklistItemSchema (v : json) : option ChecklistItemData :=
  if isPlainObject v then
    bindOpt (zRequired (zString 1 500) (prop "title" v)) (fun title =>
    bindOpt (zDefault zBoolean false (prop "completed" v)) (fun completed =>
    Some {| itemTitle := title; itemCompleted := completed |}))
  else None.

Definition ChecklistSchema (v : json) : option ChecklistData :=
  if isPlainObject v then
    bindOpt (zRequired (zString 1 255) (prop "name" v)) (fun name =>
    bindOpt (zRequired (zArray ChecklistItemSchema 0 50) (prop "items" v)) (fun items =>
    Some {| checklistName := name; checklistItemData := items |}))
  else None.

Definition CardSchema (v : json) : option CardData :=
  if isPlainObject v then
    bindOpt (zRequired (zString 1 255) (prop "title" v)) (fun title =>
    bindOpt (zDefault (zString 0 10000) "" (prop "description" v)) (fun description =>
    bindOpt (zDefault (zArray (zString 0 50) 0 20) [] (prop "labels" v)) (fun labels =>
    bindOpt (zDefault (zArray ChecklistSchema 0 10) [] (prop "checklists" v)) (fun checklists =>
    Some {| cardTitle := title; cardDescription := description;
            cardLabels := labels; cardChecklists := checklists |}))))
  else None.

Definition ListSchema (v : json) : option ListData :=
  if isPlainObject v then
    bindOpt (zRequired (zString 1 255) (prop "listName" v)) (fun name =>
    bindOpt (zRequired (zArray CardSchema 0 500) (prop "cards" v)) (fun cards =>
    Some {| listName := name; listCards := cards |}))
  else None.

(** [z.union([ListSchema, z.array(ListSchema).min(1).max(50)]).safeParse],
    followed by the normalisation to an array of lists. *)
Definition ImportJsonSchema (v : json) : option (ListData + list ListData) :=
  match ListSchema v with
  | Some l => Some (inl l)
  | None =>
      match zArray ListSchema 1 50 v with
      | Some ls => Some (inr ls)
      | None => None
      end
  end.

Definition listsToImportOf (importData : ListData + list ListData) : list ListData :=
  match importData with
  | inl l => [l]
  | inr ls => ls
  end.

(* ===================================================================== *)
(** ** The relational store *)
(* ===================================================================== *)

Inductive ImportStatus := Pending | Success | Failed.

Record BoardRow := {
  boardId : nat;
  boardPublicId : string;
  boardWorkspaceId : nat
}.

Record ImportRow := {
  importId : nat;
  importSource : string;
  importCreatedBy : string;
  importStatus : ImportStatus
}.

Record ListRow := {
  listId : nat;
  listRowName : string;
  listCreatedBy : string;
  listBoardId : nat;
  listIndex : nat;
  listImportId : option nat;
  listDeleted : bool
}.

Record LabelRow := {
  labelId : nat;
  labelName : string;
  labelColourCode : string;
  labelCreatedBy : string;
  labelBoardId : nat;
  labelImportId : option nat;
  labelDeleted : bool
}.

Record CardRow := {
  cardId : nat;
  cardPublicId : nat;
  cardRowTitle : string;
  cardRowDescription : string;
  cardCreatedBy : string;
  cardListId : nat;
  cardIndex : nat;
  cardImportId : option nat;
  cardDeleted : bool
}.

Record ActivityRow := {
  activityType : string;
  activityCardId : nat;
  activityCreatedBy : string
}.

Record CardLabelRow := {
  relCardId : nat;
  relLabelId : nat
}.

Record ChecklistRow := {
  checklistId : nat;
  checklistCardId : nat;
  checklistRowName : string;
  checklistCreatedBy : string;
  checklistIndex : nat;
  checklistDeleted : bool
}.

Record ChecklistItemRow := {
  itemId : nat;
  itemChecklistId : nat;
  itemRowTitle : string;
  itemRowCompleted : bool;
  itemCreatedBy : string;
  itemIndex : nat;
  itemDeleted : bool
}.

(** The database behind [ctx.db].  [uidSeed] feeds [generateUID];
    [storeCalls] counts the repository writes issued so far. *)
Record World := {
  boards : list BoardRow;
  workspaces : list nat;
  workspaceMembers : list (string * nat);
  imports : list ImportRow;
  lists : list ListRow;
  labels : list LabelRow;
  cards : list CardRow;
  cardActivities : list ActivityRow;
  cardsToLabels : list CardLabelRow;
  checklists : list ChecklistRow;
  checklistItems : list ChecklistItemRow;
  uidSeed : nat;
  storeCalls : nat
}.

Definition setImports (x : list ImportRow) (w : World) : World :=
  {| boards := boards w;
     workspaces := workspaces w;
     workspaceMembers := workspaceMembers w;
     imports := x;
     lists := lists w;
     labels := labels w;
     cards := cards w;
     cardActivities := cardActivities w;
     cardsToLabels := cardsToLabels w;
     checklists := checklists w;
     checklistItems := checklistItems w;
     uidSeed := uidSeed w;
     storeCalls := storeCalls w |}.

Definition setLists (x : list ListRow) (w : World) : World :=
  {| boards := boards w;
     workspaces := workspaces w;
     workspaceMembers := workspaceMembers w;
     imports := imports w;
     lists := x;
     labels := labels w;
     cards := cards w;
     cardActivities := cardActivities w;
     cardsToLabels := cardsToLabels w;
     checklists := checklists w;
     checklistItems := checklistItems w;
     uidSeed := uidSeed w;
     storeCalls := storeCalls w |}.

Definition setLabels (x : list LabelRow) (w : World) : World :=
  {| boards := boards w;
     workspaces := workspaces w;
     workspaceMembers := workspaceMembers w;
     imports := imports w;
     lists := lists w;
     labels := x;
     cards := cards w;
     cardActivities := cardActivities w;
     cardsToLabels := cardsToLabels w;
     checklists := checklists w;
     checklistItems := checklistItems w;
     uidSeed := uidSeed w;
     storeCalls := storeCalls w |}.

Definition setCards (x : list CardRow) (w : World) : World :=
  {| boards := boards w;
     workspaces := workspaces w;
     workspaceMembers := workspaceMembers w;
     imports := imports w;
     lists := lists w;
     labels := labels w;
     cards := x;
     cardActivities := cardActivities w;
     cardsToLabels := cardsToLabels w;
     checklists := checklists w;
     checklistItems := checklistItems w;
     uidSeed := uidSeed w;
     storeCalls := storeCalls w |}.

Definition setCardActivities (x : list ActivityRow) (w : World) : World :=
  {| boards := boards w;
     workspaces := workspaces w;
     workspaceMembers := workspaceMembers w;
     imports := imports w;
     lists := lists w;
     labels := labels w;
     cards := cards w;
     cardActivities := x;
     cardsToLabels := cardsToLabels w;
     checklists := checklists w;
     checklistItems := checklistItems w;
     uidSeed := uidSeed w;
     storeCalls := storeCalls w |}.

Definition setCardsToLabels (x : list CardLabelRow) (w : World) : World :=
  {| boards := boards w;
     workspaces := workspaces w;
     workspaceMembers := workspaceMembers w;
     imports := imports w;
     lists := lists w;
     labels := labels w;
     cards := cards w;
     cardActivities := cardActivities w;
     cardsToLabels := x;
     checklists := checklists w;
     checklistItems := checklistItems w;
     uidSeed := uidSeed w;
     storeCalls := storeCalls w |}.

Definition setChecklists (x : list ChecklistRow) (w : World) : World :=
  {| boards := boards w;
     workspaces := workspaces w;
     workspaceMembers := workspaceMembers w;
     imports := imports w;
     lists := lists w;
     labels := labels w;
     cards := cards w;
     cardActivities := cardActivities w;
     cardsToLabels := cardsToLabels w;
     checklists := x;
     checklistItems := checklistItems w;
     uidSeed := uidSeed w;
     storeCalls := storeCalls w |}.

Definition setChecklistItems (x : list ChecklistItemRow) (w : World) : World :=
  {| boards := boards w;
     workspaces := workspaces w;
     workspaceMembers := workspaceMembers w;
     imports := imports w;
     lists := lists w;
     labels := labels w;
     cards := cards w;
     cardActivities := cardActivities w;
     cardsToLabels := cardsToLabels w;
     checklists := checklists w;
     checklistItems := x;
     uidSeed := uidSeed w;
     storeCalls := storeCalls w |}.

Definition setUidSeed (x : nat) (w : World) : World :=
  {| boards := boards w;
     workspaces := workspaces w;
     workspaceMembers := workspaceMembers w;
     imports := imports w;
     lists := lists w;
     labels := labels w;
     cards := cards w;
     cardActivities := cardActivities w;
     cardsToLabels := cardsToLabels w;
     checklists := checklists w;
     checklistItems := checklistItems w;
     uidSeed := x;
     storeCalls := storeCalls w |}.

Definition setStoreCalls (x : nat) (w : World) : World :=
  {| boards := boards w;
     workspaces := workspaces w;
     workspaceMembers := workspaceMembers w;
     imports := imports w;
     lists := lists w;
     labels := labels w;
     cards := cards w;
     cardActivities := cardActivities w;
     cardsToLabels := cardsToLabels w;
     checklists := checklists w;
     checklistItems := checklistItems w;
     uidSeed := uidSeed w;
     storeCalls := x |}.

Definition emptyWorld : World :=
  {| boards := []; workspaces := []; workspaceMembers := [];
     imports := []; lists := []; labels := []; cards := [];
     cardActivities := []; cardsToLabels := []; checklists := [];
     checklistItems := []; uidSeed := 0; storeCalls := 0 |}.

(** The repository writes the import issues, and what the store may answer
    to each: it performs the write, it returns no result (nothing is
    written), or it raises. *)
Inductive Op :=
  | ImportCreate | ImportUpdate | LabelBulkCreate | ListCreate | CardBulkCreate
  | ActivityBulkCreate | CardLabelBulkCreate | ChecklistCreate | ChecklistItemCreate.

Inductive Outcome := Succeeds | NoResult | Raises.

(** The answer of the store to the [n]-th repository write, of kind [op]. *)
Definition Behaviour := Op -> nat -> Outcome.

(* ===================================================================== *)
(** ** State and exceptions *)
(* ===================================================================== *)

(** A computation over a mutable state [S] that returns or throws; the
    state reached is kept in both cases. *)
Definition M (S A : Type) : Type := S -> Res A * S.

Definition ret {S A} (a : A) : M S A := fun s => (Ok a, s).

Definition throw {S A} (e : JsError) : M S A := fun s => (Throw e, s).

Definition bind {S A B} (m : M S A) (k : A -> M S B) : M S B :=
  fun s =>
    match m s with
    | (Ok a, s') => k a s'
    | (Throw e, s') => (Throw e, s')
    end.

Declare Scope js_scope.
Delimit Scope js_scope with js.
Notation "x <- m ;; k" := (bind m (fun x => k))
  (at level 100, m at next level, right associativity) : js_scope.
Notation "m ;;; k" := (bind m (fun _ => k))
  (at level 100, right associativity) : js_scope.

Definition when {S} (b : bool) (m : M S unit) : M S unit :=
  if b then m else ret tt.

(** Identifier given to a new row: one that no row of the table carries. *)
Definition nextId (ids : list nat) : nat := S (list_max ids).

(** Position given to a new row: after every position in use. *)
Definition nextIndex (indexes : list nat) : nat :=
  match indexes with
  | [] => 0
  | _ => S (list_max indexes)
  end.

Definition repoCall {A} (db : Behaviour) (op : Op)
    (write : World -> A * World) (nothing : A) : M World A :=
  fun w =>
    let w1 := setStoreCalls (S (storeCalls w)) w in
    match db op (storeCalls w) with
    | Succeeds => let (a, w2) := write w1 in (Ok a, w2)
    | NoResult => (Ok nothing, w1)
    | Raises => (Throw (StoreError "store error"), w1)
    end.

(** Modelled from the spec: [generateUID] of [@kan/shared/utils], which
    yields "a unique public identifier per card"; identifiers are drawn
    from the seed of the store. *)
Definition generateUID : M World nat :=
  fun w => (Ok (uidSeed w), setUidSeed (S (uidSeed w)) w).

(* ===================================================================== *)
(** ** Repositories *)
(* ===================================================================== *)

Module workspaceRepo.

(** Modelled from the spec: [workspaceRepo.getById], the lookup of the
    workspace owning the board. *)
Definition getById (w : World) (workspaceId : nat) : option nat :=
  find (Nat.eqb workspaceId) (workspaces w).

End workspaceRepo.

(** Modelled from the spec: [assertUserInWorkspace] of [../utils/auth],
    which refuses a caller who "is not a member of the owning workspace". *)
Definition assertUserInWorkspace (userId : string) (workspaceId : nat)
  : M World unit :=
  fun w =>
    if existsb (fun m => (fst m =? userId)%string && (snd m =? workspaceId))
               (workspaceMembers w)
    then (Ok tt, w)
    else (Throw (TRPCError FORBIDDEN "You do not have access to this workspace"), w).

Module importRepo.

(** Modelled from the spec: [importRepo.create], which opens the
    ImportBatch record of the call, in status pending. *)
Definition create (db : Behaviour) (source createdBy : string)
  : M World (option ImportRow) :=
  repoCall db ImportCreate
    (fun w =>
       let row := {| importId := nextId (map importId (imports w));
                     importSource := source;
                     importCreatedBy := createdBy;
                     importStatus := Pending |} in
       (Some row, setImports (imports w ++ [row]) w))
    None.

Definition setStatus (status : ImportStatus) (id : nat) (row : ImportRow)
  : ImportRow :=
  if importId row =? id
  then {| importId := importId row; importSource := importSource row;
          importCreatedBy := importCreatedBy row; importStatus := status |}
  else row.

(** Modelled from the spec: [importRepo.update], which moves the
    ImportBatch to its terminal status. *)
Definition update (db : Behaviour) (status : ImportStatus) (id : nat)
  : M World unit :=
  repoCall db ImportUpdate
    (fun w => (tt, setImports (map (setStatus status id) (imports w)) w))
    tt.

End importRepo.

Record LabelInput := {
  labelInputName : string;
  labelInputColourCode : string;
  labelInputCreatedBy : string;
  labelInputBoardId : nat;
  labelInputImportId : nat
}.

Module labelRepo.

Definition row (id : nat) (input : LabelInput) : LabelRow :=
  {| labelId := id;
     labelName := labelInputName input;
     labelColourCode := labelInputColourCode input;
     labelCreatedBy := labelInputCreatedBy input;
     labelBoardId := labelInputBoardId input;
     labelImportId := Some (labelInputImportId input);
     labelDeleted := false |}.

Definition insert (w : World) (input : LabelInput) : World :=
  setLabels (labels w ++ [row (nextId (map labelId (labels w))) input]) w.

(** Modelled from the spec: [labelRepo.bulkCreate], one batch insert that
    returns the identifiers of the new labels in input order. *)
Definition bulkCreate (db : Behaviour) (inputs : list LabelInput)
  : M World (list nat) :=
  repoCall db LabelBulkCreate
    (fun w =>
       let w' := fold_left insert inputs w in
       (map labelId (skipn (List.length (labels w)) (labels w')), w'))
    [].

End labelRepo.

Module listRepo.

(** The row of a list appended to the board. *)
Definition newList (w : World) (name createdBy : string) (board importId : nat)
  : ListRow :=
  let onBoard :=
    filter (fun l => (listBoardId l =? board) && negb (listDeleted l)) (lists w) in
  {| listId := nextId (map listId (lists w));
     listRowName := name;
     listCreatedBy := createdBy;
     listBoardId := board;
     listIndex := nextIndex (map listIndex onBoard);
     listImportId := Some importId;
     listDeleted := false |}.

(** Modelled from the spec: [listRepo.create], which appends a list to the
    board, after the lists the board already shows. *)
Definition create (db : Behaviour) (name createdBy : string)
    (board importId : nat) : M World (option ListRow) :=
  repoCall db ListCreate
    (fun w =>
       let row := newList w name createdBy board importId in
       (Some row, setLists (lists w ++ [row]) w))
    None.

End listRepo.

Record CardInput := {
  cardInputPublicId : nat;
  cardInputTitle : string;
  cardInputDescription : string;
  cardInputCreatedBy : string;
  cardInputListId : nat;
  cardInputIndex : nat;
  cardInputImportId : nat
}.

Module cardRepo.

Definition row (id : nat) (input : CardInput) : CardRow :=
  {| cardId := id;
     cardPublicId := cardInputPublicId input;
     cardRowTitle := cardInputTitle input;
     cardRowDescription := cardInputDescription input;
     cardCreatedBy := cardInputCreatedBy input;
     cardListId := cardInputListId input;
     cardIndex := cardInputIndex input;
     cardImportId := Some (cardInputImportId input);
     cardDeleted := false |}.

Definition insert (w : World) (input : CardInput) : World :=
  setCards (cards w ++ [row (nextId (map cardId (cards w))) input]) w.

(** Modelled from the spec: [cardRepo.bulkCreate], one batch insert that
    returns the created cards in input order. *)
Definition bulkCreate (db : Behaviour) (inputs : list CardInput)
  : M World (list CardRow) :=
  repoCall db CardBulkCreate
    (fun w =>
       let w' := fold_left insert inputs w in
       (skipn (List.length (cards w)) (cards w'), w'))
    [].

(** Modelled from the spec: [cardRepo.bulkCreateCardLabelRelationship],
    one batch insert of card-label associations. *)
Definition bulkCreateCardLabelRelationship (db : Behaviour)
    (relations : list CardLabelRow) : M World unit :=
  repoCall db CardLabelBulkCreate
    (fun w => (tt, setCardsToLabels (cardsToLabels w ++ relations) w))
    tt.

End cardRepo.

Module cardActivityRepo.

(** Modelled from the spec: [cardActivityRepo.bulkCreate], the append of
    one activity record per created card. *)
Definition bulkCreate (db : Behaviour) (activities : list ActivityRow)
  : M World unit :=
  repoCall db ActivityBulkCreate
    (fun w => (tt, setCardActivities (cardActivities w ++ activities) w))
    tt.

End cardActivityRepo.

Module checklistRepo.

(** The row of a checklist appended to a card. *)
Definition newChecklist (w : World) (name : string) (card : nat)
    (createdBy : string) : ChecklistRow :=
  let ofCard :=
    filter (fun c => (checklistCardId c =? card) && negb (checklistDeleted c))
           (checklists w) in
  {| checklistId := nextId (map checklistId (checklists w));
     checklistCardId := card;
     checklistRowName := name;
     checklistCreatedBy := createdBy;
     checklistIndex := nextIndex (map checklistIndex ofCard);
     checklistDeleted := false |}.

(** Modelled from the spec: [checklistRepo.create], which appends a
    checklist to the card, after the checklists the card already has. *)
Definition create (db : Behaviour) (name : string) (card : nat)
    (createdBy : string) : M World (option ChecklistRow) :=
  repoCall db ChecklistCreate
    (fun w =>
       let row := newChecklist w name card createdBy in
       (Some row, setChecklists (checklists w ++ [row]) w))
    None.

(** The row of an item appended to a checklist. *)
Definition newItem (w : World) (title : string) (checklist : nat)
    (createdBy : string) : ChecklistItemRow :=
  let ofChecklist :=
    filter (fun i => (itemChecklistId i =? checklist) && negb (itemDeleted i))
           (checklistItems w) in
  {| itemId := nextId (map itemId (checklistItems w));
     itemChecklistId := checklist;
     itemRowTitle := title;
     itemRowCompleted := false;
     itemCreatedBy := createdBy;
     itemIndex := nextIndex (map itemIndex ofChecklist);
     itemDeleted := false |}.

(** Modelled from the spec: [checklistRepo.createItem], which appends an
    item to the checklist; it is given a title only, so the item starts
    not completed. *)
Definition createItem (db : Behaviour) (title : string) (checklist : nat)
    (createdBy : string) : M World (option ChecklistItemRow) :=
  repoCall db ChecklistItemCreate
    (fun w =>
       let row := newItem w title checklist createdBy in
       (Some row, setChecklistItems (checklistItems w ++ [row]) w))
    None.

End checklistRepo.

(* ===================================================================== *)
(** ** Warnings *)
(* ===================================================================== *)

(** The warnings the import can push, by message template; [renderWarning]
    gives the text of each. *)
Inductive ImportWarning :=
  | TitleTruncated (list : string) (cardNumber : nat) (title : string)
  | DescriptionTruncated (list : string) (cardNumber : nat) (title : string)
      (oldLength : nat)
  | DuplicateLabelsRemoved (list : string) (title : string)
  | ChecklistNameTruncated (list : string) (title : string)
      (checklistNumber oldLength : nat)
  | ItemTitleTruncated (list : string) (title : string)
      (checklistNumber itemNumber oldLength : nat).

Definition dq : string := String (ascii_of_nat 34) EmptyString.

Definition quoted (s : string) : string := dq ++ s ++ dq.

Definition renderWarning (x : ImportWarning) : string :=
  match x with
  | TitleTruncated l n t =>
      "List " ++ quoted l ++ ", Card " ++ Js.numberToString n ++ " "
      ++ quoted (Js.substring0 50 t ++ "...")
      ++ ": Title truncated from " ++ Js.numberToString (String.length t)
      ++ " to 255 characters"
  | DescriptionTruncated l n t old =>
      "List " ++ quoted l ++ ", Card " ++ Js.numberToString n ++ " "
      ++ quoted t ++ ": Description truncated from " ++ Js.numberToString old
      ++ " to 10,000 characters"
  | DuplicateLabelsRemoved l t =>
      "List " ++ quoted l ++ ", Card " ++ quoted t ++ ": Duplicate labels removed"
  | ChecklistNameTruncated l t j old =>
      "List " ++ quoted l ++ ", Card " ++ quoted t ++ ", Checklist "
      ++ Js.numberToString j ++ ": Name truncated from "
      ++ Js.numberToString old ++ " to 255 characters"
  | ItemTitleTruncated l t j k old =>
      "List " ++ quoted l ++ ", Card " ++ quoted t ++ ", Checklist "
      ++ Js.numberToString j ++ ", Item " ++ Js.numberToString k
      ++ ": Title truncated from " ++ Js.numberToString old
      ++ " to 500 characters"
  end.

Definition isTruncationWarning (x : ImportWarning) : bool :=
  match x with
  | DuplicateLabelsRemoved _ _ => false
  | _ => true
  end.

(* ===================================================================== *)
(** ** JavaScript collections *)
(* ===================================================================== *)

(** [Set<string>]: members in insertion order. *)
Definition setHas (x : string) (s : list string) : bool :=
  existsb (String.eqb x) s.

Definition setAdd (x : string) (s : list string) : list string :=
  if setHas x s then s else s ++ [x].

Definition newSet (xs : list string) : list string :=
  fold_left (fun s x => setAdd x s) xs [].

(** [Map<K, V>]: the latest binding of a key comes first. *)
Definition mapSet {K V} (k : K) (v : V) (m : list (K * V)) : list (K * V) :=
  (k, v) :: m.

Fixpoint mapGetNat {V} (k : nat) (m : list (nat * V)) : option V :=
  match m with
  | [] => None
  | (k', v) :: m' => if k =? k' then Some v else mapGetNat k m'
  end.

Definition mapGet {V} (k : string) (m : list (string * V)) : option V :=
  assoc k m.

Definition mapHas {V} (k : string) (m : list (string * V)) : bool :=
  match mapGet k m with
  | Some _ => true
  | None => false
  end.

Fixpoint mapi {A B} (f : nat -> A -> B) (index : nat) (xs : list A) : list B :=
  match xs with
  | [] => []
  | x :: xs' => f index x :: mapi f (S index) xs'
  end.

(** [xs.map((x, index) => ...)] for a callback acting on the state. *)
Fixpoint mapM {St A B} (f : nat -> A -> M St B) (index : nat) (xs : list A)
  : M St (list B) :=
  match xs with
  | [] => ret []
  | x :: xs' =>
      (y <- f index x ;;
       ys <- mapM f (S index) xs' ;;
       ret (y :: ys))%js
  end.

(** [for (const x of xs) { ... }] with the position of [x]. *)
Fixpoint forEachM {St A} (f : nat -> A -> M St unit) (index : nat) (xs : list A)
  : M St unit :=
  match xs with
  | [] => ret tt
  | x :: xs' => (f index x ;;; forEachM f (S index) xs')%js
  end.

(* ===================================================================== *)
(** ** Import *)
(* ===================================================================== *)

Record Ctx := { user : option string }.

Record Input := { inputBoardPublicId : string; data : string }.

Record Output := {
  cardsCreated : nat;
  listsProcessed : nat;
  warningsReturned : list ImportWarning
}.

(** What the [try] block of the import mutates. *)
Record ImportState := {
  world : World;
  existingLists : list (nat * string);
  warnings : list ImportWarning;
  allCreatedCards : list CardRow
}.

Definition setWorld (w : World) (st : ImportState) : ImportState :=
  {| world := w; existingLists := existingLists st;
     warnings := warnings st; allCreatedCards := allCreatedCards st |}.

Definition liftDb {A} (m : M World A) : M ImportState A :=
  fun st => let (r, w) := m (world st) in (r, setWorld w st).

Definition pushWarnings (xs : list ImportWarning) : M ImportState unit :=
  fun st =>
    (Ok tt, {| world := world st; existingLists := existingLists st;
               warnings := warnings st ++ xs;
               allCreatedCards := allCreatedCards st |}).

Definition pushExistingList (l : nat * string) : M ImportState unit :=
  fun st =>
    (Ok tt, {| world := world st; existingLists := existingLists st ++ [l];
               warnings := warnings st;
               allCreatedCards := allCreatedCards st |}).

Definition pushCreatedCards (cs : list CardRow) : M ImportState unit :=
  fun st =>
    (Ok tt, {| world := world st; existingLists := existingLists st;
               warnings := warnings st;
               allCreatedCards := allCreatedCards st ++ cs |}).

Definition getExistingLists : M ImportState (list (nat * string)) :=
  fun st => (Ok (existingLists st), st).

Section ImportSteps.

(** [JSON.parse]: [None] when it throws. *)
Variable JSON_parse : string -> option json.

(** The store behind [ctx.db]. *)
Variable db : Behaviour.

(** The colour codes of the palette [colours] of [@kan/shared/constants]. *)
Variable colours : list string.

Variable userId : string.
Variable board : nat.
Variable newImportId : nat.

(** [for (const listData of listsToImport) for (const card of listData.cards)
    for (const labelName of card.labels) ...] filling [allLabelNames]. *)
Definition allLabelNamesOf (listsToImport : list ListData) : list string :=
  fold_left (fun acc listData =>
    fold_left (fun acc card =>
      fold_left (fun acc labelName =>
        if negb (Js.trim labelName =? "")%string
        then setAdd (Js.trim labelName) acc
        else acc)
        (cardLabels card) acc)
      (listCards listData) acc)
    listsToImport [].

(** [existingLabels.forEach(label => labelMap.set(label.name.toLowerCase(), label.id))] *)
Definition labelMapOfExisting (existingLabels : list (nat * string))
  : list (string * nat) :=
  fold_left (fun m label => mapSet (Js.toLowerCase (snd label)) (fst label) m)
            existingLabels [].

Definition labelsToCreateOf (labelMap : list (string * nat))
    (allLabelNames : list string) : list string :=
  filter (fun labelName => negb (mapHas (Js.toLowerCase labelName) labelMap))
         allLabelNames.

Definition colourFor (n : nat) : string :=
  match nth_error colours (n mod List.length colours) with
  | Some code => code
  | None => "#0d9488"
  end.

Definition newLabelInputs (existingCount : nat) (labelsToCreate : list string)
  : list LabelInput :=
  mapi (fun index name =>
          {| labelInputName := name;
             labelInputColourCode := colourFor (existingCount + index);
             labelInputCreatedBy := userId;
             labelInputBoardId := board;
             labelInputImportId := newImportId |})
       0 labelsToCreate.

(** [labelsToCreate.forEach((name, i) => { const created = newLabels[i];
    if (created) labelMap.set(name.toLowerCase(), created.id) })] *)
Definition recordNewLabels (labelsToCreate : list string) (newLabels : list nat)
    (labelMap : list (string * nat)) : list (string * nat) :=
  fold_left (fun m p => mapSet (Js.toLowerCase (fst p)) (snd p) m)
            (combine labelsToCreate newLabels) labelMap.

(** The label pass: the map from lower-cased name to label id. *)
Definition resolveLabels (existingLabels : list (nat * string))
    (listsToImport : list ListData) : M World (list (string * nat)) :=
  let allLabelNames := allLabelNamesOf listsToImport in
  let labelMap := labelMapOfExisting existingLabels in
  let labelsToCreate := labelsToCreateOf labelMap allLabelNames in
  if 0 <? List.length labelsToCreate then
    (newLabels <- labelRepo.bulkCreate db
                    (newLabelInputs (List.length existingLabels) labelsToCreate) ;;
     ret (recordNewLabels labelsToCreate newLabels labelMap))%js
  else ret labelMap.

Variable labelMap : list (string * nat).

(** The test of [existingLists.find]: [list.name && typeof list.name ===
    'string' && list.name.toLowerCase() === listData.listName.toLowerCase()]. *)
Definition listMatches (listData : ListData) (list : nat * string) : bool :=
  Js.truthy (snd list) &&
  (Js.toLowerCase (snd list) =? Js.toLowerCase (listName listData))%string.

(** [existingLists.find(...)], then [listRepo.create] when nothing matches. *)
Definition findOrCreateList (listData : ListData) : M ImportState (nat * string) :=
  (existingLists <- getExistingLists ;;
   match find (listMatches listData) existingLists with
   | Some targetList => ret targetList
   | None =>
       newList <- liftDb (listRepo.create db (listName listData) userId board newImportId) ;;
       match newList with
       | Some row =>
           if listId row =? 0 then
             throw (TRPCError INTERNAL_SERVER_ERROR
                      ("Failed to create list " ++ quoted (listName listData)))
           else
             let targetList := (listId row, listRowName row) in
             pushExistingList targetList ;;; ret targetList
       | None =>
           throw (TRPCError INTERNAL_SERVER_ERROR
                    ("Failed to create list " ++ quoted (listName listData)))
       end
   end)%js.

(** One callback of [listData.cards.map((card, index) => ...)]: the card
    with the row to insert for it. *)
Definition prepareCard (targetListId : nat) (index : nat) (card : CardData)
  : M World (CardData * CardInput) :=
  (publicId <- generateUID ;;
   ret (card,
        {| cardInputPublicId := publicId;
           cardInputTitle := Js.substring0 255 (cardTitle card);
           cardInputDescription := Js.substring0 10000 (cardDescription card);
           cardInputCreatedBy := userId;
           cardInputListId := targetListId;
           cardInputIndex := index;
           cardInputImportId := newImportId |}))%js.

Definition truncationWarningsOfCard (lname : string) (index : nat) (card : CardData)
  : list ImportWarning :=
  (if 255 <? String.length (cardTitle card)
   then [TitleTruncated lname (index + 1) (cardTitle card)] else [])
  ++
  (if Js.truthy (cardDescription card)
      && (10000 <? String.length (cardDescription card))
   then [DescriptionTruncated lname (index + 1) (cardTitle card)
           (String.length (cardDescription card))]
   else []).

Definition truncationWarnings (listData : ListData) : list ImportWarning :=
  List.concat (mapi (truncationWarningsOfCard (listName listData)) 0 (listCards listData)).

(** [new Set(cardData.labels.filter(l => l.trim() !== "").map(l => l.toLowerCase()))] *)
Definition uniqueLabelsOf (labels : list string) : list string :=
  newSet (map Js.toLowerCase
              (filter (fun l => negb (Js.trim l =? "")%string) labels)).

Definition relationsOfCard (createdCard : CardRow) (cardData : CardData)
  : list CardLabelRow :=
  flat_map (fun labelName =>
              match mapGet (Js.toLowerCase labelName) labelMap with
              | Some labelId =>
                  if labelId =? 0 then []
                  else [{| relCardId := cardId createdCard; relLabelId := labelId |}]
              | None => []
              end)
           (uniqueLabelsOf (cardLabels cardData)).

Definition duplicateWarningOfCard (lname : string) (cardData : CardData)
  : list ImportWarning :=
  if List.length (uniqueLabelsOf (cardLabels cardData))
       <? List.length (cardLabels cardData)
  then [DuplicateLabelsRemoved lname (cardTitle cardData)]
  else [].

(** The body of [createdCards.forEach] for one created card: the relations
    it pushes and the warning it pushes. *)
Definition labelStepOfCard (lname : string)
    (publicIdToCardData : list (nat * CardData)) (createdCard : CardRow)
  : list CardLabelRow * list ImportWarning :=
  match mapGetNat (cardPublicId createdCard) publicIdToCardData with
  | Some cardData =>
      if List.length (cardLabels cardData) =? 0 then ([], [])
      else (relationsOfCard createdCard cardData,
            duplicateWarningOfCard lname cardData)
  | None => ([], [])
  end.

Definition createItem (lname title : string) (j checklist : nat)
    (k : nat) (itemData : ChecklistItemData) : M ImportState unit :=
  (liftDb (checklistRepo.createItem db (Js.substring0 500 (itemTitle itemData))
             checklist userId) ;;;
   when (500 <? String.length (itemTitle itemData))
        (pushWarnings [ItemTitleTruncated lname title (j + 1) (k + 1)
                         (String.length (itemTitle itemData))]))%js.

Definition createChecklist (lname : string) (createdCard : CardRow)
    (cardData : CardData) (j : nat) (checklistData : ChecklistData)
  : M ImportState unit :=
  (checklist <- liftDb (checklistRepo.create db
                          (Js.substring0 255 (checklistName checklistData))
                          (cardId createdCard) userId) ;;
   match checklist with
   | Some row =>
       if checklistId row =? 0 then ret tt
       else
         when (255 <? String.length (checklistName checklistData))
              (pushWarnings [ChecklistNameTruncated lname (cardTitle cardData) (j + 1)
                               (String.length (checklistName checklistData))]) ;;;
         forEachM (createItem lname (cardTitle cardData) j (checklistId row))
                  0 (checklistItemData checklistData)
   | None => ret tt
   end)%js.

Definition createChecklistsOfCard (lname : string)
    (publicIdToCardData : list (nat * CardData)) (createdCard : CardRow)
  : M ImportState unit :=
  match mapGetNat (cardPublicId createdCard) publicIdToCardData with
  | Some cardData =>
      forEachM (createChecklist lname createdCard cardData) 0 (cardChecklists cardData)
  | None => ret tt
  end.

(** The part of the loop body that follows the bulk insert of the cards:
    activities, label associations, then checklists and their items. *)
Definition writeCardDetails (listData : ListData)
    (publicIdToCardData : list (nat * CardData)) (createdCards : list CardRow)
  : M ImportState unit :=
  (pushCreatedCards createdCards ;;;
   liftDb (cardActivityRepo.bulkCreate db
             (map (fun card => {| activityType := "card.created";
                                  activityCardId := cardId card;
                                  activityCreatedBy := userId |})
                  createdCards)) ;;;
   let steps := map (labelStepOfCard (listName listData) publicIdToCardData)
                    createdCards in
   let cardLabelRelations := flat_map fst steps in
   pushWarnings (flat_map snd steps) ;;;
   when (0 <? List.length cardLabelRelations)
        (liftDb (cardRepo.bulkCreateCardLabelRelationship db cardLabelRelations)) ;;;
   forEachM (fun _ => createChecklistsOfCard (listName listData) publicIdToCardData)
            0 createdCards)%js.

(** The part of the loop body that follows the resolution of the target
    list: the cards are prepared and inserted in one batch. *)
Definition writeCards (listData : ListData) (targetList : nat * string)
  : M ImportState unit :=
  (prepared <- liftDb (mapM (prepareCard (fst targetList)) 0 (listCards listData)) ;;
   let publicIdToCardData :=
     fold_left (fun m p => mapSet (cardInputPublicId (snd p)) (fst p) m) prepared [] in
   let cardsToInsert := map snd prepared in
   pushWarnings (truncationWarnings listData) ;;;
   createdCards <- liftDb (cardRepo.bulkCreate db cardsToInsert) ;;
   if List.length createdCards =? 0 then
     throw (TRPCError INTERNAL_SERVER_ERROR
              ("Failed to create cards for list " ++ quoted (listName listData)))
   else writeCardDetails listData publicIdToCardData createdCards)%js.

(** The body of [for (const listData of listsToImport)]. *)
Definition processList (listData : ListData) : M ImportState unit :=
  if negb (Js.truthy (Js.trim (listName listData))) then
    throw (TRPCError BAD_REQUEST
             "Invalid list data: listName is required and must be a non-empty string")
  else if List.length (listCards listData) =? 0 then ret tt
  else
    (targetList <- findOrCreateList listData ;;
     writeCards listData targetList)%js.

Definition processLists (listsToImport : list ListData) : M ImportState unit :=
  forEachM (fun _ => processList) 0 listsToImport.

End ImportSteps.

Definition tryCatch {St A} (m : M St A) (handler : JsError -> M St A) : M St A :=
  fun s =>
    match m s with
    | (Ok a, s') => (Ok a, s')
    | (Throw e, s') => handler e s'
    end.

(** [ctx.db.query.boards.findFirst] by public id. *)
Definition findBoard (w : World) (publicId : string) : option BoardRow :=
  find (fun b => (boardPublicId b =? publicId)%string) (boards w).

(** [ctx.db.query.lists.findMany]: the non-deleted lists of the board. *)
Definition listsOfBoard (w : World) (board : nat) : list ListRow :=
  filter (fun l => (listBoardId l =? board) && negb (listDeleted l)) (lists w).

(** [ctx.db.query.labels.findMany]: the non-deleted labels of the board. *)
Definition labelsOfBoard (w : World) (board : nat) : list LabelRow :=
  filter (fun l => (labelBoardId l =? board) && negb (labelDeleted l)) (labels w).

(** The columns [id] and [name] of the lists and labels found on the board. *)
Definition existingListsOf (w : World) (board : nat) : list (nat * string) :=
  map (fun l => (listId l, listRowName l)) (listsOfBoard w board).

Definition existingLabelsOf (w : World) (board : nat) : list (nat * string) :=
  map (fun l => (labelId l, labelName l)) (labelsOfBoard w board).

Section Procedures.

Variable JSON_parse : string -> option json.
Variable db : Behaviour.
Variable colours : list string.

(** Parsing, preprocessing and validation: everything the import does with
    the payload before it touches the store.  Of the message of a schema
    failure the heading is kept; the source lets Zod's list of issues
    follow it, one line per issue. *)
Definition validatePayload (data : string) : Res (list ListData) :=
  match JSON_parse data with
  | None => Throw (TRPCError BAD_REQUEST "Invalid JSON format")
  | Some parsedData =>
      bindRes (preprocess parsedData) (fun parsedData' =>
      match ImportJsonSchema parsedData' with
      | None => Throw (TRPCError BAD_REQUEST "Invalid data structure")
      | Some importData => Ok (listsToImportOf importData)
      end)
  end.

(** The [try] block. *)
Definition importTry (userId : string) (board newImportId : nat)
    (listsToImport : list ListData) : M World Output :=
  fun w =>
    let existingLists := existingListsOf w board in
    let existingLabels := existingLabelsOf w board in
    match resolveLabels db colours userId board newImportId
            existingLabels listsToImport w with
    | (Throw e, w1) => (Throw e, w1)
    | (Ok labelMap, w1) =>
        match processLists db userId board newImportId labelMap listsToImport
                {| world := w1; existingLists := existingLists;
                   warnings := []; allCreatedCards := [] |} with
        | (Throw e, st) => (Throw e, world st)
        | (Ok _, st) =>
            match importRepo.update db Success newImportId (world st) with
            | (Throw e, w2) => (Throw e, w2)
            | (Ok _, w2) =>
                (Ok {| cardsCreated := List.length (allCreatedCards st);
                       listsProcessed := List.length listsToImport;
                       warningsReturned := warnings st |}, w2)
            end
        end
    end.

(** The [catch] block. *)
Definition importCatch (newImportId : nat) (error : JsError) : M World Output :=
  (importRepo.update db Failed newImportId ;;;
   throw (TRPCError INTERNAL_SERVER_ERROR
            ("Import failed: " ++ errorMessage error)))%js.

(** The import once access is granted: the ledger record is created, then
    the [try] block runs under its [catch]. *)
Definition importWithLedger (userId : string) (board : nat)
    (listsToImport : list ListData) : M World Output :=
  (newImport <- importRepo.create db "json" userId ;;
   match newImport with
   | Some row =>
       if importId row =? 0 then
         throw (TRPCError INTERNAL_SERVER_ERROR "Failed to create import record")
       else
         tryCatch (importTry userId board (importId row) listsToImport)
                  (importCatch (importId row))
   | None =>
       throw (TRPCError INTERNAL_SERVER_ERROR "Failed to create import record")
   end)%js.

Definition importCards (ctx : Ctx) (input : Input) : M World Output :=
  match user ctx with
  | None => throw (TRPCError UNAUTHORIZED "User not authenticated")
  | Some userId =>
      if negb (Js.truthy userId) then
        throw (TRPCError UNAUTHORIZED "User not authenticated")
      else
        match validatePayload (data input) with
        | Throw e => throw e
        | Ok listsToImport =>
            fun w =>
              match findBoard w (inputBoardPublicId input) with
              | None => (Throw (TRPCError NOT_FOUND "Board not found"), w)
              | Some board =>
                  match workspaceRepo.getById w (boardWorkspaceId board) with
                  | None => (Throw (TRPCError NOT_FOUND "Workspace not found"), w)
                  | Some workspace =>
                      (assertUserInWorkspace userId workspace ;;;
                       importWithLedger userId (boardId board) listsToImport)%js w
                  end
              end
        end
  end.

End Procedures.

(* ===================================================================== *)
(** ** Export *)
(* ===================================================================== *)

Fixpoint insertBy {A} (key : A -> nat) (x : A) (l : list A) : list A :=
  match l with
  | [] => [x]
  | y :: l' => if key x <=? key y then x :: l else y :: insertBy key x l'
  end.

(** [orderBy: asc(key)]; rows with equal keys keep their insertion order. *)
Fixpoint orderBy {A} (key : A -> nat) (l : list A) : list A :=
  match l with
  | [] => []
  | x :: l' => insertBy key x (orderBy key l')
  end.

Definition inArray (x : nat) (xs : list nat) : bool := existsb (Nat.eqb x) xs.

(** [cl.label.name] of an association; the foreign key on [labelId]
    guarantees the label row. *)
Definition labelNameOf (w : World) (rel : CardLabelRow) : string :=
  match find (fun l => labelId l =? relLabelId rel) (labels w) with
  | Some l => labelName l
  | None => ""
  end.

(** [exportData] of [exportCards], for the board found; the procedure
    returns its [JSON.stringify]. *)
Definition exportData (w : World) (board : nat) : list ListData :=
  let lists := orderBy listIndex (listsOfBoard w board) in
  let allCards :=
    orderBy cardIndex
      (filter (fun c => inArray (cardListId c) (map listId lists)
                        && negb (cardDeleted c)) (cards w)) in
  let cardIds := map cardId allCards in
  let cardLabels :=
    if 0 <? List.length cardIds
    then filter (fun cl => inArray (relCardId cl) cardIds) (cardsToLabels w)
    else [] in
  let checklists :=
    if 0 <? List.length cardIds
    then orderBy checklistIndex
           (filter (fun cl => inArray (checklistCardId cl) cardIds
                              && negb (checklistDeleted cl)) (checklists w))
    else [] in
  let checklistIds := map checklistId checklists in
  let checklistItems :=
    if 0 <? List.length checklistIds
    then orderBy itemIndex
           (filter (fun item => inArray (itemChecklistId item) checklistIds
                                && negb (itemDeleted item)) (checklistItems w))
    else [] in
  map (fun list =>
         let listCards := filter (fun c => cardListId c =? listId list) allCards in
         {| listName := listRowName list;
            listCards :=
              map (fun card =>
                     {| cardTitle := cardRowTitle card;
                        cardDescription := cardRowDescription card;
                        cardLabels :=
                          map (labelNameOf w)
                              (filter (fun cl => relCardId cl =? cardId card) cardLabels);
                        cardChecklists :=
                          map (fun checklist =>
                                 {| checklistName := checklistRowName checklist;
                                    checklistItemData :=
                                      map (fun item =>
                                             {| itemTitle := itemRowTitle item;
                                                itemCompleted := itemRowCompleted item |})
                                          (filter (fun item =>
                                                     itemChecklistId item =? checklistId checklist)
                                                  checklistItems) |})
                              (filter (fun cl => checklistCardId cl =? cardId card)
                                      checklists) |})
                  listCards |})
      lists.

Definition exportCards (ctx : Ctx) (publicId : string) : M World (list ListData) :=
  match user ctx with
  | None => throw (TRPCError UNAUTHORIZED "User not authenticated")
  | Some userId =>
      if negb (Js.truthy userId) then
        throw (TRPCError UNAUTHORIZED "User not authenticated")
      else
        fun w =>
          match findBoard w publicId with
          | None => (Throw (TRPCError NOT_FOUND "Board not found"), w)
          | Some board =>
              match workspaceRepo.getById w (boardWorkspaceId board) with
              | None => (Throw (TRPCError NOT_FOUND "Workspace not found"), w)
              | Some workspace =>
                  (assertUserInWorkspace userId workspace ;;;
                   ret (exportData w (boardId board)))%js w
              end
          end
  end.

(* ===================================================================== *)
(** ** Payload shapes *)
(* ===================================================================== *)

(** The entries of the [cards] arrays of a parsed payload. *)
Definition rawCards (j : json) : list json :=
  match j with
  | JArr ls => flat_map (fun l => arrayOrEmpty (prop "cards" l)) ls
  | JObj _ => arrayOrEmpty (prop "cards" j)
  | _ => []
  end.

Definition missingListName (l : json) : bool :=
  match prop "listName" l with
  | Some (JStr _) => false
  | _ => true
  end.

(** A structurally unusable payload: some card is not an object, or some
    entry of an array payload has no string [listName]. *)
Definition unusable (j : json) : bool :=
  existsb (fun c => negb (isObjectLike c)) (rawCards j)
  || match j with
     | JArr ls => existsb missingListName ls
     | _ => false
     end.

Definition longerThan (n : nat) (x : option json) : bool :=
  match x with
  | Some (JStr s) => n <? String.length s
  | _ => false
  end.

(** A checklist entry with a name over 255 characters, or a well-formed
    one holding an item title over 500 characters. *)
Definition oversizedChecklist (cl : json) : bool :=
  longerThan 255 (prop "name" cl)
  || (checklistIsValid cl
      && existsb (fun item => longerThan 500 (prop "title" item))
                 (arrayOrEmpty (prop "items" cl))).

(** A card with a string field over its length bound. *)
Definition oversizedCard (card : json) : bool :=
  longerThan 255 (prop "title" card)
  || longerThan 10000 (prop "description" card)
  || existsb oversizedChecklist (arrayOrEmpty (prop "checklists" card)).

Definition isBadRequestError (e : JsError) : Prop :=
  exists msg, e = TRPCError BAD_REQUEST msg.

Definition itemWithinBounds (item : ChecklistItemData) : Prop :=
  1 <= String.length (itemTitle item) <= 500.

Definition checklistWithinBounds (cl : ChecklistData) : Prop :=
  1 <= String.length (checklistName cl) <= 255
  /\ Forall itemWithinBounds (checklistItemData cl).

Definition cardWithinBounds (card : CardData) : Prop :=
  1 <= String.length (cardTitle card) <= 255
  /\ String.length (cardDescription card) <= 10000
  /\ Forall checklistWithinBounds (cardChecklists card).

Definition listWithinBounds (l : ListData) : Prop :=
  1 <= String.length (listName l) <= 255
  /\ Forall cardWithinBounds (listCards l).

(** The caller is authenticated, the board exists, its workspace exists
    and the caller is a member of it. *)
Definition accessGranted (w : World) (ctx : Ctx) (publicId : string)
  : option (string * BoardRow) :=
  match user ctx with
  | Some userId =>
      if Js.truthy userId then
        match findBoard w publicId with
        | Some board =>
            match workspaceRepo.getById w (boardWorkspaceId board) with
            | Some workspace =>
                if existsb (fun m => (fst m =? userId)%string && (snd m =? workspace))
                           (workspaceMembers w)
                then Some (userId, board) else None
            | None => None
            end
        | None => None
        end
      else None
  | None => None
  end.

(** The state in which the loop over the lists starts. *)
Definition startState (w : World) (existing : list (nat * string)) : ImportState :=
  {| world := w; existingLists := existing; warnings := []; allCreatedCards := [] |}.

Definition emptyState (w : World) : ImportState := startState w [].

(* ===================================================================== *)
(** ** Relations between states *)
(* ===================================================================== *)

Definition prefixOf {A} (l l' : list A) : Prop := exists t, l' = (l ++ t)%list.

(** [w'] keeps every row of [w]: each table of [w] is an initial segment
    of the table of [w'] (the rows of the import ledger up to their
    status). *)
Record extends (w w' : World) : Prop := {
  ext_boards : boards w' = boards w;
  ext_workspaces : workspaces w' = workspaces w;
  ext_members : workspaceMembers w' = workspaceMembers w;
  ext_imports : prefixOf (map importId (imports w)) (map importId (imports w'));
  ext_lists : prefixOf (lists w) (lists w');
  ext_labels : prefixOf (labels w) (labels w');
  ext_cards : prefixOf (cards w) (cards w');
  ext_activities : prefixOf (cardActivities w) (cardActivities w');
  ext_relations : prefixOf (cardsToLabels w) (cardsToLabels w');
  ext_checklists : prefixOf (checklists w) (checklists w');
  ext_items : prefixOf (checklistItems w) (checklistItems w')
}.

(** The state reached by [m] is always related to the state it starts
    from, whether [m] returns or throws. *)
Definition preserves {St A} (R : St -> St -> Prop) (m : M St A) : Prop :=
  forall s, R s (snd (m s)).

Definition onWorld (R : World -> World -> Prop) (s s' : ImportState) : Prop :=
  R (world s) (world s').

(** The projection [f] of the state is left as it was. *)
Definition unchanged {St B} (f : St -> B) (s s' : St) : Prop := f s' = f s.

(** The store once the ledger record [id] has been marked failed, and
    nothing else done. *)
Definition markFailed (id : nat) (w : World) : World :=
  setImports (map (importRepo.setStatus Failed id) (imports w))
             (setStoreCalls (S (storeCalls w)) w).

(** The rows a batch insert appends, from the first free identifier on. *)
Fixpoint cardRowsFrom (id : nat) (inputs : list CardInput) : list CardRow :=
  match inputs with
  | [] => []
  | x :: xs => cardRepo.row id x :: cardRowsFrom (S id) xs
  end.

Fixpoint labelRowsFrom (id : nat) (inputs : list LabelInput) : list LabelRow :=
  match inputs with
  | [] => []
  | x :: xs => labelRepo.row id x :: labelRowsFrom (S id) xs
  end.

(** The row prepared for the card at position [index], with the public
    identifier [uid]. *)
Definition cardInputOf (userId : string) (importId targetListId : nat)
    (index uid : nat) (card : CardData) : CardInput :=
  {| cardInputPublicId := uid;
     cardInputTitle := Js.substring0 255 (cardTitle card);
     cardInputDescription := Js.substring0 10000 (cardDescription card);
     cardInputCreatedBy := userId;
     cardInputListId := targetListId;
     cardInputIndex := index;
     cardInputImportId := importId |}.

Fixpoint preparedFrom (userId : string) (importId targetListId : nat)
    (index uid : nat) (cards : list CardData) : list (CardData * CardInput) :=
  match cards with
  | [] => []
  | card :: rest =>
      (card, cardInputOf userId importId targetListId index uid card)
      :: preparedFrom userId importId targetListId (S index) (S uid) rest
  end.

(** [rows] are the rows written for the cards of [l]: one per card, in
    order, each carrying its position in the card array as index and the
    title and description of its card, cut at the bounds. *)
Definition rowsFor (l : ListData) (rows : list CardRow) : Prop :=
  List.length rows = List.length (listCards l)
  /\ forall i row, nth_error rows i = Some row ->
       cardIndex row = i
       /\ exists card, nth_error (listCards l) i = Some card
            /\ cardRowTitle row = Js.substring0 255 (cardTitle card)
            /\ cardRowDescription row = Js.substring0 10000 (cardDescription card).

(** From [w] to [w'] the card table grew by groups of rows, each group
    written for the cards of one list of the payload. *)
Definition cardsGrow (lists : list ListData) (w w' : World) : Prop :=
  exists groups : list (ListData * list CardRow),
    cards w' = (cards w ++ flat_map snd groups)%list
    /\ Forall (fun g => In (fst g) lists /\ rowsFor (fst g) (snd g)) groups.





(** [m] returns from every state. *)
Definition total {St A} (m : M St A) : Prop :=
  forall s, exists a, fst (m s) = Ok a.

(** The number of cards of a payload. *)
Definition countCards (ls : list ListData) : nat :=
  list_sum (map (fun l => List.length (listCards l)) ls).

(** A store that may return no result on the creation of a checklist or
    of a checklist item, never raises on them, and carries out every
    other write. *)
Definition onlyChecklistsFail (db : Behaviour) : Prop :=
  (forall n, db ChecklistCreate n <> Raises)
  /\ (forall n, db ChecklistItemCreate n <> Raises)
  /\ (forall op n, op <> ChecklistCreate -> op <> ChecklistItemCreate ->
                   db op n = Succeeds).

(* ===================================================================== *)
(** ** The export, entity by entity *)
(* ===================================================================== *)

(** What the export shows of one list, one card, one checklist: the rows
    that refer to it, not deleted, in the order of their index. *)
Definition cardsOfList (w : World) (lid : nat) : list CardRow :=
  orderBy cardIndex
    (filter (fun c => (cardListId c =? lid) && negb (cardDeleted c)) (cards w)).

Definition labelsOfCard (w : World) (card : nat) : list string :=
  map (labelNameOf w) (filter (fun cl => relCardId cl =? card) (cardsToLabels w)).

Definition checklistsOfCard (w : World) (card : nat) : list ChecklistRow :=
  orderBy checklistIndex
    (filter (fun cl => (checklistCardId cl =? card) && negb (checklistDeleted cl))
            (checklists w)).

Definition itemsOfChecklist (w : World) (checklist : nat) : list ChecklistItemRow :=
  orderBy itemIndex
    (filter (fun i => (itemChecklistId i =? checklist) && negb (itemDeleted i))
            (checklistItems w)).

Definition exportItem (item : ChecklistItemRow) : ChecklistItemData :=
  {| itemTitle := itemRowTitle item; itemCompleted := itemRowCompleted item |}.

Definition exportChecklist (w : World) (cl : ChecklistRow) : ChecklistData :=
  {| checklistName := checklistRowName cl;
     checklistItemData := map exportItem (itemsOfChecklist w (checklistId cl)) |}.

Definition exportCard (w : World) (card : CardRow) : CardData :=
  {| cardTitle := cardRowTitle card;
     cardDescription := cardRowDescription card;
     cardLabels := labelsOfCard w (cardId card);
     cardChecklists := map (exportChecklist w) (checklistsOfCard w (cardId card)) |}.

Definition exportList (w : World) (l : ListRow) : ListData :=
  {| listName := listRowName l;
     listCards := map (exportCard w) (cardsOfList w (listId l)) |}.

(** Keys that do not decrease along the list. *)
Definition ascending {A} (key : A -> nat) (l : list A) : Prop :=
  StronglySorted (fun a b => key a <= key b) l.

Definition exportByEntity (w : World) (board : nat) : list ListData :=
  map (exportList w) (orderBy listIndex (listsOfBoard w board)).

(** The six tables the export reads, from [w] to [w']: the rows appended
    to each; the labels are left as they are. *)
Definition tablesGrow (w w' : World) (nl : list ListRow) (nc : list CardRow)
    (nr : list CardLabelRow) (ncl : list ChecklistRow)
    (ni : list ChecklistItemRow) : Prop :=
  lists w' = (lists w ++ nl)%list
  /\ labels w' = labels w
  /\ cards w' = (cards w ++ nc)%list
  /\ cardsToLabels w' = (cardsToLabels w ++ nr)%list
  /\ checklists w' = (checklists w ++ ncl)%list
  /\ checklistItems w' = (checklistItems w ++ ni)%list.

Definition itemsBounded (w : World) : Prop :=
  Forall (fun i => itemChecklistId i <= list_max (map checklistId (checklists w)))
         (checklistItems w).

(** Every reference of a row points at or below the highest identifier of
    the table it refers to. *)
Definition wellReferenced (w : World) : Prop :=
  Forall (fun c => cardListId c <= list_max (map listId (lists w))) (cards w)
  /\ Forall (fun r => relCardId r <= list_max (map cardId (cards w)))
            (cardsToLabels w)
  /\ Forall (fun cl => checklistCardId cl <= list_max (map cardId (cards w)))
            (checklists w)
  /\ itemsBounded w.

(** What the import writes of a document: texts cut at their bounds, the
    label names of a card without repetition, items not completed. *)
Definition writtenItem (item : ChecklistItemData) : ChecklistItemData :=
  {| itemTitle := Js.substring0 500 (itemTitle item); itemCompleted := false |}.

Definition writtenChecklist (cl : ChecklistData) : ChecklistData :=
  {| checklistName := Js.substring0 255 (checklistName cl);
     checklistItemData := map writtenItem (checklistItemData cl) |}.

Definition writtenCard (card : CardData) : CardData :=
  {| cardTitle := Js.substring0 255 (cardTitle card);
     cardDescription := Js.substring0 10000 (cardDescription card);
     cardLabels := newSet (cardLabels card);
     cardChecklists := map writtenChecklist (cardChecklists card) |}.

Definition writtenList (l : ListData) : ListData :=
  {| listName := listName l; listCards := map writtenCard (listCards l) |}.

Definition itemsView (w : World) (checklist : nat) : list ChecklistItemData :=
  map exportItem (itemsOfChecklist w checklist).

Definition checklistsView (w : World) (card : nat) : list ChecklistData :=
  map (exportChecklist w) (checklistsOfCard w card).

(** A store that carries out every write. *)
Definition alwaysSucceeds (db : Behaviour) : Prop :=
  forall op n, db op n = Succeeds.

(** The label map sends the name [n], lower-cased, to a label of the store
    that bears the name [n]. *)
Definition resolves (w : World) (labelMap : list (string * nat)) (n : string)
  : Prop :=
  exists id row,
    mapGet (Js.toLowerCase n) labelMap = Some id
    /\ id <> 0
    /\ find (fun l => labelId l =? id) (labels w) = Some row
    /\ labelName row = n.

(** The rows appended from [w] to [w'] refer to rows that [w] did not
    have: no entity [w] showed gains a card, a label or a checklist. *)
Definition grownApart (w w' : World) : Prop :=
  exists nl nc nr ncl ni,
    tablesGrow w w' nl nc nr ncl ni
    /\ Forall (fun c => list_max (map listId (lists w)) < cardListId c) nc
    /\ Forall (fun r => list_max (map cardId (cards w)) < relCardId r) nr
    /\ Forall (fun cl => list_max (map cardId (cards w)) < checklistCardId cl) ncl
    /\ Forall (fun i => list_max (map checklistId (checklists w))
                        < itemChecklistId i) ni.

(* ===================================================================== *)
(** ** Documents that survive a round trip *)
(* ===================================================================== *)

(** The label names a document mentions. *)
Definition labelNamesOf (doc : list ListData) : list string :=
  flat_map (fun l => flat_map cardLabels (listCards l)) doc.

(** Label names as the store keeps them: not empty, without surrounding
    white space, and no two of the document differing by case only. *)
Definition plainLabels (doc : list ListData) : Prop :=
  (forall n, In n (labelNamesOf doc) ->
             Js.trim n = n /\ (n =? "")%string = false)
  /\ (forall n m, In n (labelNamesOf doc) -> In m (labelNamesOf doc) ->
                  Js.toLowerCase n = Js.toLowerCase m -> n = m).

(** List names that are not blank and pairwise differ even when case is
    ignored, each list holding at least one card. *)
Definition plainLists (doc : list ListData) : Prop :=
  Forall (fun l => Js.truthy (Js.trim (listName l)) = true
                   /\ listCards l <> []) doc
  /\ NoDup (map (fun l => Js.toLowerCase (listName l)) doc).

(** The board shows no list and no label. *)
Definition emptyBoard (w : World) (board : nat) : Prop :=
  listsOfBoard w board = [] /\ labelsOfBoard w board = [].

(** Two documents with the same content, completed flags left aside: the
    same list names; card by card, in order, the same title, description
    and set of label names; checklist by checklist and item by item, in
    order, the same names and titles. *)
Definition sameItem (a b : ChecklistItemData) : Prop :=
  itemTitle a = itemTitle b.

Definition sameChecklist (a b : ChecklistData) : Prop :=
  checklistName a = checklistName b
  /\ Forall2 sameItem (checklistItemData a) (checklistItemData b).

Definition sameCard (a b : CardData) : Prop :=
  cardTitle a = cardTitle b
  /\ cardDescription a = cardDescription b
  /\ (forall n, In n (cardLabels a) <-> In n (cardLabels b))
  /\ Forall2 sameChecklist (cardChecklists a) (cardChecklists b).

Definition sameList (a b : ListData) : Prop :=
  listName a = listName b
  /\ Forall2 sameCard (listCards a) (listCards b).

Definition sameContent (a b : list ListData) : Prop := Forall2 sameList a b.

(* ===================================================================== *)
(** ** Documents within the bounds of the schema *)
(* ===================================================================== *)

(** The bounds [ChecklistItemSchema], [ChecklistSchema], [CardSchema],
    [ListSchema] and [ImportJsonSchema] put on lengths and counts. *)
Definition itemAccepted (item : ChecklistItemData) : Prop :=
  1 <= String.length (itemTitle item) <= 500.

Definition checklistAccepted (cl : ChecklistData) : Prop :=
  1 <= String.length (checklistName cl) <= 255
  /\ List.length (checklistItemData cl) <= 50
  /\ Forall itemAccepted (checklistItemData cl).

Definition cardAccepted (card : CardData) : Prop :=
  1 <= String.length (cardTitle card) <= 255
  /\ String.length (cardDescription card) <= 10000
  /\ List.length (cardLabels card) <= 20
  /\ Forall (fun n => String.length n <= 50) (cardLabels card)
  /\ List.length (cardChecklists card) <= 10
  /\ Forall checklistAccepted (cardChecklists card).

Definition listAccepted (l : ListData) : Prop :=
  1 <= String.length (listName l) <= 255
  /\ List.length (listCards l) <= 500
  /\ Forall cardAccepted (listCards l).

Definition documentAccepted (doc : list ListData) : Prop :=
  1 <= List.length doc <= 50 /\ Forall listAccepted doc.

(* ===================================================================== *)
(** ** The exported document as a JSON value *)
(* ===================================================================== *)

(** The object literals [exportData] is built from, as [JSON.parse] gives
    them back from the string [exportCards] returns. *)
Definition jsonOfItem (item : ChecklistItemData) : json :=
  JObj [("title", JStr (itemTitle item));
        ("completed", JBool (itemCompleted item))].

Definition jsonOfChecklist (cl : ChecklistData) : json :=
  JObj [("name", JStr (checklistName cl));
        ("items", JArr (map jsonOfItem (checklistItemData cl)))].

Definition jsonOfCard (card : CardData) : json :=
  JObj [("title", JStr (cardTitle card));
        ("description", JStr (cardDescription card));
        ("labels", JArr (map JStr (cardLabels card)));
        ("checklists", JArr (map jsonOfChecklist (cardChecklists card)))].

Definition jsonOfList (l : ListData) : json :=
  JObj [("listName", JStr (listName l));
        ("cards", JArr (map jsonOfCard (listCards l)))].

Definition jsonOfExport (doc : list ListData) : json :=
  JArr (map jsonOfList doc).

(** A list under its name without surrounding white space. *)
Definition trimmedList (l : ListData) : ListData :=
  {| listName := Js.trim (listName l); listCards := listCards l |}.

(* ===================================================================== *)
(** ** Relations kept by the loop over the lists *)
(* ===================================================================== *)

(** None of the warnings tells of a truncation. *)
Definition noTruncation (ws : list ImportWarning) : Prop :=
  Forall (fun x => isTruncationWarning x = false) ws.

(** From [s] to [s'] no warning about a truncation was gathered. *)
Definition quiet (s s' : ImportState) : Prop :=
  noTruncation (warnings s) -> noTruncation (warnings s').

(** From [s] to [s'] the card table grew by the rows gathered as created
    cards. *)
Definition tallied (s s' : ImportState) : Prop :=
  exists rows,
    cards (world s') = (cards (world s) ++ rows)%list
    /\ allCreatedCards s' = (allCreatedCards s ++ rows)%list.

(** The activity written for a created card: of type [card.created],
    by the user who created the card. *)
Definition activityOf (card : CardRow) : ActivityRow :=
  {| activityType := "card.created";
     activityCardId := cardId card;
     activityCreatedBy := cardCreatedBy card |}.

(** From [w] to [w'] every card appended came with its activity, in the
    same order. *)
Definition logged (w w' : World) : Prop :=
  exists rows,
    cards w' = (cards w ++ rows)%list
    /\ cardActivities w' = (cardActivities w ++ map activityOf rows)%list.

(** The store without its rows marked deleted: lists, cards, checklists
    and checklist items. *)
Definition purged (w : World) : World :=
  setLists (filter (fun l => negb (listDeleted l)) (lists w))
    (setCards (filter (fun c => negb (cardDeleted c)) (cards w))
       (setChecklists (filter (fun cl => negb (checklistDeleted cl)) (checklists w))
          (setChecklistItems (filter (fun i => negb (itemDeleted i))
                                     (checklistItems w)) w))).

(** From [w] to [w'] the lists, labels and cards appended bear the ledger
    record [id] and the user [by_]; the lists and labels belong to
    [board]. *)
Definition tagged (id : nat) (by_ : string) (board : nat) (w w' : World) : Prop :=
  exists nl nlab nc,
    lists w' = (lists w ++ nl)%list
    /\ labels w' = (labels w ++ nlab)%list
    /\ cards w' = (cards w ++ nc)%list
    /\ Forall (fun r => listImportId r = Some id /\ listCreatedBy r = by_
                        /\ listBoardId r = board) nl
    /\ Forall (fun r => labelImportId r = Some id /\ labelCreatedBy r = by_
                        /\ labelBoardId r = board) nlab
    /\ Forall (fun c => cardImportId c = Some id /\ cardCreatedBy c = by_) nc.

(** The identifiers of the lists of [board], deleted or not. *)
Definition listIdsOf (board : nat) (ls : list ListRow) : list nat :=
  map listId (filter (fun l => listBoardId l =? board) ls).

(** From [w] to [w'] rows were appended the way an import into [board]
    appends them: lists of [board] and labels under fresh identifiers,
    cards in lists of [board], and label associations, checklists and
    checklist items that hang on cards and checklists [w] did not have. *)
Definition importedInto (board : nat) (w w' : World) : Prop :=
  exists nl nlab nc nr ncl ni,
    lists w' = (lists w ++ nl)%list
    /\ labels w' = (labels w ++ nlab)%list
    /\ cards w' = (cards w ++ nc)%list
    /\ cardsToLabels w' = (cardsToLabels w ++ nr)%list
    /\ checklists w' = (checklists w ++ ncl)%list
    /\ checklistItems w' = (checklistItems w ++ ni)%list
    /\ Forall (fun r => listBoardId r = board
                        /\ list_max (map listId (lists w)) < listId r) nl
    /\ Forall (fun r => list_max (map labelId (labels w)) < labelId r) nlab
    /\ Forall (fun c => In (cardListId c) (listIdsOf board (lists w')%list)
                        /\ list_max (map cardId (cards w)) < cardId c) nc
    /\ Forall (fun r => list_max (map cardId (cards w)) < relCardId r) nr
    /\ Forall (fun cl => list_max (map cardId (cards w)) < checklistCardId cl) ncl
    /\ Forall (fun i => list_max (map checklistId (checklists w))
                        < itemChecklistId i) ni.

(** From [w] to [w'] label associations, checklists and checklist items
    were appended that hang on cards numbered above [K] and on checklists
    [w] did not have; lists, labels and cards are left as they were. *)
Definition detailed (K : nat) (w w' : World) : Prop :=
  lists w' = lists w /\ labels w' = labels w /\ cards w' = cards w
  /\ exists nr ncl ni,
       cardsToLabels w' = (cardsToLabels w ++ nr)%list
       /\ checklists w' = (checklists w ++ ncl)%list
       /\ checklistItems w' = (checklistItems w ++ ni)%list
       /\ Forall (fun r => K < relCardId r) nr
       /\ Forall (fun cl => K < checklistCardId cl) ncl
       /\ Forall (fun i => list_max (map checklistId (checklists w))
                           < itemChecklistId i) ni.

(** From [w] to [w'] items of the checklist [checklist] were appended,
    and nothing else. *)
Definition itemsAdded (checklist : nat) (w w' : World) : Prop :=
  lists w' = lists w /\ labels w' = labels w /\ cards w' = cards w
  /\ cardsToLabels w' = cardsToLabels w /\ checklists w' = checklists w
  /\ exists ni,
       checklistItems w' = (checklistItems w ++ ni)%list
       /\ Forall (fun i => itemChecklistId i = checklist) ni.

(** The keys of the store: no two lists share an identifier, and every
    label association points at a label no newer than the newest one. *)
Definition keyed (w : World) : Prop :=
  NoDup (map listId (lists w))
  /\ Forall (fun r => relLabelId r <= list_max (map labelId (labels w)))
            (cardsToLabels w).

(** The lists the loop knows of are lists of [board]. *)
Definition knownLists (board : nat) (s : ImportState) : Prop :=
  Forall (fun e => In (fst e) (listIdsOf board (lists (world s))))
         (existingLists s).

(** What one turn of the loop keeps, as to the other boards. *)
Definition besideLoop (board : nat) (s s' : ImportState) : Prop :=
  knownLists board s ->
  knownLists board s' /\ importedInto board (world s) (world s').

(** The items of a checklist that the store creates when their creations
    start at store call [n]: each creation is one call, and an item is
    kept when the store carries its creation out. *)
Fixpoint keptItems (db : Behaviour) (n : nat) (items : list ChecklistItemData)
  : list ChecklistItemData :=
  match items with
  | [] => []
  | item :: rest =>
      match db ChecklistItemCreate n with
      | Succeeds => item :: keptItems db (S n) rest
      | _ => keptItems db (S n) rest
      end
  end.

(** The same for the checklists of a card: a checklist whose creation is
    carried out is kept, with the items kept of it, and its items take one
    call each; a checklist whose creation returns no result costs its own
    call only and is left out with its items. *)
Fixpoint keptChecklists (db : Behaviour) (n : nat) (cls : list ChecklistData)
  : list ChecklistData :=
  match cls with
  | [] => []
  | cl :: rest =>
      match db ChecklistCreate n with
      | Succeeds =>
          {| checklistName := checklistName cl;
             checklistItemData := keptItems db (S n) (checklistItemData cl) |}
          :: keptChecklists db (S n + List.length (checklistItemData cl)) rest
      | _ => keptChecklists db (S n) rest
      end
  end.

(** What an import has written for one card of the payload, in the store
    [w']: [C] is the row of the card [cd], in the list [target], with the
    title and the description of the card; the label associations of the
    row are those the label map gives for the labels of the card; and the
    checklists the row shows are those of the card that the store created,
    each with the items it created. *)
Definition cardWritten (db : Behaviour) (labelMap : list (string * nat))
    (w' : World) (target : nat) (C : CardRow) (cd : CardData) : Prop :=
  cardListId C = target
  /\ cardDeleted C = false
  /\ cardRowTitle C = Js.substring0 255 (cardTitle cd)
  /\ cardRowDescription C = Js.substring0 10000 (cardDescription cd)
  /\ filter (fun r => relCardId r =? cardId C) (cardsToLabels w')
     = relationsOfCard labelMap C cd
  /\ exists n,
       checklistsView w' (cardId C)
       = map writtenChecklist (keptChecklists db n (cardChecklists cd)).

(** A list of the payload the import wrote cards for, with the list of
    the board the cards went into and the rows of the cards. *)
Record ListWritten := {
  wList : ListData;
  wTarget : nat;
  wRows : list CardRow
}.

(** [listData.cards.length === 0] does not hold. *)
Definition hasCards (l : ListData) : bool :=
  negb (List.length (listCards l) =? 0).

(** Every entry of [existingLists] names a row of the board. *)
Definition listsBacked (board : nat) (s : ImportState) : Prop :=
  Forall (fun e => exists row, In row (lists (world s))
                     /\ listId row = fst e /\ listRowName row = snd e
                     /\ listBoardId row = board)
         (existingLists s).

(** What the loop has written for a list of the payload when it stands at
    [s], having started at [s0]: a row for each card, in order, in the
    list [wTarget], which is a list of the board bearing the name of the
    payload list up to case, and which is the list [existingLists.find]
    yields at [s0] when it yields one. *)
Definition listWrittenIn (db : Behaviour) (board : nat)
    (labelMap : list (string * nat)) (s0 s : ImportState) (g : ListWritten)
  : Prop :=
  Forall2 (cardWritten db labelMap (world s) (wTarget g))
          (wRows g) (listCards (wList g))
  /\ (exists row, In row (lists (world s))
        /\ listId row = wTarget g /\ listBoardId row = board
        /\ Js.toLowerCase (listRowName row)
           = Js.toLowerCase (listName (wList g)))
  /\ (forall e, find (listMatches (wList g)) (existingLists s0) = Some e ->
                wTarget g = fst e).

(** The same between the store [w] the import found and the store [w']
    it left: when the board showed in [w] a list bearing the name of the
    payload list up to case, the cards went into such a list. *)
Definition listWritten (db : Behaviour) (board : nat)
    (labelMap : list (string * nat)) (w w' : World) (g : ListWritten) : Prop :=
  Forall2 (cardWritten db labelMap w' (wTarget g))
          (wRows g) (listCards (wList g))
  /\ (exists row, In row (lists w')
        /\ listId row = wTarget g /\ listBoardId row = board
        /\ Js.toLowerCase (listRowName row)
           = Js.toLowerCase (listName (wList g)))
  /\ (forall e, In e (listsOfBoard w board) ->
        Js.truthy (listRowName e) = true ->
        Js.toLowerCase (listRowName e) = Js.toLowerCase (listName (wList g)) ->
        exists e', In e' (listsOfBoard w board)
          /\ Js.toLowerCase (listRowName e')
             = Js.toLowerCase (listName (wList g))
          /\ wTarget g = listId e').

(** What an import that returns has written, list by list: the card table
    grew by the rows of the groups, one group for each list of the payload
    that holds a card, in the order of the payload. *)
Definition importWritten (db : Behaviour) (board : nat)
    (labelMap : list (string * nat)) (ls : list ListData) (w w' : World)
  : Prop :=
  exists groups,
    cards w' = (cards w ++ flat_map wRows groups)%list
    /\ map wList groups = filter hasCards ls
    /\ Forall (listWritten db board labelMap w w') groups.


(** The name a list bears in the document as written, before the
    preprocessor trims it; the empty string when the document gives none. *)
Definition writtenName (list : json) : string :=
  match prop "listName" list with
  | Some (JStr name) => name
  | _ => ""
  end.

(** The list names of a document as written: those of the entries of an
    array, or the one of a single list. *)
Definition writtenNames (doc : json) : list string :=
  match doc with
  | JArr lists => map writtenName lists
  | _ => [writtenName doc]
  end.

(* ===================================================================== *)
(** ** Sample data *)
(* ===================================================================== *)

Module Sample.

Definition allSucceed : Behaviour := fun _ _ => Succeeds.

Definition palette : list string := ["#0d9488"; "#65a30d"; "#ca8a04"].

Definition boardPid : string := "board0000001".

Definition ctx : Ctx := {| user := Some "user-1" |}.

(** A store with one board, owned by a workspace the caller belongs to. *)
Definition world0 : World :=
  {| boards := [{| boardId := 1; boardPublicId := boardPid; boardWorkspaceId := 1 |}];
     workspaces := [1]; workspaceMembers := [("user-1", 1)];
     imports := []; lists := []; labels := []; cards := [];
     cardActivities := []; cardsToLabels := []; checklists := [];
     checklistItems := []; uidSeed := 0; storeCalls := 0 |}.

Definition input (payload : string) : Input :=
  {| inputBoardPublicId := boardPid; data := payload |}.

(** A parser that knows one document, under the name [doc]. *)
Definition parseAs (doc : json) (s : string) : option json :=
  if (s =? "doc")%string then Some doc else None.

Definition jItem (title : string) (completed : bool) : json :=
  JObj [("title", JStr title); ("completed", JBool completed)].

Definition jChecklist (name : string) (items : list json) : json :=
  JObj [("name", JStr name); ("items", JArr items)].

Definition jCard (title description : string) (labels : list string)
    (checklists : list json) : json :=
  JObj [("title", JStr title); ("description", JStr description);
        ("labels", JArr (map JStr labels)); ("checklists", JArr checklists)].

Definition jList (name : string) (cards : list json) : json :=
  JObj [("listName", JStr name); ("cards", JArr cards)].

Definition emptyList : ListData :=
  {| listName := "In Progress"; listCards := [] |}.

(** A store that raises on every checklist creation. *)
Definition checklistsRaise : Behaviour :=
  fun op _ =>
    match op with
    | ChecklistCreate => Raises
    | _ => Succeeds
    end.

Definition plainCard (title : string) : CardData :=
  {| cardTitle := title; cardDescription := ""; cardLabels := [];
     cardChecklists := [] |}.

Definition cardWithChecklist (title : string) : CardData :=
  {| cardTitle := title; cardDescription := ""; cardLabels := [];
     cardChecklists :=
       [{| checklistName := "Steps";
           checklistItemData := [{| itemTitle := "first"; itemCompleted := false |}] |}] |}.

Definition firstList : ListData :=
  {| listName := "To Do"; listCards := [plainCard "write"] |}.

Definition secondList : ListData :=
  {| listName := "Doing"; listCards := [cardWithChecklist "review"] |}.

Definition thirdList : ListData :=
  {| listName := "Done"; listCards := [plainCard "ship"] |}.

(** The payload [firstList; secondList; thirdList] as a document. *)
Definition threeListsDoc : json :=
  JArr [jList "To Do" [jCard "write" "" [] []];
        jList "Doing" [jCard "review" "" [] [jChecklist "Steps" [jItem "first" false]]];
        jList "Done" [jCard "ship" "" [] []]].

Definition ledgerRow : ImportRow :=
  {| importId := 1; importSource := "json"; importCreatedBy := "user-1";
     importStatus := Pending |}.

(** The store after the ledger record of the first import is created. *)
Definition world1 : World :=
  snd (importRepo.create allSucceed "json" "user-1" world0).

Definition board1 : BoardRow :=
  {| boardId := 1; boardPublicId := boardPid; boardWorkspaceId := 1 |}.

(** The loop state after [firstList], then after the failing [secondList],
    on a store that raises on checklist creation. *)
Definition stateAfterFirst : ImportState :=
  snd (processLists checklistsRaise "user-1" 1 1 [] [firstList]
         (startState world1 (existingListsOf world1 1))).

Definition stateAtFailure : ImportState :=
  snd (processList checklistsRaise "user-1" 1 1 [] secondList stateAfterFirst).

(** Two cards of one list whose labels differ in letter case only. *)
Definition caseVariantDoc : json :=
  JArr [jList "To Do" [jCard "first" "" ["Bug"] []; jCard "second" "" ["bug"] []]].

(** A board that already shows a list [to do] and a label [bug]. *)
Definition worldWithList : World :=
  {| boards := [board1]; workspaces := [1]; workspaceMembers := [("user-1", 1)];
     imports := [];
     lists := [{| listId := 7; listRowName := "to do"; listCreatedBy := "user-1";
                  listBoardId := 1; listIndex := 0; listImportId := None;
                  listDeleted := false |}];
     labels := [{| labelId := 3; labelName := "bug"; labelColourCode := "#dc2626";
                   labelCreatedBy := "user-1"; labelBoardId := 1;
                   labelImportId := None; labelDeleted := false |}];
     cards := [{| cardId := 4; cardPublicId := 99; cardRowTitle := "old";
                  cardRowDescription := ""; cardCreatedBy := "user-1";
                  cardListId := 7; cardIndex := 0; cardImportId := None;
                  cardDeleted := false |}];
     cardActivities := []; cardsToLabels := []; checklists := [];
     checklistItems := []; uidSeed := 100; storeCalls := 0 |}.

(** A payload naming that list and that label in another case. *)
Definition reuseDoc : json :=
  JArr [jList "To Do" [jCard "new" "" ["Bug"] []]].

(** A board whose one label has a name starting with a blank, and a
    payload naming a label with the same padding. *)
Definition worldWithPaddedLabel : World :=
  {| boards := [board1]; workspaces := [1]; workspaceMembers := [("user-1", 1)];
     imports := []; lists := [];
     labels := [{| labelId := 3; labelName := " bug"; labelColourCode := "#dc2626";
                   labelCreatedBy := "user-1"; labelBoardId := 1;
                   labelImportId := None; labelDeleted := false |}];
     cards := []; cardActivities := []; cardsToLabels := []; checklists := [];
     checklistItems := []; uidSeed := 0; storeCalls := 0 |}.

Definition paddedDoc : json :=
  JArr [jList "To Do" [jCard "fix" "" [" Bug"] []]].

Definition paddedCard : CardData :=
  {| cardTitle := "fix"; cardDescription := ""; cardLabels := [" Bug"];
     cardChecklists := [] |}.

Definition paddedList : ListData :=
  {| listName := "To Do"; listCards := [paddedCard] |}.

(** A store that returns no result on every checklist creation and on
    every checklist item creation. *)
Definition checklistsVanish : Behaviour :=
  fun op _ =>
    match op with
    | ChecklistCreate | ChecklistItemCreate => NoResult
    | _ => Succeeds
    end.

(** Two lists; the cards of the first share a label, and one of them has a
    checklist of two items. *)
Definition roundTripDoc : json :=
  JArr [jList "To Do"
          [jCard "write" "draft the text" ["docs"; "urgent"]
             [jChecklist "Steps" [jItem "outline" false; jItem "review" false]];
           jCard "plan" "" ["urgent"] []];
        jList "Done" [jCard "ship" "" [] []]].

Definition roundTripLists : list ListData :=
  [{| listName := "To Do";
      listCards :=
        [{| cardTitle := "write"; cardDescription := "draft the text";
            cardLabels := ["docs"; "urgent"];
            cardChecklists :=
              [{| checklistName := "Steps";
                  checklistItemData :=
                    [{| itemTitle := "outline"; itemCompleted := false |};
                     {| itemTitle := "review"; itemCompleted := false |}] |}] |};
         {| cardTitle := "plan"; cardDescription := ""; cardLabels := ["urgent"];
            cardChecklists := [] |}] |};
   {| listName := "Done"; listCards := [plainCard "ship"] |}].

(** A list with one card, followed by a list without cards. *)
Definition laterList : ListData := {| listName := "Later"; listCards := [] |}.

Definition withEmptyListDoc : json :=
  JArr [jList "To Do" [jCard "write" "" [] []]; jList "Later" []].

(** One card with a checklist whose single item is completed. *)
Definition completedDoc : json :=
  JArr [jList "To Do"
          [jCard "write" "" [] [jChecklist "Steps" [jItem "outline" true]]]].

(** A single list object whose name is made of blanks. *)
Definition blankNameFields : list (string * json) :=
  [("listName", JStr "  "); ("cards", JArr [jCard "write" "" [] []])].

(** A single list object under a plain name. *)
Definition singleListFields : list (string * json) :=
  [("listName", JStr "To Do"); ("cards", JArr [jCard "write" "" [] []])].


(** A card that names one label twice, in two cases. *)
Definition repeatedLabelDoc : json :=
  JArr [jList "To Do" [jCard "fix" "" ["bug"; "Bug"] []]].

(** A card without description, with a null among its labels. *)
Definition sparseCard : json :=
  JObj [("title", JStr "write");
        ("labels", JArr [JStr "docs"; JNull; JStr "urgent"])].

(** A caller who is not signed in. *)
Definition anonymous : Ctx := {| user := None |}.

(** Two boards of one workspace; the second shows a list with a card that
    bears a label and a checklist. *)
Definition twoBoards : World :=
  {| boards := [board1;
                {| boardId := 2; boardPublicId := "board0000002";
                   boardWorkspaceId := 1 |}];
     workspaces := [1]; workspaceMembers := [("user-1", 1)];
     imports := [];
     lists := [{| listId := 7; listRowName := "To Do"; listCreatedBy := "user-1";
                  listBoardId := 1; listIndex := 0; listImportId := None;
                  listDeleted := false |};
               {| listId := 8; listRowName := "To Do"; listCreatedBy := "user-1";
                  listBoardId := 2; listIndex := 0; listImportId := None;
                  listDeleted := false |}];
     labels := [{| labelId := 3; labelName := "bug"; labelColourCode := "#dc2626";
                   labelCreatedBy := "user-1"; labelBoardId := 2;
                   labelImportId := None; labelDeleted := false |}];
     cards := [{| cardId := 4; cardPublicId := 99; cardRowTitle := "old";
                  cardRowDescription := ""; cardCreatedBy := "user-1";
                  cardListId := 8; cardIndex := 0; cardImportId := None;
                  cardDeleted := false |}];
     cardActivities := [];
     cardsToLabels := [{| relCardId := 4; relLabelId := 3 |}];
     checklists := [{| checklistId := 5; checklistCardId := 4;
                       checklistRowName := "steps"; checklistCreatedBy := "user-1";
                       checklistIndex := 0; checklistDeleted := false |}];
     checklistItems := [{| itemId := 6; itemChecklistId := 5;
                           itemRowTitle := "first"; itemRowCompleted := true;
                           itemCreatedBy := "user-1"; itemIndex := 0;
                           itemDeleted := false |}];
     uidSeed := 100; storeCalls := 0 |}.

(** One card with two checklists, the second of two items. *)
Definition patchyDoc : json :=
  JArr [jList "To Do"
          [jCard "write" "" []
             [jChecklist "Steps" [jItem "outline" false; jItem "review" false];
              jChecklist "Later" [jItem "ship" false; jItem "tell" false]]]].

Definition patchyList : ListData :=
  {| listName := "To Do";
     listCards :=
       [{| cardTitle := "write"; cardDescription := ""; cardLabels := [];
           cardChecklists :=
             [{| checklistName := "Steps";
                 checklistItemData :=
                   [{| itemTitle := "outline"; itemCompleted := false |};
                    {| itemTitle := "review"; itemCompleted := false |}] |};
              {| checklistName := "Later";
                 checklistItemData :=
                   [{| itemTitle := "ship"; itemCompleted := false |};
                    {| itemTitle := "tell"; itemCompleted := false |}] |}] |}] |}.

(** A store that returns no result on its fifth call when that call
    creates a checklist and on its seventh when it creates a checklist
    item, and carries out every other write. *)
Definition patchyStore : Behaviour :=
  fun op n =>
    match op with
    | ChecklistCreate => if n =? 4 then NoResult else Succeeds
    | ChecklistItemCreate => if n =? 6 then NoResult else Succeeds
    | _ => Succeeds
    end.



Fixpoint repeatChar (c : ascii) (n : nat) : string :=
  match n with
  | 0 => EmptyString
  | S n' => String c (repeatChar c n')
  end.


(** One list with one card whose title has 256 characters. *)
Definition longTitleDoc : json :=
  JArr [jList "To Do" [jCard (repeatChar "a"%char 256) "" [] []]].

(** The same list, as the loop over the lists would receive it. *)
Definition longTitleList : ListData :=
  {| listName := "To Do";
     listCards := [{| cardTitle := repeatChar "a"%char 256;
                      cardDescription := ""; cardLabels := [];
                      cardChecklists := [] |}] |}.

End Sample.

(* ===================================================================== *)
(** ** Strings *)
(* ===================================================================== *)

Unset Implicit Arguments.
Open Scope list_scope.

Lemma substring0_short (n : nat) (s : string) :
  String.length s <= n -> Js.substring0 n s = s.
Proof.
  unfold Js.substring0. revert n.
  induction s as [|c s IH]; intros [|n] H; simpl in *; try reflexivity; try lia.
  f_equal. apply IH. lia.
Qed.

Lemma substring0_length (n : nat) (s : string) :
  String.length (Js.substring0 n s) = Nat.min n (String.length s).
Proof.
  unfold Js.substring0. revert n.
  induction s as [|c s IH]; intros [|n]; simpl; try reflexivity.
  now rewrite IH.
Qed.

Lemma toLowerChar_whitespace (c : ascii) :
  Js.isWhiteSpace (Js.toLowerChar c) = Js.isWhiteSpace c.
Proof.
  destruct c as [[] [] [] [] [] [] [] []]; reflexivity.
Qed.

Lemma toLowerCase_length (s : string) :
  String.length (Js.toLowerCase s) = String.length s.
Proof.
  induction s; simpl; congruence.
Qed.

Lemma toLowerCase_empty (s : string) :
  (Js.toLowerCase s =? "")%string = (s =? "")%string.
Proof.
  destruct s; reflexivity.
Qed.

Lemma trimStart_toLowerCase (s : string) :
  Js.trimStart (Js.toLowerCase s) = Js.toLowerCase (Js.trimStart s).
Proof.
  induction s as [|c s IH]; simpl; [reflexivity|].
  rewrite toLowerChar_whitespace. destruct (Js.isWhiteSpace c); auto.
Qed.

Lemma trimEnd_toLowerCase (s : string) :
  Js.trimEnd (Js.toLowerCase s) = Js.toLowerCase (Js.trimEnd s).
Proof.
  induction s as [|c s IH]; simpl; [reflexivity|].
  rewrite toLowerChar_whitespace, IH, toLowerCase_empty.
  destruct (Js.isWhiteSpace c && (Js.trimEnd s =? "")%string); reflexivity.
Qed.

Lemma trim_toLowerCase (s : string) :
  Js.trim (Js.toLowerCase s) = Js.toLowerCase (Js.trim s).
Proof.
  unfold Js.trim. now rewrite trimStart_toLowerCase, trimEnd_toLowerCase.
Qed.

Lemma trimStart_length (s : string) :
  String.length (Js.trimStart s) <= String.length s.
Proof.
  induction s as [|c s IH]; simpl; [lia|].
  destruct (Js.isWhiteSpace c); simpl; lia.
Qed.

Lemma trimEnd_length (s : string) :
  String.length (Js.trimEnd s) <= String.length s.
Proof.
  induction s as [|c s IH]; simpl; [lia|].
  destruct (Js.isWhiteSpace c && (Js.trimEnd s =? "")%string); simpl; lia.
Qed.

Lemma trimStart_same_length (s : string) :
  String.length (Js.trimStart s) = String.length s -> Js.trimStart s = s.
Proof.
  destruct s as [|c s]; simpl; [reflexivity|].
  destruct (Js.isWhiteSpace c); [|reflexivity].
  pose proof (trimStart_length s). simpl. lia.
Qed.

Lemma trimEnd_same_length (s : string) :
  String.length (Js.trimEnd s) = String.length s -> Js.trimEnd s = s.
Proof.
  induction s as [|c s IH]; simpl; [reflexivity|].
  destruct (Js.isWhiteSpace c && (Js.trimEnd s =? "")%string); simpl.
  - discriminate.
  - intros H. f_equal. apply IH. lia.
Qed.

Lemma trim_same_length (s : string) :
  String.length (Js.trim s) = String.length s -> Js.trim s = s.
Proof.
  unfold Js.trim. intros H.
  pose proof (trimStart_length s). pose proof (trimEnd_length (Js.trimStart s)).
  assert (Hs : Js.trimStart s = s) by (apply trimStart_same_length; lia).
  rewrite Hs in *. now apply trimEnd_same_length.
Qed.

Lemma trimEnd_idempotent (s : string) :
  Js.trimEnd (Js.trimEnd s) = Js.trimEnd s.
Proof.
  induction s as [|c s IH]; simpl; [reflexivity|].
  destruct (Js.isWhiteSpace c && (Js.trimEnd s =? "")%string) eqn:E; simpl.
  - reflexivity.
  - rewrite IH, E. reflexivity.
Qed.

Lemma trimStart_trimEnd_fixed (s : string) :
  Js.trimStart s = s -> Js.trimStart (Js.trimEnd s) = Js.trimEnd s.
Proof.
  destruct s as [|c s]; simpl; [reflexivity|].
  destruct (Js.isWhiteSpace c) eqn:E.
  - intros H. pose proof (trimStart_length s) as L. rewrite H in L. simpl in L. lia.
  - intros _. simpl. rewrite E. reflexivity.
Qed.

Lemma trimStart_idempotent (s : string) :
  Js.trimStart (Js.trimStart s) = Js.trimStart s.
Proof.
  induction s as [|c s IH]; simpl; [reflexivity|].
  destruct (Js.isWhiteSpace c) eqn:E; [assumption|]. simpl. now rewrite E.
Qed.

Lemma trim_idempotent (s : string) : Js.trim (Js.trim s) = Js.trim s.
Proof.
  unfold Js.trim.
  rewrite (trimStart_trimEnd_fixed (Js.trimStart s) (trimStart_idempotent s)).
  apply trimEnd_idempotent.
Qed.

(** A padded name never equals, once lower-cased, the lower-casing of a
    trimmed name. *)
Lemma padded_key_differs (n m : string) :
  Js.trim n <> n -> Js.toLowerCase n <> Js.toLowerCase (Js.trim m).
Proof.
  intros Hn Heq. apply Hn. apply trim_same_length.
  rewrite <- (toLowerCase_length (Js.trim n)), <- trim_toLowerCase, Heq.
  rewrite trim_toLowerCase, trim_idempotent.
  now rewrite <- Heq, toLowerCase_length.
Qed.

(* ===================================================================== *)
(** ** Preprocessing and validation *)
(* ===================================================================== *)

Lemma mapRes_throw_inv {A B} (f : nat -> A -> Res B) (xs : list A) :
  forall i e, mapRes f i xs = Throw e ->
  exists j x, In x xs /\ f j x = Throw e.
Proof.
  induction xs as [|x xs IH]; intros i e H; simpl in H; [discriminate|].
  destruct (f i x) as [y|e'] eqn:Ef; simpl in H.
  - destruct (mapRes f (S i) xs) as [ys|e''] eqn:Em; simpl in H; [discriminate|].
    injection H as <-. destruct (IH _ _ Em) as (j & x' & Hin & Hf).
    exists j, x'. split; [now right|assumption].
  - injection H as <-. exists i, x. split; [now left|assumption].
Qed.

Lemma mapRes_ok_inv {A B} (f : nat -> A -> Res B) (xs : list A) :
  forall i ys, mapRes f i xs = Ok ys ->
  forall x, In x xs -> exists j y, f j x = Ok y /\ In y ys.
Proof.
  induction xs as [|x xs IH]; intros i ys H x' Hin; [destruct Hin|].
  simpl in H. destruct (f i x) as [y|e] eqn:Ef; simpl in H; [|discriminate].
  destruct (mapRes f (S i) xs) as [ys'|e] eqn:Em; simpl in H; [|discriminate].
  injection H as <-. destruct Hin as [<-|Hin].
  - exists i, y. split; [assumption|now left].
  - destruct (IH _ _ Em _ Hin) as (j & y' & Hf & Hy).
    exists j, y'. split; [assumption|now right].
Qed.

Lemma traverse_ok_inv {A B} (f : A -> option B) (xs : list A) :
  forall ys, traverse f xs = Some ys ->
  forall x, In x xs -> exists y, f x = Some y /\ In y ys.
Proof.
  induction xs as [|x xs IH]; intros ys H x' Hin; [destruct Hin|].
  simpl in H. destruct (f x) as [y|] eqn:Ef; simpl in H; [|discriminate].
  destruct (traverse f xs) as [ys'|] eqn:Et; simpl in H; [|discriminate].
  injection H as <-. destruct Hin as [<-|Hin].
  - exists y. split; [assumption|now left].
  - destruct (IH _ eq_refl _ Hin) as (y' & Hf & Hy).
    exists y'. split; [assumption|now right].
Qed.

Lemma traverse_Forall2 {A B} (f : A -> option B) (xs : list A) :
  forall ys, traverse f xs = Some ys -> Forall2 (fun x y => f x = Some y) xs ys.
Proof.
  induction xs as [|x xs IH]; intros ys H; simpl in H.
  - injection H as <-. constructor.
  - destruct (f x) as [y|] eqn:Ef; simpl in H; [|discriminate].
    destruct (traverse f xs) as [ys'|] eqn:Et; simpl in H; [|discriminate].
    injection H as <-. constructor; auto.
Qed.

Lemma preprocessCard_throws (i : nat) (c : json) (e : JsError) :
  preprocessCard i c = Throw e -> isBadRequestError e.
Proof.
  unfold preprocessCard. destruct (negb (isObjectLike c)); [|discriminate].
  intros H; injection H as <-. eexists; reflexivity.
Qed.

Lemma preprocessCards_throws (cs : list json) (e : JsError) :
  preprocessCards cs = Throw e -> isBadRequestError e.
Proof.
  intros H. apply mapRes_throw_inv in H as (j & x & _ & H).
  eapply preprocessCard_throws; eassumption.
Qed.

Lemma preprocessList_throws (i : nat) (l : json) (e : JsError) :
  preprocessList i l = Throw e -> isBadRequestError e.
Proof.
  unfold preprocessList. destruct (negb (isObjectLike l)).
  { intros H; injection H as <-. eexists; reflexivity. }
  destruct (nonEmptyStringProp "listName" l).
  - destruct (preprocessCards _) eqn:E; simpl; [discriminate|].
    intros H; injection H as <-. eapply preprocessCards_throws; eassumption.
  - intros H; injection H as <-. eexists; reflexivity.
Qed.

Lemma preprocess_throws (j : json) (e : JsError) :
  preprocess j = Throw e -> isBadRequestError e.
Proof.
  destruct j as [| | | |ls|fs]; simpl; try discriminate.
  - destruct (mapRes preprocessList 0 ls) eqn:E; simpl; [discriminate|].
    intros H; injection H as <-.
    apply mapRes_throw_inv in E as (i & x & _ & E).
    eapply preprocessList_throws; eassumption.
  - destruct (assoc "cards" fs) as [[| | | |cs|]|]; try discriminate.
    destruct (preprocessCards cs) eqn:E; simpl; [discriminate|].
    intros H; injection H as <-. eapply preprocessCards_throws; eassumption.
Qed.

Lemma validatePayload_throws (parse : string -> option json) (d : string)
    (e : JsError) :
  validatePayload parse d = Throw e -> isBadRequestError e.
Proof.
  unfold validatePayload. destruct (parse d) as [j|].
  - destruct (preprocess j) as [j'|e'] eqn:E; simpl.
    + destruct (ImportJsonSchema j'); [discriminate|].
      intros H; injection H as <-. eexists; reflexivity.
    + intros H; injection H as <-. eapply preprocess_throws; eassumption.
  - intros H; injection H as <-. eexists; reflexivity.
Qed.

Lemma mapRes_throws_at {A B} (f : nat -> A -> Res B) (xs : list A) (x : A) :
  In x xs -> (forall j, exists e, f j x = Throw e) ->
  forall i, exists e, mapRes f i xs = Throw e.
Proof.
  induction xs as [|y xs IH]; intros Hin Hx i; [destruct Hin|].
  simpl. destruct Hin as [->|Hin].
  - destruct (Hx i) as [e ->]. eexists; reflexivity.
  - destruct (f i y); simpl; [|eexists; reflexivity].
    destruct (IH Hin Hx (S i)) as [e ->]. eexists; reflexivity.
Qed.

Lemma preprocessCards_non_object (cs : list json) :
  existsb (fun c => negb (isObjectLike c)) cs = true ->
  exists e, preprocessCards cs = Throw e.
Proof.
  intros H. apply existsb_exists in H as (c & Hin & Hc).
  apply (mapRes_throws_at preprocessCard cs c Hin).
  intros j. unfold preprocessCard. rewrite Hc. eexists; reflexivity.
Qed.

Lemma preprocessList_unusable (l : json) :
  missingListName l = true
  \/ existsb (fun c => negb (isObjectLike c)) (arrayOrEmpty (prop "cards" l)) = true ->
  forall j, exists e, preprocessList j l = Throw e.
Proof.
  intros H j. unfold preprocessList.
  destruct (negb (isObjectLike l)); [eexists; reflexivity|].
  unfold nonEmptyStringProp, missingListName in *.
  destruct (prop "listName" l) as [[| | |s| |]|];
    try (eexists; reflexivity).
  destruct (Js.truthy s); [|eexists; reflexivity].
  destruct H as [H|H]; [discriminate|].
  destruct (preprocessCards_non_object _ H) as [e ->]. eexists; reflexivity.
Qed.

Lemma preprocess_unusable (j : json) :
  unusable j = true -> exists e, preprocess j = Throw e.
Proof.
  unfold unusable. intros H. apply orb_true_iff in H.
  destruct j as [| | | |ls|fs]; simpl in *;
    try (destruct H; discriminate).
  - assert (Hex : exists l, In l ls /\
              (missingListName l = true \/
               existsb (fun c => negb (isObjectLike c))
                       (arrayOrEmpty (prop "cards" l)) = true)).
    { destruct H as [H|H].
      - apply existsb_exists in H as (c & Hin & Hc).
        apply in_flat_map in Hin as (l & Hl & Hin).
        exists l. split; [assumption|]. right.
        apply existsb_exists. eauto.
      - apply existsb_exists in H as (l & Hl & Hm). eauto. }
    destruct Hex as (l & Hl & Hbad).
    destruct (mapRes_throws_at preprocessList ls l Hl
                (preprocessList_unusable l Hbad) 0) as [e ->].
    eexists; reflexivity.
  - destruct H as [H|H]; [|discriminate].
    destruct (assoc "cards" fs) as [[| | | |cs|]|]; try discriminate.
    simpl in H.
    destruct (preprocessCards_non_object _ H) as [e ->]. eexists; reflexivity.
Qed.

Lemma importCards_invalid (parse : string -> option json) (db : Behaviour)
    (colours : list string) (ctx : Ctx) (input : Input) (w : World)
    (userId : string) (e : JsError) :
  user ctx = Some userId -> Js.truthy userId = true ->
  validatePayload parse (data input) = Throw e ->
  importCards parse db colours ctx input w = (Throw e, w).
Proof.
  intros Hu Ht Hv. unfold importCards. rewrite Hu, Ht, Hv. reflexivity.
Qed.

(** C5. An authenticated import whose payload does not parse, is
    structurally unusable (a card that is not an object, an array entry
    without a string list name) or fails the schema raises a BAD_REQUEST
    error and leaves the store exactly as it was: no entity is written and
    no ImportBatch is created. *)
Theorem import_rejects_invalid_payload
    (parse : string -> option json) (db : Behaviour) (colours : list string)
    (ctx : Ctx) (input : Input) (w : World) (userId : string) :
  user ctx = Some userId -> Js.truthy userId = true ->
  parse (data input) = None
  \/ (exists j, parse (data input) = Some j /\ unusable j = true)
  \/ (exists j j', parse (data input) = Some j /\ preprocess j = Ok j'
                   /\ ImportJsonSchema j' = None) ->
  exists msg,
    importCards parse db colours ctx input w
    = (Throw (TRPCError BAD_REQUEST msg), w).
Proof.
  intros Hu Ht Hbad.
  assert (Hv : exists e, validatePayload parse (data input) = Throw e).
  { unfold validatePayload.
    destruct Hbad as [->|[(j & -> & Hj)|(j & j' & -> & -> & Hs)]].
    - eexists; reflexivity.
    - destruct (preprocess_unusable j Hj) as [e ->]. eexists; reflexivity.
    - simpl. rewrite Hs. eexists; reflexivity. }
  destruct Hv as [e Hv].
  destruct (validatePayload_throws _ _ _ Hv) as [msg ->].
  exists msg. eapply importCards_invalid; eassumption.
Qed.

Lemma zString_inv (lo hi : nat) (v : json) (s : string) :
  zString lo hi v = Some s -> v = JStr s /\ lo <= String.length s <= hi.
Proof.
  destruct v; simpl; try discriminate.
  destruct (lo <=? String.length s0) eqn:E1; simpl; [|discriminate].
  destruct (String.length s0 <=? hi) eqn:E2; [|discriminate].
  intros H; injection H as <-.
  apply Nat.leb_le in E1, E2. auto.
Qed.

Lemma zArray_inv {A} (elem : json -> option A) (lo hi : nat) (v : json)
    (ys : list A) :
  zArray elem lo hi v = Some ys ->
  exists l, v = JArr l /\ traverse elem l = Some ys
            /\ lo <= List.length l <= hi.
Proof.
  destruct v; simpl; try discriminate.
  destruct (lo <=? List.length elems) eqn:E1; simpl; [|discriminate].
  destruct (List.length elems <=? hi) eqn:E2; [|discriminate].
  intros H. apply Nat.leb_le in E1, E2. eauto.
Qed.

Lemma traverse_Forall {A B} (f : A -> option B) (P : B -> Prop) (xs : list A) :
  (forall x y, f x = Some y -> P y) ->
  forall ys, traverse f xs = Some ys -> Forall P ys.
Proof.
  intros Hf ys H. apply traverse_Forall2 in H.
  induction H; constructor; eauto.
Qed.

Lemma ChecklistItemSchema_bounds (v : json) (item : ChecklistItemData) :
  ChecklistItemSchema v = Some item -> itemWithinBounds item.
Proof.
  unfold ChecklistItemSchema, zRequired, itemWithinBounds.
  destruct (isPlainObject v); [|discriminate].
  destruct (prop "title" v) as [t|]; cbn [bindOpt]; [|discriminate].
  destruct (zString 1 500 t) as [s|] eqn:Es; cbn [bindOpt]; [|discriminate].
  destruct (zDefault zBoolean false (prop "completed" v)); cbn [bindOpt]; [|discriminate].
  intros H; injection H as <-. simpl. now apply zString_inv in Es.
Qed.

Lemma ChecklistSchema_bounds (v : json) (cl : ChecklistData) :
  ChecklistSchema v = Some cl -> checklistWithinBounds cl.
Proof.
  unfold ChecklistSchema, zRequired, checklistWithinBounds.
  destruct (isPlainObject v); [|discriminate].
  destruct (prop "name" v) as [t|]; cbn [bindOpt]; [|discriminate].
  destruct (zString 1 255 t) as [s|] eqn:Es; cbn [bindOpt]; [|discriminate].
  destruct (prop "items" v) as [i|]; cbn [bindOpt]; [|discriminate].
  destruct (zArray ChecklistItemSchema 0 50 i) as [items|] eqn:Ei; cbn [bindOpt];
    [|discriminate].
  intros H; injection H as <-. simpl. split.
  - now apply zString_inv in Es.
  - apply zArray_inv in Ei as (? & _ & Ht & _).
    eapply traverse_Forall; [|eassumption]. apply ChecklistItemSchema_bounds.
Qed.

Lemma CardSchema_bounds (v : json) (card : CardData) :
  CardSchema v = Some card -> cardWithinBounds card.
Proof.
  unfold CardSchema, zRequired, cardWithinBounds.
  destruct (isPlainObject v); [|discriminate].
  destruct (prop "title" v) as [t|]; cbn [bindOpt]; [|discriminate].
  destruct (zString 1 255 t) as [s|] eqn:Es; cbn [bindOpt]; [|discriminate].
  destruct (zDefault (zString 0 10000) "" (prop "description" v)) as [d|] eqn:Ed;
    cbn [bindOpt]; [|discriminate].
  destruct (zDefault (zArray (zString 0 50) 0 20) [] (prop "labels" v));
    cbn [bindOpt]; [|discriminate].
  destruct (zDefault (zArray ChecklistSchema 0 10) [] (prop "checklists" v))
    as [cls|] eqn:Ec; cbn [bindOpt]; [|discriminate].
  intros H; injection H as <-. simpl. repeat split.
  - now apply zString_inv in Es.
  - now apply zString_inv in Es.
  - unfold zDefault in Ed. destruct (prop "description" v).
    + now apply zString_inv in Ed.
    + injection Ed as <-. simpl. lia.
  - unfold zDefault in Ec. destruct (prop "checklists" v).
    + apply zArray_inv in Ec as (? & _ & Ht & _).
      eapply traverse_Forall; [|eassumption]. apply ChecklistSchema_bounds.
    + injection Ec as <-. constructor.
Qed.

Lemma ListSchema_bounds (v : json) (l : ListData) :
  ListSchema v = Some l -> listWithinBounds l.
Proof.
  unfold ListSchema, zRequired, listWithinBounds.
  destruct (isPlainObject v); [|discriminate].
  destruct (prop "listName" v) as [t|]; cbn [bindOpt]; [|discriminate].
  destruct (zString 1 255 t) as [s|] eqn:Es; cbn [bindOpt]; [|discriminate].
  destruct (prop "cards" v) as [c|]; cbn [bindOpt]; [|discriminate].
  destruct (zArray CardSchema 0 500 c) as [cs|] eqn:Ec; cbn [bindOpt]; [|discriminate].
  intros H; injection H as <-. simpl. split.
  - now apply zString_inv in Es.
  - apply zArray_inv in Ec as (? & _ & Ht & _).
    eapply traverse_Forall; [|eassumption]. apply CardSchema_bounds.
Qed.

(** Every field of an accepted payload is within its length bound. *)
Lemma validatePayload_bounds (parse : string -> option json) (d : string)
    (ls : list ListData) :
  validatePayload parse d = Ok ls -> Forall listWithinBounds ls.
Proof.
  unfold validatePayload. destruct (parse d) as [j|]; [|discriminate].
  destruct (preprocess j) as [j'|]; simpl; [|discriminate].
  unfold ImportJsonSchema.
  destruct (ListSchema j') as [l|] eqn:El.
  - intros H; injection H as <-. simpl. constructor; [|constructor].
    eapply ListSchema_bounds; eassumption.
  - destruct (zArray ListSchema 1 50 j') as [ls'|] eqn:Ea; [|discriminate].
    intros H; injection H as <-. simpl.
    apply zArray_inv in Ea as (? & _ & Ht & _).
    eapply traverse_Forall; [|eassumption]. apply ListSchema_bounds.
Qed.

Lemma longerThan_valid (n : nat) (k : string) (v : json) :
  longerThan n (prop k v) = true ->
  isObjectLike v = true
  /\ match nonEmptyStringProp k v with Some _ => true | None => false end = true.
Proof.
  unfold longerThan, nonEmptyStringProp.
  destruct v; simpl; try discriminate.
  destruct (assoc k fields) as [[| | |s| |]|]; try discriminate.
  intros H. apply Nat.ltb_lt in H. split; [reflexivity|].
  destruct s; simpl in *; [lia|reflexivity].
Qed.

Lemma longerThan_bounded (n : nat) (v : json) (s : string) :
  v = JStr s -> String.length s <= n -> longerThan n (Some v) = false.
Proof.
  intros -> H. simpl. apply Nat.ltb_ge. assumption.
Qed.

Lemma ChecklistItemSchema_preprocessed (item : json) (y : ChecklistItemData) :
  ChecklistItemSchema (preprocessItem item) = Some y ->
  longerThan 500 (prop "title" item) = false.
Proof.
  unfold ChecklistItemSchema, preprocessItem.
  destruct (prop "title" item) as [v|] eqn:Ep; [|reflexivity].
  cbn [isPlainObject field app prop assoc String.eqb Ascii.eqb Bool.eqb zRequired bindOpt].
  destruct (zString 1 500 v) as [s|] eqn:Es; cbn [bindOpt]; [|discriminate].
  intros _. apply zString_inv in Es as [-> Hs].
  eapply longerThan_bounded; [reflexivity|lia].
Qed.

Lemma ChecklistSchema_preprocessed (cl : json) (y : ChecklistData) :
  ChecklistSchema (preprocessChecklist cl) = Some y ->
  oversizedChecklist cl = false.
Proof.
  unfold ChecklistSchema, preprocessChecklist, oversizedChecklist.
  destruct (prop "name" cl) as [v|] eqn:Ep;
    cbn [isPlainObject field app prop assoc String.eqb Ascii.eqb Bool.eqb zRequired bindOpt];
    [|discriminate].
  destruct (zString 1 255 v) as [s|] eqn:Es; cbn [bindOpt]; [|discriminate].
  destruct (zArray ChecklistItemSchema 0 50 _) as [items|] eqn:Ei;
    cbn [bindOpt]; [|discriminate].
  intros _. apply zString_inv in Es as [-> Hs].
  rewrite (longerThan_bounded 255 (JStr s) s eq_refl) by lia.
  apply zArray_inv in Ei as (l & Hl & Ht & _). injection Hl as <-.
  destruct (existsb _ (arrayOrEmpty (prop "items" cl))) eqn:Ex;
    [|now rewrite andb_false_r].
  exfalso. apply existsb_exists in Ex as (item & Hin & Hlong).
  destruct (longerThan_valid _ _ _ Hlong) as [Ho Hv].
  assert (Hvalid : itemIsValid item = true).
  { unfold itemIsValid. now rewrite Ho, Hv. }
  destruct (traverse_ok_inv _ _ _ Ht (preprocessItem item)) as (y' & Hy & _).
  { apply in_map, filter_In. auto. }
  apply ChecklistItemSchema_preprocessed in Hy. congruence.
Qed.

Lemma oversizedChecklist_valid (cl : json) :
  oversizedChecklist cl = true -> checklistIsValid cl = true.
Proof.
  unfold oversizedChecklist. intros H. apply orb_true_iff in H as [H|H].
  - destruct (longerThan_valid _ _ _ H) as [Ho Hv].
    unfold checklistIsValid. now rewrite Ho, Hv.
  - now apply andb_true_iff in H as [H _].
Qed.

Lemma CardSchema_preprocessed (i : nat) (c c' : json) (d : CardData) :
  preprocessCard i c = Ok c' -> CardSchema c' = Some d ->
  oversizedCard c = false.
Proof.
  unfold preprocessCard. destruct (negb (isObjectLike c)); [discriminate|].
  intros H; injection H as <-.
  unfold CardSchema, oversizedCard.
  cbn [isPlainObject prop assoc String.eqb Ascii.eqb Bool.eqb zRequired zDefault bindOpt].
  destruct (zString 1 255 _) as [t|] eqn:Et; cbn [bindOpt]; [|discriminate].
  destruct (zString 0 10000 _) as [ds|] eqn:Ed; cbn [bindOpt]; [|discriminate].
  destruct (zArray (zString 0 50) 0 20 _) as [ls|]; cbn [bindOpt]; [|discriminate].
  destruct (zArray ChecklistSchema 0 10 _) as [cls|] eqn:Ec; cbn [bindOpt];
    [|discriminate].
  intros _.
  apply zString_inv in Et as [Ht Hlt]. apply zString_inv in Ed as [Hd Hld].
  assert (H1 : longerThan 255 (prop "title" c) = false).
  { destruct (prop "title" c) as [[| | |s| |]|]; try reflexivity.
    simpl in Ht. injection Ht as ->. simpl. apply Nat.ltb_ge. lia. }
  assert (H2 : longerThan 10000 (prop "description" c) = false).
  { destruct (prop "description" c) as [[| | |s| |]|]; try reflexivity.
    simpl in Hd. injection Hd as ->. unfold longerThan. apply Nat.ltb_ge. lia. }
  rewrite H1, H2. cbn [orb].
  apply zArray_inv in Ec as (l & Hl & Htr & _). injection Hl as <-.
  destruct (existsb _ _) eqn:Ex; [|reflexivity].
  exfalso. apply existsb_exists in Ex as (cl & Hin & Hover).
  destruct (traverse_ok_inv _ _ _ Htr (preprocessChecklist cl)) as (y' & Hy & _).
  { apply in_map, filter_In. split; [assumption|].
    now apply oversizedChecklist_valid. }
  apply ChecklistSchema_preprocessed in Hy. congruence.
Qed.

Lemma preprocessed_cards_not_oversized (cs cs' : list json) (lo hi : nat)
    (ds : list CardData) :
  preprocessCards cs = Ok cs' ->
  zArray CardSchema lo hi (JArr cs') = Some ds ->
  existsb oversizedCard cs = false.
Proof.
  intros Hp Hz. apply zArray_inv in Hz as (l & Hl & Ht & _). injection Hl as <-.
  destruct (existsb oversizedCard cs) eqn:Ex; [|reflexivity].
  exfalso. apply existsb_exists in Ex as (c & Hin & Hover).
  destruct (mapRes_ok_inv _ _ _ _ Hp c Hin) as (j & c' & Hc & Hin').
  destruct (traverse_ok_inv _ _ _ Ht c' Hin') as (d & Hd & _).
  pose proof (CardSchema_preprocessed _ _ _ _ Hc Hd). congruence.
Qed.

Lemma ListSchema_cards (v : json) (l : ListData) :
  ListSchema v = Some l ->
  exists cs, prop "cards" v = Some cs /\ zArray CardSchema 0 500 cs = Some (listCards l).
Proof.
  unfold ListSchema, zRequired.
  destruct (isPlainObject v); [|discriminate].
  destruct (prop "listName" v) as [t|]; cbn [bindOpt]; [|discriminate].
  destruct (zString 1 255 t) as [s|]; cbn [bindOpt]; [|discriminate].
  destruct (prop "cards" v) as [c|]; cbn [bindOpt]; [|discriminate].
  destruct (zArray CardSchema 0 500 c) as [cs|] eqn:Ec; cbn [bindOpt]; [|discriminate].
  intros H; injection H as <-. simpl. eauto.
Qed.

Lemma preprocessList_not_oversized (i : nat) (l l' : json) (y : ListData) :
  preprocessList i l = Ok l' -> ListSchema l' = Some y ->
  existsb oversizedCard (arrayOrEmpty (prop "cards" l)) = false.
Proof.
  unfold preprocessList. destruct (negb (isObjectLike l)); [discriminate|].
  destruct (nonEmptyStringProp "listName" l); [|discriminate].
  destruct (preprocessCards _) as [cs'|] eqn:Ep; simpl; [|discriminate].
  intros H; injection H as <-. intros Hs.
  apply ListSchema_cards in Hs as (cs & Hc & Hz).
  simpl in Hc. injection Hc as <-.
  eapply preprocessed_cards_not_oversized; eassumption.
Qed.

Lemma validatePayload_oversized (parse : string -> option json) (d : string)
    (j : json) :
  parse d = Some j -> existsb oversizedCard (rawCards j) = true ->
  exists e, validatePayload parse d = Throw e.
Proof.
  intros Hp Hover. unfold validatePayload. rewrite Hp.
  destruct (preprocess j) as [j'|e] eqn:Epre; simpl; [|eauto].
  destruct (ImportJsonSchema j') as [importData|] eqn:Es; [|eauto].
  exfalso. unfold ImportJsonSchema in Es.
  destruct j as [| | | |ls|fs]; simpl in Hover; try discriminate.
  - simpl in Epre.
    destruct (mapRes preprocessList 0 ls) as [ls'|] eqn:Em; simpl in Epre;
      [|discriminate].
    injection Epre as <-.
    change (ListSchema (JArr ls')) with (@None ListData) in Es.
    destruct (zArray ListSchema 1 50 (JArr ls')) as [ys|] eqn:Ea; [|discriminate].
    apply zArray_inv in Ea as (l0 & Hl0 & Et & _). injection Hl0 as <-.
    apply existsb_exists in Hover as (c & Hin & Hc).
    apply in_flat_map in Hin as (l & Hl & Hin).
    destruct (mapRes_ok_inv _ _ _ _ Em l Hl) as (i & l' & Hpl & Hin').
    destruct (traverse_ok_inv _ _ _ Et l' Hin') as (y & Hy & _).
    pose proof (preprocessList_not_oversized _ _ _ _ Hpl Hy) as Hno.
    assert (existsb oversizedCard (arrayOrEmpty (prop "cards" l)) = true)
      by (apply existsb_exists; eauto).
    congruence.
  - simpl in Epre.
    destruct (assoc "cards" fs) as [[| | | |cs|]|]; simpl in Hover;
      try discriminate.
    destruct (preprocessCards cs) as [cs'|] eqn:Ep; simpl in Epre; [|discriminate].
    injection Epre as <-.
    destruct (ListSchema _) as [y|] eqn:El.
    + apply ListSchema_cards in El as (cs0 & Hc & Hz).
      assert (cs0 = JArr cs') as ->.
      { destruct (assoc "listName" fs); simpl in Hc; congruence. }
      pose proof (preprocessed_cards_not_oversized _ _ _ _ _ Ep Hz). congruence.
    + destruct (assoc "listName" fs); discriminate.
Qed.

(** The validator stands before the writer: an authenticated import whose
    payload holds a text over its bound (a card title over 255 characters,
    a description over 10000, a checklist name over 255, a checklist item
    title over 500) raises BAD_REQUEST before any write, so that the
    truncation the writer provides for such a text is never reached. *)
Lemma import_rejects_oversized_fields
    (parse : string -> option json) (db : Behaviour) (colours : list string)
    (ctx : Ctx) (input : Input) (w : World) (userId : string) (j : json) :
  user ctx = Some userId -> Js.truthy userId = true ->
  parse (data input) = Some j ->
  existsb oversizedCard (rawCards j) = true ->
  exists msg,
    importCards parse db colours ctx input w
    = (Throw (TRPCError BAD_REQUEST msg), w).
Proof.
  intros Hu Ht Hp Hover.
  destruct (validatePayload_oversized parse _ j Hp Hover) as [e Hv].
  destruct (validatePayload_throws _ _ _ Hv) as [msg ->].
  exists msg. eapply importCards_invalid; eassumption.
Qed.

(* ===================================================================== *)
(** ** Preservation along a computation *)
(* ===================================================================== *)

Section Preservation.

Context {St : Type} (R : St -> St -> Prop).
Hypothesis R_refl : forall s, R s s.
Hypothesis R_trans : forall a b c, R a b -> R b c -> R a c.

Lemma preserves_ret {A} (a : A) : preserves R (ret a).
Proof. intros s. apply R_refl. Qed.

Lemma preserves_throw {A} (e : JsError) : preserves R (@throw St A e).
Proof. intros s. apply R_refl. Qed.

Lemma preserves_bind {A B} (m : M St A) (k : A -> M St B) :
  preserves R m -> (forall a, preserves R (k a)) -> preserves R (bind m k).
Proof.
  intros Hm Hk s. unfold bind. specialize (Hm s).
  destruct (m s) as [[a|e] s']; simpl in *.
  - eapply R_trans; [eassumption|apply Hk].
  - assumption.
Qed.

Lemma preserves_when (b : bool) (m : M St unit) :
  preserves R m -> preserves R (when b m).
Proof. destruct b; simpl; [auto|intros _; apply preserves_ret]. Qed.

Lemma preserves_forEachM {A} (f : nat -> A -> M St unit) (xs : list A) :
  (forall i x, preserves R (f i x)) -> forall i, preserves R (forEachM f i xs).
Proof.
  intros Hf. induction xs as [|x xs IH]; intros i; simpl.
  - apply preserves_ret.
  - apply preserves_bind; auto.
Qed.

Lemma preserves_mapM {A B} (f : nat -> A -> M St B) (xs : list A) :
  (forall i x, preserves R (f i x)) -> forall i, preserves R (mapM f i xs).
Proof.
  intros Hf. induction xs as [|x xs IH]; intros i; simpl.
  - apply preserves_ret.
  - apply preserves_bind; [auto|]. intros y.
    apply preserves_bind; [auto|]. intros ys. apply preserves_ret.
Qed.

Lemma preserves_tryCatch {A} (m : M St A) (h : JsError -> M St A) :
  preserves R m -> (forall e, preserves R (h e)) -> preserves R (tryCatch m h).
Proof.
  intros Hm Hh s. unfold tryCatch. specialize (Hm s).
  destruct (m s) as [[a|e] s']; simpl in *; [assumption|].
  eapply R_trans; [eassumption|apply Hh].
Qed.

End Preservation.

Section WorldPreservation.

Context (R : World -> World -> Prop).
Hypothesis R_refl : forall w, R w w.
Hypothesis R_trans : forall a b c, R a b -> R b c -> R a c.
Hypothesis R_calls : forall n w, R w (setStoreCalls n w).

Lemma preserves_repoCall {A} (db : Behaviour) (op : Op)
    (write : World -> A * World) (nothing : A) :
  (forall w, R w (snd (write w))) ->
  preserves R (repoCall db op write nothing).
Proof.
  intros Hw w. unfold repoCall.
  destruct (db op (storeCalls w)); [|cbn [snd]; auto..].
  specialize (Hw (setStoreCalls (S (storeCalls w)) w)).
  destruct (write (setStoreCalls (S (storeCalls w)) w)) as [a w2].
  cbn [snd] in *. eapply R_trans; [apply R_calls|exact Hw].
Qed.

Lemma preserves_liftDb {A} (m : M World A) :
  preserves R m -> preserves (onWorld R) (liftDb m).
Proof.
  intros Hm s. unfold liftDb, onWorld. specialize (Hm (world s)).
  destruct (m (world s)) as [r w']. assumption.
Qed.

Lemma onWorld_refl : forall s, onWorld R s s.
Proof. intros s. apply R_refl. Qed.

Lemma onWorld_trans : forall a b c, onWorld R a b -> onWorld R b c -> onWorld R a c.
Proof. unfold onWorld. eauto. Qed.

End WorldPreservation.

Lemma prefixOf_refl {A} (l : list A) : prefixOf l l.
Proof. exists []. now rewrite app_nil_r. Qed.

Lemma prefixOf_trans {A} (a b c : list A) :
  prefixOf a b -> prefixOf b c -> prefixOf a c.
Proof. intros [t ->] [u ->]. exists (t ++ u). now rewrite app_assoc. Qed.

Lemma prefixOf_app {A} (l t : list A) : prefixOf l (l ++ t).
Proof. now exists t. Qed.

Lemma extends_refl (w : World) : extends w w.
Proof. constructor; auto using prefixOf_refl. Qed.

Lemma extends_trans (a b c : World) : extends a b -> extends b c -> extends a c.
Proof.
  intros [] []. constructor; try congruence; eapply prefixOf_trans; eassumption.
Qed.

Lemma extends_calls (n : nat) (w : World) : extends w (setStoreCalls n w).
Proof. constructor; simpl; auto using prefixOf_refl. Qed.

Lemma extends_uid (n : nat) (w : World) : extends w (setUidSeed n w).
Proof. constructor; simpl; auto using prefixOf_refl. Qed.

Ltac extends_row :=
  constructor; simpl; auto using prefixOf_refl, prefixOf_app.

Lemma labelRepo_insert_fold (inputs : list LabelInput) :
  forall w, extends w (fold_left labelRepo.insert inputs w).
Proof.
  induction inputs as [|x xs IH]; intros w; simpl; [apply extends_refl|].
  eapply extends_trans; [|apply IH]. unfold labelRepo.insert. extends_row.
Qed.

Lemma cardRepo_insert_fold (inputs : list CardInput) :
  forall w, extends w (fold_left cardRepo.insert inputs w).
Proof.
  induction inputs as [|x xs IH]; intros w; simpl; [apply extends_refl|].
  eapply extends_trans; [|apply IH]. unfold cardRepo.insert. extends_row.
Qed.

Lemma map_setStatus_ids (status : ImportStatus) (id : nat) (rows : list ImportRow) :
  map importId (map (importRepo.setStatus status id) rows) = map importId rows.
Proof.
  induction rows as [|r rows IH]; simpl; [reflexivity|]. f_equal; [|assumption].
  unfold importRepo.setStatus. destruct (importId r =? id); reflexivity.
Qed.

Ltac extends_repo :=
  apply preserves_repoCall;
  [apply extends_trans | intros; apply extends_calls | intros w; simpl ].

Lemma extends_importRepo_create db source createdBy :
  preserves extends (importRepo.create db source createdBy).
Proof. extends_repo. extends_row. rewrite map_app. apply prefixOf_app. Qed.

Lemma extends_importRepo_update db status id :
  preserves extends (importRepo.update db status id).
Proof.
  extends_repo. extends_row. rewrite map_setStatus_ids. apply prefixOf_refl.
Qed.

Lemma extends_labelRepo_bulkCreate db inputs :
  preserves extends (labelRepo.bulkCreate db inputs).
Proof. extends_repo. apply labelRepo_insert_fold. Qed.

Lemma extends_listRepo_create db name createdBy board importId :
  preserves extends (listRepo.create db name createdBy board importId).
Proof. extends_repo. extends_row. Qed.

Lemma extends_cardRepo_bulkCreate db inputs :
  preserves extends (cardRepo.bulkCreate db inputs).
Proof. extends_repo. apply cardRepo_insert_fold. Qed.

Lemma extends_cardRepo_relations db relations :
  preserves extends (cardRepo.bulkCreateCardLabelRelationship db relations).
Proof. extends_repo. extends_row. Qed.

Lemma extends_cardActivityRepo_bulkCreate db activities :
  preserves extends (cardActivityRepo.bulkCreate db activities).
Proof. extends_repo. extends_row. Qed.

Lemma extends_checklistRepo_create db name card createdBy :
  preserves extends (checklistRepo.create db name card createdBy).
Proof. extends_repo. extends_row. Qed.

Lemma extends_checklistRepo_createItem db title checklist createdBy :
  preserves extends (checklistRepo.createItem db title checklist createdBy).
Proof. extends_repo. extends_row. Qed.

Lemma extends_generateUID : preserves extends generateUID.
Proof. intros w. apply extends_uid. Qed.

Ltac extends_ops :=
  first
    [ exact extends_refl | exact extends_trans | exact extends_generateUID
    | exact (extends_cardRepo_bulkCreate _)
    | exact (extends_cardActivityRepo_bulkCreate _)
    | exact (extends_cardRepo_relations _)
    | exact (extends_checklistRepo_create _)
    | exact (extends_checklistRepo_createItem _)
    | exact (extends_listRepo_create _)
    | exact (extends_labelRepo_bulkCreate _)
    | exact (extends_importRepo_update _)
    | exact (extends_importRepo_create _) ].

Ltac preserve :=
  repeat first
    [ progress intros
    | apply preserves_liftDb
    | match goal with
      | |- preserves _ (bind _ _) => apply preserves_bind
      | |- preserves _ (ret _) => apply preserves_ret
      | |- preserves _ (throw _) => apply preserves_throw
      | |- preserves _ (when _ _) => apply preserves_when
      | |- preserves _ (forEachM _ _ _) => apply preserves_forEachM
      | |- preserves _ (mapM _ _ _) => apply preserves_mapM
      | |- preserves _ (tryCatch _ _) => apply preserves_tryCatch
      | |- preserves _ (match ?x with _ => _ end) => destruct x
      end
    | solve [eauto using onWorld_refl, onWorld_trans] ].

Section PipelinePreservation.

Context (R : World -> World -> Prop) (db : Behaviour).
Hypothesis R_refl : forall w, R w w.
Hypothesis R_trans : forall a b c, R a b -> R b c -> R a c.

Lemma preserves_pushWarnings xs : preserves (onWorld R) (pushWarnings xs).
Proof. intros s. apply R_refl. Qed.

Lemma preserves_pushExistingList l : preserves (onWorld R) (pushExistingList l).
Proof. intros s. apply R_refl. Qed.

Lemma preserves_pushCreatedCards cs : preserves (onWorld R) (pushCreatedCards cs).
Proof. intros s. apply R_refl. Qed.

Lemma preserves_getExistingLists : preserves (onWorld R) getExistingLists.
Proof. intros s. apply R_refl. Qed.

Hint Resolve preserves_pushWarnings preserves_pushExistingList
  preserves_pushCreatedCards preserves_getExistingLists : core.

Hypothesis R_uid : preserves R generateUID.
Hypothesis R_cards : forall inputs, preserves R (cardRepo.bulkCreate db inputs).
Hypothesis R_activities :
  forall acts, preserves R (cardActivityRepo.bulkCreate db acts).
Hypothesis R_relations :
  forall rels, preserves R (cardRepo.bulkCreateCardLabelRelationship db rels).
Hypothesis R_checklist :
  forall name card by_, preserves R (checklistRepo.create db name card by_).
Hypothesis R_item :
  forall title cl by_, preserves R (checklistRepo.createItem db title cl by_).

Variables (userId : string) (board newImportId : nat).
Variable labelMap : list (string * nat).

Lemma createItem_preserves lname title j checklist k itemData :
  preserves (onWorld R) (createItem db userId lname title j checklist k itemData).
Proof. unfold createItem. preserve. Qed.

Lemma createChecklist_preserves lname createdCard cardData j checklistData :
  preserves (onWorld R)
    (createChecklist db userId lname createdCard cardData j checklistData).
Proof.
  unfold createChecklist. preserve. apply createItem_preserves.
Qed.

Lemma createChecklistsOfCard_preserves lname m createdCard :
  preserves (onWorld R) (createChecklistsOfCard db userId lname m createdCard).
Proof.
  unfold createChecklistsOfCard. preserve. apply createChecklist_preserves.
Qed.

Lemma writeCardDetails_preserves listData m createdCards :
  preserves (onWorld R)
    (writeCardDetails db userId labelMap listData m createdCards).
Proof.
  unfold writeCardDetails. preserve. apply createChecklistsOfCard_preserves.
Qed.

Lemma prepareCard_preserves target index card :
  preserves R (prepareCard userId newImportId target index card).
Proof. unfold prepareCard. preserve. Qed.

Lemma writeCards_preserves listData targetList :
  preserves (onWorld R)
    (writeCards db userId newImportId labelMap listData targetList).
Proof.
  unfold writeCards. preserve;
    auto using prepareCard_preserves, writeCardDetails_preserves.
Qed.

Hypothesis R_list :
  forall name by_ b i, preserves R (listRepo.create db name by_ b i).

Lemma findOrCreateList_preserves listData :
  preserves (onWorld R) (findOrCreateList db userId board newImportId listData).
Proof. unfold findOrCreateList. preserve. Qed.

Lemma processList_preserves listData :
  preserves (onWorld R)
    (processList db userId board newImportId labelMap listData).
Proof.
  unfold processList. preserve;
    auto using findOrCreateList_preserves, writeCards_preserves.
Qed.

Lemma processLists_preserves listsToImport :
  preserves (onWorld R)
    (processLists db userId board newImportId labelMap listsToImport).
Proof. unfold processLists. preserve. apply processList_preserves. Qed.

Hypothesis R_labels : forall inputs, preserves R (labelRepo.bulkCreate db inputs).

Lemma resolveLabels_preserves colours existingLabels listsToImport :
  preserves R
    (resolveLabels db colours userId board newImportId existingLabels listsToImport).
Proof. unfold resolveLabels. preserve. Qed.

End PipelinePreservation.

(* ===================================================================== *)
(** ** Loops *)
(* ===================================================================== *)

Lemma forEachM_const_index {St A} (f : A -> M St unit) (xs : list A) :
  forall i j s, forEachM (fun _ => f) i xs s = forEachM (fun _ => f) j xs s.
Proof.
  induction xs as [|x xs IH]; intros i j s; simpl; [reflexivity|].
  unfold bind. destruct (f x s) as [[[]|e] s']; [apply IH|reflexivity].
Qed.

Lemma forEachM_app {St A} (f : nat -> A -> M St unit) (xs ys : list A) :
  forall i s,
    forEachM f i (xs ++ ys) s
    = bind (forEachM f i xs) (fun _ => forEachM f (i + List.length xs) ys) s.
Proof.
  induction xs as [|x xs IH]; intros i s; simpl.
  - unfold bind, ret. now rewrite Nat.add_0_r.
  - unfold bind. destruct (f i x s) as [[[]|e] s']; [|reflexivity].
    rewrite IH. unfold bind. now rewrite Nat.add_succ_r.
Qed.

Lemma forEachM_cons_ok {St A} (f : nat -> A -> M St unit) (x : A) (xs : list A)
    (i : nat) (s s' : St) :
  f i x s = (Ok tt, s') ->
  forEachM f i (x :: xs) s = forEachM f (S i) xs s'.
Proof. intros H. simpl. unfold bind. now rewrite H. Qed.

Lemma forEachM_cons_throw {St A} (f : nat -> A -> M St unit) (x : A) (xs : list A)
    (i : nat) (s s' : St) (e : JsError) :
  f i x s = (Throw e, s') ->
  forEachM f i (x :: xs) s = (Throw e, s').
Proof. intros H. simpl. unfold bind. now rewrite H. Qed.

(* ===================================================================== *)
(** ** Lists without cards *)
(* ===================================================================== *)

Lemma allLabelNamesOf_app (xs ys : list ListData) :
  allLabelNamesOf (xs ++ ys)
  = fold_left (fun acc listData =>
      fold_left (fun acc card =>
        fold_left (fun acc labelName =>
          if negb (Js.trim labelName =? "")%string
          then setAdd (Js.trim labelName) acc
          else acc)
          (cardLabels card) acc)
        (listCards listData) acc)
      ys (allLabelNamesOf xs).
Proof. unfold allLabelNamesOf. apply fold_left_app. Qed.

Lemma allLabelNamesOf_skip (pre post : list ListData) (listData : ListData) :
  listCards listData = [] ->
  allLabelNamesOf (pre ++ listData :: post) = allLabelNamesOf (pre ++ post).
Proof.
  intros H. rewrite !allLabelNamesOf_app. simpl. now rewrite H.
Qed.

Lemma processList_empty db userId board importId labelMap listData st :
  listCards listData = [] ->
  processList db userId board importId labelMap listData st
  = (if Js.truthy (Js.trim (listName listData))
     then Ok tt
     else Throw (TRPCError BAD_REQUEST
       "Invalid list data: listName is required and must be a non-empty string"),
     st).
Proof.
  intros H. unfold processList. rewrite H.
  destruct (Js.truthy (Js.trim (listName listData))); reflexivity.
Qed.

(** C6. A list entry whose card array is empty is skipped: processing it
    leaves the whole state as it was, so no list is looked up, created or
    touched for it, whatever lists the board has; and when its name is not
    blank, the import of a payload holding the entry proceeds exactly as
    the import of the payload without it. *)
Theorem empty_list_is_skipped
    (db : Behaviour) (userId : string) (board importId : nat)
    (labelMap : list (string * nat)) (listData : ListData)
    (pre post : list ListData) (st : ImportState) :
  listCards listData = [] ->
  snd (processList db userId board importId labelMap listData st) = st
  /\ (Js.truthy (Js.trim (listName listData)) = true ->
      processList db userId board importId labelMap listData st = (Ok tt, st)
      /\ processLists db userId board importId labelMap (pre ++ listData :: post) st
         = processLists db userId board importId labelMap (pre ++ post) st
      /\ allLabelNamesOf (pre ++ listData :: post) = allLabelNamesOf (pre ++ post)).
Proof.
  intros Hempty. split.
  - now rewrite processList_empty.
  - intros Hname.
    assert (Hskip : forall s,
      processList db userId board importId labelMap listData s = (Ok tt, s)).
    { intros s. now rewrite processList_empty, Hname. }
    split; [apply Hskip|]. split; [|now apply allLabelNamesOf_skip].
    unfold processLists. rewrite !forEachM_app. unfold bind.
    destruct (forEachM _ 0 pre st) as [[[]|e] s1]; [|reflexivity].
    rewrite (forEachM_cons_ok _ _ _ _ _ _ (Hskip s1)).
    apply forEachM_const_index.
Qed.

Lemma empty_list_is_skipped_witness :
  listCards Sample.emptyList = []
  /\ snd (processList Sample.allSucceed "user-1" 1 1 [] Sample.emptyList
            (emptyState Sample.world0))
     = emptyState Sample.world0.
Proof.
  split; [reflexivity|].
  apply (empty_list_is_skipped Sample.allSucceed "user-1" 1 1 []
           Sample.emptyList [] [] (emptyState Sample.world0)).
  reflexivity.
Defined.

(** C1, at the failing input: a payload that is valid except for a card
    title of 256 characters. The writer is made for it: handed the list,
    it stores the first 255 characters of the title and pushes the one
    warning about the title. But the import never hands it the list: the
    validator refuses the title first, the call raises BAD_REQUEST and the
    store is left as it was, nothing truncated and nothing warned of. *)
Theorem oversized_title_is_not_truncated :
  (exists msg,
     importCards (Sample.parseAs Sample.longTitleDoc) Sample.allSucceed
       Sample.palette Sample.ctx (Sample.input "doc") Sample.world0
     = (Throw (TRPCError BAD_REQUEST msg), Sample.world0))
  /\ (let st := snd (processList Sample.allSucceed "user-1" 1 1 []
                       Sample.longTitleList
                       (startState Sample.world1 [])) in
      map cardRowTitle (cards (world st)) = [Sample.repeatChar "a" 255]
      /\ warnings st
         = [TitleTruncated "To Do" 1 (Sample.repeatChar "a" 256)]).
Proof.
  split.
  - eexists. vm_compute. reflexivity.
  - split; vm_compute; reflexivity.
Qed.

Lemma import_rejects_oversized_fields_witness :
  exists msg,
    importCards (Sample.parseAs Sample.longTitleDoc) Sample.allSucceed
      Sample.palette Sample.ctx (Sample.input "doc") Sample.world0
    = (Throw (TRPCError BAD_REQUEST msg), Sample.world0).
Proof.
  apply (import_rejects_oversized_fields
           (Sample.parseAs Sample.longTitleDoc) Sample.allSucceed
           Sample.palette Sample.ctx (Sample.input "doc") Sample.world0
           "user-1" Sample.longTitleDoc);
    vm_compute; reflexivity.
Defined.

Lemma import_rejects_invalid_payload_witness :
  exists msg,
    importCards (fun _ => None) Sample.allSucceed
      Sample.palette Sample.ctx (Sample.input "{") Sample.world0
    = (Throw (TRPCError BAD_REQUEST msg), Sample.world0).
Proof.
  apply (import_rejects_invalid_payload
           (fun _ => None) Sample.allSucceed
           Sample.palette Sample.ctx (Sample.input "{") Sample.world0
           "user-1" eq_refl eq_refl).
  left. reflexivity.
Defined.

(* ===================================================================== *)
(** ** The import under its ledger *)
(* ===================================================================== *)

Lemma importCards_granted parse db colours ctx input w userId board lists :
  accessGranted w ctx (inputBoardPublicId input) = Some (userId, board) ->
  validatePayload parse (data input) = Ok lists ->
  importCards parse db colours ctx input w
  = importWithLedger db colours userId (boardId board) lists w.
Proof.
  unfold accessGranted, importCards. intros Ha Hv.
  destruct (user ctx) as [u|]; [|discriminate].
  destruct (Js.truthy u); [|discriminate]. simpl. rewrite Hv.
  destruct (findBoard w _) as [b|]; [|discriminate].
  destruct (workspaceRepo.getById w _) as [ws|]; [|discriminate].
  destruct (existsb _ _) eqn:Em; [|discriminate].
  injection Ha as -> ->.
  unfold bind at 1. unfold assertUserInWorkspace. now rewrite Em.
Qed.

Lemma importRepo_create_inv db source createdBy w r w' :
  importRepo.create db source createdBy w = (r, w') ->
  match r with
  | Ok (Some row) =>
      (importId row =? 0) = false
      /\ db ImportCreate (storeCalls w) = Succeeds
      /\ imports w' = imports w ++ [row]
      /\ importStatus row = Pending
  | Ok None => db ImportCreate (storeCalls w) = NoResult
  | Throw _ => db ImportCreate (storeCalls w) = Raises
  end.
Proof.
  unfold importRepo.create, repoCall.
  destruct (db ImportCreate (storeCalls w)); intros H; injection H as <- <-;
    simpl; auto.
Qed.

Lemma importWithLedger_created db colours userId board lists w row wa :
  importRepo.create db "json" userId w = (Ok (Some row), wa) ->
  importWithLedger db colours userId board lists w
  = tryCatch (importTry db colours userId board (importId row) lists)
             (importCatch db (importId row)) wa.
Proof.
  intros H. unfold importWithLedger, bind. rewrite H.
  apply importRepo_create_inv in H as (-> & _). reflexivity.
Qed.

Lemma processLists_failing db userId board importId labelMap pre l post st st1 e st2 :
  processLists db userId board importId labelMap pre st = (Ok tt, st1) ->
  processList db userId board importId labelMap l st1 = (Throw e, st2) ->
  processLists db userId board importId labelMap (pre ++ l :: post) st
  = (Throw e, st2).
Proof.
  unfold processLists. intros Hpre Hl.
  rewrite forEachM_app. unfold bind at 1. rewrite Hpre.
  eapply forEachM_cons_throw. eassumption.
Qed.

Lemma importCatch_marks db id e w :
  db ImportUpdate (storeCalls w) = Succeeds ->
  importCatch db id e w
  = (Throw (TRPCError INTERNAL_SERVER_ERROR
              ("Import failed: " ++ errorMessage e)%string),
     markFailed id w).
Proof.
  intros H. unfold importCatch, bind, importRepo.update, repoCall.
  rewrite H. reflexivity.
Qed.

Lemma markFailed_extends id w : extends w (markFailed id w).
Proof.
  unfold markFailed. extends_row. rewrite map_setStatus_ids. apply prefixOf_refl.
Qed.

Lemma markFailed_status id w r :
  In r (imports (markFailed id w)) -> importId r = id -> importStatus r = Failed.
Proof.
  unfold markFailed. simpl. intros Hin Hid.
  apply in_map_iff in Hin as (r0 & <- & _).
  unfold importRepo.setStatus in *.
  destruct (importId r0 =? id) eqn:E; [reflexivity|].
  apply Nat.eqb_neq in E. contradiction.
Qed.

Lemma processList_extends db userId board importId labelMap listData :
  preserves (onWorld extends)
    (processList db userId board importId labelMap listData).
Proof.
  apply processList_preserves; extends_ops.
Qed.

(** C4. When the lists before the N-th are processed and the N-th raises,
    the import stops there: the lists after it are not touched, the ledger
    record is marked failed, the error is raised again as an
    INTERNAL_SERVER_ERROR carrying the original message, every row written
    before the failing list is still there, and the caller receives the
    error alone, without the warnings gathered so far. *)
Theorem failing_list_aborts_import
    (parse : string -> option json) (db : Behaviour) (colours : list string)
    (ctx : Ctx) (input : Input) (w : World) (userId : string) (board : BoardRow)
    (pre post : list ListData) (l : ListData)
    (row : ImportRow) (wa w1 : World) (labelMap : list (string * nat))
    (st1 st2 : ImportState) (e : JsError) :
  accessGranted w ctx (inputBoardPublicId input) = Some (userId, board) ->
  validatePayload parse (data input) = Ok (pre ++ l :: post) ->
  importRepo.create db "json" userId w = (Ok (Some row), wa) ->
  resolveLabels db colours userId (boardId board) (importId row)
    (existingLabelsOf wa (boardId board)) (pre ++ l :: post) wa
  = (Ok labelMap, w1) ->
  processLists db userId (boardId board) (importId row) labelMap pre
    (startState w1 (existingListsOf wa (boardId board)))
  = (Ok tt, st1) ->
  processList db userId (boardId board) (importId row) labelMap l st1
  = (Throw e, st2) ->
  db ImportUpdate (storeCalls (world st2)) = Succeeds ->
  importCards parse db colours ctx input w
  = (Throw (TRPCError INTERNAL_SERVER_ERROR
              ("Import failed: " ++ errorMessage e)%string),
     markFailed (importId row) (world st2))
  /\ extends (world st1) (markFailed (importId row) (world st2))
  /\ (forall r, In r (imports (markFailed (importId row) (world st2))) ->
                importId r = importId row -> importStatus r = Failed).
Proof.
  intros Ha Hv Hc Hl Hpre Hfail Hup. split; [|split].
  - rewrite (importCards_granted _ _ _ _ _ _ _ _ _ Ha Hv).
    rewrite (importWithLedger_created _ _ _ _ _ _ _ _ Hc).
    unfold tryCatch, importTry. rewrite Hl.
    fold (startState w1 (existingListsOf wa (boardId board))).
    rewrite (processLists_failing _ _ _ _ _ _ _ _ _ _ _ _ Hpre Hfail).
    now apply importCatch_marks.
  - eapply extends_trans; [|apply markFailed_extends].
    pose proof (processList_extends db userId (boardId board) (importId row)
                  labelMap l st1) as H.
    unfold onWorld in H. now rewrite Hfail in H.
  - apply markFailed_status.
Qed.

Lemma failing_list_aborts_import_witness :
  importCards (Sample.parseAs Sample.threeListsDoc) Sample.checklistsRaise
    Sample.palette Sample.ctx (Sample.input "doc") Sample.world0
  = (Throw (TRPCError INTERNAL_SERVER_ERROR
              ("Import failed: " ++ errorMessage (StoreError "store error"))%string),
     markFailed (importId Sample.ledgerRow) (world Sample.stateAtFailure))
  /\ extends (world Sample.stateAfterFirst)
       (markFailed (importId Sample.ledgerRow) (world Sample.stateAtFailure))
  /\ (forall r,
        In r (imports (markFailed (importId Sample.ledgerRow)
                         (world Sample.stateAtFailure))) ->
        importId r = importId Sample.ledgerRow -> importStatus r = Failed).
Proof.
  apply (failing_list_aborts_import
           (Sample.parseAs Sample.threeListsDoc) Sample.checklistsRaise
           Sample.palette Sample.ctx (Sample.input "doc") Sample.world0
           "user-1" Sample.board1
           [Sample.firstList] [Sample.thirdList] Sample.secondList
           Sample.ledgerRow Sample.world1 Sample.world1 []
           Sample.stateAfterFirst Sample.stateAtFailure
           (StoreError "store error"));
    vm_compute; reflexivity.
Defined.

(* ===================================================================== *)
(** ** Labels differing in case *)
(* ===================================================================== *)

(** C2, the code at the failing input. On a board without labels, a
    payload whose two cards name the labels [Bug] and [bug] makes the
    import create both: the board ends with two labels whose names are
    equal ignoring case. *)
Theorem case_variant_labels_both_created :
  let run := importCards (Sample.parseAs Sample.caseVariantDoc) Sample.allSucceed
               Sample.palette Sample.ctx (Sample.input "doc") Sample.world0 in
  map labelName (labelsOfBoard (snd run) 1) = ["Bug"; "bug"]%string
  /\ Js.toLowerCase "Bug" = Js.toLowerCase "bug"
  /\ exists out, fst run = Ok out.
Proof.
  vm_compute. repeat split. eexists. reflexivity.
Qed.

(* ===================================================================== *)
(** ** Frames: what a step leaves alone *)
(* ===================================================================== *)

Lemma unchanged_refl {St B} (f : St -> B) (s : St) : unchanged f s s.
Proof. reflexivity. Qed.

Lemma unchanged_trans {St B} (f : St -> B) (a b c : St) :
  unchanged f a b -> unchanged f b c -> unchanged f a c.
Proof. unfold unchanged. congruence. Qed.

Lemma unchanged_repoCall {A B} (f : World -> B) (db : Behaviour) (op : Op)
    (write : World -> A * World) (nothing : A) :
  (forall n w, f (setStoreCalls n w) = f w) ->
  (forall w, f (snd (write w)) = f w) ->
  preserves (unchanged f) (repoCall db op write nothing).
Proof.
  intros Hc Hw. apply preserves_repoCall.
  - apply unchanged_trans.
  - intros n w. apply Hc.
  - intros w. apply Hw.
Qed.

Lemma fold_left_unchanged {A B} (f : World -> B) (ins : World -> A -> World)
    (xs : list A) :
  (forall w x, f (ins w x) = f w) -> forall w, f (fold_left ins xs w) = f w.
Proof.
  intros H. induction xs as [|x xs IH]; intros w; simpl; [reflexivity|].
  now rewrite IH.
Qed.

(** Closes [preserves (unchanged f) (op ...)] for a repository write [op]
    that does not touch the projection [f] of the store. *)
Ltac frame_op :=
  intros;
  first
    [ exact (fun w => eq_refl)
    | apply unchanged_repoCall;
      [ intros; reflexivity
      | intros; simpl;
        first [ reflexivity
              | apply (fold_left_unchanged _ labelRepo.insert); intros; reflexivity
              | apply (fold_left_unchanged _ cardRepo.insert); intros; reflexivity ] ] ].

Ltac frame_ops :=
  first
    [ exact (unchanged_refl _)
    | exact (unchanged_trans _)
    | unfold generateUID; frame_op
    | unfold cardRepo.bulkCreate; frame_op
    | unfold cardActivityRepo.bulkCreate; frame_op
    | unfold cardRepo.bulkCreateCardLabelRelationship; frame_op
    | unfold checklistRepo.create; frame_op
    | unfold checklistRepo.createItem; frame_op
    | unfold listRepo.create; frame_op
    | unfold labelRepo.bulkCreate; frame_op
    | unfold importRepo.update; frame_op
    | unfold importRepo.create; frame_op ].

Lemma writeCardDetails_cards db userId labelMap listData m createdCards :
  preserves (onWorld (unchanged cards))
    (writeCardDetails db userId labelMap listData m createdCards).
Proof. apply writeCardDetails_preserves; frame_ops. Qed.

Lemma findOrCreateList_cards db userId board importId listData :
  preserves (onWorld (unchanged cards))
    (findOrCreateList db userId board importId listData).
Proof. apply findOrCreateList_preserves; frame_ops. Qed.

(* ===================================================================== *)
(** ** Batch inserts in closed form *)
(* ===================================================================== *)

Lemma nextId_snoc (ids : list nat) :
  nextId (ids ++ [nextId ids]) = S (nextId ids).
Proof.
  unfold nextId. rewrite list_max_app. simpl. f_equal. lia.
Qed.

Lemma cardRepo_fold_cards (inputs : list CardInput) :
  forall w,
    cards (fold_left cardRepo.insert inputs w)
    = cards w ++ cardRowsFrom (nextId (map cardId (cards w))) inputs.
Proof.
  induction inputs as [|x xs IH]; intros w; simpl.
  - now rewrite app_nil_r.
  - rewrite IH. simpl. rewrite map_app. simpl.
    rewrite nextId_snoc, <- app_assoc. reflexivity.
Qed.

Lemma labelRepo_fold_labels (inputs : list LabelInput) :
  forall w,
    labels (fold_left labelRepo.insert inputs w)
    = labels w ++ labelRowsFrom (nextId (map labelId (labels w))) inputs.
Proof.
  induction inputs as [|x xs IH]; intros w; simpl.
  - now rewrite app_nil_r.
  - rewrite IH. simpl. rewrite map_app. simpl.
    rewrite nextId_snoc, <- app_assoc. reflexivity.
Qed.

Lemma skipn_length_app {A} (l t : list A) : skipn (List.length l) (l ++ t) = t.
Proof.
  induction l as [|x l IH]; simpl; [reflexivity|assumption].
Qed.

Lemma cardRowsFrom_length (id : nat) (inputs : list CardInput) :
  List.length (cardRowsFrom id inputs) = List.length inputs.
Proof.
  revert id. induction inputs; intros id; simpl; [reflexivity|]. now rewrite IHinputs.
Qed.

Lemma preparedFrom_length userId importId target index uid cards :
  List.length (preparedFrom userId importId target index uid cards)
  = List.length cards.
Proof.
  revert index uid. induction cards; intros index uid; simpl; [reflexivity|].
  now rewrite IHcards.
Qed.

(** The outcome of [cardRepo.bulkCreate]: the batch is written whole, with
    consecutive fresh identifiers, or not at all. *)
Lemma cardRepo_bulkCreate_run db inputs w :
  cardRepo.bulkCreate db inputs w
  = match db CardBulkCreate (storeCalls w) with
    | Succeeds =>
        (Ok (cardRowsFrom (nextId (map cardId (cards w))) inputs),
         fold_left cardRepo.insert inputs (setStoreCalls (S (storeCalls w)) w))
    | NoResult => (Ok [], setStoreCalls (S (storeCalls w)) w)
    | Raises => (Throw (StoreError "store error"),
                 setStoreCalls (S (storeCalls w)) w)
    end.
Proof.
  unfold cardRepo.bulkCreate, repoCall.
  destruct (db CardBulkCreate (storeCalls w)); try reflexivity.
  rewrite cardRepo_fold_cards. cbn [cards setStoreCalls].
  now rewrite skipn_length_app.
Qed.

Lemma labelRepo_bulkCreate_run db inputs w :
  labelRepo.bulkCreate db inputs w
  = match db LabelBulkCreate (storeCalls w) with
    | Succeeds =>
        (Ok (map labelId (labelRowsFrom (nextId (map labelId (labels w))) inputs)),
         fold_left labelRepo.insert inputs (setStoreCalls (S (storeCalls w)) w))
    | NoResult => (Ok [], setStoreCalls (S (storeCalls w)) w)
    | Raises => (Throw (StoreError "store error"),
                 setStoreCalls (S (storeCalls w)) w)
    end.
Proof.
  unfold labelRepo.bulkCreate, repoCall.
  destruct (db LabelBulkCreate (storeCalls w)); try reflexivity.
  rewrite labelRepo_fold_labels. cbn [labels setStoreCalls].
  now rewrite skipn_length_app.
Qed.

Lemma prepareCards_run userId importId target cards :
  forall index w,
    mapM (prepareCard userId importId target) index cards w
    = (Ok (preparedFrom userId importId target index (uidSeed w) cards),
       setUidSeed (uidSeed w + List.length cards) w).
Proof.
  induction cards as [|c cs IH]; intros index w; simpl.
  - unfold ret. rewrite Nat.add_0_r. destruct w; reflexivity.
  - unfold bind, prepareCard, generateUID, ret. cbn [bind]. rewrite IH.
    cbn [uidSeed setUidSeed]. unfold cardInputOf.
    rewrite Nat.add_succ_r. reflexivity.
Qed.

(* ===================================================================== *)
(** ** Card positions *)
(* ===================================================================== *)

Lemma rows_of_prepared userId importId target cards :
  forall id index uid k row,
    nth_error (cardRowsFrom id
                 (map snd (preparedFrom userId importId target index uid cards))) k
    = Some row ->
    cardIndex row = index + k
    /\ exists card, nth_error cards k = Some card
         /\ cardRowTitle row = Js.substring0 255 (cardTitle card)
         /\ cardRowDescription row = Js.substring0 10000 (cardDescription card).
Proof.
  induction cards as [|c cs IH]; intros id index uid k row H.
  - destruct k; discriminate.
  - destruct k as [|k]; simpl in H.
    + injection H as <-. simpl. split; [lia|]. exists c. auto.
    + apply IH in H as (Hi & card & Hc & Ht & Hd).
      split; [lia|]. exists card. auto.
Qed.

Lemma rowsFor_prepared userId importId target uid id l :
  rowsFor l (cardRowsFrom id
               (map snd (preparedFrom userId importId target 0 uid (listCards l)))).
Proof.
  split.
  - now rewrite cardRowsFrom_length, length_map, preparedFrom_length.
  - intros i row H. apply rows_of_prepared in H. exact H.
Qed.

Lemma cardsGrow_refl lists w : cardsGrow lists w w.
Proof. exists []. simpl. rewrite app_nil_r. auto. Qed.

Lemma cardsGrow_trans lists a b c :
  cardsGrow lists a b -> cardsGrow lists b c -> cardsGrow lists a c.
Proof.
  intros (g1 & E1 & F1) (g2 & E2 & F2). exists (g1 ++ g2). split.
  - rewrite E2, E1, flat_map_app, app_assoc. reflexivity.
  - apply Forall_app. auto.
Qed.

Lemma cardsGrow_unchanged lists w w' : unchanged cards w w' -> cardsGrow lists w w'.
Proof.
  unfold unchanged. intros H. exists []. simpl. rewrite app_nil_r. auto.
Qed.

Lemma cardsGrow_one lists l rows w w' :
  In l lists -> rowsFor l rows -> cards w' = cards w ++ rows ->
  cardsGrow lists w w'.
Proof.
  intros Hin Hr E. exists [(l, rows)]. simpl. rewrite app_nil_r. auto.
Qed.

Lemma writeCards_cards db userId importId labelMap lists l target :
  In l lists ->
  preserves (onWorld (cardsGrow lists))
    (writeCards db userId importId labelMap l target).
Proof.
  intros Hin st. unfold onWorld, writeCards, bind, liftDb.
  rewrite prepareCards_run. cbn [world setWorld].
  unfold pushWarnings at 1. cbn [world].
  rewrite cardRepo_bulkCreate_run.
  cbn [world setWorld storeCalls setUidSeed cards].
  destruct (db CardBulkCreate (storeCalls (world st))) eqn:Edb;
    cbn [setWorld world].
  - match goal with
    | |- context [cardRowsFrom ?n ?i] => set (rows := cardRowsFrom n i)
    end.
    match goal with
    | |- context [fold_left cardRepo.insert ?i ?w0] =>
        set (w2 := fold_left cardRepo.insert i w0)
    end.
    assert (Hw2 : cards w2 = cards (world st) ++ rows).
    { subst w2 rows. rewrite cardRepo_fold_cards. reflexivity. }
    assert (Hgrow : cardsGrow lists (world st) w2).
    { eapply cardsGrow_one; [exact Hin| |exact Hw2].
      subst rows. apply rowsFor_prepared. }
    destruct (List.length rows =? 0).
    + exact Hgrow.
    + eapply cardsGrow_trans; [exact Hgrow|].
      apply cardsGrow_unchanged.
      match goal with
      | |- unchanged cards _ (world (snd (writeCardDetails ?d ?u ?lm ?ld ?m ?cs ?s))) =>
          exact (writeCardDetails_cards d u lm ld m cs s)
      end.
  - apply cardsGrow_unchanged. reflexivity.
  - apply cardsGrow_unchanged. reflexivity.
Qed.

Lemma processList_cards db userId board importId labelMap lists l :
  In l lists ->
  preserves (onWorld (cardsGrow lists))
    (processList db userId board importId labelMap l).
Proof.
  intros Hin. unfold processList.
  destruct (negb _); [apply preserves_throw; intros; apply cardsGrow_refl|].
  destruct (_ =? 0); [apply preserves_ret; intros; apply cardsGrow_refl|].
  apply preserves_bind.
  - intros a b c. apply cardsGrow_trans.
  - intros s. apply cardsGrow_unchanged. apply findOrCreateList_cards.
  - intros t. now apply writeCards_cards.
Qed.

(* ===================================================================== *)
(** ** Preservation along the whole import *)
(* ===================================================================== *)

Section ImportPreservation.

Context (db : Behaviour) (colours : list string).
Variable lists : list ListData.
Variable board : nat.

(** [RL] relates the stores across the label pass, [RS] the states across
    the loop over the lists, [RW] the stores across the whole import. *)
Context (RL RW : World -> World -> Prop)
        (RS : ImportState -> ImportState -> Prop).
Hypothesis RL_refl : forall w, RL w w.
Hypothesis RL_trans : forall a b c, RL a b -> RL b c -> RL a c.
Hypothesis RS_refl : forall s, RS s s.
Hypothesis RS_trans : forall a b c, RS a b -> RS b c -> RS a c.
Hypothesis RW_refl : forall w, RW w w.
Hypothesis RW_trans : forall a b c, RW a b -> RW b c -> RW a c.

Hypothesis R_processList :
  forall userId importId labelMap l, In l lists ->
    preserves RS (processList db userId board importId labelMap l).

Lemma forEach_processList_preserves userId importId labelMap ls :
  incl ls lists ->
  forall i,
    preserves RS
      (forEachM (fun _ => processList db userId board importId labelMap) i ls).
Proof.
  induction ls as [|l ls IH]; intros Hincl i; simpl.
  - apply preserves_ret. apply RS_refl.
  - apply preserves_bind.
    + apply RS_trans.
    + apply R_processList. apply Hincl. now left.
    + intros _. apply IH. intros x Hx. apply Hincl. now right.
Qed.

Hypothesis R_resolve :
  forall userId importId w,
    RL w (snd (resolveLabels db colours userId board importId
                 (existingLabelsOf w board) lists w)).
Hypothesis R_bridge :
  forall w w1 st',
    RL w w1 -> RS (startState w1 (existingListsOf w board)) st' ->
    RW w (world st').
Hypothesis R_update :
  forall status id, preserves RW (importRepo.update db status id).

Lemma importTry_preserves userId importId :
  preserves RW (importTry db colours userId board importId lists).
Proof.
  intros w. unfold importTry.
  pose proof (R_resolve userId importId w) as H1.
  destruct (resolveLabels _ _ _ _ _ _ _ w) as [[labelMap|e] w1];
    cbn [snd] in *.
  2:{ apply (R_bridge w w1 (startState w1 (existingListsOf w board)) H1).
      apply RS_refl. }
  pose proof (forEach_processList_preserves userId importId labelMap lists
                (incl_refl _) 0 (startState w1 (existingListsOf w board))) as H2.
  unfold processLists. fold (startState w1 (existingListsOf w board)).
  destruct (forEachM _ 0 lists _) as [[[]|e] st];
    cbn [snd world] in *; [|eauto].
  pose proof (R_update Success importId (world st)) as H3.
  destruct (importRepo.update db Success importId (world st)) as [[[]|e] w2];
    cbn [snd] in *; eauto.
Qed.

Lemma importCatch_preserves importId e :
  preserves RW (importCatch db importId e).
Proof.
  unfold importCatch. apply preserves_bind; auto.
Qed.

Hypothesis R_create :
  forall source by_, preserves RW (importRepo.create db source by_).

Lemma importWithLedger_preserves userId :
  preserves RW (importWithLedger db colours userId board lists).
Proof.
  unfold importWithLedger. apply preserves_bind; auto.
  intros [row|]; [|now apply preserves_throw].
  destruct (importId row =? 0); [now apply preserves_throw|].
  apply preserves_tryCatch; auto using importTry_preserves, importCatch_preserves.
Qed.

End ImportPreservation.

(** An import either stops before its first write, or runs under its
    ledger for the board it found. *)
Lemma importCards_cases parse db colours ctx input w lists :
  validatePayload parse (data input) = Ok lists ->
  snd (importCards parse db colours ctx input w) = w
  \/ exists userId board,
       findBoard w (inputBoardPublicId input) = Some board
       /\ importCards parse db colours ctx input w
          = importWithLedger db colours userId (boardId board) lists w.
Proof.
  intros Hv. unfold importCards.
  destruct (user ctx) as [u|]; [|now left].
  destruct (negb (Js.truthy u)); [now left|].
  rewrite Hv.
  destruct (findBoard w _) as [b|] eqn:Ef; [|now left].
  destruct (workspaceRepo.getById w _) as [ws|]; [|now left].
  unfold bind, assertUserInWorkspace. cbv beta.
  destruct (existsb _ _); [|now left].
  right. exists u, b. split; [reflexivity|reflexivity].
Qed.

Lemma importCards_preserves (R : World -> World -> Prop) db colours lists
    parse ctx input :
  (forall w, R w w) -> (forall a b c, R a b -> R b c -> R a c) ->
  (forall userId board importId labelMap l, In l lists ->
     preserves (onWorld R) (processList db userId board importId labelMap l)) ->
  (forall inputs, preserves R (labelRepo.bulkCreate db inputs)) ->
  (forall status id, preserves R (importRepo.update db status id)) ->
  (forall source by_, preserves R (importRepo.create db source by_)) ->
  validatePayload parse (data input) = Ok lists ->
  preserves R (importCards parse db colours ctx input).
Proof.
  intros Hrefl Htrans Hp Hl Hu Hc Hv w.
  destruct (importCards_cases parse db colours ctx input w lists Hv)
    as [->|(userId & b & _ & ->)]; [apply Hrefl|].
  apply (importWithLedger_preserves db colours lists (boardId b) R R (onWorld R));
    first
      [ exact Hrefl | exact Htrans | exact Hu | exact Hc
      | exact (onWorld_refl R Hrefl) | exact (onWorld_trans R Htrans)
      | intros; apply resolveLabels_preserves; assumption
      | intros; apply Hp; assumption
      | intros w0 w1 st' H1 H2; unfold onWorld in H2; simpl in H2; eauto ].
Qed.

Lemma importCards_invalid_world parse db colours ctx input w e :
  validatePayload parse (data input) = Throw e ->
  snd (importCards parse db colours ctx input w) = w.
Proof.
  intros Hv. unfold importCards.
  destruct (user ctx) as [u|]; [|reflexivity].
  destruct (negb (Js.truthy u)); [reflexivity|].
  now rewrite Hv.
Qed.

Lemma preserves_weaken {St A} (R R' : St -> St -> Prop) (m : M St A) :
  (forall s s', R s s' -> R' s s') -> preserves R m -> preserves R' m.
Proof. intros H Hm s. apply H, Hm. Qed.

(** C8. The cards an import writes come in groups, one group per list of
    the payload it wrote cards for; within a group there is one row per
    card of that list, in order, and the index of each row is the
    zero-based position of its card in the list's card array. The store
    the import starts from is arbitrary: the cards already in the target
    list play no part in the index. *)
Theorem card_index_is_payload_position
    (parse : string -> option json) (db : Behaviour) (colours : list string)
    (ctx : Ctx) (input : Input) (w : World) (lists : list ListData) :
  validatePayload parse (data input) = Ok lists ->
  cardsGrow lists w (snd (importCards parse db colours ctx input w)).
Proof.
  intros Hv.
  apply (importCards_preserves (cardsGrow lists) db colours lists);
    try assumption; try apply cardsGrow_refl; try apply cardsGrow_trans.
  - intros userId board importId labelMap l Hin.
    now apply processList_cards.
  - intros inputs. apply (preserves_weaken (unchanged cards));
      [apply cardsGrow_unchanged|]. frame_ops.
  - intros status id. apply (preserves_weaken (unchanged cards));
      [apply cardsGrow_unchanged|]. frame_ops.
  - intros source by_. apply (preserves_weaken (unchanged cards));
      [apply cardsGrow_unchanged|]. frame_ops.
Qed.

Lemma card_index_is_payload_position_witness :
  cardsGrow [Sample.firstList; Sample.secondList; Sample.thirdList]
    Sample.world0
    (snd (importCards (Sample.parseAs Sample.threeListsDoc) Sample.allSucceed
            Sample.palette Sample.ctx (Sample.input "doc") Sample.world0)).
Proof.
  apply (card_index_is_payload_position
           (Sample.parseAs Sample.threeListsDoc) Sample.allSucceed
           Sample.palette Sample.ctx (Sample.input "doc") Sample.world0).
  vm_compute. reflexivity.
Defined.

(* ===================================================================== *)
(** ** Frames of the loop state *)
(* ===================================================================== *)

Section StateFrame.

Context {B : Type} (f : ImportState -> B) (db : Behaviour).
Hypothesis f_world : forall w s, f (setWorld w s) = f s.
Hypothesis f_warnings : forall xs s, f (snd (pushWarnings xs s)) = f s.
Hypothesis f_created : forall cs s, f (snd (pushCreatedCards cs s)) = f s.

Lemma frame_liftDb {A} (m : M World A) : preserves (unchanged f) (liftDb m).
Proof.
  intros s. unfold liftDb, unchanged. destruct (m (world s)). apply f_world.
Qed.

Lemma frame_pushWarnings xs : preserves (unchanged f) (pushWarnings xs).
Proof. intros s. apply f_warnings. Qed.

Lemma frame_pushCreatedCards cs : preserves (unchanged f) (pushCreatedCards cs).
Proof. intros s. apply f_created. Qed.

Ltac frame_state :=
  repeat first
    [ exact (unchanged_refl f) | exact (unchanged_trans f)
    | progress intros
    | apply frame_liftDb | apply frame_pushWarnings | apply frame_pushCreatedCards
    | match goal with
      | |- preserves _ (bind _ _) => apply preserves_bind
      | |- preserves _ (ret _) => apply preserves_ret
      | |- preserves _ (throw _) => apply preserves_throw
      | |- preserves _ (when _ _) => apply preserves_when
      | |- preserves _ (forEachM _ _ _) => apply preserves_forEachM
      | |- preserves _ (match ?x with _ => _ end) => destruct x
      end ].

Lemma createItem_frame userId lname title j checklist k itemData :
  preserves (unchanged f) (createItem db userId lname title j checklist k itemData).
Proof. unfold createItem. frame_state. Qed.

Lemma createChecklist_frame userId lname createdCard cardData j checklistData :
  preserves (unchanged f)
    (createChecklist db userId lname createdCard cardData j checklistData).
Proof. unfold createChecklist. frame_state. apply createItem_frame. Qed.

Lemma createChecklistsOfCard_frame userId lname m createdCard :
  preserves (unchanged f) (createChecklistsOfCard db userId lname m createdCard).
Proof. unfold createChecklistsOfCard. frame_state. apply createChecklist_frame. Qed.

Lemma writeCardDetails_frame userId labelMap listData m createdCards :
  preserves (unchanged f)
    (writeCardDetails db userId labelMap listData m createdCards).
Proof.
  unfold writeCardDetails. frame_state. apply createChecklistsOfCard_frame.
Qed.

Lemma writeCards_frame userId importId labelMap listData targetList :
  preserves (unchanged f)
    (writeCards db userId importId labelMap listData targetList).
Proof. unfold writeCards. frame_state. apply writeCardDetails_frame. Qed.

End StateFrame.

Lemma writeCards_existingLists db userId importId labelMap listData targetList :
  preserves (unchanged existingLists)
    (writeCards db userId importId labelMap listData targetList).
Proof. apply writeCards_frame; reflexivity. Qed.

Lemma writeCards_lists db userId importId labelMap listData targetList :
  preserves (onWorld (unchanged lists))
    (writeCards db userId importId labelMap listData targetList).
Proof. apply writeCards_preserves; frame_ops. Qed.

(* ===================================================================== *)
(** ** Reuse of the lists of the board *)
(* ===================================================================== *)









Lemma find_none_all {A} (p : A -> bool) (l : list A) :
  find p l = None -> forall x, In x l -> p x = false.
Proof. intros H x Hin. exact (find_none p l H x Hin). Qed.

Lemma findOrCreateList_found db userId board importId l st t :
  find (listMatches l) (existingLists st) = Some t ->
  findOrCreateList db userId board importId l st = (Ok t, st).
Proof.
  intros H. unfold findOrCreateList, bind, getExistingLists. now rewrite H.
Qed.




Lemma unchanged_lists_resolveLabels db colours userId board importId existing ls :
  preserves (unchanged lists)
    (resolveLabels db colours userId board importId existing ls).
Proof. apply resolveLabels_preserves; frame_ops. Qed.


(* ===================================================================== *)
(** ** Reuse of the labels of the board *)
(* ===================================================================== *)

Lemma mapGet_fold {X} (key : X -> string) (val : X -> nat) (xs : list X) :
  forall acc k,
    let m := fold_left (fun m x => mapSet (key x) (val x) m) xs acc in
    (exists x, In x xs /\ key x = k /\ mapGet k m = Some (val x))
    \/ ((forall x, In x xs -> key x <> k) /\ mapGet k m = mapGet k acc).
Proof.
  induction xs as [|x xs IH]; intros acc k; cbn.
  - right. split; [intros ? []|reflexivity].
  - destruct (IH (mapSet (key x) (val x) acc) k) as [(y & Hin & Hk & Hg)|[Hall Hg]].
    + left. exists y. auto.
    + unfold mapSet, mapGet in Hg. cbn in Hg.
      destruct (String.eqb_spec k (key x)) as [->|Hne].
      * left. exists x. auto.
      * right. split; [|exact Hg].
        intros y [<-|Hy]; [congruence|auto].
Qed.

Lemma labelMapOfExisting_none existing k :
  mapGet k (labelMapOfExisting existing) = None ->
  forall e, In e existing -> Js.toLowerCase (snd e) <> k.
Proof.
  intros H. unfold labelMapOfExisting in H.
  destruct (mapGet_fold (fun e : nat * string => Js.toLowerCase (snd e)) fst
              existing [] k) as [(x & _ & _ & Hg)|[Hall _]]; [congruence|exact Hall].
Qed.

Lemma labelMapOfExisting_some existing e :
  In e existing ->
  exists e', In e' existing
    /\ Js.toLowerCase (snd e') = Js.toLowerCase (snd e)
    /\ mapGet (Js.toLowerCase (snd e)) (labelMapOfExisting existing) = Some (fst e').
Proof.
  intros Hin. unfold labelMapOfExisting.
  destruct (mapGet_fold (fun e : nat * string => Js.toLowerCase (snd e)) fst
              existing [] (Js.toLowerCase (snd e)))
    as [(x & Hx & Hk & Hg)|[Hall _]].
  - exists x. auto.
  - exfalso. exact (Hall e Hin eq_refl).
Qed.

Lemma labelsToCreate_fresh existing names n e :
  In n (labelsToCreateOf (labelMapOfExisting existing) names) ->
  In e existing -> Js.toLowerCase (snd e) <> Js.toLowerCase n.
Proof.
  unfold labelsToCreateOf. intros Hn He.
  apply filter_In in Hn as [_ Hn]. unfold mapHas in Hn.
  destruct (mapGet (Js.toLowerCase n) (labelMapOfExisting existing)) eqn:Eg;
    [discriminate|].
  eapply labelMapOfExisting_none; eassumption.
Qed.

Lemma recordNewLabels_existing existing names newLabels e :
  In e existing ->
  mapGet (Js.toLowerCase (snd e))
    (recordNewLabels (labelsToCreateOf (labelMapOfExisting existing) names)
       newLabels (labelMapOfExisting existing))
  = mapGet (Js.toLowerCase (snd e)) (labelMapOfExisting existing).
Proof.
  intros He. unfold recordNewLabels.
  destruct (mapGet_fold (fun p : string * nat => Js.toLowerCase (fst p)) snd
              (combine (labelsToCreateOf (labelMapOfExisting existing) names)
                       newLabels)
              (labelMapOfExisting existing) (Js.toLowerCase (snd e)))
    as [(p & Hp & Hk & _)|[_ Hg]]; [|exact Hg].
  exfalso. destruct p as [n id]. apply in_combine_l in Hp. cbn in Hk.
  exact (labelsToCreate_fresh existing names n e Hp He (eq_sym Hk)).
Qed.

(** The label map built by the label pass binds the lower-cased name of
    every label found on the board to the identifier of such a label. *)
Lemma resolveLabels_reuses db colours userId board importId existing ls w
    labelMap w1 e :
  resolveLabels db colours userId board importId existing ls w = (Ok labelMap, w1) ->
  In e existing ->
  exists e', In e' existing
    /\ Js.toLowerCase (snd e') = Js.toLowerCase (snd e)
    /\ mapGet (Js.toLowerCase (snd e)) labelMap = Some (fst e').
Proof.
  unfold resolveLabels. intros H He.
  destruct (labelMapOfExisting_some existing e He) as (e' & Hin & Hk & Hg).
  exists e'. split; [assumption|]. split; [assumption|].
  destruct (0 <? _).
  - unfold bind in H.
    destruct (labelRepo.bulkCreate _ _ _) as [[ids|err] w2]; [|discriminate].
    injection H as <- <-. now rewrite recordNewLabels_existing.
  - injection H as <- <-. assumption.
Qed.





Lemma labelRowsFrom_names id inputs :
  map labelName (labelRowsFrom id inputs) = map labelInputName inputs.
Proof.
  revert id. induction inputs as [|x xs IH]; intros id; cbn; [reflexivity|].
  now rewrite IH.
Qed.

Lemma newLabelInputs_names colours userId board importId count names :
  map labelInputName (newLabelInputs colours userId board importId count names)
  = names.
Proof.
  unfold newLabelInputs. generalize 0 as i.
  induction names as [|n ns IH]; intros i; cbn; [reflexivity|]. now rewrite IH.
Qed.


Lemma processList_labels db userId board importId labelMap l :
  preserves (onWorld (unchanged labels))
    (processList db userId board importId labelMap l).
Proof. apply processList_preserves; frame_ops. Qed.





(* ===================================================================== *)
(** ** Label names with surrounding blanks *)
(* ===================================================================== *)

Lemma toLowerChar_idempotent (c : ascii) :
  Js.toLowerChar (Js.toLowerChar c) = Js.toLowerChar c.
Proof.
  destruct c as [[] [] [] [] [] [] [] []]; reflexivity.
Qed.

Lemma toLowerCase_idempotent (s : string) :
  Js.toLowerCase (Js.toLowerCase s) = Js.toLowerCase s.
Proof.
  induction s as [|c s IH]; cbn; [reflexivity|].
  now rewrite toLowerChar_idempotent, IH.
Qed.

Lemma setHas_In (x : string) (s : list string) : setHas x s = true <-> In x s.
Proof.
  unfold setHas. rewrite existsb_exists. split.
  - intros (y & Hy & E). apply String.eqb_eq in E. now subst.
  - intros H. exists x. split; [assumption|apply String.eqb_refl].
Qed.

Lemma setAdd_In (x y : string) (s : list string) :
  In x (setAdd y s) <-> x = y \/ In x s.
Proof.
  unfold setAdd. destruct (setHas y s) eqn:E.
  - apply setHas_In in E. split; [auto|]. intros [->|H]; assumption.
  - rewrite in_app_iff. cbn. intuition congruence.
Qed.

Lemma fold_left_flat_map {A B C} (f : C -> B -> C) (h : A -> list B)
    (xs : list A) :
  forall acc,
    fold_left (fun acc x => fold_left f (h x) acc) xs acc
    = fold_left f (flat_map h xs) acc.
Proof.
  induction xs as [|x xs IH]; intros acc; cbn; [reflexivity|].
  now rewrite IH, fold_left_app.
Qed.

Lemma fold_setAdd_In (p : string -> bool) (g : string -> string)
    (ys : list string) :
  forall acc x,
    In x (fold_left (fun acc y => if p y then setAdd (g y) acc else acc) ys acc)
    <-> In x acc \/ exists y, In y ys /\ p y = true /\ x = g y.
Proof.
  induction ys as [|y ys IH]; intros acc x; cbn.
  - split; [auto|]. intros [H|(y & [] & _)]. assumption.
  - rewrite IH. destruct (p y) eqn:Ep.
    + rewrite setAdd_In. split.
      * intros [[->|H]|(z & Hz & Hp & E)]; eauto 7.
      * intros [H|(z & [<-|Hz] & Hp & E)]; eauto 7.
    + split.
      * intros [H|(z & Hz & Hp & E)]; eauto 7.
      * intros [H|(z & [<-|Hz] & Hp & E)]; [auto|congruence|eauto 7].
Qed.

(** The names gathered by the label pass: the trimmed, non-blank label
    names of the cards of the payload. *)
Lemma allLabelNamesOf_In (ls : list ListData) (x : string) :
  In x (allLabelNamesOf ls)
  <-> exists l card n,
        In l ls /\ In card (listCards l) /\ In n (cardLabels card)
        /\ Js.trim n <> "" /\ x = Js.trim n.
Proof.
  unfold allLabelNamesOf.
  rewrite (fold_left_flat_map
             (fun acc card =>
                fold_left (fun acc labelName =>
                             if negb (Js.trim labelName =? "")%string
                             then setAdd (Js.trim labelName) acc else acc)
                          (cardLabels card) acc) listCards).
  rewrite (fold_left_flat_map
             (fun acc labelName =>
                if negb (Js.trim labelName =? "")%string
                then setAdd (Js.trim labelName) acc else acc) cardLabels).
  rewrite (fold_setAdd_In (fun n => negb (Js.trim n =? "")%string) Js.trim).
  split.
  - intros [[]|(n & Hn & Hp & ->)].
    apply in_flat_map in Hn as (card & Hc & Hn).
    apply in_flat_map in Hc as (l & Hl & Hc).
    exists l, card, n. repeat split; auto.
    apply negb_true_iff, String.eqb_neq in Hp. exact Hp.
  - intros (l & card & n & Hl & Hc & Hn & Hp & ->). right.
    exists n. repeat split.
    + apply in_flat_map. exists card. split; [|assumption].
      apply in_flat_map. exists l. auto.
    + apply negb_true_iff, String.eqb_neq. exact Hp.
Qed.

Lemma recordNewLabels_none names ids m k :
  mapGet k m = None ->
  (forall n, In n names -> Js.toLowerCase n <> k) ->
  mapGet k (recordNewLabels names ids m) = None.
Proof.
  intros Hm Hn. unfold recordNewLabels.
  destruct (mapGet_fold (fun p : string * nat => Js.toLowerCase (fst p)) snd
              (combine names ids) m k) as [(p & Hp & Hk & _)|[_ Hg]].
  - exfalso. destruct p as [n id]. apply in_combine_l in Hp.
    exact (Hn n Hp Hk).
  - now rewrite Hg.
Qed.

Lemma labelMapOfExisting_none_intro existing k :
  (forall e, In e existing -> Js.toLowerCase (snd e) <> k) ->
  mapGet k (labelMapOfExisting existing) = None.
Proof.
  intros H. unfold labelMapOfExisting.
  destruct (mapGet_fold (fun e : nat * string => Js.toLowerCase (snd e)) fst
              existing [] k) as [(x & Hx & Hk & _)|[_ Hg]].
  - exfalso. exact (H x Hx Hk).
  - rewrite Hg. reflexivity.
Qed.

(** The lookup made for a padded name finds nothing, unless a label found
    on the board bears that very name, ignoring case. *)
Lemma padded_lookup_fails db colours userId board importId existing ls w
    labelMap w1 n :
  resolveLabels db colours userId board importId existing ls w = (Ok labelMap, w1) ->
  Js.trim n <> n ->
  (forall e, In e existing -> Js.toLowerCase (snd e) <> Js.toLowerCase n) ->
  mapGet (Js.toLowerCase (Js.toLowerCase n)) labelMap = None.
Proof.
  intros H Hpad Hex. rewrite toLowerCase_idempotent.
  assert (H0 : mapGet (Js.toLowerCase n) (labelMapOfExisting existing) = None)
    by now apply labelMapOfExisting_none_intro.
  unfold resolveLabels in H. destruct (0 <? _).
  - unfold bind in H.
    destruct (labelRepo.bulkCreate _ _ _) as [[ids|err] w2]; [|discriminate].
    injection H as <- <-. apply recordNewLabels_none; [assumption|].
    intros m Hm Heq. unfold labelsToCreateOf in Hm.
    apply filter_In in Hm as [Hm _].
    apply allLabelNamesOf_In in Hm as (_ & _ & m0 & _ & _ & _ & _ & ->).
    exact (padded_key_differs n m0 Hpad (eq_sym Heq)).
  - injection H as <- <-. assumption.
Qed.

Lemma newLabelInputs_In colours userId board importId count names x :
  In x names ->
  exists i, In i (newLabelInputs colours userId board importId count names)
    /\ labelInputName i = x /\ labelInputBoardId i = board.
Proof.
  unfold newLabelInputs. generalize 0 as k.
  induction names as [|y ys IH]; intros k [].
  - subst. eexists. split; [now left|]. auto.
  - destruct (IH (S k) H) as (i & Hi & Hn). exists i. split; [now right|auto].
Qed.

Lemma labelRowsFrom_In inputs i :
  In i inputs ->
  forall id, exists r, In r (labelRowsFrom id inputs)
    /\ labelName r = labelInputName i /\ labelBoardId r = labelInputBoardId i.
Proof.
  induction inputs as [|j js IH]; intros Hi id; [destruct Hi|].
  destruct Hi as [->|Hi].
  - eexists. split; [now left|]. auto.
  - destruct (IH Hi (S id)) as (r & Hr & H). exists r. split; [now right|auto].
Qed.

(** The trimmed name is resolved against the labels found, or created. *)
Lemma trimmed_label_resolved db colours userId board importId existing ls w
    labelMap w1 x :
  resolveLabels db colours userId board importId existing ls w = (Ok labelMap, w1) ->
  In x (allLabelNamesOf ls) ->
  (exists e, In e existing /\ Js.toLowerCase (snd e) = Js.toLowerCase x)
  \/ db LabelBulkCreate (storeCalls w) = NoResult
  \/ exists r, In r (labels w1) /\ labelName r = x /\ labelBoardId r = board.
Proof.
  intros H Hx.
  destruct (mapGet (Js.toLowerCase x) (labelMapOfExisting existing)) as [id|] eqn:Eg.
  { left. unfold labelMapOfExisting in Eg.
    destruct (mapGet_fold (fun e : nat * string => Js.toLowerCase (snd e)) fst
                existing [] (Js.toLowerCase x)) as [(e & He & Hk & _)|[_ Hg]].
    - eauto.
    - rewrite Hg in Eg. discriminate. }
  right.
  assert (Hc : In x (labelsToCreateOf (labelMapOfExisting existing)
                       (allLabelNamesOf ls))).
  { unfold labelsToCreateOf. apply filter_In. split; [assumption|].
    unfold mapHas. now rewrite Eg. }
  unfold resolveLabels in H.
  destruct (0 <? _) eqn:El.
  2:{ apply Nat.ltb_ge in El. destruct (labelsToCreateOf _ _); [destruct Hc|].
      cbn in El. lia. }
  unfold bind in H. rewrite labelRepo_bulkCreate_run in H.
  destruct (db LabelBulkCreate (storeCalls w)); [|now left|discriminate].
  right. injection H as _ <-.
  rewrite labelRepo_fold_labels. cbn [labels setStoreCalls].
  set (inputs := newLabelInputs colours userId board importId _ _).
  destruct (newLabelInputs_In colours userId board importId
              (List.length existing) _ x Hc) as (i & Hi & Hn & Hb).
  destruct (labelRowsFrom_In inputs i Hi (nextId (map labelId (labels w))))
    as (r & Hr & Hrn & Hrb).
  assert (H : labelName r = x /\ labelBoardId r = board) by (split; congruence).
  exists r. split; [|exact H]. apply in_or_app. now right.
Qed.

Lemma flat_map_skip {A B} (g : A -> list B) (p : A -> bool) (xs : list A) :
  (forall x, In x xs -> p x = false -> g x = []) ->
  flat_map g xs = flat_map g (filter p xs).
Proof.
  induction xs as [|x xs IH]; intros H; cbn; [reflexivity|].
  destruct (p x) eqn:Ep; cbn.
  - f_equal. apply IH. intros y Hy. apply H. now right.
  - rewrite (H x (or_introl eq_refl) Ep). cbn. apply IH.
    intros y Hy. apply H. now right.
Qed.

(** C10, counterexample. On a board that already has a label named
    [ bug] (with the leading blank), a card labelled [ Bug] does get an
    association: the untrimmed lower-cased name is a key of the label map,
    bound to the label found on the board. *)
Lemma padded_label_is_associated :
  In " Bug"%string (cardLabels Sample.paddedCard)
  /\ Js.trim " Bug" <> " Bug"%string
  /\ cardsToLabels
       (snd (importCards (Sample.parseAs Sample.paddedDoc) Sample.allSucceed
               Sample.palette Sample.ctx (Sample.input "doc")
               Sample.worldWithPaddedLabel))
     = [{| relCardId := 1; relLabelId := 3 |}].
Proof.
  split; [now left|]. split; [discriminate|]. vm_compute. reflexivity.
Qed.

(** C10 (as amended). For a card label name with leading or trailing
    blanks and a non-blank trimmed form: the label pass gathers the
    trimmed name, and resolves it against the labels found on the board or
    has it created; when no label found on the board bears the untrimmed
    name ignoring case, the lookup made for the association finds nothing,
    so the relations of a card are those of its other names and a card
    with that single label gets neither an association nor a warning; the
    label step emits no warning other than the one about duplicates. *)
Theorem padded_label_gets_no_association
    (db : Behaviour) (colours : list string) (userId : string)
    (board importId : nat) (existing : list (nat * string))
    (ls : list ListData) (w w1 : World) (labelMap : list (string * nat))
    (l : ListData) (card : CardData) (n : string) :
  In l ls -> In card (listCards l) -> In n (cardLabels card) ->
  Js.trim n <> n -> Js.trim n <> ""%string ->
  (forall e, In e existing -> Js.toLowerCase (snd e) <> Js.toLowerCase n) ->
  resolveLabels db colours userId board importId existing ls w = (Ok labelMap, w1) ->
  In (Js.trim n) (allLabelNamesOf ls)
  /\ ((exists e, In e existing
         /\ Js.toLowerCase (snd e) = Js.toLowerCase (Js.trim n))
      \/ db LabelBulkCreate (storeCalls w) = NoResult
      \/ exists r, In r (labels w1) /\ labelName r = Js.trim n
                   /\ labelBoardId r = board)
  /\ mapGet (Js.toLowerCase (Js.toLowerCase n)) labelMap = None
  /\ (forall created cd,
        relationsOfCard labelMap created cd
        = flat_map (fun labelName =>
                      match mapGet (Js.toLowerCase labelName) labelMap with
                      | Some labelId =>
                          if labelId =? 0 then []
                          else [{| relCardId := cardId created;
                                   relLabelId := labelId |}]
                      | None => []
                      end)
            (filter (fun k => negb (k =? Js.toLowerCase n)%string)
                    (uniqueLabelsOf (cardLabels cd))))
  /\ (forall lname m created cd,
        cardLabels cd = [n] ->
        mapGetNat (cardPublicId created) m = Some cd ->
        labelStepOfCard labelMap lname m created = ([], []))
  /\ (forall lname m created x,
        In x (snd (labelStepOfCard labelMap lname m created)) ->
        isTruncationWarning x = false).
Proof.
  intros Hl Hc Hn Hpad Hne Hex Hr.
  assert (Hin : In (Js.trim n) (allLabelNamesOf ls)).
  { apply allLabelNamesOf_In. exists l, card, n. auto. }
  assert (Hnone : mapGet (Js.toLowerCase (Js.toLowerCase n)) labelMap = None).
  { eapply padded_lookup_fails; eassumption. }
  split; [exact Hin|]. split; [eapply trimmed_label_resolved; eassumption|].
  split; [exact Hnone|]. split; [|split].
  - intros created cd. unfold relationsOfCard. apply flat_map_skip.
    intros k _ Hk. apply negb_false_iff, String.eqb_eq in Hk. subst k.
    now rewrite Hnone.
  - intros lname m created cd Hcd Hm. unfold labelStepOfCard. rewrite Hm, Hcd.
    cbn [List.length Nat.eqb].
    unfold relationsOfCard, duplicateWarningOfCard, uniqueLabelsOf. rewrite Hcd.
    cbn [filter]. apply String.eqb_neq in Hne. rewrite Hne.
    cbn [negb map newSet fold_left setAdd setHas existsb app flat_map].
    rewrite Hnone. reflexivity.
  - intros lname m created x. unfold labelStepOfCard.
    destruct (mapGetNat _ _) as [cd|]; [|intros []].
    destruct (_ =? 0); [intros []|]. unfold duplicateWarningOfCard. cbn [snd].
    destruct (_ <? _); [|intros []]. intros [<-|[]]. reflexivity.
Qed.

Lemma padded_label_gets_no_association_witness :
  mapGet (Js.toLowerCase (Js.toLowerCase " Bug")) [("bug"%string, 1)] = None.
Proof.
  refine (proj1 (proj2 (proj2
    (padded_label_gets_no_association
       Sample.allSucceed Sample.palette "user-1" 1 1 [] [Sample.paddedList]
       Sample.world1
       (snd (resolveLabels Sample.allSucceed Sample.palette "user-1" 1 1 []
               [Sample.paddedList] Sample.world1))
       [("bug"%string, 1)] Sample.paddedList Sample.paddedCard " Bug"
       _ _ _ _ _ _ _)))).
  - now left.
  - now left.
  - now left.
  - discriminate.
  - discriminate.
  - intros e [].
  - vm_compute. reflexivity.
Defined.

(* ===================================================================== *)
(** ** Checklists that the store does not create *)
(* ===================================================================== *)

Lemma total_ret {St A} (a : A) : total (@ret St A a).
Proof. intros s. now exists a. Qed.

Lemma total_bind {St A B} (m : M St A) (k : A -> M St B) :
  total m -> (forall a, total (k a)) -> total (bind m k).
Proof.
  intros Hm Hk s. unfold bind. destruct (Hm s) as [a Ha].
  destruct (m s) as [r s']. cbn in Ha. subst r. apply Hk.
Qed.

Lemma total_when {St} (b : bool) (m : M St unit) : total m -> total (when b m).
Proof. destruct b; cbn; [auto|intros _; apply total_ret]. Qed.

Lemma total_forEachM {St A} (f : nat -> A -> M St unit) (xs : list A) :
  (forall i x, total (f i x)) -> forall i, total (forEachM f i xs).
Proof.
  intros Hf. induction xs as [|x xs IH]; intros i; cbn.
  - apply total_ret.
  - apply total_bind; auto.
Qed.

Lemma total_liftDb {A} (m : M World A) : total m -> total (liftDb m).
Proof.
  intros Hm s. unfold liftDb. destruct (Hm (world s)) as [a Ha].
  destruct (m (world s)) as [r w']. cbn in *. eauto.
Qed.

Lemma total_repoCall {A} db op (write : World -> A * World) (nothing : A) :
  (forall n, db op n <> Raises) -> total (repoCall db op write nothing).
Proof.
  intros H w. unfold repoCall. specialize (H (storeCalls w)).
  destruct (db op (storeCalls w)).
  - destruct (write _). cbn. eauto.
  - cbn. eauto.
  - contradiction.
Qed.

Lemma total_pushWarnings xs : total (pushWarnings xs).
Proof. intros s. now exists tt. Qed.

Lemma total_run {St A} (m : M St A) (s : St) :
  total m -> exists a s', m s = (Ok a, s').
Proof.
  intros H. destruct (H s) as [a Ha]. destruct (m s) as [r s'].
  cbn in Ha. subst. eauto.
Qed.

Section ChecklistFaults.

Context (db : Behaviour).
Hypothesis db_faults : onlyChecklistsFail db.

Lemma db_succeeds op n :
  op <> ChecklistCreate -> op <> ChecklistItemCreate -> db op n = Succeeds.
Proof. destruct db_faults as (_ & _ & H). apply H. Qed.

Lemma createItem_total userId lname title j checklist k itemData :
  total (createItem db userId lname title j checklist k itemData).
Proof.
  unfold createItem. apply total_bind.
  - apply total_liftDb, total_repoCall. apply db_faults.
  - intros _. apply total_when, total_pushWarnings.
Qed.

Lemma createChecklist_total userId lname createdCard cardData j checklistData :
  total (createChecklist db userId lname createdCard cardData j checklistData).
Proof.
  unfold createChecklist. apply total_bind.
  - apply total_liftDb, total_repoCall. apply db_faults.
  - intros [row|]; [|apply total_ret].
    destruct (_ =? 0); [apply total_ret|].
    apply total_bind; [apply total_when, total_pushWarnings|].
    intros _. apply total_forEachM. intros. apply createItem_total.
Qed.

Lemma createChecklistsOfCard_total userId lname m createdCard :
  total (createChecklistsOfCard db userId lname m createdCard).
Proof.
  unfold createChecklistsOfCard. destruct (mapGetNat _ _); [|apply total_ret].
  apply total_forEachM. intros. apply createChecklist_total.
Qed.

Lemma checklists_run userId lname m createdCards st :
  exists st',
    forEachM (fun _ => createChecklistsOfCard db userId lname m) 0 createdCards st
    = (Ok tt, st')
    /\ allCreatedCards st' = allCreatedCards st
    /\ imports (world st') = imports (world st).
Proof.
  destruct (total_run
              (forEachM (fun _ => createChecklistsOfCard db userId lname m) 0
                        createdCards) st) as ([] & st' & E).
  { apply total_forEachM. intros. apply createChecklistsOfCard_total. }
  exists st'. split; [exact E|].
  pose proof (preserves_forEachM (unchanged allCreatedCards)
                (unchanged_refl _) (unchanged_trans _)
                (fun _ => createChecklistsOfCard db userId lname m) createdCards
                (fun _ c => createChecklistsOfCard_frame allCreatedCards db
                              (fun _ _ => eq_refl) (fun _ _ => eq_refl)
                              userId lname m c) 0 st) as H1.
  pose proof (preserves_forEachM (onWorld (unchanged imports))
                (onWorld_refl _ (unchanged_refl _))
                (onWorld_trans _ (unchanged_trans _))
                (fun _ => createChecklistsOfCard db userId lname m) createdCards
                (fun _ c => createChecklistsOfCard_preserves (unchanged imports) db
                              (unchanged_refl _) (unchanged_trans _)
                              ltac:(frame_ops) ltac:(frame_ops)
                              userId lname m c) 0 st) as H2.
  rewrite E in H1, H2. split; [exact H1|exact H2].
Qed.

Lemma writeCardDetails_run userId labelMap l m createdCards st :
  exists st',
    writeCardDetails db userId labelMap l m createdCards st = (Ok tt, st')
    /\ allCreatedCards st' = allCreatedCards st ++ createdCards
    /\ imports (world st') = imports (world st).
Proof.
  unfold writeCardDetails, bind, pushCreatedCards, liftDb,
    cardActivityRepo.bulkCreate, repoCall. cbn [world].
  rewrite db_succeeds by discriminate. cbn [snd fst setWorld world].
  unfold pushWarnings at 1. cbn [world].
  destruct (0 <? _); cbn [when].
  - unfold cardRepo.bulkCreateCardLabelRelationship, repoCall.
    cbn [world storeCalls setStoreCalls setCardActivities].
    rewrite db_succeeds by discriminate. cbn [snd fst setWorld world].
    match goal with
    | |- context [forEachM ?f 0 ?cs ?s] =>
        destruct (checklists_run userId (listName l) m cs s) as (st' & E & Hc & Hi)
    end.
    exists st'. rewrite E. split; [reflexivity|]. split; [exact Hc|exact Hi].
  - unfold ret.
    match goal with
    | |- context [forEachM ?f 0 ?cs ?s] =>
        destruct (checklists_run userId (listName l) m cs s) as (st' & E & Hc & Hi)
    end.
    exists st'. rewrite E. split; [reflexivity|]. split; [exact Hc|exact Hi].
Qed.

Lemma writeCards_run userId importId labelMap l t st :
  listCards l <> [] ->
  exists st',
    writeCards db userId importId labelMap l t st = (Ok tt, st')
    /\ List.length (allCreatedCards st')
       = List.length (allCreatedCards st) + List.length (listCards l)
    /\ imports (world st') = imports (world st).
Proof.
  intros Hne. unfold writeCards, bind, liftDb.
  rewrite prepareCards_run. cbn [world setWorld].
  unfold pushWarnings at 1. cbn [world].
  rewrite cardRepo_bulkCreate_run.
  cbn [world setWorld storeCalls setUidSeed cards].
  rewrite db_succeeds by discriminate.
  match goal with
  | |- context [cardRowsFrom ?n ?i] => set (rows := cardRowsFrom n i)
  end.
  assert (Hlen : List.length rows = List.length (listCards l)).
  { subst rows. now rewrite cardRowsFrom_length, length_map, preparedFrom_length. }
  destruct (List.length rows =? 0) eqn:E0.
  { apply Nat.eqb_eq in E0. destruct (listCards l); [congruence|cbn in *; lia]. }
  match goal with
  | |- context [writeCardDetails db ?u ?lm ?ld ?m ?cs ?s] =>
      destruct (writeCardDetails_run u lm ld m cs s) as (st' & E & Hc & Hi)
  end.
  exists st'. split; [exact E|]. split.
  - rewrite Hc, length_app, Hlen. reflexivity.
  - rewrite Hi. cbn [world setWorld].
    rewrite (fold_left_unchanged imports cardRepo.insert); reflexivity.
Qed.

Lemma findOrCreateList_run userId board importId l st :
  exists t st',
    findOrCreateList db userId board importId l st = (Ok t, st')
    /\ allCreatedCards st' = allCreatedCards st
    /\ imports (world st') = imports (world st).
Proof.
  unfold findOrCreateList, bind, getExistingLists.
  destruct (find (listMatches l) (existingLists st)) as [t|].
  { exists t, st. auto. }
  unfold liftDb, listRepo.create, repoCall.
  rewrite db_succeeds by discriminate. cbn.
  eexists _, _. split; [reflexivity|]. auto.
Qed.

Lemma processList_run userId board importId labelMap l st :
  Js.truthy (Js.trim (listName l)) = true ->
  exists st',
    processList db userId board importId labelMap l st = (Ok tt, st')
    /\ List.length (allCreatedCards st')
       = List.length (allCreatedCards st) + List.length (listCards l)
    /\ imports (world st') = imports (world st).
Proof.
  intros Hname. unfold processList. rewrite Hname. cbn [negb].
  destruct (List.length (listCards l) =? 0) eqn:E0.
  { apply Nat.eqb_eq in E0. exists st. rewrite E0. split; [reflexivity|]. auto. }
  destruct (findOrCreateList_run userId board importId l st)
    as (t & s1 & E1 & Hc1 & Hi1).
  destruct (writeCards_run userId importId labelMap l t s1)
    as (s2 & E2 & Hc2 & Hi2).
  { intros H. rewrite H in E0. discriminate. }
  exists s2. unfold bind. rewrite E1, E2. split; [reflexivity|].
  split; congruence.
Qed.

Lemma processLists_run userId board importId labelMap ls :
  Forall (fun l => Js.truthy (Js.trim (listName l)) = true) ls ->
  forall st, exists st',
    processLists db userId board importId labelMap ls st = (Ok tt, st')
    /\ List.length (allCreatedCards st')
       = List.length (allCreatedCards st) + countCards ls
    /\ imports (world st') = imports (world st).
Proof.
  unfold processLists. generalize 0 as i.
  induction ls as [|l ls IH]; intros i Hnames st; cbn [forEachM].
  - exists st. unfold ret, countCards. cbn. auto.
  - inversion Hnames as [|? ? Hl Hls]; subst.
    destruct (processList_run userId board importId labelMap l st Hl)
      as (s1 & E1 & Hc1 & Hi1).
    destruct (IH (S i) Hls s1) as (s2 & E2 & Hc2 & Hi2).
    exists s2. unfold bind. rewrite E1, E2. split; [reflexivity|].
    change (countCards (l :: ls))
      with (List.length (listCards l) + countCards ls).
    split; [lia|congruence].
Qed.

Lemma resolveLabels_run colours userId board importId existing ls w :
  exists labelMap w1,
    resolveLabels db colours userId board importId existing ls w = (Ok labelMap, w1)
    /\ imports w1 = imports w.
Proof.
  unfold resolveLabels. destruct (0 <? _).
  - unfold bind. rewrite labelRepo_bulkCreate_run.
    rewrite db_succeeds by discriminate. unfold ret.
    eexists _, _. split; [reflexivity|].
    rewrite (fold_left_unchanged imports labelRepo.insert); reflexivity.
  - eexists _, _. split; reflexivity.
Qed.

Lemma importTry_run colours userId board importId ls w :
  Forall (fun l => Js.truthy (Js.trim (listName l)) = true) ls ->
  exists out w',
    importTry db colours userId board importId ls w = (Ok out, w')
    /\ cardsCreated out = countCards ls
    /\ listsProcessed out = List.length ls
    /\ imports w' = map (importRepo.setStatus Success importId) (imports w).
Proof.
  intros Hnames. unfold importTry.
  destruct (resolveLabels_run colours userId board importId
              (existingLabelsOf w board) ls w) as (labelMap & w1 & E1 & Hi1).
  rewrite E1.
  destruct (processLists_run userId board importId labelMap ls Hnames
              {| world := w1; existingLists := existingListsOf w board;
                 warnings := []; allCreatedCards := [] |})
    as (st & E2 & Hc2 & Hi2).
  rewrite E2. unfold importRepo.update, repoCall.
  rewrite db_succeeds by discriminate. cbn in *.
  eexists _, _. split; [reflexivity|]. cbn. rewrite Hc2, Hi2, Hi1. auto.
Qed.

Lemma importWithLedger_run colours userId board ls w :
  Forall (fun l => Js.truthy (Js.trim (listName l)) = true) ls ->
  exists out w',
    importWithLedger db colours userId board ls w = (Ok out, w')
    /\ cardsCreated out = countCards ls
    /\ listsProcessed out = List.length ls
    /\ exists row, In row (imports w')
         /\ importId row = nextId (map importId (imports w))
         /\ importStatus row = Success.
Proof.
  intros Hnames. unfold importWithLedger, bind, importRepo.create, repoCall.
  rewrite db_succeeds by discriminate. cbn [fst snd importId Nat.eqb nextId].
  unfold tryCatch.
  match goal with
  | |- context [importTry db colours userId board ?i ls ?w0] =>
      destruct (importTry_run colours userId board i ls w0 Hnames)
        as (out & w' & E & Hc & Hl & Hi)
  end.
  rewrite E. exists out, w'. split; [reflexivity|]. split; [exact Hc|].
  split; [exact Hl|]. rewrite Hi. cbn [imports setImports setStoreCalls].
  rewrite map_app. cbn [map]. eexists. split.
  - apply in_or_app. right. left. reflexivity.
  - unfold importRepo.setStatus. cbn [importId]. rewrite Nat.eqb_refl. auto.
Qed.

Lemma createChecklist_skipped userId lname createdCard cardData j checklistData st :
  db ChecklistCreate (storeCalls (world st)) = NoResult ->
  createChecklist db userId lname createdCard cardData j checklistData st
  = (Ok tt, setWorld (setStoreCalls (S (storeCalls (world st))) (world st)) st).
Proof.
  intros H. unfold createChecklist, bind, liftDb, checklistRepo.create, repoCall.
  rewrite H. reflexivity.
Qed.

Lemma createItem_skipped userId lname title j checklist k itemData st :
  db ChecklistItemCreate (storeCalls (world st)) = NoResult ->
  exists st',
    createItem db userId lname title j checklist k itemData st = (Ok tt, st')
    /\ checklistItems (world st') = checklistItems (world st).
Proof.
  intros H. unfold createItem, bind, liftDb, checklistRepo.createItem, repoCall.
  rewrite H. cbn [setWorld].
  destruct (500 <? _); cbn; eexists; (split; [reflexivity|]); reflexivity.
Qed.

End ChecklistFaults.

(* ===================================================================== *)
(** ** Ordering by index *)
(* ===================================================================== *)

Lemma insertBy_In {A} (key : A -> nat) (x z : A) (l : list A) :
  In z (insertBy key x l) <-> z = x \/ In z l.
Proof.
  induction l as [|y l IH]; cbn.
  - intuition.
  - destruct (key x <=? key y); cbn; [intuition|]. rewrite IH. intuition.
Qed.

Lemma orderBy_In {A} (key : A -> nat) (z : A) (l : list A) :
  In z (orderBy key l) <-> In z l.
Proof.
  induction l as [|y l IH]; cbn; [reflexivity|].
  rewrite insertBy_In, IH. intuition.
Qed.

Lemma insertBy_ascending {A} (key : A -> nat) (x : A) (l : list A) :
  ascending key l -> ascending key (insertBy key x l).
Proof.
  unfold ascending. induction l as [|y l IH]; intros Hs; cbn.
  - repeat constructor.
  - apply StronglySorted_inv in Hs as [Hs Hy].
    destruct (key x <=? key y) eqn:E.
    + apply Nat.leb_le in E. constructor; [constructor; assumption|].
      constructor; [assumption|].
      eapply Forall_impl; [|exact Hy]. cbn. intros. lia.
    + apply Nat.leb_gt in E. constructor; [auto|].
      apply Forall_forall. intros z Hz. apply insertBy_In in Hz as [->|Hz].
      * lia.
      * rewrite Forall_forall in Hy. auto.
Qed.

Lemma orderBy_ascending {A} (key : A -> nat) (l : list A) :
  ascending key (orderBy key l).
Proof.
  induction l as [|y l IH]; cbn; [constructor|]. now apply insertBy_ascending.
Qed.

Lemma insertBy_least {A} (key : A -> nat) (x : A) (l : list A) :
  Forall (fun z => key x <= key z) l -> insertBy key x l = x :: l.
Proof.
  destruct l as [|y l]; cbn; [reflexivity|]. intros H.
  apply Forall_inv in H. apply Nat.leb_le in H. now rewrite H.
Qed.

Lemma filter_insertBy {A} (key : A -> nat) (p : A -> bool) (x : A) (l : list A) :
  ascending key l ->
  filter p (insertBy key x l)
  = if p x then insertBy key x (filter p l) else filter p l.
Proof.
  unfold ascending. induction l as [|y l IH]; intros Hs; cbn.
  - destruct (p x); reflexivity.
  - apply StronglySorted_inv in Hs as [Hs Hy].
    destruct (key x <=? key y) eqn:E; cbn.
    + apply Nat.leb_le in E. destruct (p x); [|reflexivity].
      symmetry. apply insertBy_least.
      assert (Hall : Forall (fun z => key x <= key z) (y :: l)).
      { constructor; [assumption|].
        eapply Forall_impl; [|exact Hy]. cbn. intros. lia. }
      change (if p y then y :: filter p l else filter p l)
        with (filter p (y :: l)).
      apply Forall_forall. intros z Hz. apply filter_In in Hz as [Hz _].
      rewrite Forall_forall in Hall. auto.
    + rewrite (IH Hs). destruct (p x), (p y); cbn; rewrite ?E; reflexivity.
Qed.

Lemma filter_orderBy {A} (key : A -> nat) (p : A -> bool) (l : list A) :
  filter p (orderBy key l) = orderBy key (filter p l).
Proof.
  induction l as [|x l IH]; cbn; [reflexivity|].
  rewrite filter_insertBy by apply orderBy_ascending.
  rewrite IH. destruct (p x); reflexivity.
Qed.

Lemma orderBy_id {A} (key : A -> nat) (l : list A) :
  ascending key l -> orderBy key l = l.
Proof.
  unfold ascending. induction l as [|x l IH]; intros Hs; cbn; [reflexivity|].
  apply StronglySorted_inv in Hs as [Hs Hx].
  rewrite (IH Hs). now apply insertBy_least.
Qed.

Lemma insertBy_before_last {A} (key : A -> nat) (y x : A) (l : list A) :
  key y <= key x -> insertBy key y (l ++ [x]) = insertBy key y l ++ [x].
Proof.
  intros H. induction l as [|z l IH]; cbn.
  - apply Nat.leb_le in H. now rewrite H.
  - destruct (key y <=? key z); [reflexivity|]. now rewrite IH.
Qed.

Lemma orderBy_snoc {A} (key : A -> nat) (x : A) (l : list A) :
  (forall y, In y l -> key y <= key x) ->
  orderBy key (l ++ [x]) = orderBy key l ++ [x].
Proof.
  induction l as [|y l IH]; intros H; cbn; [reflexivity|].
  rewrite IH by (intros z Hz; apply H; now right).
  apply insertBy_before_last. apply H. now left.
Qed.

Lemma filter_filter {A} (p q : A -> bool) (l : list A) :
  filter p (filter q l) = filter (fun x => p x && q x) l.
Proof.
  induction l as [|x l IH]; cbn; [reflexivity|].
  destruct (q x) eqn:Eq, (p x) eqn:Ep; cbn; rewrite ?Ep, ?IH; reflexivity.
Qed.

Lemma filter_ext_in' {A} (p q : A -> bool) (l : list A) :
  (forall x, In x l -> p x = q x) -> filter p l = filter q l.
Proof.
  intros H. induction l as [|x l IH]; cbn; [reflexivity|].
  rewrite (H x (or_introl eq_refl)), IH; [reflexivity|].
  intros y Hy. apply H. now right.
Qed.

Lemma inArray_In (x : nat) (xs : list nat) : inArray x xs = true <-> In x xs.
Proof.
  unfold inArray. rewrite existsb_exists. split.
  - intros (y & Hy & E). apply Nat.eqb_eq in E. now subst.
  - intros H. exists x. split; [assumption|apply Nat.eqb_refl].
Qed.

(* ===================================================================== *)
(** ** The export assembles what each entity shows *)
(* ===================================================================== *)

Lemma length_pos_of_In {A} (x : A) (l : list A) :
  In x l -> (0 <? List.length l) = true.
Proof. destruct l; [intros []|reflexivity]. Qed.

Lemma filter_member_eq {A} (ref : A -> nat) (live : A -> bool) (id : nat)
    (ids : list nat) (rows : list A) :
  In id ids ->
  filter (fun r => ref r =? id)
         (filter (fun r => inArray (ref r) ids && live r) rows)
  = filter (fun r => (ref r =? id) && live r) rows.
Proof.
  intros Hin. rewrite filter_filter. apply filter_ext_in'. intros r _.
  destruct (ref r =? id) eqn:E; [|reflexivity]. apply Nat.eqb_eq in E.
  rewrite E. apply inArray_In in Hin. now rewrite Hin.
Qed.

Lemma exportData_by_entity (w : World) (board : nat) :
  exportData w board = exportByEntity w board.
Proof.
  unfold exportData, exportByEntity. cbv zeta.
  set (L := orderBy listIndex (listsOfBoard w board)).
  set (allCards := orderBy cardIndex (filter _ (cards w))).
  set (cardIds := map cardId allCards).
  apply map_ext_in. intros l Hl. unfold exportList. f_equal.
  assert (Hcards : filter (fun c => cardListId c =? listId l) allCards
                   = cardsOfList w (listId l)).
  { subst allCards. unfold cardsOfList. rewrite filter_orderBy. f_equal.
    apply (filter_member_eq cardListId (fun c => negb (cardDeleted c))).
    now apply in_map. }
  rewrite Hcards. apply map_ext_in. intros c Hc.
  assert (Hcid : In (cardId c) cardIds).
  { subst cardIds. apply in_map. rewrite <- Hcards in Hc.
    now apply filter_In in Hc as [Hc _]. }
  rewrite (length_pos_of_In _ _ Hcid).
  unfold exportCard. f_equal.
  - unfold labelsOfCard. f_equal.
    rewrite filter_filter. apply filter_ext_in'. intros r _.
    destruct (relCardId r =? cardId c) eqn:E; [|reflexivity].
    apply Nat.eqb_eq in E. rewrite E. apply inArray_In in Hcid. now rewrite Hcid.
  - set (allChecklists := orderBy checklistIndex (filter _ (checklists w))).
    assert (Hcls : filter (fun cl => checklistCardId cl =? cardId c) allChecklists
                   = checklistsOfCard w (cardId c)).
    { subst allChecklists. unfold checklistsOfCard. rewrite filter_orderBy. f_equal.
      now apply (filter_member_eq checklistCardId
                   (fun cl => negb (checklistDeleted cl))). }
    rewrite Hcls. apply map_ext_in. intros cl Hcl.
    assert (Hclid : In (checklistId cl) (map checklistId allChecklists)).
    { apply in_map. rewrite <- Hcls in Hcl.
      now apply filter_In in Hcl as [Hcl _]. }
    rewrite (length_pos_of_In _ _ Hclid).
    unfold exportChecklist. f_equal. unfold itemsOfChecklist.
    rewrite filter_orderBy. f_equal. f_equal.
    now apply (filter_member_eq itemChecklistId (fun i => negb (itemDeleted i))).
Qed.

(* ===================================================================== *)
(** ** Rows appended to a table, seen through the export *)
(* ===================================================================== *)

Lemma filter_nothing {A} (p : A -> bool) (l : list A) :
  Forall (fun x => p x = false) l -> filter p l = [].
Proof.
  induction 1 as [|x l Hx _ IH]; cbn; [reflexivity|]. now rewrite Hx.
Qed.

Lemma filter_everything {A} (p : A -> bool) (l : list A) :
  Forall (fun x => p x = true) l -> filter p l = l.
Proof.
  induction 1 as [|x l Hx _ IH]; cbn; [reflexivity|]. now rewrite Hx, IH.
Qed.

Lemma shown_grow {A} (key : A -> nat) (p : A -> bool) (rows news : list A) :
  Forall (fun r => p r = false) news ->
  orderBy key (filter p (rows ++ news)) = orderBy key (filter p rows).
Proof.
  intros H. now rewrite filter_app, (filter_nothing p news H), app_nil_r.
Qed.

Lemma shown_snoc {A} (key : A -> nat) (p : A -> bool) (rows : list A) (r : A) :
  p r = true ->
  (forall y, In y (filter p rows) -> key y <= key r) ->
  orderBy key (filter p (rows ++ [r]))
  = orderBy key (filter p rows) ++ [r].
Proof.
  intros Hp Hk. rewrite filter_app. cbn. rewrite Hp.
  now apply orderBy_snoc.
Qed.

Lemma shown_news {A} (key : A -> nat) (p : A -> bool) (rows news : list A) :
  Forall (fun r => p r = false) rows ->
  Forall (fun r => p r = true) news ->
  ascending key news ->
  orderBy key (filter p (rows ++ news)) = news.
Proof.
  intros H0 H1 Hs.
  rewrite filter_app, (filter_nothing p rows H0), (filter_everything p news H1).
  now apply orderBy_id.
Qed.

Lemma nextIndex_above (indexes : list nat) (x : nat) :
  In x indexes -> x <= nextIndex indexes.
Proof.
  intros H. unfold nextIndex. destruct indexes as [|y ys]; [destruct H|].
  pose proof (proj1 (list_max_le (y :: ys) (list_max (y :: ys))) (le_n _)) as Hall.
  rewrite Forall_forall in Hall. specialize (Hall x H). lia.
Qed.

Lemma list_max_above (xs : list nat) (x : nat) : In x xs -> x <= list_max xs.
Proof.
  intros H.
  pose proof (proj1 (list_max_le xs (list_max xs)) (le_n _)) as Hall.
  rewrite Forall_forall in Hall. auto.
Qed.

Lemma tablesGrow_refl w : tablesGrow w w [] [] [] [] [].
Proof. unfold tablesGrow. now rewrite !app_nil_r. Qed.

Lemma tablesGrow_trans a b c nl nc nr ncl ni nl' nc' nr' ncl' ni' :
  tablesGrow a b nl nc nr ncl ni ->
  tablesGrow b c nl' nc' nr' ncl' ni' ->
  tablesGrow a c (nl ++ nl') (nc ++ nc') (nr ++ nr') (ncl ++ ncl') (ni ++ ni').
Proof.
  unfold tablesGrow. intros (A1 & A2 & A3 & A4 & A5 & A6) (B1 & B2 & B3 & B4 & B5 & B6).
  rewrite B1, B2, B3, B4, B5, B6, A1, A2, A3, A4, A5, A6, !app_assoc. auto 10.
Qed.

Lemma itemsOfChecklist_grow w w' ni clid :
  checklistItems w' = checklistItems w ++ ni ->
  Forall (fun i => itemChecklistId i <> clid) ni ->
  itemsOfChecklist w' clid = itemsOfChecklist w clid.
Proof.
  intros E H. unfold itemsOfChecklist. rewrite E. apply shown_grow.
  eapply Forall_impl; [|exact H]. cbn. intros i Hi.
  apply Nat.eqb_neq in Hi. now rewrite Hi.
Qed.

Lemma itemsOfChecklist_snoc w w' clid title by_ :
  checklistItems w' = checklistItems w ++ [checklistRepo.newItem w title clid by_] ->
  itemsOfChecklist w' clid
  = itemsOfChecklist w clid ++ [checklistRepo.newItem w title clid by_].
Proof.
  intros E. unfold itemsOfChecklist. rewrite E. apply shown_snoc.
  - cbn. now rewrite Nat.eqb_refl.
  - intros y Hy. cbn [checklistRepo.newItem itemIndex].
    apply nextIndex_above. now apply in_map.
Qed.

Lemma checklistsOfCard_grow w w' ncl cid :
  checklists w' = checklists w ++ ncl ->
  Forall (fun cl => checklistCardId cl <> cid) ncl ->
  checklistsOfCard w' cid = checklistsOfCard w cid.
Proof.
  intros E H. unfold checklistsOfCard. rewrite E. apply shown_grow.
  eapply Forall_impl; [|exact H]. cbn. intros i Hi.
  apply Nat.eqb_neq in Hi. now rewrite Hi.
Qed.

Lemma checklistsOfCard_snoc w w' cid name by_ :
  checklists w' = checklists w ++ [checklistRepo.newChecklist w name cid by_] ->
  checklistsOfCard w' cid
  = checklistsOfCard w cid ++ [checklistRepo.newChecklist w name cid by_].
Proof.
  intros E. unfold checklistsOfCard. rewrite E. apply shown_snoc.
  - cbn. now rewrite Nat.eqb_refl.
  - intros y Hy. cbn [checklistRepo.newChecklist checklistIndex].
    apply nextIndex_above. now apply in_map.
Qed.

Lemma checklistsView_grow w w' ncl ni cid :
  checklists w' = checklists w ++ ncl ->
  checklistItems w' = checklistItems w ++ ni ->
  Forall (fun cl => checklistCardId cl <> cid) ncl ->
  Forall (fun i => list_max (map checklistId (checklists w)) < itemChecklistId i) ni ->
  checklistsView w' cid = checklistsView w cid.
Proof.
  intros Ec Ei Hc Hi. unfold checklistsView.
  rewrite (checklistsOfCard_grow w w' ncl cid Ec Hc).
  apply map_ext_in. intros cl Hcl. unfold exportChecklist. f_equal. f_equal.
  apply (itemsOfChecklist_grow w w' ni _ Ei).
  unfold checklistsOfCard in Hcl. apply orderBy_In, filter_In in Hcl as [Hcl _].
  pose proof (list_max_above _ _ (in_map checklistId _ _ Hcl)) as Hle.
  eapply Forall_impl; [|exact Hi]. cbn. intros i Hlt. lia.
Qed.

(* ===================================================================== *)
(** ** What a successful import writes *)
(* ===================================================================== *)

Section AllSucceed.

Context (db : Behaviour).
Hypothesis db_ok : alwaysSucceeds db.

Variable userId : string.

Lemma createItem_written lname title j clid k item st :
  exists st',
    createItem db userId lname title j clid k item st = (Ok tt, st')
    /\ tablesGrow (world st) (world st') [] [] [] []
         [checklistRepo.newItem (world st) (Js.substring0 500 (itemTitle item))
            clid userId].
Proof.
  unfold createItem, bind, liftDb, checklistRepo.createItem, repoCall.
  rewrite db_ok. cbn [fst snd setWorld].
  destruct (500 <? _); cbn [when]; eexists; (split; [reflexivity|]);
    unfold tablesGrow; cbn; rewrite ?app_nil_r; auto 10.
Qed.

Lemma createItems_written lname title j clid items :
  forall k st,
  exists st' ni,
    forEachM (createItem db userId lname title j clid) k items st = (Ok tt, st')
    /\ tablesGrow (world st) (world st') [] [] [] [] ni
    /\ Forall (fun i => itemChecklistId i = clid) ni
    /\ itemsView (world st') clid
       = itemsView (world st) clid ++ map writtenItem items.
Proof.
  induction items as [|item items IH]; intros k st; cbn [forEachM].
  - exists st, []. unfold ret. split; [reflexivity|].
    split; [apply tablesGrow_refl|]. split; [constructor|].
    cbn. now rewrite app_nil_r.
  - destruct (createItem_written lname title j clid k item st) as (s1 & E1 & G1).
    destruct (IH (S k) s1) as (s2 & ni & E2 & G2 & F2 & V2).
    exists s2, (checklistRepo.newItem (world st)
                  (Js.substring0 500 (itemTitle item)) clid userId :: ni).
    unfold bind. rewrite E1, E2. split; [reflexivity|].
    split; [exact (tablesGrow_trans _ _ _ _ _ _ _ _ _ _ _ _ _ G1 G2)|].
    split; [constructor; [reflexivity|assumption]|].
    rewrite V2. unfold itemsView at 1.
    destruct G1 as (_ & _ & _ & _ & _ & G1).
    rewrite (itemsOfChecklist_snoc _ _ _ _ _ G1), map_app. cbn [map].
    unfold itemsView. rewrite <- app_assoc. reflexivity.
Qed.

Lemma createChecklist_written lname createdCard cardData j cl st :
  itemsBounded (world st) ->
  exists st' ni,
    createChecklist db userId lname createdCard cardData j cl st = (Ok tt, st')
    /\ let row := checklistRepo.newChecklist (world st)
                    (Js.substring0 255 (checklistName cl)) (cardId createdCard)
                    userId in
       tablesGrow (world st) (world st') [] [] [] [row] ni
       /\ Forall (fun i => itemChecklistId i = checklistId row) ni
       /\ itemsView (world st') (checklistId row)
          = map writtenItem (checklistItemData cl).
Proof.
  intros Hfresh.
  unfold createChecklist, bind, liftDb, checklistRepo.create, repoCall.
  rewrite db_ok. cbn [fst snd setWorld].
  set (row := checklistRepo.newChecklist _ _ _ _).
  change (checklistId row =? 0) with false. cbv iota beta.
  match goal with
  | |- context [when ?b ?m ?s] =>
      assert (Hw : exists s1, when b m s = (Ok tt, s1) /\ world s1 = world s)
        by (destruct b; cbn; eexists; split; reflexivity);
      destruct Hw as (s1 & Ew & Hs1); rewrite Ew
  end.
  destruct (createItems_written lname (cardTitle cardData) j (checklistId row)
              (checklistItemData cl) 0 s1) as (s2 & ni & E2 & G2 & F2 & V2).
  exists s2, ni. split; [exact E2|]. cbv zeta.
  rewrite Hs1 in G2, V2. cbn [world] in G2, V2.
  split; [|split; [exact F2|]].
  - destruct G2 as (A1 & A2 & A3 & A4 & A5 & A6).
    unfold tablesGrow. rewrite A1, A2, A3, A4, A5, A6. cbn.
    rewrite ?app_nil_r. auto 10.
  - rewrite V2.
    replace (itemsView _ (checklistId row)) with (@nil ChecklistItemData);
      [reflexivity|].
    unfold itemsView, itemsOfChecklist. cbn [checklistItems setChecklists setStoreCalls].
    rewrite filter_nothing; [reflexivity|].
    eapply Forall_impl; [|exact Hfresh]. cbn. intros i Hi.
    cbn [checklists setStoreCalls] in Hi.
    replace (itemChecklistId i =? _) with false; [reflexivity|].
    symmetry. apply Nat.eqb_neq. unfold nextId. lia.
Qed.

Lemma itemsBounded_grow w w' ncl ni :
  checklists w' = checklists w ++ ncl ->
  checklistItems w' = checklistItems w ++ ni ->
  itemsBounded w ->
  Forall (fun i => itemChecklistId i <= list_max (map checklistId (checklists w'))) ni ->
  itemsBounded w'.
Proof.
  unfold itemsBounded. intros Ec Ei Hw Hn. rewrite Ei. apply Forall_app. split.
  - eapply Forall_impl; [|exact Hw]. cbn. intros i Hi.
    rewrite Ec, map_app, list_max_app. lia.
  - exact Hn.
Qed.

Lemma createChecklists_written lname createdCard cardData cls :
  forall j st,
  itemsBounded (world st) ->
  exists st' ncl ni,
    forEachM (createChecklist db userId lname createdCard cardData) j cls st
    = (Ok tt, st')
    /\ tablesGrow (world st) (world st') [] [] [] ncl ni
    /\ Forall (fun cl => checklistCardId cl = cardId createdCard) ncl
    /\ Forall (fun i => list_max (map checklistId (checklists (world st)))
                        < itemChecklistId i) ni
    /\ itemsBounded (world st')
    /\ checklistsView (world st') (cardId createdCard)
       = checklistsView (world st) (cardId createdCard)
         ++ map writtenChecklist cls.
Proof.
  induction cls as [|cl cls IH]; intros j st Hb; cbn [forEachM].
  - exists st, [], []. unfold ret. split; [reflexivity|].
    split; [apply tablesGrow_refl|]. repeat (split; [constructor|]).
    split; [exact Hb|]. cbn. now rewrite app_nil_r.
  - destruct (createChecklist_written lname createdCard cardData j cl st Hb)
      as (s1 & ni1 & E1 & G1 & F1 & V1).
    cbv zeta in G1, F1, V1.
    set (row := checklistRepo.newChecklist (world st) _ _ _) in *.
    pose proof G1 as (_ & _ & _ & _ & Gc & Gi).
    assert (Hb1 : itemsBounded (world s1)).
    { apply (itemsBounded_grow _ _ _ _ Gc Gi Hb).
      eapply Forall_impl; [|exact F1]. cbn. intros i ->.
      rewrite Gc, map_app, list_max_app. cbn. unfold nextId. lia. }
    destruct (IH (S j) s1 Hb1) as (s2 & ncl & ni2 & E2 & G2 & Fc2 & Fi2 & Hb2 & V2).
    exists s2, (row :: ncl), (ni1 ++ ni2). unfold bind. rewrite E1, E2.
    split; [reflexivity|].
    split; [exact (tablesGrow_trans _ _ _ _ _ _ _ _ _ _ _ _ _ G1 G2)|].
    split; [constructor; [reflexivity|assumption]|].
    split.
    { apply Forall_app. split.
      - eapply Forall_impl; [|exact F1]. cbn. intros i ->. unfold nextId. lia.
      - eapply Forall_impl; [|exact Fi2]. cbn. intros i Hi.
        rewrite Gc, map_app, list_max_app in Hi. lia. }
    split; [exact Hb2|].
    rewrite V2. cbn [map].
    change (writtenChecklist cl :: map writtenChecklist cls)
      with ([writtenChecklist cl] ++ map writtenChecklist cls).
    rewrite app_assoc. f_equal.
    unfold checklistsView.
    rewrite (checklistsOfCard_snoc _ _ _ _ _ Gc), map_app. cbn [map].
    f_equal.
    + apply map_ext_in. intros c0 Hc0. unfold exportChecklist. f_equal. f_equal.
      apply (itemsOfChecklist_grow _ _ _ _ Gi).
      unfold checklistsOfCard in Hc0.
      apply orderBy_In, filter_In in Hc0 as [Hc0 _].
      pose proof (list_max_above _ _ (in_map checklistId _ _ Hc0)) as Hle.
      eapply Forall_impl; [|exact F1]. cbn. intros i ->. unfold nextId. lia.
    + f_equal. unfold exportChecklist, writtenChecklist. f_equal. exact V1.
Qed.

Lemma createChecklistsOfCard_written lname m createdCard cardData st :
  mapGetNat (cardPublicId createdCard) m = Some cardData ->
  itemsBounded (world st) ->
  exists st' ncl ni,
    createChecklistsOfCard db userId lname m createdCard st = (Ok tt, st')
    /\ tablesGrow (world st) (world st') [] [] [] ncl ni
    /\ Forall (fun cl => checklistCardId cl = cardId createdCard) ncl
    /\ Forall (fun i => list_max (map checklistId (checklists (world st)))
                        < itemChecklistId i) ni
    /\ itemsBounded (world st')
    /\ checklistsView (world st') (cardId createdCard)
       = checklistsView (world st) (cardId createdCard)
         ++ map writtenChecklist (cardChecklists cardData).
Proof.
  intros Hm Hb. unfold createChecklistsOfCard. rewrite Hm.
  now apply createChecklists_written.
Qed.

Lemma Forall2_and_left {A B} (P : A -> Prop) (R : A -> B -> Prop) l l' :
  Forall P l -> Forall2 R l l' -> Forall2 (fun a b => P a /\ R a b) l l'.
Proof.
  intros HP HR. induction HR; constructor; inversion HP; subst; auto.
Qed.

Lemma createAllChecklists_written lname m createdCards datas :
  Forall2 (fun C cd => mapGetNat (cardPublicId C) m = Some cd) createdCards datas ->
  NoDup (map cardId createdCards) ->
  forall k st,
  itemsBounded (world st) ->
  exists st' ncl ni,
    forEachM (fun _ => createChecklistsOfCard db userId lname m) k createdCards st
    = (Ok tt, st')
    /\ tablesGrow (world st) (world st') [] [] [] ncl ni
    /\ Forall (fun cl => In (checklistCardId cl) (map cardId createdCards)) ncl
    /\ Forall (fun i => list_max (map checklistId (checklists (world st)))
                        < itemChecklistId i) ni
    /\ itemsBounded (world st')
    /\ Forall2 (fun C cd =>
                  checklistsView (world st') (cardId C)
                  = checklistsView (world st) (cardId C)
                    ++ map writtenChecklist (cardChecklists cd))
               createdCards datas.
Proof.
  induction 1 as [|C cd Cs cds Hm Hrest IH]; intros Hnd k st Hb; cbn [forEachM].
  - exists st, [], []. unfold ret. split; [reflexivity|].
    split; [apply tablesGrow_refl|]. repeat (split; [constructor|]).
    split; [exact Hb|constructor].
  - cbn [map] in Hnd. apply NoDup_cons_iff in Hnd as [Hnotin Hnd].
    destruct (createChecklistsOfCard_written lname m C cd st Hm Hb)
      as (s1 & ncl1 & ni1 & E1 & G1 & Fc1 & Fi1 & Hb1 & V1).
    destruct (IH Hnd (S k) s1 Hb1)
      as (s2 & ncl2 & ni2 & E2 & G2 & Fc2 & Fi2 & Hb2 & V2).
    pose proof G1 as (_ & _ & _ & _ & Gc1 & Gi1).
    pose proof G2 as (_ & _ & _ & _ & Gc2 & Gi2).
    exists s2, (ncl1 ++ ncl2), (ni1 ++ ni2). unfold bind. rewrite E1, E2.
    split; [reflexivity|].
    split; [exact (tablesGrow_trans _ _ _ _ _ _ _ _ _ _ _ _ _ G1 G2)|].
    split.
    { apply Forall_app. split.
      - eapply Forall_impl; [|exact Fc1]. cbn. intros cl ->. now left.
      - eapply Forall_impl; [|exact Fc2]. cbn. intros cl Hcl. now right. }
    split.
    { apply Forall_app. split; [exact Fi1|].
      eapply Forall_impl; [|exact Fi2]. cbn. intros i Hi.
      rewrite Gc1, map_app, list_max_app in Hi. lia. }
    split; [exact Hb2|].
    constructor.
    + rewrite <- V1.
      apply (checklistsView_grow _ _ _ _ _ Gc2 Gi2); [|exact Fi2].
      eapply Forall_impl; [|exact Fc2]. cbn. intros cl Hcl Heq.
      apply Hnotin. now rewrite <- Heq.
    + assert (Hne : Forall (fun C' => cardId C' <> cardId C) Cs).
      { apply Forall_forall. intros C' HC' Heq. apply Hnotin.
        rewrite <- Heq. now apply in_map. }
      eapply Forall2_impl; [|exact (Forall2_and_left _ _ _ _ Hne V2)].
      cbn. intros C' cd' [Hne' ->]. f_equal.
      apply (checklistsView_grow _ _ _ _ _ Gc1 Gi1); [|exact Fi1].
      eapply Forall_impl; [|exact Fc1]. cbn. intros cl ->. auto.
Qed.

End AllSucceed.

(* ===================================================================== *)
(** ** The rows of a batch of cards *)
(* ===================================================================== *)

Lemma fold_mapSet_rev {X K V} (k : X -> K) (v : X -> V) (xs : list X) :
  forall acc,
    fold_left (fun m p => mapSet (k p) (v p) m) xs acc
    = rev (map (fun p => (k p, v p)) xs) ++ acc.
Proof.
  induction xs as [|x xs IH]; intros acc; simpl; [reflexivity|].
  rewrite IH. unfold mapSet. now rewrite <- app_assoc.
Qed.

Lemma mapGetNat_In {V} (m : list (nat * V)) (k : nat) (v : V) :
  NoDup (map fst m) -> In (k, v) m -> mapGetNat k m = Some v.
Proof.
  induction m as [|[k' v'] m IH]; simpl; intros Hnd Hin; [contradiction|].
  inversion Hnd as [|? ? Hnotin Hnd']; subst. destruct Hin as [E|Hin].
  - injection E as -> ->. now rewrite Nat.eqb_refl.
  - destruct (Nat.eqb_spec k k') as [->|_]; [|auto].
    exfalso. apply Hnotin. change k' with (fst (k', v)). now apply in_map.
Qed.

Lemma preparedFrom_uids userId importId target cards :
  forall index uid,
    map (fun p => cardInputPublicId (snd p))
        (preparedFrom userId importId target index uid cards)
    = seq uid (List.length cards).
Proof.
  induction cards as [|c cs IH]; intros index uid; simpl; [reflexivity|].
  now rewrite IH.
Qed.

Lemma cardRowsFrom_ids (inputs : list CardInput) :
  forall id, map cardId (cardRowsFrom id inputs) = seq id (List.length inputs).
Proof.
  induction inputs as [|x xs IH]; intros id; simpl; [reflexivity|].
  now rewrite IH.
Qed.

Lemma prepared_indexes userId importId target cards :
  forall id index uid,
    map cardIndex
        (cardRowsFrom id
           (map snd (preparedFrom userId importId target index uid cards)))
    = seq index (List.length cards).
Proof.
  induction cards as [|c cs IH]; intros id index uid; simpl; [reflexivity|].
  now rewrite IH.
Qed.

Lemma ascending_seq {A} (key : A -> nat) (l : list A) :
  forall a n, map key l = seq a n -> ascending key l.
Proof.
  unfold ascending.
  induction l as [|x l IH]; intros a n H; [constructor|].
  destruct n as [|n]; [discriminate|]. simpl in H. injection H as Hx Hl.
  constructor; [exact (IH _ _ Hl)|].
  apply Forall_forall. intros y Hy.
  apply (in_map key) in Hy. rewrite Hl in Hy. apply in_seq in Hy. lia.
Qed.

(** Row by row, what the batch insert writes for the cards of a list. *)
Lemma prepared_rows userId importId target cards :
  forall id index uid,
    Forall2 (fun C cd =>
               In (cardPublicId C, cd)
                  (map (fun p => (cardInputPublicId (snd p), fst p))
                       (preparedFrom userId importId target index uid cards))
               /\ cardRowTitle C = Js.substring0 255 (cardTitle cd)
               /\ cardRowDescription C = Js.substring0 10000 (cardDescription cd)
               /\ cardListId C = target
               /\ cardDeleted C = false)
            (cardRowsFrom id
               (map snd (preparedFrom userId importId target index uid cards)))
            cards.
Proof.
  induction cards as [|c cs IH]; intros id index uid; simpl; constructor.
  - simpl. auto 6.
  - eapply Forall2_impl; [|apply IH]. cbn. intros C cd (Hin & H). auto.
Qed.

Lemma prepared_aligned userId importId target cards id uid :
  let prepared := preparedFrom userId importId target 0 uid cards in
  Forall2 (fun C cd =>
             mapGetNat (cardPublicId C)
               (fold_left (fun m p => mapSet (cardInputPublicId (snd p)) (fst p) m)
                          prepared [])
             = Some cd
             /\ cardRowTitle C = Js.substring0 255 (cardTitle cd)
             /\ cardRowDescription C = Js.substring0 10000 (cardDescription cd)
             /\ cardListId C = target
             /\ cardDeleted C = false)
          (cardRowsFrom id (map snd prepared)) cards.
Proof.
  intros prepared. subst prepared.
  eapply Forall2_impl; [|apply prepared_rows].
  cbn. intros C cd (Hin & H). split; [|exact H].
  rewrite (fold_mapSet_rev (fun p => cardInputPublicId (snd p)) fst), app_nil_r.
  apply mapGetNat_In.
  - rewrite map_rev, map_map. cbn [fst].
    rewrite preparedFrom_uids. apply NoDup_rev, seq_NoDup.
  - apply -> in_rev. exact Hin.
Qed.

(* ===================================================================== *)
(** ** The label names of a card *)
(* ===================================================================== *)

Lemma newSet_In (xs : list string) (x : string) : In x (newSet xs) <-> In x xs.
Proof.
  unfold newSet.
  pose proof (fold_setAdd_In (fun _ => true) (fun y => y) xs [] x) as H.
  cbn beta iota in H. rewrite H. split.
  - intros [[]|(y & Hy & _ & ->)]. exact Hy.
  - intros Hx. right. exists x. auto.
Qed.

Lemma fold_setAdd_map (f : string -> string) (xs : list string) :
  forall acc,
    (forall a b, In a (acc ++ xs) -> In b (acc ++ xs) -> f a = f b -> a = b) ->
    fold_left (fun s x => setAdd x s) (map f xs) (map f acc)
    = map f (fold_left (fun s x => setAdd x s) xs acc).
Proof.
  induction xs as [|x xs IH]; intros acc Hinj; cbn [map fold_left]; [reflexivity|].
  assert (E : setAdd (f x) (map f acc) = map f (setAdd x acc)).
  { unfold setAdd.
    assert (Eh : setHas (f x) (map f acc) = setHas x acc).
    { destruct (setHas x acc) eqn:Ex.
      - apply setHas_In. apply setHas_In in Ex. now apply in_map.
      - destruct (setHas (f x) (map f acc)) eqn:Ef; [|reflexivity].
        apply setHas_In in Ef. apply in_map_iff in Ef as (a & Ea & Ha).
        assert (a = x) as ->.
        { apply Hinj; [apply in_or_app; now left| |exact Ea].
          apply in_or_app. right. now left. }
        apply setHas_In in Ha. congruence. }
    rewrite Eh. destruct (setHas x acc); [reflexivity|].
    now rewrite map_app. }
  rewrite E. apply IH. intros a b Ha Hb.
  assert (Hsub : forall z, In z (setAdd x acc ++ xs) -> In z (acc ++ x :: xs)).
  { intros z Hz. apply in_app_or in Hz as [Hz|Hz].
    - apply setAdd_In in Hz as [->|Hz]; apply in_or_app; [right; now left|now left].
    - apply in_or_app. right. now right. }
  apply Hinj; auto.
Qed.

Lemma newSet_map (f : string -> string) (xs : list string) :
  (forall a b, In a xs -> In b xs -> f a = f b -> a = b) ->
  newSet (map f xs) = map f (newSet xs).
Proof.
  intros H. unfold newSet. apply (fold_setAdd_map f xs []). exact H.
Qed.

Lemma relations_named w labelMap (createdCard : CardRow) (xs : list string) :
  (forall n, In n xs -> resolves w labelMap n) ->
  map (labelNameOf w)
      (flat_map (fun labelName =>
                   match mapGet (Js.toLowerCase labelName) labelMap with
                   | Some labelId =>
                       if labelId =? 0 then []
                       else [{| relCardId := cardId createdCard;
                                relLabelId := labelId |}]
                   | None => []
                   end)
                (map Js.toLowerCase xs))
  = xs.
Proof.
  induction xs as [|x xs IH]; intros Hres; cbn [map flat_map]; [reflexivity|].
  destruct (Hres x (or_introl eq_refl)) as (id & row & Hg & Hne & Hf & Hn).
  rewrite toLowerCase_idempotent, Hg.
  destruct (Nat.eqb_spec id 0) as [E|_]; [contradiction|].
  cbn [app map]. unfold labelNameOf at 1. cbn [relLabelId].
  rewrite Hf, Hn. f_equal. apply IH. intros n Hin. apply Hres. now right.
Qed.

(** The labels the export shows for the associations written for a card:
    the names of the card, each once. *)
Lemma relationsOfCard_named w labelMap createdCard cardData :
  (forall n, In n (cardLabels cardData) ->
     resolves w labelMap n /\ (Js.trim n =? "")%string = false) ->
  (forall a b, In a (cardLabels cardData) -> In b (cardLabels cardData) ->
     Js.toLowerCase a = Js.toLowerCase b -> a = b) ->
  map (labelNameOf w) (relationsOfCard labelMap createdCard cardData)
  = newSet (cardLabels cardData).
Proof.
  intros Hres Hinj. unfold relationsOfCard, uniqueLabelsOf.
  rewrite filter_everything.
  2:{ apply Forall_forall. intros n Hn. destruct (Hres n Hn) as [_ ->]. reflexivity. }
  rewrite (newSet_map _ _ Hinj).
  apply relations_named. intros n Hn.
  exact (proj1 (Hres n (proj1 (newSet_In _ _) Hn))).
Qed.

Lemma relationsOfCard_card labelMap createdCard cardData :
  Forall (fun r => relCardId r = cardId createdCard)
         (relationsOfCard labelMap createdCard cardData).
Proof.
  unfold relationsOfCard. apply Forall_flat_map. apply Forall_forall.
  intros k _. destruct (mapGet _ _) as [id|]; [|constructor].
  destruct (id =? 0); repeat constructor.
Qed.

Lemma labelStep_relations labelMap lname m createdCard cardData :
  mapGetNat (cardPublicId createdCard) m = Some cardData ->
  fst (labelStepOfCard labelMap lname m createdCard)
  = relationsOfCard labelMap createdCard cardData.
Proof.
  intros H. unfold labelStepOfCard. rewrite H.
  destruct (cardLabels cardData) as [|n ns] eqn:E; [|reflexivity].
  cbn. unfold relationsOfCard. now rewrite E.
Qed.

(** The associations pushed for a batch of cards, card by card. *)
Lemma relations_by_card labelMap lname m createdCards datas :
  Forall2 (fun C cd => mapGetNat (cardPublicId C) m = Some cd) createdCards datas ->
  NoDup (map cardId createdCards) ->
  let relations :=
    flat_map fst (map (labelStepOfCard labelMap lname m) createdCards) in
  Forall (fun r => In (relCardId r) (map cardId createdCards)) relations
  /\ Forall2 (fun C cd =>
                filter (fun r => relCardId r =? cardId C) relations
                = relationsOfCard labelMap C cd)
             createdCards datas.
Proof.
  induction 1 as [|C cd Cs cds Hm Hrest IH]; intros Hnd; cbn.
  - split; constructor.
  - cbn [map] in Hnd. apply NoDup_cons_iff in Hnd as [Hnotin Hnd].
    destruct (IH Hnd) as [Hids Hview].
    rewrite (labelStep_relations _ _ _ _ _ Hm).
    pose proof (relationsOfCard_card labelMap C cd) as Hown.
    split.
    + apply Forall_app. split.
      * eapply Forall_impl; [|exact Hown]. cbn. intros r ->. now left.
      * eapply Forall_impl; [|exact Hids]. cbn. intros r Hr. now right.
    + constructor.
      * rewrite filter_app, filter_everything, filter_nothing.
        -- apply app_nil_r.
        -- eapply Forall_impl; [|exact Hids]. cbn. intros r Hr.
           apply Nat.eqb_neq. intros E. apply Hnotin. now rewrite <- E.
        -- eapply Forall_impl; [|exact Hown]. cbn. intros r ->.
           apply Nat.eqb_refl.
      * assert (Hne : Forall (fun C' => cardId C' <> cardId C) Cs).
        { apply Forall_forall. intros C' HC' Heq. apply Hnotin.
          rewrite <- Heq. now apply in_map. }
        eapply Forall2_impl; [|exact (Forall2_and_left _ _ _ _ Hne Hview)].
        cbn. intros C' cd' [Hne' <-].
        rewrite filter_app, filter_nothing; [reflexivity|].
        eapply Forall_impl; [|exact Hown]. cbn. intros r ->.
        now apply Nat.eqb_neq.
Qed.

(* ===================================================================== *)
(** ** The export of a batch of cards *)
(* ===================================================================== *)

Lemma Forall2_map_eq {A B C} (f : A -> C) (g : B -> C) (l : list A) (l' : list B) :
  Forall2 (fun a b => f a = g b) l l' -> map f l = map g l'.
Proof. induction 1; cbn; [reflexivity|]. now f_equal. Qed.

Lemma Forall2_conj {A B} (R1 R2 : A -> B -> Prop) (l : list A) (l' : list B) :
  Forall2 R1 l l' -> Forall2 R2 l l' -> Forall2 (fun a b => R1 a b /\ R2 a b) l l'.
Proof.
  induction 1; intros H2; inversion H2; subst; constructor; auto.
Qed.

Lemma Forall2_and_right {A B} (P : B -> Prop) (R : A -> B -> Prop) l l' :
  Forall P l' -> Forall2 R l l' -> Forall2 (fun a b => P b /\ R a b) l l'.
Proof.
  intros HP HR. induction HR; constructor; inversion HP; subst; auto.
Qed.

Lemma checklistsView_none w cid :
  Forall (fun cl => checklistCardId cl < cid) (checklists w) ->
  checklistsView w cid = [].
Proof.
  intros H. unfold checklistsView, checklistsOfCard.
  rewrite filter_nothing; [reflexivity|].
  eapply Forall_impl; [|exact H]. cbn. intros cl Hlt.
  apply andb_false_intro1. apply Nat.eqb_neq. lia.
Qed.

(** The cards the export shows for a list that holds the rows of one batch
    and nothing else: what was written for the cards of the payload, in
    their order. *)
Lemma cards_exported w w' labelMap lname m target nl rows cds ncl ni :
  Forall (fun r => relCardId r <= list_max (map cardId (cards w))) (cardsToLabels w) ->
  Forall (fun cl => checklistCardId cl <= list_max (map cardId (cards w)))
         (checklists w) ->
  Forall (fun c => cardListId c <> target) (cards w) ->
  map cardId rows = seq (nextId (map cardId (cards w))) (List.length rows) ->
  ascending cardIndex rows ->
  tablesGrow w w' nl rows
    (flat_map fst (map (labelStepOfCard labelMap lname m) rows)) ncl ni ->
  Forall2 (fun C cd =>
             mapGetNat (cardPublicId C) m = Some cd
             /\ cardRowTitle C = Js.substring0 255 (cardTitle cd)
             /\ cardRowDescription C = Js.substring0 10000 (cardDescription cd)
             /\ cardListId C = target
             /\ cardDeleted C = false) rows cds ->
  Forall2 (fun C cd =>
             checklistsView w' (cardId C)
             = checklistsView w (cardId C)
               ++ map writtenChecklist (cardChecklists cd)) rows cds ->
  Forall (fun cd =>
            (forall n, In n (cardLabels cd) ->
               resolves w' labelMap n /\ (Js.trim n =? "")%string = false)
            /\ (forall a b, In a (cardLabels cd) -> In b (cardLabels cd) ->
                   Js.toLowerCase a = Js.toLowerCase b -> a = b)) cds ->
  map (exportCard w') (cardsOfList w' target) = map writtenCard cds.
Proof.
  intros Hrel Hcl Hold Hids Hasc (G1 & G2 & G3 & G4 & G5 & G6) Hal Hview Hlab.
  assert (Hnew : forall C, In C rows -> list_max (map cardId (cards w)) < cardId C).
  { intros C HC. apply (in_map cardId) in HC. rewrite Hids in HC.
    apply in_seq in HC. unfold nextId in HC. lia. }
  assert (Hnd : NoDup (map cardId rows)) by (rewrite Hids; apply seq_NoDup).
  assert (Hshown : cardsOfList w' target = rows).
  { unfold cardsOfList. rewrite G3. apply shown_news; [| |exact Hasc].
    - eapply Forall_impl; [|exact Hold]. cbn. intros c Hc.
      apply andb_false_intro1. now apply Nat.eqb_neq.
    - clear -Hal. induction Hal as [|C cd Cs cds' (_ & _ & _ & Hl & Hd) _ IH];
        constructor; [|exact IH].
      cbn. now rewrite Hl, Hd, Nat.eqb_refl. }
  rewrite Hshown. apply Forall2_map_eq.
  assert (Hm : Forall2 (fun C cd => mapGetNat (cardPublicId C) m = Some cd) rows cds).
  { eapply Forall2_impl; [|exact Hal]. cbn. intros C cd H. apply H. }
  destruct (relations_by_card labelMap lname m rows cds Hm Hnd) as [_ Hrels].
  assert (Hin : Forall (fun C => In C rows) rows) by (apply Forall_forall; auto).
  pose proof (Forall2_and_left _ _ _ _ Hin
               (Forall2_and_right _ _ _ _ Hlab
                  (Forall2_conj _ _ _ _ Hal (Forall2_conj _ _ _ _ Hview Hrels))))
    as Hall.
  eapply Forall2_impl; [|exact Hall]. cbn.
  intros C cd (HC & (Hres & Hinj) & (_ & Ht & Hd & _ & _) & Hv & Hr).
  specialize (Hnew C HC).
  unfold exportCard, writtenCard. f_equal; [exact Ht|exact Hd| |].
  - unfold labelsOfCard. rewrite G4, filter_app, filter_nothing.
    + cbn [app]. rewrite Hr. now apply relationsOfCard_named.
    + eapply Forall_impl; [|exact Hrel]. cbn. intros r Hle.
      apply Nat.eqb_neq. lia.
  - fold (checklistsView w' (cardId C)). rewrite Hv, checklistsView_none.
    + reflexivity.
    + eapply Forall_impl; [|exact Hcl]. cbn. intros cl Hle. lia.
Qed.

(* ===================================================================== *)
(** ** The export after a list is appended *)
(* ===================================================================== *)

Lemma labelNameOf_same w w' :
  labels w' = labels w -> forall rel, labelNameOf w' rel = labelNameOf w rel.
Proof. intros E rel. unfold labelNameOf. now rewrite E. Qed.

Lemma resolves_same w w' labelMap n :
  labels w' = labels w -> resolves w labelMap n -> resolves w' labelMap n.
Proof.
  intros E (id & row & H1 & H2 & H3 & H4). exists id, row. rewrite E. auto.
Qed.

(** What the export shows of a list is left as it was by rows that refer
    to lists, cards and checklists created after it. *)
Lemma exportList_apart w w' (l : ListRow) :
  grownApart w w' -> In l (lists w) -> exportList w' l = exportList w l.
Proof.
  intros (nl & nc & nr & ncl & ni & (G1 & G2 & G3 & G4 & G5 & G6)
          & Fc & Fr & Fcl & Fi) Hl.
  pose proof (list_max_above _ _ (in_map listId _ _ Hl)) as Hle.
  unfold exportList. f_equal.
  assert (Ecards : cardsOfList w' (listId l) = cardsOfList w (listId l)).
  { unfold cardsOfList. rewrite G3. apply shown_grow.
    eapply Forall_impl; [|exact Fc]. cbn. intros c Hc.
    apply andb_false_intro1. apply Nat.eqb_neq. lia. }
  rewrite Ecards. apply map_ext_in. intros c Hc.
  unfold cardsOfList in Hc. apply orderBy_In, filter_In in Hc as [Hc _].
  pose proof (list_max_above _ _ (in_map cardId _ _ Hc)) as Hcle.
  unfold exportCard. f_equal.
  - unfold labelsOfCard.
    rewrite G4, filter_app, (filter_nothing _ nr), app_nil_r.
    + apply map_ext. apply labelNameOf_same. exact G2.
    + eapply Forall_impl; [|exact Fr]. cbn. intros r Hr.
      apply Nat.eqb_neq. lia.
  - apply (checklistsView_grow w w' ncl ni (cardId c) G5 G6); [|exact Fi].
    eapply Forall_impl; [|exact Fcl]. cbn. intros cl Hlt. lia.
Qed.

(** The export of a board to which a list was appended: what it was,
    followed by the new list. *)
Lemma exportByEntity_grows w w' board name by_ importId nc nr ncl ni :
  let row := listRepo.newList w name by_ board importId in
  tablesGrow w w' [row] nc nr ncl ni ->
  Forall (fun c => list_max (map listId (lists w)) < cardListId c) nc ->
  Forall (fun r => list_max (map cardId (cards w)) < relCardId r) nr ->
  Forall (fun cl => list_max (map cardId (cards w)) < checklistCardId cl) ncl ->
  Forall (fun i => list_max (map checklistId (checklists w)) < itemChecklistId i) ni ->
  exportByEntity w' board = exportByEntity w board ++ [exportList w' row].
Proof.
  intros row G Fc Fr Fcl Fi.
  assert (Hap : grownApart w w') by (exists [row], nc, nr, ncl, ni; auto).
  destruct G as (G1 & _).
  unfold exportByEntity, listsOfBoard. rewrite G1.
  rewrite shown_snoc.
  - rewrite map_app. cbn [map]. f_equal.
    apply map_ext_in. intros l Hl. apply (exportList_apart w w' l Hap).
    apply orderBy_In, filter_In in Hl. apply Hl.
  - subst row. cbn. now rewrite Nat.eqb_refl.
  - intros y Hy. subst row. cbn [listIndex listRepo.newList].
    apply nextIndex_above. now apply in_map.
Qed.

Lemma wellReferenced_grows w w' nl nc nr ncl ni :
  wellReferenced w ->
  tablesGrow w w' nl nc nr ncl ni ->
  Forall (fun c => cardListId c <= list_max (map listId (lists w'))) nc ->
  Forall (fun r => relCardId r <= list_max (map cardId (cards w'))) nr ->
  Forall (fun cl => checklistCardId cl <= list_max (map cardId (cards w'))) ncl ->
  itemsBounded w' ->
  wellReferenced w'.
Proof.
  intros (W1 & W2 & W3 & _) G Fc Fr Fcl Hb.
  pose proof G as (G1 & G2 & G3 & G4 & G5 & G6).
  unfold wellReferenced. rewrite G3 at 1. rewrite G4, G5.
  repeat split; [| | |exact Hb]; apply Forall_app; (split; [|assumption]).
  - eapply Forall_impl; [|exact W1]. cbn. intros c Hc.
    rewrite G1, map_app, list_max_app. lia.
  - eapply Forall_impl; [|exact W2]. cbn. intros c Hc.
    rewrite G3, map_app, list_max_app. lia.
  - eapply Forall_impl; [|exact W3]. cbn. intros c Hc.
    rewrite G3, map_app, list_max_app. lia.
Qed.

(* ===================================================================== *)
(** ** Labels created on a board that shows none *)
(* ===================================================================== *)

Lemma labelNamesOf_In (ls : list ListData) (n : string) :
  In n (labelNamesOf ls)
  <-> exists l card, In l ls /\ In card (listCards l) /\ In n (cardLabels card).
Proof.
  unfold labelNamesOf. rewrite in_flat_map. split.
  - intros (l & Hl & Hn). apply in_flat_map in Hn as (card & Hc & Hn). eauto.
  - intros (l & card & Hl & Hc & Hn). exists l. split; [exact Hl|].
    apply in_flat_map. eauto.
Qed.

Lemma labelRowsFrom_ids (inputs : list LabelInput) :
  forall id, map labelId (labelRowsFrom id inputs) = seq id (List.length inputs).
Proof.
  induction inputs as [|x xs IH]; intros id; simpl; [reflexivity|].
  now rewrite IH.
Qed.

Lemma find_by_key {A} (key : A -> nat) (l : list A) (x : A) :
  NoDup (map key l) -> In x l -> find (fun y => key y =? key x) l = Some x.
Proof.
  induction l as [|a l IH]; cbn; intros Hnd Hin; [contradiction|].
  inversion Hnd as [|? ? Hnotin Hnd']; subst.
  destruct (Nat.eqb_spec (key a) (key x)) as [E|Hne].
  - destruct Hin as [->|Hin]; [reflexivity|].
    exfalso. apply Hnotin. rewrite E. now apply in_map.
  - destruct Hin as [->|Hin]; [congruence|auto].
Qed.

Lemma find_app_skip {A} (p : A -> bool) (l1 l2 : list A) :
  Forall (fun y => p y = false) l1 -> find p (l1 ++ l2) = find p l2.
Proof.
  induction 1 as [|a l Ha _ IH]; cbn; [reflexivity|]. now rewrite Ha.
Qed.

Lemma combine_map {A B C} (f : A -> B) (g : A -> C) (l : list A) :
  combine (map f l) (map g l) = map (fun x => (f x, g x)) l.
Proof. induction l; cbn; [reflexivity|]. now f_equal. Qed.

Lemma listMatches_none (l : ListData) (existing : list (nat * string)) :
  Forall (fun e => Js.toLowerCase (snd e) <> Js.toLowerCase (listName l)) existing ->
  find (listMatches l) existing = None.
Proof.
  induction 1 as [|e es He _ IH]; cbn; [reflexivity|].
  unfold listMatches at 1.
  destruct (String.eqb_spec (Js.toLowerCase (snd e)) (Js.toLowerCase (listName l)))
    as [E|_]; [contradiction|].
  now rewrite andb_false_r.
Qed.

(* ===================================================================== *)
(** ** What the import writes when every write succeeds *)
(* ===================================================================== *)

Section RoundTrip.

Context (db : Behaviour).
Hypothesis db_ok : alwaysSucceeds db.
Variable userId : string.

Lemma writeCardDetails_written labelMap l m createdCards datas st :
  Forall2 (fun C cd => mapGetNat (cardPublicId C) m = Some cd) createdCards datas ->
  NoDup (map cardId createdCards) ->
  itemsBounded (world st) ->
  exists st' ncl ni,
    writeCardDetails db userId labelMap l m createdCards st = (Ok tt, st')
    /\ tablesGrow (world st) (world st') [] []
         (flat_map fst (map (labelStepOfCard labelMap (listName l) m) createdCards))
         ncl ni
    /\ Forall (fun cl => In (checklistCardId cl) (map cardId createdCards)) ncl
    /\ Forall (fun i => list_max (map checklistId (checklists (world st)))
                        < itemChecklistId i) ni
    /\ itemsBounded (world st')
    /\ Forall2 (fun C cd =>
                  checklistsView (world st') (cardId C)
                  = checklistsView (world st) (cardId C)
                    ++ map writtenChecklist (cardChecklists cd))
               createdCards datas.
Proof.
  intros Hal Hnd Hb.
  unfold writeCardDetails, bind, pushCreatedCards, liftDb,
    cardActivityRepo.bulkCreate, repoCall. cbn [world].
  rewrite db_ok. cbn [snd fst setWorld world].
  unfold pushWarnings at 1. cbn [world].
  set (relations := flat_map fst (map (labelStepOfCard labelMap (listName l) m)
                                      createdCards)).
  destruct (0 <? List.length relations) eqn:E0; cbn [when].
  - unfold cardRepo.bulkCreateCardLabelRelationship, repoCall.
    cbn [world storeCalls setStoreCalls setCardActivities].
    rewrite db_ok. cbn [snd fst setWorld world].
    match goal with
    | |- context [forEachM ?f 0 ?cs ?s] =>
        destruct (createAllChecklists_written db db_ok userId (listName l) m
                    createdCards datas Hal Hnd 0 s Hb)
          as (st' & ncl & ni & E & G & Fc & Fi & Hb' & V)
    end.
    exists st', ncl, ni. rewrite E. split; [reflexivity|].
    split; [|auto].
    destruct G as (G1 & G2 & G3 & G4 & G5 & G6).
    unfold tablesGrow. rewrite G1, G2, G3, G4, G5, G6. cbn.
    now rewrite !app_nil_r.
  - unfold ret.
    match goal with
    | |- context [forEachM ?f 0 ?cs ?s] =>
        destruct (createAllChecklists_written db db_ok userId (listName l) m
                    createdCards datas Hal Hnd 0 s Hb)
          as (st' & ncl & ni & E & G & Fc & Fi & Hb' & V)
    end.
    exists st', ncl, ni. rewrite E. split; [reflexivity|].
    split; [|auto].
    apply Nat.ltb_ge in E0.
    assert (relations = []) as -> by (destruct relations; [reflexivity|cbn in E0; lia]).
    exact G.
Qed.

Lemma cardRepo_fold_tables (inputs : list CardInput) (w : World) :
  tablesGrow w (fold_left cardRepo.insert inputs w) []
    (cardRowsFrom (nextId (map cardId (cards w))) inputs) [] [] [].
Proof.
  unfold tablesGrow. rewrite cardRepo_fold_cards.
  rewrite !(fold_left_unchanged _ cardRepo.insert) by reflexivity.
  now rewrite !app_nil_r.
Qed.

Lemma writeCards_written importId labelMap l target st :
  listCards l <> [] ->
  itemsBounded (world st) ->
  let prepared :=
    preparedFrom userId importId (fst target) 0 (uidSeed (world st)) (listCards l) in
  let rows := cardRowsFrom (nextId (map cardId (cards (world st)))) (map snd prepared) in
  let m := fold_left (fun m p => mapSet (cardInputPublicId (snd p)) (fst p) m)
                     prepared [] in
  exists st' ncl ni,
    writeCards db userId importId labelMap l target st = (Ok tt, st')
    /\ tablesGrow (world st) (world st') [] rows
         (flat_map fst (map (labelStepOfCard labelMap (listName l) m) rows))
         ncl ni
    /\ Forall (fun cl => In (checklistCardId cl) (map cardId rows)) ncl
    /\ Forall (fun i => list_max (map checklistId (checklists (world st)))
                        < itemChecklistId i) ni
    /\ itemsBounded (world st')
    /\ Forall2 (fun C cd =>
                  checklistsView (world st') (cardId C)
                  = checklistsView (world st) (cardId C)
                    ++ map writtenChecklist (cardChecklists cd))
               rows (listCards l).
Proof.
  intros Hne Hb prepared rows m. unfold writeCards, bind, liftDb.
  rewrite prepareCards_run. cbn [world setWorld].
  unfold pushWarnings at 1. cbn [world].
  rewrite cardRepo_bulkCreate_run.
  cbn [world setWorld storeCalls setUidSeed cards].
  rewrite db_ok.
  fold prepared. fold rows. fold m.
  assert (Hlen : List.length rows = List.length (listCards l)).
  { subst rows prepared.
    now rewrite cardRowsFrom_length, length_map, preparedFrom_length. }
  destruct (List.length rows =? 0) eqn:E0.
  { apply Nat.eqb_eq in E0. destruct (listCards l); [congruence|cbn in *; lia]. }
  match goal with
  | |- context [fold_left cardRepo.insert ?i ?w0] =>
      pose proof (cardRepo_fold_tables i w0) as G0;
      set (w1 := fold_left cardRepo.insert i w0) in *
  end.
  cbn [cards setStoreCalls setUidSeed] in G0. fold rows in G0.
  assert (G0' : tablesGrow (world st) w1 [] rows [] [] []) by exact G0.
  clear G0. destruct G0' as (G1 & G2 & G3 & G4 & G5 & G6).
  assert (Hal : Forall2 (fun C cd => mapGetNat (cardPublicId C) m = Some cd)
                        rows (listCards l)).
  { eapply Forall2_impl; [|apply prepared_aligned]. cbn. intros C cd H. apply H. }
  assert (Hnd : NoDup (map cardId rows)).
  { subst rows. rewrite cardRowsFrom_ids. apply seq_NoDup. }
  match goal with
  | |- context [writeCardDetails db userId ?lm ?ld ?mm ?cs ?s] =>
      destruct (writeCardDetails_written lm ld mm cs (listCards l) s Hal Hnd)
        as (st' & ncl & ni & E & G & Fc & Fi & Hb' & V)
  end.
  { cbn [world setWorld]. apply (itemsBounded_grow (world st) w1 [] [] G5 G6 Hb).
    constructor. }
  cbn [world setWorld] in G, Fi, V.
  exists st', ncl, ni. split; [exact E|].
  split.
  { pose proof (tablesGrow_trans _ _ _ _ _ _ _ _ _ _ _ _ _
                  (conj G1 (conj G2 (conj G3 (conj G4 (conj G5 G6))))) G) as T.
    cbn [app] in T. rewrite app_nil_r in T. exact T. }
  split; [exact Fc|].
  split. { rewrite G5, app_nil_r in Fi. exact Fi. }
  split; [exact Hb'|].
  eapply Forall2_impl; [|exact V]. cbn. intros C cd ->. f_equal.
  apply (checklistsView_grow (world st) w1 [] [] _ G5 G6); constructor.
Qed.

Lemma findOrCreateList_creates board importId l st :
  find (listMatches l) (existingLists st) = None ->
  let row := listRepo.newList (world st) (listName l) userId board importId in
  exists st',
    findOrCreateList db userId board importId l st
    = (Ok (listId row, listName l), st')
    /\ existingLists st' = existingLists st ++ [(listId row, listName l)]
    /\ tablesGrow (world st) (world st') [row] [] [] [] [].
Proof.
  intros Hfind row. unfold findOrCreateList, bind, getExistingLists.
  rewrite Hfind. unfold liftDb, listRepo.create, repoCall.
  rewrite db_ok. cbn [fst snd].
  change (listRepo.newList (setStoreCalls (S (storeCalls (world st))) (world st))
            (listName l) userId board importId) with row.
  assert (E0 : (listId row =? 0) = false) by reflexivity.
  rewrite E0. unfold pushExistingList, ret. cbn [world setWorld existingLists].
  eexists. split; [reflexivity|]. cbn [existingLists world].
  split; [reflexivity|].
  unfold tablesGrow. cbn. now rewrite !app_nil_r.
Qed.

Lemma Forall2_left {A B} (P : A -> Prop) (l : list A) (l' : list B) :
  Forall2 (fun a _ => P a) l l' -> Forall P l.
Proof. induction 1; constructor; auto. Qed.

(** One turn of the loop over the lists, for a list the board does not
    show yet: the export gains that list, as written, after the others. *)
Lemma processList_written board importId labelMap l st :
  Js.truthy (Js.trim (listName l)) = true ->
  listCards l <> [] ->
  find (listMatches l) (existingLists st) = None ->
  wellReferenced (world st) ->
  Forall (fun cd =>
            (forall n, In n (cardLabels cd) ->
               resolves (world st) labelMap n /\ (Js.trim n =? "")%string = false)
            /\ (forall a b, In a (cardLabels cd) -> In b (cardLabels cd) ->
                   Js.toLowerCase a = Js.toLowerCase b -> a = b))
         (listCards l) ->
  exists st' id,
    processList db userId board importId labelMap l st = (Ok tt, st')
    /\ existingLists st' = existingLists st ++ [(id, listName l)]
    /\ labels (world st') = labels (world st)
    /\ wellReferenced (world st')
    /\ exportByEntity (world st') board
       = exportByEntity (world st) board ++ [writtenList l].
Proof.
  intros Hname Hne Hfind Hwr Hlab.
  unfold processList. rewrite Hname. cbn [negb].
  destruct (List.length (listCards l) =? 0) eqn:E0.
  { apply Nat.eqb_eq in E0. destruct (listCards l); [congruence|discriminate]. }
  destruct (findOrCreateList_creates board importId l st Hfind)
    as (s1 & E1 & Hex1 & G0).
  set (row := listRepo.newList (world st) (listName l) userId board importId) in *.
  pose proof Hwr as (W1 & W2 & W3 & W4).
  pose proof G0 as (A1 & A2 & A3 & A4 & A5 & A6).
  rewrite app_nil_r in A3, A4, A5, A6.
  assert (Hb1 : itemsBounded (world s1)).
  { unfold itemsBounded. rewrite A5, A6. exact W4. }
  pose proof (writeCards_written importId labelMap l (listId row, listName l) s1
                Hne Hb1) as Hw.
  cbv zeta in Hw. cbn [fst] in Hw.
  destruct Hw as (st' & ncl & ni & E2 & G & Fc & Fi & Hb' & V).
  pose proof (prepared_aligned userId importId (listId row) (listCards l)
                (nextId (map cardId (cards (world s1)))) (uidSeed (world s1)))
    as Hal.
  cbv zeta in Hal.
  set (prepared := preparedFrom userId importId (listId row) 0
                     (uidSeed (world s1)) (listCards l)) in *.
  assert (Hasc : ascending cardIndex
                   (cardRowsFrom (nextId (map cardId (cards (world s1))))
                      (map snd prepared))).
  { eapply ascending_seq. apply prepared_indexes. }
  assert (Hids : forall rows,
             rows = cardRowsFrom (nextId (map cardId (cards (world s1))))
                      (map snd prepared) ->
             map cardId rows
             = seq (nextId (map cardId (cards (world s1)))) (List.length rows)).
  { intros rows ->. now rewrite cardRowsFrom_ids, cardRowsFrom_length. }
  set (rows := cardRowsFrom (nextId (map cardId (cards (world s1))))
                 (map snd prepared)) in *.
  specialize (Hids rows eq_refl).
  set (m := fold_left (fun m p => mapSet (cardInputPublicId (snd p)) (fst p) m)
                      prepared []) in *.
  set (relations := flat_map fst (map (labelStepOfCard labelMap (listName l) m) rows))
    in *.
  pose proof G as (B1 & B2 & B3 & B4 & B5 & B6).
  assert (Hm : Forall2 (fun C cd => mapGetNat (cardPublicId C) m = Some cd)
                       rows (listCards l)).
  { eapply Forall2_impl; [|exact Hal]. cbn. intros C cd H. apply H. }
  assert (Hnd : NoDup (map cardId rows)) by (rewrite Hids; apply seq_NoDup).
  destruct (relations_by_card labelMap (listName l) m rows (listCards l) Hm Hnd)
    as [Hrels _].
  fold relations in Hrels.
  assert (Hcards : map (exportCard (world st')) (cardsOfList (world st') (listId row))
                   = map writtenCard (listCards l)).
  { apply (cards_exported (world s1) (world st') labelMap (listName l) m
             (listId row) [] rows (listCards l) ncl ni).
    - rewrite A3, A4. exact W2.
    - rewrite A3, A5. exact W3.
    - rewrite A3. eapply Forall_impl; [|exact W1]. cbn. intros c Hc.
      subst row. cbn [listId listRepo.newList]. unfold nextId. lia.
    - exact Hids.
    - exact Hasc.
    - exact G.
    - exact Hal.
    - exact V.
    - eapply Forall_impl; [|exact Hlab]. cbn. intros cd [Hr Hi].
      split; [|exact Hi]. intros n Hn. destruct (Hr n Hn) as [R T].
      split; [|exact T]. apply (resolves_same (world st)); [|exact R].
      now rewrite B2, A2. }
  assert (Hrow : forall C, In C rows ->
             list_max (map cardId (cards (world st))) < cardId C).
  { intros C HC. apply (in_map cardId) in HC. rewrite Hids, A3 in HC.
    apply in_seq in HC. unfold nextId in HC. lia. }
  assert (Hrow' : forall id, In id (map cardId rows) ->
             list_max (map cardId (cards (world st))) < id).
  { intros id Hid. apply in_map_iff in Hid as (C & <- & HC). auto. }
  pose proof (tablesGrow_trans _ _ _ _ _ _ _ _ _ _ _ _ _ G0 G) as T.
  cbn [app] in T.
  assert (Fc' : Forall (fun c => cardListId c = listId row) rows).
  { apply (Forall2_left _ rows (listCards l)).
    eapply Forall2_impl; [|exact Hal]. cbn. intros C cd H. apply H. }
  assert (Fr' : Forall (fun r => list_max (map cardId (cards (world st)))
                                 < relCardId r) relations).
  { eapply Forall_impl; [|exact Hrels]. cbn. intros r Hr. auto. }
  assert (Fcl' : Forall (fun cl => list_max (map cardId (cards (world st)))
                                   < checklistCardId cl) ncl).
  { eapply Forall_impl; [|exact Fc]. cbn. intros r Hr. auto. }
  rewrite A5 in Fi.
  exists st', (listId row). unfold bind. rewrite E1, E2. split; [reflexivity|].
  split.
  { rewrite <- Hex1.
    pose proof (writeCards_existingLists db userId importId labelMap l
                  (listId row, listName l) s1) as Hx.
    rewrite E2 in Hx. exact Hx. }
  split; [now rewrite B2, A2|].
  split.
  - apply (wellReferenced_grows _ _ _ _ _ _ _ Hwr T).
    + eapply Forall_impl; [|exact Fc']. cbn. intros c ->.
      rewrite B1, A1, app_nil_r, map_app, list_max_app.
      change (list_max (map listId [row]))
        with (Nat.max (nextId (map listId (lists (world st)))) 0).
      lia.
    + eapply Forall_impl; [|exact Hrels]. cbn. intros r Hr.
      apply list_max_above. rewrite B3, map_app. apply in_or_app. now right.
    + eapply Forall_impl; [|exact Fc]. cbn. intros r Hr.
      apply list_max_above. rewrite B3, map_app. apply in_or_app. now right.
    + exact Hb'.
  - rewrite (exportByEntity_grows (world st) (world st') board (listName l)
               userId importId rows relations ncl ni T).
    + f_equal. f_equal. unfold exportList, writtenList. fold row.
      rewrite Hcards. reflexivity.
    + eapply Forall_impl; [|exact Fc']. cbn. intros c ->.
      subst row. cbn [listId listRepo.newList]. unfold nextId. lia.
    + exact Fr'.
    + exact Fcl'.
    + exact Fi.
Qed.

(** The label pass on a board that shows no label: every name of the
    document is created, and the map leads to the label of that name. *)
Lemma resolveLabels_fresh colours board importId ls w :
  labelsOfBoard w board = [] ->
  (forall n, In n (labelNamesOf ls) ->
             Js.trim n = n /\ (n =? "")%string = false) ->
  (forall a b, In a (labelNamesOf ls) -> In b (labelNamesOf ls) ->
               Js.toLowerCase a = Js.toLowerCase b -> a = b) ->
  exists labelMap w1,
    resolveLabels db colours userId board importId (existingLabelsOf w board) ls w
    = (Ok labelMap, w1)
    /\ lists w1 = lists w
    /\ cards w1 = cards w
    /\ cardsToLabels w1 = cardsToLabels w
    /\ checklists w1 = checklists w
    /\ checklistItems w1 = checklistItems w
    /\ (forall n, In n (labelNamesOf ls) -> resolves w1 labelMap n).
Proof.
  intros Hempty Hplain Hinj.
  unfold existingLabelsOf. rewrite Hempty. cbn [map].
  assert (Hnames : forall n, In n (labelNamesOf ls) -> In n (allLabelNamesOf ls)).
  { intros n Hn. apply allLabelNamesOf_In.
    apply labelNamesOf_In in Hn as Hn'. destruct Hn' as (l & card & Hl & Hc & Hnc).
    destruct (Hplain n Hn) as [Ht Hne].
    exists l, card, n. rewrite Ht. repeat split; auto.
    intros ->. discriminate. }
  assert (Hback : forall x, In x (allLabelNamesOf ls) -> In x (labelNamesOf ls)).
  { intros x Hx. apply allLabelNamesOf_In in Hx
      as (l & card & n & Hl & Hc & Hn & _ & ->).
    assert (Hin : In n (labelNamesOf ls)) by (apply labelNamesOf_In; eauto).
    destruct (Hplain n Hin) as [-> _]. exact Hin. }
  unfold resolveLabels.
  assert (Ecreate : labelsToCreateOf (labelMapOfExisting []) (allLabelNamesOf ls)
                    = allLabelNamesOf ls).
  { unfold labelsToCreateOf. apply filter_everything. apply Forall_forall.
    intros x _. reflexivity. }
  rewrite Ecreate. cbn [List.length labelMapOfExisting fold_left].
  set (names := allLabelNamesOf ls) in *.
  destruct (0 <? List.length names) eqn:E0.
  2:{ apply Nat.ltb_ge in E0. unfold ret. eexists _, _.
      split; [reflexivity|]. repeat (split; [reflexivity|]).
      intros n Hn. apply Hnames in Hn. destruct names; [destruct Hn|cbn in E0; lia]. }
  unfold bind, ret. rewrite labelRepo_bulkCreate_run, db_ok.
  eexists _, _. split; [reflexivity|].
  rewrite !(fold_left_unchanged _ labelRepo.insert) by reflexivity.
  repeat (split; [reflexivity|]).
  intros n Hn. unfold resolves.
  rewrite labelRepo_fold_labels. cbn [labels setStoreCalls].
  set (base := nextId (map labelId (labels w))).
  set (inputs := newLabelInputs colours userId board importId 0 names).
  set (rows := labelRowsFrom base inputs).
  assert (Hrn : map labelName rows = names).
  { subst rows inputs. now rewrite labelRowsFrom_names, newLabelInputs_names. }
  assert (Hri : map labelId rows = seq base (List.length inputs)).
  { subst rows. apply labelRowsFrom_ids. }
  unfold recordNewLabels.
  replace (combine names (map labelId rows))
    with (map (fun x => (labelName x, labelId x)) rows)
    by (now rewrite <- combine_map, Hrn).
  assert (Hrow : exists r, In r rows /\ labelName r = n).
  { apply Hnames in Hn. rewrite <- Hrn in Hn.
    apply in_map_iff in Hn as (r & Hr & Hin). eauto. }
  destruct (mapGet_fold (fun p : string * nat => Js.toLowerCase (fst p)) snd
              (map (fun x => (labelName x, labelId x)) rows) []
              (Js.toLowerCase n)) as [(p & Hp & Hk & Hg)|[Hall _]].
  2:{ destruct Hrow as (r & Hr & Hrname). exfalso.
      apply (Hall (labelName r, labelId r));
        [apply in_map_iff; eauto|]. cbn. now rewrite Hrname. }
  apply in_map_iff in Hp as (r & <- & Hr). cbn [fst snd] in Hk, Hg.
  assert (Hname : labelName r = n).
  { apply Hinj; [|exact Hn|exact Hk].
    apply Hback. rewrite <- Hrn. now apply in_map. }
  assert (Hid : base <= labelId r).
  { apply (in_map labelId) in Hr. rewrite Hri in Hr. apply in_seq in Hr. lia. }
  exists (labelId r), r. split; [exact Hg|].
  split; [subst base; unfold nextId in Hid; lia|].
  split; [|exact Hname].
  rewrite find_app_skip.
  - apply find_by_key; [|exact Hr]. rewrite Hri. apply seq_NoDup.
  - apply Forall_forall. intros y Hy. apply Nat.eqb_neq.
    pose proof (list_max_above _ _ (in_map labelId _ _ Hy)) as Hle.
    subst base. unfold nextId in Hid. lia.
Qed.

(** The loop over the lists of a document none of which the board shows:
    the export gains them, as written, in the order of the document. *)
Lemma processLists_written board importId labelMap ls :
  forall i done st,
    Forall (fun l => Js.truthy (Js.trim (listName l)) = true
                     /\ listCards l <> []) ls ->
    NoDup (map (fun l => Js.toLowerCase (listName l)) (done ++ ls)) ->
    map snd (existingLists st) = map listName done ->
    wellReferenced (world st) ->
    (forall n, In n (labelNamesOf ls) ->
       resolves (world st) labelMap n /\ (Js.trim n =? "")%string = false) ->
    (forall a b, In a (labelNamesOf ls) -> In b (labelNamesOf ls) ->
       Js.toLowerCase a = Js.toLowerCase b -> a = b) ->
    exportByEntity (world st) board = map writtenList done ->
    exists st',
      forEachM (fun _ => processList db userId board importId labelMap) i ls st
      = (Ok tt, st')
      /\ exportByEntity (world st') board = map writtenList (done ++ ls).
Proof.
  induction ls as [|l ls IH]; intros i done st Hok Hnd Hex Hwr Hres Hinj Hexp;
    cbn [forEachM].
  - exists st. rewrite app_nil_r. auto.
  - inversion Hok as [|? ? [Hname Hne] Hok']; subst.
    assert (Hfind : find (listMatches l) (existingLists st) = None).
    { apply listMatches_none. apply Forall_forall. intros e He Heq.
      rewrite map_app in Hnd. cbn [map] in Hnd. apply NoDup_remove_2 in Hnd.
      apply Hnd. apply in_or_app. left.
      rewrite <- Heq. apply (in_map snd) in He. rewrite Hex in He.
      apply in_map_iff in He as (d & <- & Hd).
      apply (in_map (fun l => Js.toLowerCase (listName l))) in Hd. exact Hd. }
    assert (Hsub : forall cd n, In cd (listCards l) -> In n (cardLabels cd) ->
                     In n (labelNamesOf (l :: ls))).
    { intros cd n Hcd Hn. apply labelNamesOf_In. exists l, cd.
      split; [now left|auto]. }
    assert (Hlab : Forall (fun cd =>
               (forall n, In n (cardLabels cd) ->
                  resolves (world st) labelMap n
                  /\ (Js.trim n =? "")%string = false)
               /\ (forall a b, In a (cardLabels cd) -> In b (cardLabels cd) ->
                      Js.toLowerCase a = Js.toLowerCase b -> a = b))
              (listCards l)).
    { apply Forall_forall. intros cd Hcd. split.
      - intros n Hn. apply Hres. eauto.
      - intros a b Ha Hb. apply Hinj; eauto. }
    destruct (processList_written board importId labelMap l st
                Hname Hne Hfind Hwr Hlab)
      as (s1 & id & E1 & Hex1 & Hl1 & Hwr1 & Hexp1).
    assert (Htail : forall n, In n (labelNamesOf ls) ->
                      In n (labelNamesOf (l :: ls))).
    { intros n Hn. unfold labelNamesOf in *. cbn [flat_map].
      apply in_or_app. now right. }
    destruct (IH (S i) (done ++ [l]) s1 Hok') as (s2 & E2 & Hexp2).
    + now rewrite <- app_assoc.
    + rewrite Hex1, !map_app, Hex. reflexivity.
    + exact Hwr1.
    + intros n Hn. destruct (Hres n (Htail n Hn)) as [R T].
      split; [|exact T]. now apply (resolves_same (world st)).
    + intros a b Ha Hb. apply Hinj; auto.
    + rewrite Hexp1, Hexp, map_app. reflexivity.
    + exists s2. unfold bind. rewrite E1, E2. split; [reflexivity|].
      rewrite Hexp2, <- app_assoc. reflexivity.
Qed.

Lemma importTry_written colours board importId ls w :
  emptyBoard w board ->
  wellReferenced w ->
  plainLists ls ->
  plainLabels ls ->
  exists out w',
    importTry db colours userId board importId ls w = (Ok out, w')
    /\ exportByEntity w' board = map writtenList ls.
Proof.
  intros [Hlists Hlabels] Hwr [Hok Hnd] [Hplain Hinj].
  unfold importTry.
  destruct (resolveLabels_fresh colours board importId ls w Hlabels Hplain Hinj)
    as (labelMap & w1 & E1 & L1 & L2 & L3 & L4 & L5 & Hres).
  rewrite E1. unfold existingListsOf. rewrite Hlists. cbn [map].
  destruct (processLists_written board importId labelMap ls 0 []
              {| world := w1; existingLists := []; warnings := [];
                 allCreatedCards := [] |} Hok Hnd eq_refl)
    as (st' & E2 & Hexp).
  - cbn [world]. destruct Hwr as (W1 & W2 & W3 & W4).
    unfold wellReferenced, itemsBounded in *.
    rewrite L1, L2, L3, L4, L5. auto.
  - cbn [world]. intros n Hn. split; [now apply Hres|].
    destruct (Hplain n Hn) as [-> E]. exact E.
  - exact Hinj.
  - cbn [world map]. unfold exportByEntity, listsOfBoard.
    rewrite L1. fold (listsOfBoard w board). now rewrite Hlists.
  - unfold processLists. rewrite E2.
    unfold importRepo.update, repoCall. rewrite db_ok.
    eexists _, _. split; [reflexivity|]. exact Hexp.
Qed.

Lemma importWithLedger_written colours board ls w :
  emptyBoard w board ->
  wellReferenced w ->
  plainLists ls ->
  plainLabels ls ->
  exists out w',
    importWithLedger db colours userId board ls w = (Ok out, w')
    /\ exportByEntity w' board = map writtenList ls.
Proof.
  intros Hempty Hwr Hlists Hlabels.
  unfold importWithLedger, bind, importRepo.create, repoCall.
  rewrite db_ok. cbn [fst snd importId Nat.eqb nextId].
  unfold tryCatch.
  match goal with
  | |- context [importTry db colours userId board ?i ls ?w0] =>
      destruct (importTry_written colours board i ls w0)
        as (out & w' & E & Hexp)
  end; try assumption.
  rewrite E. eauto.
Qed.

End RoundTrip.

(* ===================================================================== *)
(** ** Export after import *)
(* ===================================================================== *)

Lemma importCards_extends parse db colours ctx input lists :
  validatePayload parse (data input) = Ok lists ->
  preserves extends (importCards parse db colours ctx input).
Proof.
  intros Hv.
  apply (importCards_preserves extends db colours lists);
    try assumption; try apply extends_refl; try apply extends_trans.
  - intros. apply processList_extends.
  - intros. apply extends_labelRepo_bulkCreate.
  - intros. apply extends_importRepo_update.
  - intros. apply extends_importRepo_create.
Qed.

Lemma accessGranted_extends w w' ctx publicId :
  extends w w' -> accessGranted w' ctx publicId = accessGranted w ctx publicId.
Proof.
  intros H. unfold accessGranted, findBoard, workspaceRepo.getById.
  now rewrite (ext_boards H), (ext_workspaces H), (ext_members H).
Qed.

Lemma exportCards_granted ctx publicId w userId board :
  accessGranted w ctx publicId = Some (userId, board) ->
  exportCards ctx publicId w = (Ok (exportData w (boardId board)), w).
Proof.
  unfold accessGranted, exportCards. intros Ha.
  destruct (user ctx) as [u|]; [|discriminate].
  destruct (Js.truthy u); [|discriminate]. simpl.
  destruct (findBoard w _) as [b|]; [|discriminate].
  destruct (workspaceRepo.getById w _) as [ws|]; [|discriminate].
  destruct (existsb _ _) eqn:Em; [|discriminate].
  injection Ha as -> ->.
  unfold bind at 1. unfold assertUserInWorkspace. now rewrite Em.
Qed.

Lemma Forall2_map_right {A B} (R : A -> B -> Prop) (f : A -> B) (l : list A) :
  Forall (fun a => R a (f a)) l -> Forall2 R l (map f l).
Proof. induction 1; cbn; constructor; auto. Qed.

(** What is written of a document within the bounds of the schema has its
    content. *)
Lemma written_sameContent (doc : list ListData) :
  Forall listWithinBounds doc -> sameContent doc (map writtenList doc).
Proof.
  intros H. apply Forall2_map_right.
  eapply Forall_impl; [|exact H]. cbn. intros l [_ Hcards].
  split; [reflexivity|]. cbn [listCards writtenList].
  apply Forall2_map_right.
  eapply Forall_impl; [|exact Hcards]. cbn. intros c (Ht & Hd & Hcls).
  unfold sameCard. cbn [cardTitle cardDescription cardLabels cardChecklists writtenCard].
  split; [symmetry; apply substring0_short; lia|].
  split; [symmetry; apply substring0_short; lia|].
  split; [intros n; symmetry; apply newSet_In|].
  apply Forall2_map_right.
  eapply Forall_impl; [|exact Hcls]. cbn. intros cl (Hn & Hitems).
  unfold sameChecklist. cbn [checklistName checklistItemData writtenChecklist].
  split; [symmetry; apply substring0_short; lia|].
  apply Forall2_map_right.
  eapply Forall_impl; [|exact Hitems]. cbn. intros i Hi.
  unfold sameItem, itemWithinBounds in *. cbn [itemTitle writtenItem].
  symmetry. apply substring0_short. lia.
Qed.

(** C3, counterexample. A valid document whose second list has no card,
    imported into a board that shows nothing: the import returns, and the
    export of the board holds the first list only; the name of the list
    without cards is not reproduced. *)
Lemma list_without_cards_is_not_exported :
  validatePayload (Sample.parseAs Sample.withEmptyListDoc) "doc"
  = Ok [Sample.firstList; Sample.laterList]
  /\ fst (importCards (Sample.parseAs Sample.withEmptyListDoc) Sample.allSucceed
            Sample.palette Sample.ctx (Sample.input "doc") Sample.world0)
     = Ok {| cardsCreated := 1; listsProcessed := 2; warningsReturned := [] |}
  /\ fst (exportCards Sample.ctx Sample.boardPid
            (snd (importCards (Sample.parseAs Sample.withEmptyListDoc)
                    Sample.allSucceed Sample.palette Sample.ctx
                    (Sample.input "doc") Sample.world0)))
     = Ok [Sample.firstList]
  /\ ~ sameContent [Sample.firstList; Sample.laterList] [Sample.firstList].
Proof.
  split; [vm_compute; reflexivity|].
  split; [vm_compute; reflexivity|].
  split; [vm_compute; reflexivity|].
  intros H. apply Forall2_length in H. discriminate.
Qed.

(** The completed flag of an item is not handed to the store: an item the
    document marks completed comes back not completed. *)
Lemma completed_flag_is_not_kept :
  validatePayload (Sample.parseAs Sample.completedDoc) "doc"
  = Ok [{| listName := "To Do";
           listCards :=
             [{| cardTitle := "write"; cardDescription := ""; cardLabels := [];
                 cardChecklists :=
                   [{| checklistName := "Steps";
                       checklistItemData :=
                         [{| itemTitle := "outline";
                             itemCompleted := true |}] |}] |}] |}]
  /\ fst (exportCards Sample.ctx Sample.boardPid
            (snd (importCards (Sample.parseAs Sample.completedDoc)
                    Sample.allSucceed Sample.palette Sample.ctx
                    (Sample.input "doc") Sample.world0)))
     = Ok [{| listName := "To Do";
              listCards :=
                [{| cardTitle := "write"; cardDescription := ""; cardLabels := [];
                    cardChecklists :=
                      [{| checklistName := "Steps";
                          checklistItemData :=
                            [{| itemTitle := "outline";
                                itemCompleted := false |}] |}] |}] |}].
Proof.
  split; vm_compute; reflexivity.
Qed.

(* ===================================================================== *)
(** ** What the validator accepts *)
(* ===================================================================== *)


Lemma traverse_map_some {A B} (f : A -> option B) (g : B -> A) (ys : list B) :
  Forall (fun y => f (g y) = Some y) ys -> traverse f (map g ys) = Some ys.
Proof.
  induction 1 as [|y ys Hy _ IH]; cbn; [reflexivity|].
  now rewrite Hy, IH.
Qed.







(* ===================================================================== *)
(** ** Exported documents read back *)
(* ===================================================================== *)

Lemma nonempty_of_length (s : string) :
  1 <= String.length s -> Js.truthy s = true.
Proof. destruct s; cbn; [lia|reflexivity]. Qed.

Lemma length_of_nonempty (s : string) :
  s <> ""%string -> 1 <= String.length s.
Proof. destruct s; cbn; [congruence|lia]. Qed.

Lemma mapRes_fixed {A} (f : nat -> A -> Res A) (xs : list A) :
  (forall i x, In x xs -> f i x = Ok x) ->
  forall i, mapRes f i xs = Ok xs.
Proof.
  induction xs as [|x xs IH]; intros H i; cbn; [reflexivity|].
  rewrite (H i x (or_introl eq_refl)). cbn.
  rewrite IH; [reflexivity|]. intros j z Hz. apply H. now right.
Qed.

Lemma preprocessChecklist_export (cl : ChecklistData) :
  Forall itemAccepted (checklistItemData cl) ->
  preprocessChecklist (jsonOfChecklist cl) = jsonOfChecklist cl.
Proof.
  intros H. unfold preprocessChecklist, jsonOfChecklist.
  change (prop "items" (JObj [("name", JStr (checklistName cl));
                              ("items", JArr (map jsonOfItem (checklistItemData cl)))]))
    with (Some (JArr (map jsonOfItem (checklistItemData cl)))).
  cbn [arrayOrEmpty]. rewrite filter_everything.
  - rewrite map_map.
    cbn [prop assoc String.eqb Ascii.eqb Bool.eqb field app].
    reflexivity.
  - apply Forall_forall. intros x Hx. apply in_map_iff in Hx as (i & <- & Hi).
    rewrite Forall_forall in H. specialize (H i Hi). unfold itemAccepted in H.
    unfold itemIsValid, nonEmptyStringProp. cbn.
    now rewrite nonempty_of_length by lia.
Qed.

Lemma preprocessCard_export (index : nat) (card : CardData) :
  Forall checklistAccepted (cardChecklists card) ->
  preprocessCard index (jsonOfCard card) = Ok (jsonOfCard card).
Proof.
  intros H. unfold preprocessCard, jsonOfCard. cbn [isObjectLike negb].
  f_equal. f_equal.
  change (prop "checklists" (JObj ?fs)) with (assoc "checklists" fs).
  cbn [prop assoc String.eqb Ascii.eqb Bool.eqb nullish arrayOrEmpty].
  repeat f_equal.
  - rewrite filter_everything; [reflexivity|].
    apply Forall_forall. intros x Hx. apply in_map_iff in Hx as (n & <- & _).
    reflexivity.
  - rewrite filter_everything.
    + rewrite map_map. apply map_ext_in. intros cl Hcl.
      apply preprocessChecklist_export.
      rewrite Forall_forall in H. apply (H cl Hcl).
    + apply Forall_forall. intros x Hx. apply in_map_iff in Hx as (cl & <- & Hcl).
      rewrite Forall_forall in H. destruct (H cl Hcl) as (Hn & _).
      unfold checklistIsValid, nonEmptyStringProp. cbn.
      now rewrite nonempty_of_length by lia.
Qed.

Lemma preprocessList_export (index : nat) (l : ListData) :
  Js.truthy (listName l) = true ->
  Forall cardAccepted (listCards l) ->
  preprocessList index (jsonOfList l) = Ok (jsonOfList (trimmedList l)).
Proof.
  intros Hn H. unfold preprocessList, jsonOfList, nonEmptyStringProp.
  cbn [isObjectLike negb prop assoc String.eqb Ascii.eqb Bool.eqb arrayOrEmpty].
  rewrite Hn. unfold preprocessCards.
  rewrite mapRes_fixed; [reflexivity|].
  intros i x Hx. apply in_map_iff in Hx as (c & <- & Hc).
  apply preprocessCard_export.
  rewrite Forall_forall in H. apply (H c Hc).
Qed.

Lemma leb_between (lo hi n : nat) :
  lo <= n <= hi -> (lo <=? n) && (n <=? hi) = true.
Proof.
  intros [H1 H2]. apply andb_true_intro. split; now apply Nat.leb_le.
Qed.

Lemma zString_ok (lo hi : nat) (s : string) :
  lo <= String.length s <= hi -> zString lo hi (JStr s) = Some s.
Proof. intros H. unfold zString. now rewrite leb_between. Qed.

Lemma zArray_ok {A} (elem : json -> option A) (lo hi : nat) (g : A -> json)
    (ys : list A) :
  lo <= List.length ys <= hi ->
  Forall (fun y => elem (g y) = Some y) ys ->
  zArray elem lo hi (JArr (map g ys)) = Some ys.
Proof.
  intros Hlen H. unfold zArray. rewrite length_map, leb_between by exact Hlen.
  now apply traverse_map_some.
Qed.

Lemma ChecklistItemSchema_export (item : ChecklistItemData) :
  itemAccepted item -> ChecklistItemSchema (jsonOfItem item) = Some item.
Proof.
  intros H. unfold ChecklistItemSchema, jsonOfItem, zRequired, zDefault.
  cbn [isPlainObject prop assoc String.eqb Ascii.eqb Bool.eqb bindOpt zBoolean].
  rewrite zString_ok by exact H. cbn [bindOpt]. now destruct item.
Qed.

Lemma ChecklistSchema_export (cl : ChecklistData) :
  checklistAccepted cl -> ChecklistSchema (jsonOfChecklist cl) = Some cl.
Proof.
  intros (Hn & Hlen & Hitems).
  unfold ChecklistSchema, jsonOfChecklist, zRequired.
  cbn [isPlainObject prop assoc String.eqb Ascii.eqb Bool.eqb bindOpt].
  rewrite zString_ok by exact Hn. cbn [bindOpt].
  rewrite zArray_ok.
  - cbn [bindOpt]. now destruct cl.
  - lia.
  - eapply Forall_impl; [|exact Hitems]. apply ChecklistItemSchema_export.
Qed.

Lemma CardSchema_export (card : CardData) :
  cardAccepted card -> CardSchema (jsonOfCard card) = Some card.
Proof.
  intros (Ht & Hd & Hnl & Hl & Hnc & Hc).
  unfold CardSchema, jsonOfCard, zRequired, zDefault.
  cbn [isPlainObject prop assoc String.eqb Ascii.eqb Bool.eqb bindOpt].
  rewrite zString_ok by exact Ht. cbn [bindOpt].
  rewrite zString_ok by lia. cbn [bindOpt].
  rewrite (zArray_ok (zString 0 50) 0 20 JStr).
  2:{ lia. }
  2:{ eapply Forall_impl; [|exact Hl]. cbn beta. intros n Hle.
      apply zString_ok. lia. }
  cbn [bindOpt]. rewrite zArray_ok.
  - cbn [bindOpt]. now destruct card.
  - lia.
  - eapply Forall_impl; [|exact Hc]. apply ChecklistSchema_export.
Qed.

Lemma ListSchema_export (l : ListData) :
  listAccepted l -> ListSchema (jsonOfList l) = Some l.
Proof.
  intros (Hn & Hlen & Hcards).
  unfold ListSchema, jsonOfList, zRequired.
  cbn [isPlainObject prop assoc String.eqb Ascii.eqb Bool.eqb bindOpt].
  rewrite zString_ok by exact Hn. cbn [bindOpt].
  rewrite zArray_ok.
  - cbn [bindOpt]. now destruct l.
  - lia.
  - eapply Forall_impl; [|exact Hcards]. apply CardSchema_export.
Qed.

Lemma trim_length (s : string) : String.length (Js.trim s) <= String.length s.
Proof.
  unfold Js.trim.
  pose proof (trimStart_length s). pose proof (trimEnd_length (Js.trimStart s)).
  lia.
Qed.

(** X2. A document within the bounds of the schema whose list names are
    not blank, written out the way the export writes it, is accepted by
    the import when read back: validation returns the same lists, cards,
    labels, checklists and items, completed flags included, with the list
    names trimmed. *)
Theorem exported_document_is_accepted
    (parse : string -> option json) (d : string) (doc : list ListData) :
  parse d = Some (jsonOfExport doc) ->
  documentAccepted doc ->
  Forall (fun l => Js.trim (listName l) <> ""%string) doc ->
  validatePayload parse d = Ok (map trimmedList doc).
Proof.
  intros Hp [Hlen Hall] Hnames.
  unfold validatePayload. rewrite Hp. unfold jsonOfExport.
  cbn [preprocess].
  assert (Hpre : mapRes preprocessList 0 (map jsonOfList doc)
                 = Ok (map jsonOfList (map trimmedList doc))).
  { generalize 0 as i. clear Hp Hlen.
    induction doc as [|l doc IH]; intros i; cbn [map mapRes]; [reflexivity|].
    inversion Hall as [|? ? (Hn & _ & Hcards) Hall']; subst.
    inversion Hnames as [|? ? Hne Hnames']; subst.
    rewrite preprocessList_export;
      [|apply nonempty_of_length; lia|exact Hcards].
    cbn [bindRes]. now rewrite (IH Hall' Hnames'). }
  rewrite Hpre. cbn [bindRes]. unfold ImportJsonSchema.
  cbn [ListSchema isPlainObject].
  rewrite zArray_ok; [reflexivity|now rewrite length_map|].
  apply Forall_forall. intros l Hl. apply in_map_iff in Hl as (l0 & <- & Hl0).
  rewrite Forall_forall in Hall, Hnames.
  destruct (Hall l0 Hl0) as (Hn & Hc & Hcards). specialize (Hnames l0 Hl0).
  apply ListSchema_export. unfold listAccepted, trimmedList.
  cbn [listName listCards].
  pose proof (trim_length (listName l0)).
  pose proof (length_of_nonempty _ Hnames). repeat split; [lia|lia|lia|exact Hcards].
Qed.

Lemma exported_document_is_accepted_witness :
  validatePayload (Sample.parseAs (jsonOfExport Sample.roundTripLists)) "doc"
  = Ok (map trimmedList Sample.roundTripLists).
Proof.
  apply exported_document_is_accepted.
  - reflexivity.
  - split; [cbn; lia|]. unfold listAccepted, cardAccepted, checklistAccepted,
      itemAccepted. repeat constructor; cbn; lia.
  - repeat constructor; discriminate.
Defined.

(* ===================================================================== *)
(** ** The two forms of a payload *)
(* ===================================================================== *)

Lemma mapRes_Forall2 {A B} (f : nat -> A -> Res B) (xs : list A) :
  forall i ys, mapRes f i xs = Ok ys ->
  Forall2 (fun x y => exists j, f j x = Ok y) xs ys.
Proof.
  induction xs as [|x xs IH]; intros i ys H; cbn in H.
  - injection H as <-. constructor.
  - destruct (f i x) as [y|e] eqn:Ef; cbn in H; [|discriminate].
    destruct (mapRes f (S i) xs) as [ys'|e] eqn:Em; cbn in H; [|discriminate].
    injection H as <-. constructor; eauto.
Qed.

Lemma Forall2_right {A B} (R : A -> B -> Prop) (P : B -> Prop)
    (xs : list A) (ys : list B) :
  (forall x y, R x y -> P y) -> Forall2 R xs ys -> Forall P ys.
Proof. intros H. induction 1; constructor; eauto. Qed.

Lemma preprocessList_name (index : nat) (l l' : json) :
  preprocessList index l = Ok l' ->
  exists n cards,
    Js.truthy n = true
    /\ l' = JObj [("listName", JStr (Js.trim n)); ("cards", JArr cards)].
Proof.
  unfold preprocessList. destruct (negb (isObjectLike l)); [discriminate|].
  unfold nonEmptyStringProp.
  destruct (prop "listName" l) as [[| | |n| |]|]; try discriminate.
  destruct (Js.truthy n) eqn:E; [|discriminate].
  destruct (preprocessCards _) as [cards|]; cbn [bindRes]; [|discriminate].
  intros H; injection H as <-. eauto.
Qed.

Lemma ListSchema_name (fs : list (string * json)) (l : ListData) :
  ListSchema (JObj fs) = Some l ->
  assoc "listName" fs = Some (JStr (listName l))
  /\ 1 <= String.length (listName l).
Proof.
  unfold ListSchema, zRequired. cbn [isPlainObject prop].
  destruct (assoc "listName" fs) as [t|]; cbn [bindOpt]; [|discriminate].
  destruct (zString 1 255 t) as [s|] eqn:Es; cbn [bindOpt]; [|discriminate].
  destruct (assoc "cards" fs) as [c|]; cbn [bindOpt]; [|discriminate].
  destruct (zArray CardSchema 0 500 c) as [cs|]; cbn [bindOpt]; [|discriminate].
  intros H; injection H as <-. cbn [listName].
  apply zString_inv in Es as [-> Hs]. split; [reflexivity|lia].
Qed.

(** X3. In the array form of a payload every list name is trimmed before
    validation: the names of an accepted array payload carry no
    surrounding white space and none of them is blank, so the loop over
    the lists never meets a blank name. *)
Theorem array_payload_names_are_trimmed
    (parse : string -> option json) (d : string) (js : list json)
    (ls : list ListData) :
  parse d = Some (JArr js) ->
  validatePayload parse d = Ok ls ->
  Forall (fun l => Js.trim (listName l) = listName l
                   /\ Js.truthy (Js.trim (listName l)) = true) ls.
Proof.
  intros Hp. unfold validatePayload. rewrite Hp. cbn [preprocess].
  destruct (mapRes preprocessList 0 js) as [ls'|] eqn:Em; cbn [bindRes];
    [|discriminate].
  unfold ImportJsonSchema. cbn [ListSchema isPlainObject].
  destruct (zArray ListSchema 1 50 (JArr ls')) as [ls0|] eqn:Ea; [|discriminate].
  intros H; injection H as <-. cbn [listsToImportOf].
  apply zArray_inv in Ea as (x & Hx & Ht & _). injection Hx as <-.
  apply traverse_Forall2 in Ht. apply mapRes_Forall2 in Em.
  assert (Hshape : Forall (fun y => exists n cards,
                     Js.truthy n = true
                     /\ y = JObj [("listName", JStr (Js.trim n));
                                  ("cards", JArr cards)]) ls').
  { eapply Forall2_right; [|exact Em]. cbn. intros a y [j Hj].
    eapply preprocessList_name; eassumption. }
  pose proof (Forall2_and_left _ _ _ _ Hshape Ht) as Hboth.
  eapply Forall2_right; [|exact Hboth]. cbn.
  intros y l [(n & cards & _ & ->) Hl].
  apply ListSchema_name in Hl as [Hname Hlen].
  cbn in Hname. injection Hname as Hname.
  rewrite <- Hname, trim_idempotent. split; [reflexivity|].
  rewrite Hname. now apply nonempty_of_length.
Qed.

Lemma array_payload_names_are_trimmed_witness :
  Forall (fun l => Js.trim (listName l) = listName l
                   /\ Js.truthy (Js.trim (listName l)) = true)
         [Sample.firstList; Sample.secondList; Sample.thirdList].
Proof.
  apply (array_payload_names_are_trimmed (Sample.parseAs Sample.threeListsDoc)
           "doc" _ _ eq_refl).
  vm_compute. reflexivity.
Defined.

Lemma preprocess_single (fs : list (string * json)) (cs : list json) :
  assoc "cards" fs = Some (JArr cs) ->
  preprocess (JObj fs)
  = bindRes (preprocessCards cs) (fun cards' =>
      Ok (JObj (field "listName" (assoc "listName" fs)
                ++ [("cards", JArr cards')]))).
Proof. intros H. cbn [preprocess]. now rewrite H. Qed.

(** X4. A single list object whose name carries no surrounding white
    space and whose [cards] is an array is accepted exactly when the
    array holding that one object is, and as the same list. *)
Theorem single_list_is_array_of_one
    (parse parse' : string -> option json) (d d' : string)
    (fs : list (string * json)) (name : string) (cs : list json)
    (ls : list ListData) :
  parse d = Some (JObj fs) ->
  parse' d' = Some (JArr [JObj fs]) ->
  assoc "listName" fs = Some (JStr name) ->
  Js.trim name = name ->
  assoc "cards" fs = Some (JArr cs) ->
  validatePayload parse d = Ok ls <-> validatePayload parse' d' = Ok ls.
Proof.
  intros Hp Hp' Hn Ht Hc. unfold validatePayload. rewrite Hp, Hp'.
  rewrite (preprocess_single fs cs Hc). rewrite Hn. cbn [field app].
  cbn [preprocess mapRes]. unfold preprocessList at 1.
  cbn [isObjectLike negb]. unfold nonEmptyStringProp. cbn [prop].
  rewrite Hn, Hc. cbn [arrayOrEmpty].
  set (check := fun parsedData' : json =>
     match ImportJsonSchema parsedData' with
     | Some importData => Ok (listsToImportOf importData)
     | None => Throw (TRPCError BAD_REQUEST "Invalid data structure")
     end).
  destruct (Js.truthy name) eqn:Et.
  - rewrite Ht.
    destruct (preprocessCards cs) as [cards'|e]; cbn [bindRes];
      [|split; discriminate].
    set (X := JObj [("listName", JStr name); ("cards", JArr cards')]).
    unfold check, ImportJsonSchema. cbn [ListSchema isPlainObject].
    fold X. unfold zArray. cbn [List.length Nat.leb andb traverse].
    destruct (ListSchema X) as [l|]; cbn [bindOpt listsToImportOf].
    + reflexivity.
    + unfold X. cbn beta iota. split; discriminate.
  - cbn [bindRes].
    destruct (preprocessCards cs) as [cards'|e]; cbn [bindRes];
      [|split; discriminate].
    set (X := JObj [("listName", JStr name); ("cards", JArr cards')]).
    assert (Hnone : ListSchema X = None).
    { unfold ListSchema, X, zRequired.
      cbn [isPlainObject prop assoc String.eqb Ascii.eqb Bool.eqb bindOpt].
      unfold Js.truthy in Et. apply negb_false_iff, String.eqb_eq in Et.
      subst name. reflexivity. }
    unfold check, ImportJsonSchema. rewrite Hnone. cbn [zArray X].
    split; discriminate.
Qed.

Lemma single_list_is_array_of_one_witness :
  validatePayload (Sample.parseAs (JObj Sample.singleListFields)) "doc"
  = Ok [Sample.firstList]
  <-> validatePayload (Sample.parseAs (JArr [JObj Sample.singleListFields])) "doc"
      = Ok [Sample.firstList].
Proof.
  apply (single_list_is_array_of_one _ _ _ _ Sample.singleListFields "To Do"
           [Sample.jCard "write" "" [] []]); reflexivity.
Defined.

Lemma alwaysSucceeds_faults (db : Behaviour) :
  alwaysSucceeds db -> onlyChecklistsFail db.
Proof.
  intros H. repeat split; intros; rewrite H; [discriminate|discriminate|reflexivity].
Qed.

Lemma single_payload_inv (parse : string -> option json) (d : string)
    (fs : list (string * json)) (ls : list ListData) :
  parse d = Some (JObj fs) ->
  validatePayload parse d = Ok ls ->
  exists l, ls = [l] /\ assoc "listName" fs = Some (JStr (listName l)).
Proof.
  intros Hp. unfold validatePayload. rewrite Hp.
  assert (Hshape : forall j', preprocess (JObj fs) = Ok j' ->
            exists fs', j' = JObj fs'
                        /\ assoc "listName" fs' = assoc "listName" fs).
  { intros j'. cbn [preprocess].
    destruct (assoc "cards" fs) as [[| | | |cards|]|];
      try (intros H; injection H as <-; eauto).
    destruct (preprocessCards cards) as [cards'|]; cbn [bindRes]; [|discriminate].
    intros H; injection H as <-. eexists. split; [reflexivity|].
    destruct (assoc "listName" fs) as [v|]; cbn [field app assoc];
      [rewrite String.eqb_refl|]; reflexivity. }
  destruct (preprocess (JObj fs)) as [j'|]; cbn [bindRes]; [|discriminate].
  destruct (Hshape j' eq_refl) as (fs' & -> & Hname).
  unfold ImportJsonSchema.
  destruct (ListSchema (JObj fs')) as [l|] eqn:El.
  - intros H; injection H as <-. exists l. split; [reflexivity|].
    apply ListSchema_name in El as [El _]. congruence.
  - cbn [zArray]. discriminate.
Qed.

(** X5. In the single-object form the list name is not trimmed before
    validation, so a name made of white space only is accepted by the
    validator and refused by the loop over the lists: on a store that
    carries out every write, the import fails after its ledger record was
    written, with an INTERNAL_SERVER_ERROR that carries the message of the
    refusal; no list and no card is written, and the ledger record is left
    marked failed. *)
Theorem blank_single_list_name_fails_after_validation
    (parse : string -> option json) (db : Behaviour) (colours : list string)
    (ctx : Ctx) (input : Input) (w : World) (userId : string) (board : BoardRow)
    (fs : list (string * json)) (name : string) (ls : list ListData) :
  alwaysSucceeds db ->
  accessGranted w ctx (inputBoardPublicId input) = Some (userId, board) ->
  parse (data input) = Some (JObj fs) ->
  assoc "listName" fs = Some (JStr name) ->
  Js.trim name = ""%string ->
  validatePayload parse (data input) = Ok ls ->
  exists w',
    importCards parse db colours ctx input w
    = (Throw (TRPCError INTERNAL_SERVER_ERROR
                "Import failed: Invalid list data: listName is required and must be a non-empty string"),
       w')
    /\ lists w' = lists w
    /\ cards w' = cards w
    /\ exists row, In row (imports w')
         /\ importId row = nextId (map importId (imports w))
         /\ importStatus row = Failed.
Proof.
  intros Hdb Ha Hp Hn Hblank Hv.
  destruct (single_payload_inv parse _ fs ls Hp Hv) as (l & -> & Hl).
  assert (Hname : listName l = name) by congruence.
  rewrite (importCards_granted _ _ _ _ _ _ _ _ _ Ha Hv).
  unfold importWithLedger, bind, importRepo.create, repoCall.
  rewrite Hdb. cbn [fst snd importId Nat.eqb nextId].
  unfold tryCatch, importTry.
  match goal with
  | |- context [resolveLabels db colours userId ?b ?i ?ex [l] ?w0] =>
      destruct (resolveLabels_run db (alwaysSucceeds_faults db Hdb) colours userId
                  b i ex [l] w0) as (labelMap & w1 & E1 & Hi1);
      pose proof (unchanged_lists_resolveLabels db colours userId b i ex [l] w0)
        as Hlists;
      assert (Hcards : preserves (unchanged cards)
                         (resolveLabels db colours userId b i ex [l]))
        by (apply resolveLabels_preserves; frame_ops);
      specialize (Hcards w0)
  end.
  rewrite E1 in *. unfold unchanged in Hlists, Hcards. cbn [snd] in Hlists, Hcards.
  unfold processLists. cbn [forEachM]. unfold bind, processList.
  rewrite Hname, Hblank. cbn [Js.truthy String.eqb negb throw world].
  rewrite importCatch_marks by apply Hdb.
  eexists. split; [reflexivity|].
  unfold markFailed. cbn [lists cards imports setImports setStoreCalls].
  split; [exact Hlists|]. split; [exact Hcards|].
  rewrite Hi1. cbn [imports setImports setStoreCalls].
  rewrite map_app. cbn [map]. eexists. split.
  - apply in_or_app. right. left. reflexivity.
  - unfold importRepo.setStatus. cbn [importId]. rewrite Nat.eqb_refl. auto.
Qed.

Lemma blank_single_list_name_fails_after_validation_witness :
  exists w',
    importCards (Sample.parseAs (JObj Sample.blankNameFields)) Sample.allSucceed
      Sample.palette Sample.ctx (Sample.input "doc") Sample.world0
    = (Throw (TRPCError INTERNAL_SERVER_ERROR
                "Import failed: Invalid list data: listName is required and must be a non-empty string"),
       w')
    /\ lists w' = lists Sample.world0
    /\ cards w' = cards Sample.world0
    /\ exists row, In row (imports w')
         /\ importId row = nextId (map importId (imports Sample.world0))
         /\ importStatus row = Failed.
Proof.
  refine (blank_single_list_name_fails_after_validation
            (Sample.parseAs (JObj Sample.blankNameFields)) Sample.allSucceed
            Sample.palette Sample.ctx (Sample.input "doc") Sample.world0
            "user-1" Sample.board1 Sample.blankNameFields "  "
            [{| listName := "  "; listCards := [Sample.plainCard "write"] |}]
            _ _ _ _ _ _).
  - intros op n. reflexivity.
  - vm_compute. reflexivity.
  - reflexivity.
  - reflexivity.
  - vm_compute. reflexivity.
  - vm_compute. reflexivity.
Defined.

(* ===================================================================== *)
(** ** Checklist entries the preprocessor drops *)
(* ===================================================================== *)






(* ===================================================================== *)
(** ** The warnings of an accepted payload *)
(* ===================================================================== *)

Lemma quiet_refl (s : ImportState) : quiet s s.
Proof. intros H. exact H. Qed.

Lemma quiet_trans (a b c : ImportState) : quiet a b -> quiet b c -> quiet a c.
Proof. unfold quiet. auto. Qed.

Lemma quiet_same (s s' : ImportState) : warnings s' = warnings s -> quiet s s'.
Proof. unfold quiet. now intros ->. Qed.

Lemma quiet_liftDb {A} (m : M World A) : preserves quiet (liftDb m).
Proof.
  intros s. unfold liftDb. destruct (m (world s)). apply quiet_same. reflexivity.
Qed.

Lemma quiet_pushWarnings (xs : list ImportWarning) :
  noTruncation xs -> preserves quiet (pushWarnings xs).
Proof.
  intros H s Hs. cbn. apply Forall_app. split; assumption.
Qed.

Lemma preserves_forEachM_in {St A} (R : St -> St -> Prop)
    (f : nat -> A -> M St unit) (xs : list A) :
  (forall s, R s s) -> (forall a b c, R a b -> R b c -> R a c) ->
  (forall i x, In x xs -> preserves R (f i x)) ->
  forall i, preserves R (forEachM f i xs).
Proof.
  intros Hrefl Htrans. induction xs as [|x xs IH]; intros Hf i; cbn [forEachM].
  - now apply preserves_ret.
  - apply preserves_bind; [exact Htrans|apply Hf; now left|].
    intros _. apply IH. intros j y Hy. apply Hf. now right.
Qed.

Ltac quietly :=
  repeat first
    [ exact quiet_refl | exact quiet_trans
    | progress intros
    | apply quiet_liftDb
    | match goal with
      | |- preserves _ (bind _ _) => apply preserves_bind
      | |- preserves _ (ret _) => apply preserves_ret
      | |- preserves _ (throw _) => apply preserves_throw
      | |- preserves _ (when _ _) => apply preserves_when
      | |- preserves _ (match ?x with _ => _ end) => destruct x
      end ].

Lemma createItem_quiet db userId lname title j checklist k itemData :
  String.length (itemTitle itemData) <= 500 ->
  preserves quiet (createItem db userId lname title j checklist k itemData).
Proof.
  intros H. unfold createItem.
  rewrite (proj2 (Nat.ltb_ge _ _) H). quietly.
Qed.

Lemma createChecklist_quiet db userId lname createdCard cardData j checklistData :
  checklistWithinBounds checklistData ->
  preserves quiet
    (createChecklist db userId lname createdCard cardData j checklistData).
Proof.
  intros [Hn Hitems]. unfold createChecklist.
  assert (E : (255 <? String.length (checklistName checklistData)) = false)
    by (apply Nat.ltb_ge; lia).
  rewrite E. quietly.
  apply preserves_forEachM_in; [exact quiet_refl|exact quiet_trans|].
  intros i x Hx. apply createItem_quiet.
  rewrite Forall_forall in Hitems. specialize (Hitems x Hx).
  unfold itemWithinBounds in Hitems. lia.
Qed.

Lemma createChecklistsOfCard_quiet db userId lname m createdCard :
  (forall cd, mapGetNat (cardPublicId createdCard) m = Some cd ->
              cardWithinBounds cd) ->
  preserves quiet (createChecklistsOfCard db userId lname m createdCard).
Proof.
  intros H. unfold createChecklistsOfCard.
  destruct (mapGetNat _ m) as [cd|]; [|quietly].
  destruct (H cd eq_refl) as (_ & _ & Hcls).
  apply preserves_forEachM_in; [exact quiet_refl|exact quiet_trans|].
  intros i x Hx. apply createChecklist_quiet.
  rewrite Forall_forall in Hcls. auto.
Qed.

Lemma labelStep_quiet labelMap lname m createdCard :
  noTruncation (snd (labelStepOfCard labelMap lname m createdCard)).
Proof.
  unfold labelStepOfCard, noTruncation.
  destruct (mapGetNat _ m) as [cd|]; [|constructor].
  destruct (_ =? 0); [constructor|]. cbn [snd].
  unfold duplicateWarningOfCard. destruct (_ <? _); repeat constructor.
Qed.

Lemma writeCardDetails_quiet db userId labelMap l m createdCards :
  (forall k cd, mapGetNat k m = Some cd -> cardWithinBounds cd) ->
  preserves quiet (writeCardDetails db userId labelMap l m createdCards).
Proof.
  intros H. unfold writeCardDetails.
  apply preserves_bind; [exact quiet_trans| |intros _].
  { intros s. apply quiet_same. reflexivity. }
  apply preserves_bind; [exact quiet_trans|apply quiet_liftDb|intros _].
  apply preserves_bind; [exact quiet_trans| |intros _].
  { apply quiet_pushWarnings. unfold noTruncation. apply Forall_flat_map.
    apply Forall_forall. intros x Hx. apply in_map_iff in Hx as (C & <- & _).
    apply labelStep_quiet. }
  apply preserves_bind; [exact quiet_trans| |intros _].
  { apply preserves_when; [exact quiet_refl|apply quiet_liftDb]. }
  apply preserves_forEachM. 1-2: first [exact quiet_refl|exact quiet_trans].
  intros i C. apply createChecklistsOfCard_quiet. intros cd. apply H.
Qed.

Lemma truncationWarnings_none (l : ListData) :
  Forall cardWithinBounds (listCards l) -> truncationWarnings l = [].
Proof.
  unfold truncationWarnings. generalize (listName l) as lname.
  generalize (listCards l) as cards. intros cards lname H. generalize 0 as i.
  induction H as [|c cs (Ht & Hd & _) _ IH]; intros i; cbn [mapi List.concat];
    [reflexivity|].
  rewrite IH, app_nil_r. unfold truncationWarningsOfCard.
  rewrite (proj2 (Nat.ltb_ge _ _) (proj2 Ht)), (proj2 (Nat.ltb_ge _ _) Hd).
  now rewrite andb_false_r.
Qed.

Lemma mapGetNat_In_inv {V} (m : list (nat * V)) (k : nat) (v : V) :
  mapGetNat k m = Some v -> In (k, v) m.
Proof.
  induction m as [|[k' v'] m IH]; cbn; [discriminate|].
  destruct (Nat.eqb_spec k k') as [->|_].
  - intros H; injection H as ->. now left.
  - intros H. right. auto.
Qed.

Lemma preparedFrom_cards userId importId target cards :
  forall index uid,
    map fst (preparedFrom userId importId target index uid cards) = cards.
Proof.
  induction cards as [|c cs IH]; intros index uid; cbn; [reflexivity|].
  now rewrite IH.
Qed.

Lemma prepared_lookup userId importId target index uid cards k cd :
  mapGetNat k
    (fold_left (fun m p => mapSet (cardInputPublicId (snd p)) (fst p) m)
               (preparedFrom userId importId target index uid cards) [])
  = Some cd ->
  In cd cards.
Proof.
  intros H. apply mapGetNat_In_inv in H.
  rewrite (fold_mapSet_rev (fun p => cardInputPublicId (snd p)) fst), app_nil_r in H.
  apply in_rev, in_map_iff in H as (p & Hp & Hin).
  injection Hp as _ <-.
  rewrite <- (preparedFrom_cards userId importId target cards index uid).
  now apply in_map.
Qed.

Lemma writeCards_quiet db userId importId labelMap l target :
  listWithinBounds l ->
  preserves quiet (writeCards db userId importId labelMap l target).
Proof.
  intros [_ Hcards] s. unfold writeCards, bind, liftDb.
  rewrite prepareCards_run. cbn [world setWorld].
  unfold pushWarnings at 1. cbn [world].
  rewrite (truncationWarnings_none l Hcards), app_nil_r.
  destruct (cardRepo.bulkCreate db _ _) as [[created|e] w1];
    [|apply quiet_same; reflexivity].
  destruct (List.length created =? 0); [apply quiet_same; reflexivity|].
  match goal with
  | |- quiet _ (snd (writeCardDetails _ _ _ _ ?m _ ?s2)) =>
      apply (quiet_trans s s2); [apply quiet_same; reflexivity|];
      apply (writeCardDetails_quiet db userId labelMap l m created)
  end.
  intros k cd Hk. apply prepared_lookup in Hk.
  rewrite Forall_forall in Hcards. auto.
Qed.

Lemma processList_quiet db userId board importId labelMap l :
  listWithinBounds l ->
  preserves quiet (processList db userId board importId labelMap l).
Proof.
  intros H. unfold processList.
  destruct (negb _); [quietly|]. destruct (_ =? 0); [quietly|].
  apply preserves_bind; [exact quiet_trans| |intros t; now apply writeCards_quiet].
  unfold findOrCreateList.
  apply preserves_bind; [exact quiet_trans| |intros ex].
  { intros s. apply quiet_refl. }
  destruct (find _ ex); [quietly|].
  apply preserves_bind; [exact quiet_trans|apply quiet_liftDb|intros [row|]];
    [|quietly].
  destruct (_ =? 0); [quietly|].
  apply preserves_bind; [exact quiet_trans| |quietly].
  intros s. apply quiet_same. reflexivity.
Qed.

Lemma processLists_quiet db userId board importId labelMap ls :
  Forall listWithinBounds ls ->
  preserves quiet (processLists db userId board importId labelMap ls).
Proof.
  intros H. unfold processLists.
  apply preserves_forEachM_in; [exact quiet_refl|exact quiet_trans|].
  intros i l Hl. apply processList_quiet. rewrite Forall_forall in H. auto.
Qed.

(** What an import that returns went through. *)
Lemma importCards_ok_inv parse db colours ctx input w ls out w' :
  validatePayload parse (data input) = Ok ls ->
  importCards parse db colours ctx input w = (Ok out, w') ->
  exists userId board,
    importWithLedger db colours userId board ls w = (Ok out, w').
Proof.
  intros Hv. unfold importCards.
  destruct (user ctx) as [u|]; [|discriminate].
  destruct (negb (Js.truthy u)); [discriminate|].
  rewrite Hv.
  destruct (findBoard w _) as [b|]; [|discriminate].
  destruct (workspaceRepo.getById w _) as [ws|]; [|discriminate].
  unfold bind at 1. unfold assertUserInWorkspace.
  destruct (existsb _ _); [|discriminate]. eauto.
Qed.

Lemma importWithLedger_ok_inv db colours userId board ls w out w' :
  importWithLedger db colours userId board ls w = (Ok out, w') ->
  exists row wa,
    importRepo.create db "json" userId w = (Ok (Some row), wa)
    /\ importTry db colours userId board (importId row) ls wa = (Ok out, w').
Proof.
  unfold importWithLedger, bind.
  destruct (importRepo.create db "json" userId w) as [[[row|]|e] wa];
    [|discriminate..].
  destruct (importId row =? 0); [discriminate|].
  unfold tryCatch.
  destruct (importTry db colours userId board (importId row) ls wa)
    as [[out'|e] w1] eqn:E.
  - intros H. injection H as <- <-. eauto.
  - unfold importCatch, bind.
    destruct (importRepo.update db Failed (importId row) w1) as [[[]|e'] w2];
      discriminate.
Qed.

Lemma importTry_ok_inv db colours userId board importId ls w out w' :
  importTry db colours userId board importId ls w = (Ok out, w') ->
  exists labelMap w1 st,
    resolveLabels db colours userId board importId (existingLabelsOf w board) ls w
    = (Ok labelMap, w1)
    /\ processLists db userId board importId labelMap ls
         (startState w1 (existingListsOf w board)) = (Ok tt, st)
    /\ importRepo.update db Success importId (world st) = (Ok tt, w')
    /\ out = {| cardsCreated := List.length (allCreatedCards st);
                listsProcessed := List.length ls;
                warningsReturned := warnings st |}.
Proof.
  unfold importTry.
  destruct (resolveLabels _ _ _ _ _ _ _ w) as [[labelMap|e] w1] eqn:E1;
    [|discriminate].
  fold (startState w1 (existingListsOf w board)).
  destruct (processLists _ _ _ _ _ _ _) as [[[]|e] st] eqn:E2; [|discriminate].
  destruct (importRepo.update _ _ _ _) as [[[]|e] w2] eqn:E3; [|discriminate].
  intros H. injection H as <- <-.
  exists labelMap, w1, st. repeat split; assumption.
Qed.

(** X7. The only warning an import returns is the one about duplicate
    labels: whatever the store answers, an import that returns warns of
    no truncation, because every text it would cut short was already
    refused by the validator. *)
Theorem returned_warnings_are_about_duplicates
    (parse : string -> option json) (db : Behaviour) (colours : list string)
    (ctx : Ctx) (input : Input) (w w' : World) (ls : list ListData)
    (out : Output) :
  validatePayload parse (data input) = Ok ls ->
  importCards parse db colours ctx input w = (Ok out, w') ->
  Forall (fun x => exists lname title, x = DuplicateLabelsRemoved lname title)
         (warningsReturned out).
Proof.
  intros Hv Hok.
  destruct (importCards_ok_inv _ _ _ _ _ _ _ _ _ Hv Hok) as (userId & board & H1).
  destruct (importWithLedger_ok_inv _ _ _ _ _ _ _ _ H1) as (row & wa & _ & H2).
  destruct (importTry_ok_inv _ _ _ _ _ _ _ _ _ H2)
    as (labelMap & w1 & st & _ & Hp & _ & ->).
  cbn [warningsReturned].
  pose proof (processLists_quiet db userId board (importId row) labelMap ls
                (validatePayload_bounds _ _ _ Hv)
                (startState w1 (existingListsOf wa board))) as Hq.
  rewrite Hp in Hq. cbn [snd] in Hq.
  specialize (Hq (Forall_nil _)).
  eapply Forall_impl; [|exact Hq]. cbn.
  intros [] Hx; try discriminate. eauto.
Qed.

Lemma returned_warnings_are_about_duplicates_witness :
  Forall (fun x => exists lname title, x = DuplicateLabelsRemoved lname title)
         [DuplicateLabelsRemoved "To Do" "fix"].
Proof.
  refine (returned_warnings_are_about_duplicates
            (Sample.parseAs Sample.repeatedLabelDoc) Sample.allSucceed
            Sample.palette Sample.ctx (Sample.input "doc") Sample.world0
            (snd (importCards (Sample.parseAs Sample.repeatedLabelDoc)
                    Sample.allSucceed Sample.palette Sample.ctx
                    (Sample.input "doc") Sample.world0))
            [{| listName := "To Do";
                listCards := [{| cardTitle := "fix"; cardDescription := "";
                                 cardLabels := ["bug"; "Bug"];
                                 cardChecklists := [] |}] |}]
            {| cardsCreated := 1; listsProcessed := 1;
               warningsReturned := [DuplicateLabelsRemoved "To Do" "fix"] |}
            _ _).
  - vm_compute. reflexivity.
  - vm_compute. reflexivity.
Defined.

(* ===================================================================== *)
(** ** When the warning about duplicate labels is raised *)
(* ===================================================================== *)

Lemma fold_setAdd_NoDup (xs : list string) :
  forall acc, NoDup acc -> NoDup (fold_left (fun s x => setAdd x s) xs acc).
Proof.
  induction xs as [|x xs IH]; intros acc H; cbn [fold_left]; [exact H|].
  apply IH. unfold setAdd. destruct (setHas x acc) eqn:E; [exact H|].
  apply NoDup_app; [exact H|repeat constructor; intros []|].
  intros y Hy [<-|[]]. apply setHas_In in Hy. congruence.
Qed.

Lemma newSet_NoDup (xs : list string) : NoDup (newSet xs).
Proof. apply fold_setAdd_NoDup. constructor. Qed.

Lemma newSet_length (xs : list string) :
  List.length (newSet xs) <= List.length xs.
Proof.
  apply NoDup_incl_length; [apply newSet_NoDup|].
  intros x. apply newSet_In.
Qed.

Lemma newSet_full (xs : list string) :
  List.length xs <= List.length (newSet xs) <-> NoDup xs.
Proof.
  split.
  - intros H. apply NoDup_incl_NoDup with (l := newSet xs);
      [apply newSet_NoDup|exact H|].
    intros x. apply newSet_In.
  - intros H. apply NoDup_incl_length; [exact H|].
    intros x. apply newSet_In.
Qed.

Lemma filter_full {A} (p : A -> bool) (l : list A) :
  List.length l <= List.length (filter p l) -> Forall (fun x => p x = true) l.
Proof.
  induction l as [|x l IH]; cbn; [constructor|].
  pose proof (filter_length_le p l) as Hle.
  destruct (p x) eqn:E; cbn; intros H; [|lia].
  constructor; [exact E|]. apply IH. lia.
Qed.

(** X8. The warning [Duplicate labels removed] is raised for a card
    exactly when one of its label names is blank or two of them are equal
    when case is ignored; a card all of whose labels are blank gets the
    warning too. *)
Theorem duplicate_warning_iff_blank_or_repeated
    (labelMap : list (string * nat)) (lname : string)
    (m : list (nat * CardData)) (createdCard : CardRow) (cardData : CardData) :
  mapGetNat (cardPublicId createdCard) m = Some cardData ->
  (snd (labelStepOfCard labelMap lname m createdCard) = []
   <-> Forall (fun n => Js.trim n <> ""%string) (cardLabels cardData)
       /\ NoDup (map Js.toLowerCase (cardLabels cardData)))
  /\ (snd (labelStepOfCard labelMap lname m createdCard) = []
      \/ snd (labelStepOfCard labelMap lname m createdCard)
         = [DuplicateLabelsRemoved lname (cardTitle cardData)]).
Proof.
  intros Hm. unfold labelStepOfCard. rewrite Hm.
  destruct (cardLabels cardData) as [|n ns] eqn:El.
  { cbn. split; [|now left]. split; [|reflexivity].
    intros _. split; constructor. }
  rewrite <- El. assert (E0 : (List.length (cardLabels cardData) =? 0) = false)
    by (rewrite El; reflexivity).
  rewrite E0. cbn [snd]. unfold duplicateWarningOfCard, uniqueLabelsOf.
  set (labels := cardLabels cardData).
  set (kept := filter (fun l => negb (Js.trim l =? "")%string) labels).
  pose proof (newSet_length (map Js.toLowerCase kept)) as H1.
  pose proof (filter_length_le (fun l => negb (Js.trim l =? "")%string) labels) as H2.
  fold kept in H2. rewrite length_map in H1.
  destruct (List.length (newSet (map Js.toLowerCase kept)) <? List.length labels)
    eqn:E.
  - split; [|now right]. split; [discriminate|].
    intros [Hall Hnd]. exfalso. apply Nat.ltb_lt in E.
    assert (Hk : kept = labels).
    { apply filter_everything. eapply Forall_impl; [|exact Hall]. cbn.
      intros x Hx. apply negb_true_iff. now apply String.eqb_neq. }
    rewrite Hk in E. apply newSet_full in Hnd. rewrite length_map in Hnd. lia.
  - split; [|now left]. split; [|reflexivity]. intros _.
    apply Nat.ltb_ge in E.
    assert (Hall : Forall (fun x => negb (Js.trim x =? "")%string = true) labels).
    { apply filter_full. fold kept. lia. }
    assert (Hk : kept = labels) by (now apply filter_everything).
    split.
    + eapply Forall_impl; [|exact Hall]. cbn. intros x Hx.
      apply String.eqb_neq. now apply negb_true_iff.
    + apply newSet_full. rewrite length_map. rewrite Hk in E. exact E.
Qed.

Lemma duplicate_warning_iff_blank_or_repeated_witness :
  let C := cardRepo.row 1
             {| cardInputPublicId := 7; cardInputTitle := "fix";
                cardInputDescription := ""; cardInputCreatedBy := "user-1";
                cardInputListId := 1; cardInputIndex := 0;
                cardInputImportId := 1 |} in
  let cd := {| cardTitle := "fix"; cardDescription := "";
               cardLabels := ["bug"; " "]; cardChecklists := [] |} in
  (snd (labelStepOfCard [] "To Do" [(7, cd)] C) = []
   <-> Forall (fun n => Js.trim n <> ""%string) (cardLabels cd)
       /\ NoDup (map Js.toLowerCase (cardLabels cd)))
  /\ (snd (labelStepOfCard [] "To Do" [(7, cd)] C) = []
      \/ snd (labelStepOfCard [] "To Do" [(7, cd)] C)
         = [DuplicateLabelsRemoved "To Do" (cardTitle cd)]).
Proof.
  intros C cd.
  apply (duplicate_warning_iff_blank_or_repeated [] "To Do" [(7, cd)] C cd).
  reflexivity.
Defined.

(* ===================================================================== *)
(** ** The cards an import reports *)
(* ===================================================================== *)

Lemma tallied_refl (s : ImportState) : tallied s s.
Proof. exists []. now rewrite !app_nil_r. Qed.

Lemma tallied_trans (a b c : ImportState) :
  tallied a b -> tallied b c -> tallied a c.
Proof.
  intros (r1 & C1 & A1) (r2 & C2 & A2). exists (r1 ++ r2).
  rewrite C2, C1, A2, A1, !app_assoc. auto.
Qed.

Lemma tallied_same (s s' : ImportState) :
  cards (world s') = cards (world s) ->
  allCreatedCards s' = allCreatedCards s ->
  tallied s s'.
Proof. intros C A. exists []. now rewrite C, A, !app_nil_r. Qed.

Lemma writeCardDetails_created db userId labelMap l m createdCards s :
  allCreatedCards (snd (writeCardDetails db userId labelMap l m createdCards s))
  = allCreatedCards s ++ createdCards.
Proof.
  unfold writeCardDetails. unfold bind at 1. unfold pushCreatedCards at 1.
  match goal with
  | |- allCreatedCards (snd (?rest ?s1)) = _ =>
      assert (H : preserves (unchanged allCreatedCards) rest)
  end.
  { apply preserves_bind; [exact (unchanged_trans _)| |intros _].
    { apply frame_liftDb. reflexivity. }
    apply preserves_bind; [exact (unchanged_trans _)| |intros _].
    { apply frame_pushWarnings. reflexivity. }
    apply preserves_bind; [exact (unchanged_trans _)| |intros _].
    { apply preserves_when; [exact (unchanged_refl _)|].
      apply frame_liftDb. reflexivity. }
    apply preserves_forEachM;
      [exact (unchanged_refl _)|exact (unchanged_trans _)|].
    intros i c. apply createChecklistsOfCard_frame; reflexivity. }
  match goal with
  | |- allCreatedCards (snd (?rest ?s1)) = _ => exact (H s1)
  end.
Qed.

Lemma writeCards_tallied db userId importId labelMap l target :
  preserves tallied (writeCards db userId importId labelMap l target).
Proof.
  intros s. unfold writeCards, bind, liftDb.
  rewrite prepareCards_run. cbn [world setWorld].
  unfold pushWarnings at 1. cbn [world].
  rewrite cardRepo_bulkCreate_run.
  cbn [world setWorld storeCalls setUidSeed cards].
  destruct (db CardBulkCreate (storeCalls (world s)));
    [|apply tallied_same; reflexivity..].
  match goal with
  | |- context [cardRowsFrom ?n ?i] => set (rows := cardRowsFrom n i)
  end.
  match goal with
  | |- context [fold_left cardRepo.insert ?i ?w0] =>
      pose proof (cardRepo_fold_cards i w0) as Hc;
      set (w1 := fold_left cardRepo.insert i w0) in *
  end.
  cbn [cards setStoreCalls setUidSeed] in Hc. fold rows in Hc.
  destruct (List.length rows =? 0) eqn:E0.
  - apply Nat.eqb_eq, length_zero_iff_nil in E0.
    exists []. cbn [snd world setWorld allCreatedCards throw].
    rewrite Hc, E0, !app_nil_r. auto.
  - exists rows. rewrite writeCardDetails_created. cbn [allCreatedCards setWorld].
    split; [|reflexivity].
    match goal with
    | |- cards (world (snd (writeCardDetails _ _ _ _ ?m ?cs ?s2))) = _ =>
        pose proof (writeCardDetails_cards db userId labelMap l m cs s2) as Hk
    end.
    unfold onWorld, unchanged in Hk. rewrite Hk. cbn [world setWorld]. exact Hc.
Qed.

Lemma findOrCreateList_tallied db userId board importId l :
  preserves tallied (findOrCreateList db userId board importId l).
Proof.
  intros s. unfold findOrCreateList, bind, getExistingLists.
  destruct (find _ _); [apply tallied_refl|].
  assert (Hc : preserves (unchanged cards)
                 (listRepo.create db (listName l) userId board importId))
    by frame_ops.
  specialize (Hc (world s)). unfold unchanged in Hc.
  unfold liftDb.
  destruct (listRepo.create db (listName l) userId board importId (world s))
    as [[[row|]|e] w1]; cbn [snd] in Hc;
    try (apply tallied_same; [exact Hc|reflexivity]).
  destruct (listId row =? 0); apply tallied_same; try exact Hc; reflexivity.
Qed.

Lemma processList_tallied db userId board importId labelMap l :
  preserves tallied (processList db userId board importId labelMap l).
Proof.
  unfold processList.
  destruct (negb _); [intros s; apply tallied_refl|].
  destruct (_ =? 0); [intros s; apply tallied_refl|].
  apply preserves_bind; [exact tallied_trans|apply findOrCreateList_tallied|].
  intros t. apply writeCards_tallied.
Qed.

(** X9. The number an import reports as [cardsCreated] is the number of
    rows it appended to the card table, whatever the store answers; and
    [listsProcessed] counts every list of the payload, the lists skipped
    for having no card included. *)
Theorem reported_counts_match_written_rows
    (parse : string -> option json) (db : Behaviour) (colours : list string)
    (ctx : Ctx) (input : Input) (w w' : World) (ls : list ListData)
    (out : Output) :
  validatePayload parse (data input) = Ok ls ->
  importCards parse db colours ctx input w = (Ok out, w') ->
  exists rows,
    cards w' = cards w ++ rows
    /\ cardsCreated out = List.length rows
    /\ listsProcessed out = List.length ls.
Proof.
  intros Hv Hok.
  destruct (importCards_ok_inv _ _ _ _ _ _ _ _ _ Hv Hok) as (userId & board & H1).
  destruct (importWithLedger_ok_inv _ _ _ _ _ _ _ _ H1) as (row & wa & Hc & H2).
  destruct (importTry_ok_inv _ _ _ _ _ _ _ _ _ H2)
    as (labelMap & w1 & st & Hl & Hp & Hu & ->).
  cbn [cardsCreated listsProcessed].
  assert (F1 : preserves (unchanged cards) (importRepo.create db "json" userId))
    by frame_ops.
  assert (F2 : preserves (unchanged cards)
                 (resolveLabels db colours userId board (importId row)
                    (existingLabelsOf wa board) ls))
    by (apply resolveLabels_preserves; frame_ops).
  assert (F3 : preserves (unchanged cards)
                 (importRepo.update db Success (importId row)))
    by frame_ops.
  specialize (F1 w). specialize (F2 wa). specialize (F3 (world st)).
  rewrite Hc in F1. rewrite Hl in F2. rewrite Hu in F3.
  unfold unchanged in F1, F2, F3. cbn [snd] in F1, F2, F3.
  assert (T : preserves tallied
                (processLists db userId board (importId row) labelMap ls)).
  { unfold processLists.
    apply preserves_forEachM; [exact tallied_refl|exact tallied_trans|].
    intros i l. apply processList_tallied. }
  specialize (T (startState w1 (existingListsOf wa board))).
  rewrite Hp in T. destruct T as (rows & C & A).
  cbn [snd world startState allCreatedCards app] in C, A.
  exists rows. rewrite F3, C, F2, F1, A. auto.
Qed.

Lemma reported_counts_match_written_rows_witness :
  exists rows,
    cards (snd (importCards (Sample.parseAs Sample.withEmptyListDoc)
                  Sample.allSucceed Sample.palette Sample.ctx
                  (Sample.input "doc") Sample.world0))
    = cards Sample.world0 ++ rows
    /\ 1 = List.length rows
    /\ 2 = List.length [Sample.firstList; Sample.laterList].
Proof.
  refine (reported_counts_match_written_rows
            (Sample.parseAs Sample.withEmptyListDoc) Sample.allSucceed
            Sample.palette Sample.ctx (Sample.input "doc") Sample.world0 _
            [Sample.firstList; Sample.laterList]
            {| cardsCreated := 1; listsProcessed := 2; warningsReturned := [] |}
            _ _).
  - vm_compute. reflexivity.
  - vm_compute. reflexivity.
Defined.

(* ===================================================================== *)
(** ** The activity of a created card *)
(* ===================================================================== *)

Lemma logged_refl (w : World) : logged w w.
Proof. exists []. cbn. now rewrite !app_nil_r. Qed.

Lemma logged_trans (a b c : World) : logged a b -> logged b c -> logged a c.
Proof.
  intros (r1 & C1 & A1) (r2 & C2 & A2). exists (r1 ++ r2).
  rewrite C2, C1, A2, A1, map_app, !app_assoc. auto.
Qed.

Lemma logged_same (w w' : World) :
  cards w' = cards w -> cardActivities w' = cardActivities w -> logged w w'.
Proof. intros C A. exists []. cbn. now rewrite C, A, !app_nil_r. Qed.

Lemma logged_unchanged {A} (m : M World A) :
  preserves (unchanged cards) m -> preserves (unchanged cardActivities) m ->
  preserves logged m.
Proof. intros H1 H2 w. apply logged_same; [apply H1|apply H2]. Qed.

Lemma prepared_rows_by userId importId target cards :
  forall id index uid,
    Forall (fun C => cardCreatedBy C = userId)
           (cardRowsFrom id
              (map snd (preparedFrom userId importId target index uid cards))).
Proof.
  induction cards as [|c cs IH]; intros id index uid; cbn; constructor;
    [reflexivity|apply IH].
Qed.

Section ActivitiesWritten.

Context (db : Behaviour).
Hypothesis db_activities : forall n, db ActivityBulkCreate n = Succeeds.

Lemma writeCardDetails_logged userId labelMap l m createdCards s :
  let s' := snd (writeCardDetails db userId labelMap l m createdCards s) in
  cards (world s') = cards (world s)
  /\ cardActivities (world s')
     = cardActivities (world s)
       ++ map (fun card => {| activityType := "card.created";
                              activityCardId := cardId card;
                              activityCreatedBy := userId |}) createdCards.
Proof.
  intros s'. split.
  { apply (writeCardDetails_cards db userId labelMap l m createdCards s). }
  subst s'. unfold writeCardDetails. unfold bind at 1. unfold pushCreatedCards at 1.
  unfold bind at 1. unfold liftDb at 1.
  unfold cardActivityRepo.bulkCreate, repoCall. cbn [world].
  rewrite db_activities. cbn [fst snd].
  match goal with
  | |- cardActivities (world (snd (?rest ?s1))) = _ =>
      assert (H : preserves (onWorld (unchanged cardActivities)) rest)
  end.
  { apply preserves_bind;
      [exact (onWorld_trans _ (unchanged_trans _))| |intros _].
    { intros x. reflexivity. }
    apply preserves_bind;
      [exact (onWorld_trans _ (unchanged_trans _))| |intros _].
    { apply preserves_when; [exact (onWorld_refl _ (unchanged_refl _))|].
      apply preserves_liftDb. frame_ops. }
    apply preserves_forEachM;
      [exact (onWorld_refl _ (unchanged_refl _))
      |exact (onWorld_trans _ (unchanged_trans _))|].
    intros i c. apply createChecklistsOfCard_preserves; frame_ops. }
  match goal with
  | |- cardActivities (world (snd (?rest ?s1))) = _ =>
      specialize (H s1); unfold onWorld, unchanged in H; rewrite H
  end.
  reflexivity.
Qed.

Lemma writeCards_logged userId importId labelMap l target :
  preserves (onWorld logged) (writeCards db userId importId labelMap l target).
Proof.
  intros s. unfold onWorld, writeCards, bind, liftDb.
  rewrite prepareCards_run. cbn [world setWorld].
  unfold pushWarnings at 1. cbn [world].
  rewrite cardRepo_bulkCreate_run.
  cbn [world setWorld storeCalls setUidSeed cards].
  destruct (db CardBulkCreate (storeCalls (world s)));
    [|apply logged_same; reflexivity..].
  pose proof (prepared_rows_by userId importId (fst target) (listCards l)
                (nextId (map cardId (cards (world s)))) 0 (uidSeed (world s)))
    as Hby.
  match goal with
  | |- context [cardRowsFrom ?n ?i] => set (rows := cardRowsFrom n i) in *
  end.
  match goal with
  | |- context [fold_left cardRepo.insert ?i ?w0] =>
      pose proof (cardRepo_fold_cards i w0) as Hc;
      pose proof (fold_left_unchanged cardActivities cardRepo.insert i
                    (fun _ _ => eq_refl) w0) as Ha;
      set (w1 := fold_left cardRepo.insert i w0) in *
  end.
  cbn [cards cardActivities setStoreCalls setUidSeed] in Hc, Ha. fold rows in Hc.
  destruct (List.length rows =? 0) eqn:E0.
  - apply Nat.eqb_eq, length_zero_iff_nil in E0.
    exists []. cbn [snd world setWorld throw map].
    rewrite Hc, Ha, E0, !app_nil_r. auto.
  - exists rows.
    match goal with
    | |- context [writeCardDetails db userId labelMap l ?m rows ?s2] =>
        destruct (writeCardDetails_logged userId labelMap l m rows s2) as [Hk Hl]
    end.
    rewrite Hk, Hl. cbn [world setWorld]. rewrite Hc, Ha.
    split; [reflexivity|]. f_equal. apply map_ext_in. intros C HC.
    rewrite Forall_forall in Hby. unfold activityOf. now rewrite (Hby C HC).
Qed.

Lemma processList_logged userId board importId labelMap l :
  preserves (onWorld logged) (processList db userId board importId labelMap l).
Proof.
  unfold processList.
  destruct (negb _); [intros s; apply logged_refl|].
  destruct (_ =? 0); [intros s; apply logged_refl|].
  apply preserves_bind;
    [exact (onWorld_trans _ logged_trans)| |intros t; apply writeCards_logged].
  intros s. apply logged_same.
  - apply (findOrCreateList_cards db userId board importId l s).
  - assert (H : preserves (onWorld (unchanged cardActivities))
                  (findOrCreateList db userId board importId l))
      by (apply findOrCreateList_preserves; frame_ops).
    apply (H s).
Qed.

End ActivitiesWritten.

(** X10. Whenever the store carries out the writes of activities, every
    card an import appends to the card table comes with one activity of
    type [card.created], bearing the identifier of the card and the user
    who created it, in the order of the cards; this holds whether the
    import returns or fails on the way. *)
Theorem every_created_card_is_logged
    (parse : string -> option json) (db : Behaviour) (colours : list string)
    (ctx : Ctx) (input : Input) (w : World) (ls : list ListData) :
  (forall n, db ActivityBulkCreate n = Succeeds) ->
  validatePayload parse (data input) = Ok ls ->
  logged w (snd (importCards parse db colours ctx input w)).
Proof.
  intros Hdb Hv.
  apply (importCards_preserves logged db colours ls);
    try assumption; try apply logged_refl; try apply logged_trans.
  - intros userId board importId labelMap l _.
    now apply processList_logged.
  - intros inputs. apply logged_unchanged; frame_ops.
  - intros status id. apply logged_unchanged; frame_ops.
  - intros source by_. apply logged_unchanged; frame_ops.
Qed.

Lemma every_created_card_is_logged_witness :
  logged Sample.world0
    (snd (importCards (Sample.parseAs Sample.threeListsDoc) Sample.allSucceed
            Sample.palette Sample.ctx (Sample.input "doc") Sample.world0)).
Proof.
  apply (every_created_card_is_logged _ _ _ _ _ _
           [Sample.firstList; Sample.secondList; Sample.thirdList]).
  - intros n. reflexivity.
  - vm_compute. reflexivity.
Defined.

(* ===================================================================== *)
(** ** What validation keeps of a card *)
(* ===================================================================== *)

Lemma traverse_strings (lo hi : nat) (l : list json) (ys : list string) :
  traverse (zString lo hi) l = Some ys -> map JStr ys = l.
Proof.
  intros H. apply traverse_Forall2 in H.
  induction H as [|x y xs ys' Hxy _ IH]; cbn; [reflexivity|].
  apply zString_inv in Hxy as [-> _]. now rewrite IH.
Qed.

(** X11. Validation hands a card on as it was written: the title of an
    accepted card is the string under [title] of the entry, so an entry
    without a string title is never accepted; its description is the
    string under [description], or the empty string when the key is
    absent or null; its labels are the entries of [labels] that are not
    null, all of them strings, in order, or none when [labels] is not an
    array. *)
Theorem accepted_card_keeps_its_fields
    (index : nat) (c c' : json) (d : CardData) :
  preprocessCard index c = Ok c' ->
  CardSchema c' = Some d ->
  prop "title" c = Some (JStr (cardTitle d))
  /\ nullish (prop "description" c) (JStr "") = JStr (cardDescription d)
  /\ map JStr (cardLabels d)
     = filter (fun l => negb (isNull l)) (arrayOrEmpty (prop "labels" c)).
Proof.
  unfold preprocessCard. destruct (negb (isObjectLike c)); [discriminate|].
  intros H; injection H as <-.
  unfold CardSchema.
  cbn [isPlainObject prop assoc String.eqb Ascii.eqb Bool.eqb zRequired zDefault bindOpt].
  destruct (zString 1 255 _) as [t|] eqn:Et; cbn [bindOpt]; [|discriminate].
  destruct (zString 0 10000 _) as [ds|] eqn:Ed; cbn [bindOpt]; [|discriminate].
  destruct (zArray (zString 0 50) 0 20 _) as [ls|] eqn:El; cbn [bindOpt];
    [|discriminate].
  destruct (zArray ChecklistSchema 0 10 _) as [cls|]; cbn [bindOpt];
    [|discriminate].
  intros H; injection H as <-.
  cbn [cardTitle cardDescription cardLabels].
  apply zString_inv in Et as [Ht Hlen]. apply zString_inv in Ed as [Hd _].
  apply zArray_inv in El as (l & Hl & Htr & _). injection Hl as <-.
  split; [|split; [exact Hd|now apply traverse_strings in Htr]].
  change (match c with JObj fs => assoc "title" fs | _ => None end)
    with (prop "title" c) in Ht.
  destruct (prop "title" c) as [[| | |s| |]|]; cbn in Ht; try discriminate.
  - injection Ht as <-. cbn in Hlen. lia.
  - now injection Ht as ->.
  - injection Ht as <-. cbn in Hlen. lia.
Qed.

Lemma accepted_card_keeps_its_fields_witness :
  let d := {| cardTitle := "write"; cardDescription := "";
              cardLabels := ["docs"; "urgent"]; cardChecklists := [] |} in
  prop "title" Sample.sparseCard = Some (JStr (cardTitle d))
  /\ nullish (prop "description" Sample.sparseCard) (JStr "")
     = JStr (cardDescription d)
  /\ map JStr (cardLabels d)
     = filter (fun l => negb (isNull l))
              (arrayOrEmpty (prop "labels" Sample.sparseCard)).
Proof.
  refine (accepted_card_keeps_its_fields 0 Sample.sparseCard _ _ _ _).
  - vm_compute. reflexivity.
  - vm_compute. reflexivity.
Defined.

(* ===================================================================== *)
(** ** Access to the board *)
(* ===================================================================== *)

(** X12. Unless the caller is signed in, the board exists, its workspace
    exists and the caller is a member of it, an import writes nothing,
    whatever the payload: it raises UNAUTHORIZED, BAD_REQUEST, NOT_FOUND
    or FORBIDDEN and leaves the store as it was, without a ledger record. *)
Theorem import_without_access_writes_nothing
    (parse : string -> option json) (db : Behaviour) (colours : list string)
    (ctx : Ctx) (input : Input) (w : World) :
  accessGranted w ctx (inputBoardPublicId input) = None ->
  exists code msg,
    importCards parse db colours ctx input w = (Throw (TRPCError code msg), w)
    /\ In code [UNAUTHORIZED; BAD_REQUEST; NOT_FOUND; FORBIDDEN].
Proof.
  unfold accessGranted, importCards.
  destruct (user ctx) as [u|];
    [|intros _; eexists _, _; split; [reflexivity|cbn; auto]].
  destruct (Js.truthy u); cbn [negb];
    [|intros _; eexists _, _; split; [reflexivity|cbn; auto]].
  destruct (validatePayload parse (data input)) as [ls|e] eqn:Ev.
  2:{ intros _. destruct (validatePayload_throws _ _ _ Ev) as [msg ->].
      eexists _, _. split; [reflexivity|cbn; auto]. }
  destruct (findBoard w _) as [b|];
    [|intros _; eexists _, _; split; [reflexivity|cbn; auto]].
  destruct (workspaceRepo.getById w _) as [ws|];
    [|intros _; eexists _, _; split; [reflexivity|cbn; auto]].
  unfold bind at 1. unfold assertUserInWorkspace.
  destruct (existsb _ _); [discriminate|].
  intros _. eexists _, _. split; [reflexivity|cbn; auto].
Qed.

Lemma import_without_access_writes_nothing_witness :
  exists code msg,
    importCards (Sample.parseAs Sample.threeListsDoc) Sample.allSucceed
      Sample.palette Sample.anonymous (Sample.input "doc") Sample.world0
    = (Throw (TRPCError code msg), Sample.world0)
    /\ In code [UNAUTHORIZED; BAD_REQUEST; NOT_FOUND; FORBIDDEN].
Proof.
  apply import_without_access_writes_nothing. reflexivity.
Defined.

(** X13. The export reads and never writes: it leaves the store as it
    was. It returns the document of the board exactly when the caller is
    signed in, the board exists, its workspace exists and the caller is a
    member of it, and otherwise raises UNAUTHORIZED, NOT_FOUND or
    FORBIDDEN. *)
Theorem export_reads_behind_the_same_gate
    (ctx : Ctx) (publicId : string) (w : World) :
  snd (exportCards ctx publicId w) = w
  /\ match accessGranted w ctx publicId with
     | Some (_, board) =>
         fst (exportCards ctx publicId w) = Ok (exportData w (boardId board))
     | None =>
         exists code msg,
           fst (exportCards ctx publicId w) = Throw (TRPCError code msg)
           /\ In code [UNAUTHORIZED; NOT_FOUND; FORBIDDEN]
     end.
Proof.
  unfold accessGranted, exportCards.
  destruct (user ctx) as [u|];
    [|split; [reflexivity|eexists _, _; split; [reflexivity|cbn; auto]]].
  destruct (Js.truthy u); cbn [negb];
    [|split; [reflexivity|eexists _, _; split; [reflexivity|cbn; auto]]].
  destruct (findBoard w _) as [b|];
    [|split; [reflexivity|eexists _, _; split; [reflexivity|cbn; auto]]].
  destruct (workspaceRepo.getById w _) as [ws|];
    [|split; [reflexivity|eexists _, _; split; [reflexivity|cbn; auto]]].
  unfold bind, assertUserInWorkspace, ret.
  destruct (existsb _ _); cbn [fst snd].
  - split; reflexivity.
  - split; [reflexivity|eexists _, _; split; [reflexivity|cbn; auto]].
Qed.

(** X14. An import only appends: whatever the payload and whatever the
    store answers, the boards, the workspaces and their members are left
    as they were, every table keeps its rows in place with the new rows
    after them, and the ledger keeps its records, up to their status. *)
Theorem import_only_appends
    (parse : string -> option json) (db : Behaviour) (colours : list string)
    (ctx : Ctx) (input : Input) (w : World) :
  extends w (snd (importCards parse db colours ctx input w)).
Proof.
  destruct (validatePayload parse (data input)) as [ls|e] eqn:Ev.
  - apply (importCards_preserves extends db colours ls);
      try assumption; try apply extends_refl; try apply extends_trans.
    + intros. apply processList_extends.
    + intros. apply extends_labelRepo_bulkCreate.
    + intros. apply extends_importRepo_update.
    + intros. apply extends_importRepo_create.
  - rewrite (importCards_invalid_world _ _ _ _ _ _ _ Ev). apply extends_refl.
Qed.

(* ===================================================================== *)
(** ** The export, table by table *)
(* ===================================================================== *)

(** X15. The export assembled from five batch queries is the export read
    entity by entity: the lists the board shows, not deleted, by
    ascending index; under each list its cards, not deleted, by ascending
    index; under each card the names of its labels and its checklists,
    not deleted, by ascending index; under each checklist its items, not
    deleted, by ascending index. *)
Theorem export_is_read_entity_by_entity (w : World) (board : nat) :
  exportData w board = exportByEntity w board.
Proof. apply exportData_by_entity. Qed.

Lemma filter_live {A} (p live : A -> bool) (l : list A) :
  filter (fun x => p x && live x) (filter live l)
  = filter (fun x => p x && live x) l.
Proof.
  rewrite filter_filter. apply filter_ext_in'. intros x _.
  destruct (p x), (live x); reflexivity.
Qed.

(** X16. Rows marked deleted play no part in the export: the export of
    a board is the export of the store from which every deleted list,
    card, checklist and checklist item has been removed. *)
Theorem export_ignores_deleted_rows (w : World) (board : nat) :
  exportData (purged w) board = exportData w board.
Proof.
  rewrite !exportData_by_entity.
  unfold exportByEntity, listsOfBoard, purged.
  cbn [lists setLists].
  rewrite (filter_live (fun l => listBoardId l =? board)
                       (fun l => negb (listDeleted l))).
  apply map_ext. intros l. unfold exportList. f_equal.
  unfold cardsOfList. cbn [cards setLists setCards].
  rewrite (filter_live (fun c => cardListId c =? listId l)
                       (fun c => negb (cardDeleted c))).
  apply map_ext. intros c. unfold exportCard. f_equal.
  unfold checklistsOfCard. cbn [checklists setLists setCards setChecklists].
  rewrite (filter_live (fun cl => checklistCardId cl =? cardId c)
                       (fun cl => negb (checklistDeleted cl))).
  apply map_ext. intros cl. unfold exportChecklist. f_equal.
  unfold itemsOfChecklist.
  cbn [checklistItems setLists setCards setChecklists setChecklistItems].
  now rewrite (filter_live (fun i => itemChecklistId i =? checklistId cl)
                           (fun i => negb (itemDeleted i))).
Qed.

(* ===================================================================== *)
(** ** The rows of an import bear its ledger record *)
(* ===================================================================== *)

Lemma tagged_refl id by_ board (w : World) : tagged id by_ board w w.
Proof. exists [], [], []. rewrite !app_nil_r. auto 10. Qed.

Lemma tagged_trans id by_ board (a b c : World) :
  tagged id by_ board a b -> tagged id by_ board b c -> tagged id by_ board a c.
Proof.
  intros (l1 & b1 & c1 & L1 & B1 & C1 & FL1 & FB1 & FC1)
         (l2 & b2 & c2 & L2 & B2 & C2 & FL2 & FB2 & FC2).
  exists (l1 ++ l2), (b1 ++ b2), (c1 ++ c2).
  rewrite L2, L1, B2, B1, C2, C1, !app_assoc.
  repeat split; try reflexivity; apply Forall_app; auto.
Qed.

Lemma tagged_same id by_ board (w w' : World) :
  lists w' = lists w -> labels w' = labels w -> cards w' = cards w ->
  tagged id by_ board w w'.
Proof.
  intros L B C. exists [], [], []. rewrite L, B, C, !app_nil_r. auto 10.
Qed.

Lemma tagged_unchanged id by_ board {A} (m : M World A) :
  preserves (unchanged lists) m -> preserves (unchanged labels) m ->
  preserves (unchanged cards) m ->
  preserves (tagged id by_ board) m.
Proof. intros H1 H2 H3 w. apply tagged_same; [apply H1|apply H2|apply H3]. Qed.

Lemma labelRowsFrom_tagged colours by_ board id names :
  forall base count k,
    Forall (fun r => labelImportId r = Some id /\ labelCreatedBy r = by_
                     /\ labelBoardId r = board)
           (labelRowsFrom base
              (mapi (fun index name =>
                       {| labelInputName := name;
                          labelInputColourCode := colourFor colours (count + index);
                          labelInputCreatedBy := by_;
                          labelInputBoardId := board;
                          labelInputImportId := id |}) k names)).
Proof.
  induction names as [|n ns IH]; intros base count k; cbn; constructor;
    [cbn; auto|apply IH].
Qed.

Lemma prepared_rows_tagged by_ id target cards :
  forall base index uid,
    Forall (fun c => cardImportId c = Some id /\ cardCreatedBy c = by_)
           (cardRowsFrom base
              (map snd (preparedFrom by_ id target index uid cards))).
Proof.
  induction cards as [|c cs IH]; intros base index uid; cbn; constructor;
    [cbn; auto|apply IH].
Qed.

Section Tagged.

Context (db : Behaviour) (by_ : string) (board id : nat).

Lemma resolveLabels_tagged colours existing ls :
  preserves (tagged id by_ board)
    (resolveLabels db colours by_ board id existing ls).
Proof.
  intros w. unfold resolveLabels.
  destruct (0 <? _); [|apply tagged_refl].
  unfold bind, ret. rewrite labelRepo_bulkCreate_run.
  destruct (db LabelBulkCreate (storeCalls w)); cbn [snd];
    [|apply tagged_same; reflexivity..].
  eexists [], _, [].
  split.
  { rewrite (fold_left_unchanged lists labelRepo.insert) by reflexivity.
    cbn [lists setStoreCalls]. now rewrite app_nil_r. }
  split; [rewrite labelRepo_fold_labels; reflexivity|].
  split.
  { rewrite (fold_left_unchanged cards labelRepo.insert) by reflexivity.
    cbn [cards setStoreCalls]. now rewrite app_nil_r. }
  split; [constructor|]. split; [|constructor].
  unfold newLabelInputs. apply labelRowsFrom_tagged.
Qed.

Lemma findOrCreateList_tagged l :
  preserves (onWorld (tagged id by_ board))
    (findOrCreateList db by_ board id l).
Proof.
  intros s. unfold onWorld, findOrCreateList, bind, getExistingLists.
  destruct (find _ _); [apply tagged_refl|].
  unfold liftDb, listRepo.create, repoCall.
  destruct (db ListCreate (storeCalls (world s))); cbn [fst snd];
    [|apply tagged_same; reflexivity..].
  match goal with
  | |- context [if ?b then _ else _] => destruct b
  end; cbn [snd world setWorld throw pushExistingList ret];
    (eexists [_], [], []; cbn [lists labels cards setLists setStoreCalls];
     rewrite !app_nil_r;
     split; [reflexivity|]; split; [reflexivity|]; split; [reflexivity|];
     split; [|split; constructor];
     constructor; [cbn; auto|constructor]).
Qed.

Lemma writeCards_tagged labelMap l target :
  preserves (onWorld (tagged id by_ board))
    (writeCards db by_ id labelMap l target).
Proof.
  intros s. unfold onWorld, writeCards, bind, liftDb.
  rewrite prepareCards_run. cbn [world setWorld].
  unfold pushWarnings at 1. cbn [world].
  rewrite cardRepo_bulkCreate_run.
  cbn [world setWorld storeCalls setUidSeed cards].
  destruct (db CardBulkCreate (storeCalls (world s)));
    [|apply tagged_same; reflexivity..].
  pose proof (prepared_rows_tagged by_ id (fst target) (listCards l)
                (nextId (map cardId (cards (world s)))) 0 (uidSeed (world s)))
    as Htag.
  match goal with
  | |- context [fold_left cardRepo.insert ?i ?w0] =>
      pose proof (cardRepo_fold_cards i w0) as Hc;
      pose proof (fold_left_unchanged lists cardRepo.insert i
                    (fun _ _ => eq_refl) w0) as Hl;
      pose proof (fold_left_unchanged labels cardRepo.insert i
                    (fun _ _ => eq_refl) w0) as Hb;
      set (w1 := fold_left cardRepo.insert i w0) in *
  end.
  cbn [cards lists labels setStoreCalls setUidSeed] in Hc, Hl, Hb.
  assert (T1 : tagged id by_ board (world s) w1).
  { eexists [], [], _.
    split; [now rewrite Hl, app_nil_r|]. split; [now rewrite Hb, app_nil_r|].
    split; [exact Hc|].
    split; [constructor|]. split; [constructor|]. exact Htag. }
  destruct (List.length _ =? 0); [exact T1|].
  eapply tagged_trans; [exact T1|].
  match goal with
  | |- tagged _ _ _ _ (world (snd (writeCardDetails _ _ _ _ ?m ?cs ?s2))) =>
      change w1 with (world s2);
      apply tagged_same;
        [ apply (writeCardDetails_preserves (unchanged lists) db
                   (unchanged_refl _) (unchanged_trans _)
                   ltac:(frame_ops) ltac:(frame_ops) ltac:(frame_ops)
                   ltac:(frame_ops) by_ labelMap l m cs s2)
        | apply (writeCardDetails_preserves (unchanged labels) db
                   (unchanged_refl _) (unchanged_trans _)
                   ltac:(frame_ops) ltac:(frame_ops) ltac:(frame_ops)
                   ltac:(frame_ops) by_ labelMap l m cs s2)
        | apply (writeCardDetails_cards db by_ labelMap l m cs s2) ]
  end.
Qed.

Lemma processLists_tagged labelMap ls :
  preserves (onWorld (tagged id by_ board))
    (processLists db by_ board id labelMap ls).
Proof.
  unfold processLists.
  apply preserves_forEachM;
    [intros s; apply tagged_refl
    |intros a b c; apply tagged_trans|].
  intros i l. unfold processList.
  destruct (negb _); [intros s; apply tagged_refl|].
  destruct (_ =? 0); [intros s; apply tagged_refl|].
  apply preserves_bind;
    [intros a b c; apply tagged_trans|apply findOrCreateList_tagged|].
  intros t. apply writeCards_tagged.
Qed.

Lemma importTry_tagged colours ls :
  preserves (tagged id by_ board) (importTry db colours by_ board id ls).
Proof.
  intros w. unfold importTry.
  pose proof (resolveLabels_tagged colours (existingLabelsOf w board) ls w) as H1.
  destruct (resolveLabels _ _ _ _ _ _ _ w) as [[labelMap|e] w1];
    cbn [snd] in *; [|exact H1].
  pose proof (processLists_tagged labelMap ls
                {| world := w1; existingLists := existingListsOf w board;
                   warnings := []; allCreatedCards := [] |}) as H2.
  unfold onWorld in H2. cbn [world] in H2.
  destruct (processLists _ _ _ _ _ _ _) as [[[]|e] st]; cbn [snd] in *;
    [|exact (tagged_trans _ _ _ _ _ _ H1 H2)].
  assert (H3 : preserves (tagged id by_ board) (importRepo.update db Success id))
    by (apply tagged_unchanged; frame_ops).
  specialize (H3 (world st)).
  destruct (importRepo.update db Success id (world st)) as [[[]|e] w2];
    cbn [snd] in *;
    exact (tagged_trans _ _ _ _ _ _ H1 (tagged_trans _ _ _ _ _ _ H2 H3)).
Qed.

End Tagged.

(** X17. Every list, label and card an import writes bears the identifier
    of its ledger record and the calling user; the lists and labels it
    writes belong to the target board. This holds whatever the store
    answers, and whether the import returns or fails on the way. *)
Theorem written_rows_bear_the_import
    (parse : string -> option json) (db : Behaviour) (colours : list string)
    (ctx : Ctx) (input : Input) (w : World) (userId : string) (board : BoardRow)
    (ls : list ListData) :
  accessGranted w ctx (inputBoardPublicId input) = Some (userId, board) ->
  validatePayload parse (data input) = Ok ls ->
  tagged (nextId (map importId (imports w))) userId (boardId board) w
    (snd (importCards parse db colours ctx input w)).
Proof.
  intros Ha Hv. rewrite (importCards_granted _ _ _ _ _ _ _ _ _ Ha Hv).
  unfold importWithLedger, bind, importRepo.create, repoCall.
  destruct (db ImportCreate (storeCalls w)); cbn [fst snd];
    [|apply tagged_same; reflexivity..].
  cbn [importId]. destruct (nextId _ =? 0); [apply tagged_same; reflexivity|].
  set (id := nextId (map importId (imports w))).
  match goal with
  | |- tagged _ _ _ _ (snd (tryCatch _ _ ?wa)) =>
      eapply (tagged_trans _ _ _ _ wa); [apply tagged_same; reflexivity|];
      apply (preserves_tryCatch (tagged id userId (boardId board))
               (tagged_trans _ _ _))
  end.
  - apply importTry_tagged.
  - intros e. unfold importCatch.
    apply preserves_bind; [apply tagged_trans| |intros _ s; apply tagged_refl].
    apply tagged_unchanged; frame_ops.
Qed.

Lemma written_rows_bear_the_import_witness :
  tagged (nextId (map importId (imports Sample.world0))) "user-1" 1 Sample.world0
    (snd (importCards (Sample.parseAs Sample.roundTripDoc) Sample.allSucceed
            Sample.palette Sample.ctx (Sample.input "doc") Sample.world0)).
Proof.
  apply (written_rows_bear_the_import
           (Sample.parseAs Sample.roundTripDoc) Sample.allSucceed
           Sample.palette Sample.ctx (Sample.input "doc") Sample.world0
           "user-1" Sample.board1 Sample.roundTripLists).
  - vm_compute. reflexivity.
  - vm_compute. reflexivity.
Defined.

(* ===================================================================== *)
(** ** The colours of the labels an import creates *)
(* ===================================================================== *)

Lemma colourFor_In (colours : list string) (n : nat) :
  colours <> [] -> In (colourFor colours n) colours.
Proof.
  intros Hne. unfold colourFor.
  destruct (nth_error colours (n mod List.length colours)) as [code|] eqn:E.
  - eapply nth_error_In. exact E.
  - apply nth_error_None in E.
    assert (List.length colours <> 0) by (destruct colours; cbn; congruence).
    pose proof (Nat.mod_upper_bound n (List.length colours)). lia.
Qed.

Lemma labelRowsFrom_colours colours by_ board id count names :
  forall base k i r,
    nth_error
      (labelRowsFrom base
         (mapi (fun index name =>
                  {| labelInputName := name;
                     labelInputColourCode := colourFor colours (count + index);
                     labelInputCreatedBy := by_;
                     labelInputBoardId := board;
                     labelInputImportId := id |}) k names)) i = Some r ->
    labelColourCode r = colourFor colours (count + (k + i)).
Proof.
  induction names as [|n ns IH]; intros base k i r H.
  - destruct i; discriminate.
  - destruct i as [|i]; cbn in H.
    + injection H as <-. cbn. now rewrite Nat.add_0_r.
    + apply IH in H. rewrite H. f_equal. lia.
Qed.

(** X18. The labels an import creates take their colours from the palette
    in turn, starting after as many colours as the board already shows
    labels: the label created in position i bears the colour at position
    (existing + i) modulo the size of the palette, so that the default
    colour is used only when the palette is empty. *)
Theorem new_labels_take_palette_colours_in_turn
    (db : Behaviour) (colours : list string) (userId : string)
    (board importId : nat) (existing : list (nat * string))
    (ls : list ListData) (w : World) :
  exists news,
    labels (snd (resolveLabels db colours userId board importId existing ls w))
    = labels w ++ news
    /\ (forall i r, nth_error news i = Some r ->
          labelColourCode r
          = match nth_error colours
                    ((List.length existing + i) mod List.length colours) with
            | Some code => code
            | None => "#0d9488"%string
            end)
    /\ (colours <> [] -> Forall (fun r => In (labelColourCode r) colours) news).
Proof.
  assert (Hnone : exists news : list LabelRow,
            labels w = labels w ++ news
            /\ (forall i r, nth_error news i = Some r ->
                  labelColourCode r
                  = match nth_error colours
                            ((List.length existing + i) mod List.length colours) with
                    | Some code => code
                    | None => "#0d9488"%string
                    end)
            /\ (colours <> [] ->
                Forall (fun r => In (labelColourCode r) colours) news)).
  { exists []. rewrite app_nil_r. split; [reflexivity|]. split.
    - intros [|i] r H; discriminate.
    - constructor. }
  unfold resolveLabels. destruct (0 <? _); [|exact Hnone].
  unfold bind, ret. rewrite labelRepo_bulkCreate_run.
  destruct (db LabelBulkCreate (storeCalls w)); cbn [snd labels setStoreCalls];
    [|exact Hnone..].
  eexists. split; [rewrite labelRepo_fold_labels; reflexivity|].
  cbn [labels setStoreCalls]. unfold newLabelInputs.
  assert (Hcol : forall i r,
            nth_error
              (labelRowsFrom (nextId (map labelId (labels w)))
                 (mapi (fun index name =>
                          {| labelInputName := name;
                             labelInputColourCode :=
                               colourFor colours (List.length existing + index);
                             labelInputCreatedBy := userId;
                             labelInputBoardId := board;
                             labelInputImportId := importId |}) 0
                       (labelsToCreateOf (labelMapOfExisting existing)
                          (allLabelNamesOf ls)))) i = Some r ->
            labelColourCode r = colourFor colours (List.length existing + i)).
  { intros i r H. now apply labelRowsFrom_colours in H. }
  split.
  - intros i r H. now rewrite (Hcol i r H).
  - intros Hne. apply Forall_forall. intros r Hr.
    apply In_nth_error in Hr as [i Hi]. rewrite (Hcol i r Hi).
    now apply colourFor_In.
Qed.

(* ===================================================================== *)
(** ** The boards an import does not name *)
(* ===================================================================== *)

Lemma list_max_grows {A} (f : A -> nat) (l news : list A) :
  list_max (map f l) <= list_max (map f (l ++ news)).
Proof. rewrite map_app, list_max_app. lia. Qed.

Lemma listIdsOf_grows board (l news : list ListRow) (x : nat) :
  In x (listIdsOf board l) -> In x (listIdsOf board (l ++ news)).
Proof.
  unfold listIdsOf. rewrite filter_app, map_app. intros H.
  apply in_or_app. now left.
Qed.

Lemma importedInto_refl board (w : World) : importedInto board w w.
Proof.
  exists [], [], [], [], [], []. rewrite !app_nil_r.
  repeat (split; [first [reflexivity|constructor]|]). constructor.
Qed.

Lemma importedInto_same board (w w' : World) :
  lists w' = lists w -> labels w' = labels w -> cards w' = cards w ->
  cardsToLabels w' = cardsToLabels w -> checklists w' = checklists w ->
  checklistItems w' = checklistItems w ->
  importedInto board w w'.
Proof.
  intros H1 H2 H3 H4 H5 H6. exists [], [], [], [], [], [].
  rewrite H1, H2, H3, H4, H5, H6, !app_nil_r.
  repeat (split; [first [reflexivity|constructor]|]). constructor.
Qed.

Lemma importedInto_trans board (a b c : World) :
  importedInto board a b -> importedInto board b c -> importedInto board a c.
Proof.
  intros (l1 & b1 & c1 & r1 & k1 & i1 & L1 & B1 & C1 & R1 & K1 & I1
          & FL1 & FB1 & FC1 & FR1 & FK1 & FI1)
         (l2 & b2 & c2 & r2 & k2 & i2 & L2 & B2 & C2 & R2 & K2 & I2
          & FL2 & FB2 & FC2 & FR2 & FK2 & FI2).
  pose proof (list_max_grows listId (lists a) l1) as ML.
  pose proof (list_max_grows labelId (labels a) b1) as MB.
  pose proof (list_max_grows cardId (cards a) c1) as MC.
  pose proof (list_max_grows checklistId (checklists a) k1) as MK.
  rewrite <- L1 in ML. rewrite <- B1 in MB. rewrite <- C1 in MC.
  rewrite <- K1 in MK.
  exists (l1 ++ l2), (b1 ++ b2), (c1 ++ c2), (r1 ++ r2), (k1 ++ k2), (i1 ++ i2).
  split; [now rewrite L2, L1, app_assoc|].
  split; [now rewrite B2, B1, app_assoc|].
  split; [now rewrite C2, C1, app_assoc|].
  split; [now rewrite R2, R1, app_assoc|].
  split; [now rewrite K2, K1, app_assoc|].
  split; [now rewrite I2, I1, app_assoc|].
  split.
  { apply Forall_app. split; [exact FL1|].
    eapply Forall_impl; [|exact FL2]. cbn. intros r [Hb Hid]. split; [exact Hb|lia]. }
  split.
  { apply Forall_app. split; [exact FB1|].
    eapply Forall_impl; [|exact FB2]. cbn. intros r Hid. lia. }
  split.
  { apply Forall_app. split.
    - eapply Forall_impl; [|exact FC1]. cbn. intros x [Hin Hid].
      split; [|exact Hid]. rewrite L2. now apply listIdsOf_grows.
    - eapply Forall_impl; [|exact FC2]. cbn. intros x [Hin Hid].
      split; [exact Hin|lia]. }
  split.
  { apply Forall_app. split; [exact FR1|].
    eapply Forall_impl; [|exact FR2]. cbn. intros r Hid. lia. }
  split.
  { apply Forall_app. split; [exact FK1|].
    eapply Forall_impl; [|exact FK2]. cbn. intros r Hid. lia. }
  apply Forall_app. split; [exact FI1|].
  eapply Forall_impl; [|exact FI2]. cbn. intros r Hid. lia.
Qed.

Lemma detailed_refl K (w : World) : detailed K w w.
Proof.
  repeat (split; [reflexivity|]). exists [], [], []. rewrite !app_nil_r.
  repeat (split; [first [reflexivity|constructor]|]). constructor.
Qed.

Lemma detailed_same K (w w' : World) :
  lists w' = lists w -> labels w' = labels w -> cards w' = cards w ->
  cardsToLabels w' = cardsToLabels w -> checklists w' = checklists w ->
  checklistItems w' = checklistItems w ->
  detailed K w w'.
Proof.
  intros H1 H2 H3 H4 H5 H6. repeat (split; [assumption|]).
  exists [], [], []. rewrite H4, H5, H6, !app_nil_r.
  repeat (split; [first [reflexivity|constructor]|]). constructor.
Qed.

Lemma detailed_trans K (a b c : World) :
  detailed K a b -> detailed K b c -> detailed K a c.
Proof.
  intros (L1 & B1 & C1 & r1 & k1 & i1 & R1 & K1 & I1 & FR1 & FK1 & FI1)
         (L2 & B2 & C2 & r2 & k2 & i2 & R2 & K2 & I2 & FR2 & FK2 & FI2).
  pose proof (list_max_grows checklistId (checklists a) k1) as MK.
  rewrite <- K1 in MK.
  split; [congruence|]. split; [congruence|]. split; [congruence|].
  exists (r1 ++ r2), (k1 ++ k2), (i1 ++ i2).
  split; [now rewrite R2, R1, app_assoc|].
  split; [now rewrite K2, K1, app_assoc|].
  split; [now rewrite I2, I1, app_assoc|].
  split; [apply Forall_app; auto|]. split; [apply Forall_app; auto|].
  apply Forall_app. split; [exact FI1|].
  eapply Forall_impl; [|exact FI2]. cbn. intros r Hid. lia.
Qed.

(** Cards appended to lists of the board, then their details. *)
Lemma importedInto_detailed board K (w w1 w2 : World) :
  importedInto board w w1 -> detailed K w1 w2 ->
  list_max (map cardId (cards w)) <= K ->
  importedInto board w w2.
Proof.
  intros (l1 & b1 & c1 & r1 & k1 & i1 & L1 & B1 & C1 & R1 & K1 & I1
          & FL1 & FB1 & FC1 & FR1 & FK1 & FI1)
         (L2 & B2 & C2 & r2 & k2 & i2 & R2 & K2 & I2 & FR2 & FK2 & FI2) HK.
  pose proof (list_max_grows checklistId (checklists w) k1) as MK.
  rewrite <- K1 in MK.
  exists l1, b1, c1, (r1 ++ r2), (k1 ++ k2), (i1 ++ i2).
  split; [congruence|]. split; [congruence|]. split; [congruence|].
  split; [now rewrite R2, R1, app_assoc|].
  split; [now rewrite K2, K1, app_assoc|].
  split; [now rewrite I2, I1, app_assoc|].
  split; [exact FL1|]. split; [exact FB1|].
  split; [now rewrite L2|].
  split.
  { apply Forall_app. split; [exact FR1|].
    eapply Forall_impl; [|exact FR2]. cbn. intros r Hid. lia. }
  split.
  { apply Forall_app. split; [exact FK1|].
    eapply Forall_impl; [|exact FK2]. cbn. intros r Hid. lia. }
  apply Forall_app. split; [exact FI1|].
  eapply Forall_impl; [|exact FI2]. cbn. intros r Hid. lia.
Qed.

Lemma itemsAdded_refl cl (w : World) : itemsAdded cl w w.
Proof.
  repeat (split; [reflexivity|]). exists []. rewrite app_nil_r.
  split; [reflexivity|constructor].
Qed.

Lemma itemsAdded_same cl (w w' : World) :
  lists w' = lists w -> labels w' = labels w -> cards w' = cards w ->
  cardsToLabels w' = cardsToLabels w -> checklists w' = checklists w ->
  checklistItems w' = checklistItems w ->
  itemsAdded cl w w'.
Proof.
  intros H1 H2 H3 H4 H5 H6. repeat (split; [assumption|]).
  exists []. rewrite H6, app_nil_r. split; [reflexivity|constructor].
Qed.

Lemma itemsAdded_trans cl (a b c : World) :
  itemsAdded cl a b -> itemsAdded cl b c -> itemsAdded cl a c.
Proof.
  intros (L1 & B1 & C1 & R1 & K1 & i1 & I1 & F1)
         (L2 & B2 & C2 & R2 & K2 & i2 & I2 & F2).
  repeat (split; [congruence|]). exists (i1 ++ i2).
  split; [now rewrite I2, I1, app_assoc|]. apply Forall_app. auto.
Qed.

Lemma labelStep_cards labelMap lname m (createdCard : CardRow) :
  Forall (fun r => relCardId r = cardId createdCard)
         (fst (labelStepOfCard labelMap lname m createdCard)).
Proof.
  unfold labelStepOfCard. destruct (mapGetNat _ m) as [cd|]; [|constructor].
  destruct (_ =? 0); [constructor|]. apply relationsOfCard_card.
Qed.

Section OtherBoards.

Context (db : Behaviour).

Lemma createItem_itemsAdded userId lname title j checklist k itemData :
  preserves (onWorld (itemsAdded checklist))
    (createItem db userId lname title j checklist k itemData).
Proof.
  unfold createItem.
  apply preserves_bind;
    [intros a b c; apply itemsAdded_trans| |intros _].
  - intros s. unfold onWorld, liftDb, checklistRepo.createItem, repoCall.
    destruct (db ChecklistItemCreate (storeCalls (world s)));
      cbn [fst snd world setWorld];
      [|apply itemsAdded_same; reflexivity..].
    do 5 (split; [reflexivity|]). eexists. split; [reflexivity|].
    repeat constructor.
  - apply preserves_when; [intros s; apply itemsAdded_refl|].
    intros s. apply itemsAdded_refl.
Qed.

Lemma createChecklist_detailed K userId lname createdCard cardData j checklistData :
  K < cardId createdCard ->
  preserves (onWorld (detailed K))
    (createChecklist db userId lname createdCard cardData j checklistData).
Proof.
  intros HK s. unfold onWorld, createChecklist.
  unfold bind at 1. unfold liftDb at 1. unfold checklistRepo.create, repoCall.
  destruct (db ChecklistCreate (storeCalls (world s))); cbn [fst snd];
    [|apply detailed_same; reflexivity..].
  set (w0 := setStoreCalls (S (storeCalls (world s))) (world s)).
  set (row := checklistRepo.newChecklist w0
                (Js.substring0 255 (checklistName checklistData))
                (cardId createdCard) userId).
  change (checklistId row =? 0) with false. cbv iota.
  match goal with
  | |- detailed K _ (world (snd (?rest ?sA))) =>
      assert (H : preserves (onWorld (itemsAdded (checklistId row))) rest)
  end.
  { apply preserves_bind;
      [intros a b c; apply itemsAdded_trans| |intros _].
    - apply preserves_when; [intros x; apply itemsAdded_refl|].
      intros x. apply itemsAdded_refl.
    - apply preserves_forEachM;
        [intros x; apply itemsAdded_refl|intros a b c; apply itemsAdded_trans|].
      intros i item. apply createItem_itemsAdded. }
  match goal with
  | |- detailed K _ (world (snd (?rest ?sA))) =>
      specialize (H sA); unfold onWorld in H;
      destruct H as (L & B & C & R & Kc & ni & I & Fi)
  end.
  cbn [world setWorld lists labels cards cardsToLabels checklists checklistItems
       setChecklists] in L, B, C, R, Kc, I.
  split; [exact L|]. split; [exact B|]. split; [exact C|].
  exists [], [row], ni. rewrite app_nil_r.
  split; [exact R|]. split; [exact Kc|]. split; [exact I|].
  split; [constructor|]. split; [repeat constructor; exact HK|].
  eapply Forall_impl; [|exact Fi]. cbn. intros i ->.
  change (checklistId row) with (nextId (map checklistId (checklists (world s)))).
  unfold nextId. lia.
Qed.

Lemma writeCardDetails_detailed K userId labelMap l m createdCards :
  Forall (fun C => K < cardId C) createdCards ->
  preserves (onWorld (detailed K))
    (writeCardDetails db userId labelMap l m createdCards).
Proof.
  intros HK. unfold writeCardDetails.
  assert (Ht : forall a b c : ImportState,
             onWorld (detailed K) a b -> onWorld (detailed K) b c ->
             onWorld (detailed K) a c)
    by (intros a b c; apply detailed_trans).
  apply preserves_bind; [exact Ht| |intros _].
  { intros s. apply detailed_refl. }
  apply preserves_bind; [exact Ht| |intros _].
  { intros s. unfold onWorld, liftDb, cardActivityRepo.bulkCreate, repoCall.
    destruct (db ActivityBulkCreate _); apply detailed_same; reflexivity. }
  apply preserves_bind; [exact Ht| |intros _].
  { intros s. apply detailed_refl. }
  apply preserves_bind; [exact Ht| |intros _].
  { apply preserves_when; [intros s; apply detailed_refl|].
    intros s. unfold onWorld, liftDb, cardRepo.bulkCreateCardLabelRelationship,
      repoCall.
    destruct (db CardLabelBulkCreate _); cbn [fst snd world setWorld];
      [|apply detailed_same; reflexivity..].
    split; [reflexivity|]. split; [reflexivity|]. split; [reflexivity|].
    eexists _, [], [].
    cbn [cardsToLabels checklists checklistItems setCardsToLabels setStoreCalls].
    split; [reflexivity|].
    split; [now rewrite app_nil_r|]. split; [now rewrite app_nil_r|].
    split; [|split; constructor].
    apply Forall_flat_map. apply Forall_forall. intros x Hx.
    apply in_map_iff in Hx as (C & <- & HC).
    rewrite Forall_forall in HK. specialize (HK C HC).
    eapply Forall_impl; [|apply labelStep_cards]. cbn. intros r ->. exact HK. }
  apply preserves_forEachM_in;
    [intros s; apply detailed_refl|exact Ht|].
  intros i C HC. unfold createChecklistsOfCard.
  destruct (mapGetNat _ m) as [cd|]; [|intros s; apply detailed_refl].
  apply preserves_forEachM; [intros s; apply detailed_refl|exact Ht|].
  intros k cl. apply createChecklist_detailed.
  rewrite Forall_forall in HK. auto.
Qed.

Lemma writeCards_imported board userId importId labelMap l target s :
  In (fst target) (listIdsOf board (lists (world s))) ->
  importedInto board (world s)
    (world (snd (writeCards db userId importId labelMap l target s))).
Proof.
  intros Ht. unfold writeCards, bind, liftDb.
  rewrite prepareCards_run. cbn [world setWorld].
  unfold pushWarnings at 1. cbn [world].
  rewrite cardRepo_bulkCreate_run.
  cbn [world setWorld storeCalls setUidSeed cards].
  destruct (db CardBulkCreate (storeCalls (world s)));
    [|apply importedInto_same; reflexivity..].
  pose proof (prepared_aligned userId importId (fst target) (listCards l)
                (nextId (map cardId (cards (world s)))) (uidSeed (world s)))
    as Hal.
  cbv zeta in Hal.
  match goal with
  | |- context [fold_left cardRepo.insert ?i ?w0] =>
      pose proof (cardRepo_fold_tables i w0) as G;
      set (w1 := fold_left cardRepo.insert i w0) in *
  end.
  cbn [cards setStoreCalls setUidSeed] in G.
  set (rows := cardRowsFrom (nextId (map cardId (cards (world s)))) _) in *.
  assert (Hids : Forall (fun C => list_max (map cardId (cards (world s)))
                                  < cardId C) rows).
  { apply Forall_forall. intros C HC. apply (in_map cardId) in HC.
    unfold rows in HC. rewrite cardRowsFrom_ids in HC. apply in_seq in HC.
    unfold nextId in HC. lia. }
  destruct G as (G1 & G2 & G3 & G4 & G5 & G6).
  cbn [lists labels cardsToLabels checklists checklistItems setStoreCalls
       setUidSeed] in G1, G2, G4, G5, G6.
  rewrite app_nil_r in G1, G4, G5, G6.
  assert (T1 : importedInto board (world s) w1).
  { exists [], [], rows, [], [], [].
    rewrite G1, G2, G3, G4, G5, G6, !app_nil_r.
    repeat (split; [reflexivity|]).
    split; [constructor|]. split; [constructor|].
    split; [|repeat (split; [constructor|]); constructor].
    apply Forall_forall. intros C HC. split.
    - assert (Hl : Forall (fun C => cardListId C = fst target) rows).
      { apply (Forall2_left _ rows (listCards l)).
        eapply Forall2_impl; [|exact Hal]. cbn. intros x y H. apply H. }
      rewrite Forall_forall in Hl. rewrite (Hl C HC). exact Ht.
    - rewrite Forall_forall in Hids. auto. }
  destruct (List.length rows =? 0); [exact T1|].
  match goal with
  | |- importedInto _ _ (world (snd (writeCardDetails _ _ _ _ ?m ?cs ?s2))) =>
      pose proof (writeCardDetails_detailed
                    (list_max (map cardId (cards (world s))))
                    userId labelMap l m cs Hids s2) as D
  end.
  unfold onWorld in D. cbn [world setWorld] in D.
  exact (importedInto_detailed board _ _ _ _ T1 D (le_n _)).
Qed.

Lemma processList_beside board userId importId labelMap l :
  preserves (besideLoop board)
    (processList db userId board importId labelMap l).
Proof.
  intros s Hk. unfold processList.
  destruct (negb _); [split; [exact Hk|apply importedInto_refl]|].
  destruct (_ =? 0); [split; [exact Hk|apply importedInto_refl]|].
  unfold bind.
  assert (Hf : exists r s1,
             findOrCreateList db userId board importId l s = (r, s1)
             /\ knownLists board s1
             /\ importedInto board (world s) (world s1)
             /\ forall t, r = Ok t ->
                  In (fst t) (listIdsOf board (lists (world s1)))).
  { unfold findOrCreateList, bind, getExistingLists.
    destruct (find (listMatches l) (existingLists s)) as [t|] eqn:Ef.
    { eexists _, _. split; [reflexivity|]. split; [exact Hk|].
      split; [apply importedInto_refl|].
      intros t' H. injection H as <-. apply find_some in Ef as [Hin _].
      unfold knownLists in Hk. rewrite Forall_forall in Hk. auto. }
    unfold liftDb, listRepo.create, repoCall.
    destruct (db ListCreate (storeCalls (world s))); cbn [fst snd].
    - set (w0 := setStoreCalls (S (storeCalls (world s))) (world s)).
      set (row := listRepo.newList w0 (listName l) userId board importId).
      change (listId row =? 0) with false. cbv iota.
      unfold pushExistingList, ret. cbn [world setWorld existingLists].
      eexists _, _. split; [reflexivity|]. cbn [world existingLists].
      assert (Hrow : In (listId row)
                        (listIdsOf board (lists (world s) ++ [row]))).
      { unfold listIdsOf. rewrite filter_app, map_app. apply in_or_app. right.
        cbn. rewrite Nat.eqb_refl. now left. }
      split.
      { unfold knownLists. cbn [world existingLists lists setLists setStoreCalls w0].
        apply Forall_app. split.
        - eapply Forall_impl; [|exact Hk]. cbn. intros e He.
          now apply listIdsOf_grows.
        - repeat constructor. exact Hrow. }
      split.
      { exists [row], [], [], [], [], [].
        cbn [lists labels cards cardsToLabels checklists checklistItems
             setLists setStoreCalls w0].
        rewrite !app_nil_r. repeat (split; [reflexivity|]).
        split; [|repeat (split; [constructor|]); constructor].
        repeat constructor. }
      intros t H. injection H as <-. exact Hrow.
    - eexists _, _. split; [reflexivity|]. split; [exact Hk|].
      split; [apply importedInto_same; reflexivity|]. discriminate.
    - eexists _, _. split; [reflexivity|]. split; [exact Hk|].
      split; [apply importedInto_same; reflexivity|]. discriminate. }
  destruct Hf as (r & s1 & E & Hk1 & T1 & Hr). rewrite E.
  destruct r as [t|e]; cbv beta iota; cbn [snd]; [|split; assumption].
  pose proof (writeCards_imported board userId importId labelMap l t s1
                (Hr t eq_refl)) as T2.
  pose proof (writeCards_existingLists db userId importId labelMap l t s1) as Hex.
  pose proof (writeCards_lists db userId importId labelMap l t s1) as Hls.
  unfold unchanged, onWorld in Hex, Hls.
  split; [|exact (importedInto_trans _ _ _ _ T1 T2)].
  unfold knownLists. rewrite Hex, Hls. exact Hk1.
Qed.

End OtherBoards.

Lemma besideLoop_refl board (s : ImportState) : besideLoop board s s.
Proof. intros Hk. split; [exact Hk|apply importedInto_refl]. Qed.

Lemma besideLoop_trans board (a b c : ImportState) :
  besideLoop board a b -> besideLoop board b c -> besideLoop board a c.
Proof.
  intros H1 H2 Hk. destruct (H1 Hk) as [Hb T1]. destruct (H2 Hb) as [Hc T2].
  split; [exact Hc|]. exact (importedInto_trans _ _ _ _ T1 T2).
Qed.

Lemma labelRepo_bulkCreate_imported board db inputs :
  preserves (importedInto board) (labelRepo.bulkCreate db inputs).
Proof.
  intros w. rewrite labelRepo_bulkCreate_run.
  destruct (db LabelBulkCreate (storeCalls w)); cbn [snd];
    [|apply importedInto_same; reflexivity..].
  exists [], (labelRowsFrom (nextId (map labelId (labels w))) inputs),
         [], [], [], [].
  rewrite labelRepo_fold_labels.
  rewrite !(fold_left_unchanged _ labelRepo.insert) by reflexivity.
  cbn [lists labels cards cardsToLabels checklists checklistItems setStoreCalls].
  rewrite !app_nil_r. repeat (split; [reflexivity|]).
  split; [constructor|].
  split; [|repeat (split; [constructor|]); constructor].
  apply Forall_forall. intros r Hr. apply (in_map labelId) in Hr.
  rewrite labelRowsFrom_ids in Hr. apply in_seq in Hr. unfold nextId in Hr. lia.
Qed.

Lemma existingLists_known board (w w1 : World) :
  importedInto board w w1 ->
  knownLists board (startState w1 (existingListsOf w board)).
Proof.
  intros (nl & _ & _ & _ & _ & _ & L & _).
  unfold knownLists, startState, existingListsOf. cbn [existingLists world].
  apply Forall_forall. intros e He. apply in_map_iff in He as (l & <- & Hl).
  unfold listsOfBoard in Hl. apply filter_In in Hl as [Hin Hp].
  apply andb_prop in Hp as [Hb _]. cbn [fst]. rewrite L.
  apply listIdsOf_grows. unfold listIdsOf. apply in_map.
  apply filter_In. split; assumption.
Qed.

Lemma importWithLedger_imported db colours userId board ls :
  preserves (importedInto board) (importWithLedger db colours userId board ls).
Proof.
  pose proof (importedInto_refl board) as Hrefl.
  pose proof (importedInto_trans board) as Htrans.
  pose proof (labelRepo_bulkCreate_imported board db) as Hl.
  apply (importWithLedger_preserves db colours ls board
           (importedInto board) (importedInto board) (besideLoop board));
    first
      [ exact Hrefl | exact Htrans
      | exact (besideLoop_refl board) | exact (besideLoop_trans board)
      | intros; apply processList_beside
      | intros; apply resolveLabels_preserves; assumption
      | intros w0 w1 st' H1 H2;
        destruct (H2 (existingLists_known board w0 w1 H1)) as [_ H3];
        exact (Htrans _ _ _ H1 H3)
      | intros status id w0; unfold importRepo.update, repoCall;
        destruct (db ImportUpdate _); apply importedInto_same; reflexivity
      | intros source by_ w0; unfold importRepo.create, repoCall;
        destruct (db ImportCreate _); apply importedInto_same; reflexivity ].
Qed.

Lemma NoDup_map_inj {A} (key : A -> nat) (l : list A) (a b : A) :
  NoDup (map key l) -> In a l -> In b l -> key a = key b -> a = b.
Proof.
  induction l as [|x l IH]; intros Hnd Ha Hb E; [destruct Ha|].
  cbn in Hnd. inversion Hnd as [|? ? Hx Hnd']; subst.
  destruct Ha as [->|Ha], Hb as [->|Hb]; auto.
  - exfalso. apply Hx. rewrite E. now apply in_map.
  - exfalso. apply Hx. rewrite <- E. now apply in_map.
Qed.

Lemma find_app_keep {A} (p : A -> bool) (l1 l2 : list A) :
  Forall (fun y => p y = false) l2 -> find p (l1 ++ l2) = find p l1.
Proof.
  intros H. induction l1 as [|a l1 IH]; cbn.
  - induction H as [|y l2 Hy _ IH2]; cbn; [reflexivity|]. now rewrite Hy.
  - destruct (p a); [reflexivity|exact IH].
Qed.

(** The rows an import appends for one board are out of sight of the
    export of another. *)
Lemma exportByEntity_other board other (w w' : World) :
  importedInto board w w' -> keyed w -> other <> board ->
  exportByEntity w' other = exportByEntity w other.
Proof.
  intros (nl & nlab & nc & nr & ncl & ni & L & B & C & R & K & I
          & Fl & Flab & Fc & Fr & Fcl & Fi) [Hnd Hfk] Hne.
  unfold exportByEntity.
  assert (Hl : listsOfBoard w' other = listsOfBoard w other).
  { unfold listsOfBoard. rewrite L, filter_app.
    rewrite (filter_nothing _ nl); [apply app_nil_r|].
    eapply Forall_impl; [|exact Fl]. cbn. intros r [Hb _]. rewrite Hb.
    apply Nat.neq_sym, Nat.eqb_neq in Hne. now rewrite Hne. }
  rewrite Hl. apply map_ext_in. intros l Hin.
  apply orderBy_In in Hin. unfold listsOfBoard in Hin.
  apply filter_In in Hin as [Hin Hp]. apply andb_prop in Hp as [Hb _].
  apply Nat.eqb_eq in Hb.
  unfold exportList. f_equal.
  assert (Hc : cardsOfList w' (listId l) = cardsOfList w (listId l)).
  { unfold cardsOfList. rewrite C. apply shown_grow.
    apply Forall_forall. intros c Hc. rewrite Forall_forall in Fc.
    destruct (Fc c Hc) as [Hc1 _].
    destruct (cardListId c =? listId l) eqn:E; [|reflexivity].
    exfalso. apply Nat.eqb_eq in E. unfold listIdsOf in Hc1.
    apply in_map_iff in Hc1 as (l2 & Hid & Hl2).
    apply filter_In in Hl2 as [Hl2 Hb2]. apply Nat.eqb_eq in Hb2.
    rewrite L in Hl2. apply in_app_or in Hl2 as [Hl2|Hl2].
    - assert (l2 = l)
        by (apply (NoDup_map_inj listId (lists w)); auto; congruence).
      subst l2. congruence.
    - rewrite Forall_forall in Fl. destruct (Fl l2 Hl2) as [_ Hgt].
      pose proof (list_max_above _ _ (in_map listId _ _ Hin)). lia. }
  rewrite Hc. apply map_ext_in. intros c Hcin.
  unfold cardsOfList in Hcin. apply orderBy_In, filter_In in Hcin as [Hcin _].
  pose proof (list_max_above _ _ (in_map cardId _ _ Hcin)) as Hle.
  unfold exportCard. f_equal.
  - unfold labelsOfCard. rewrite R, filter_app.
    rewrite (filter_nothing _ nr), app_nil_r.
    + apply map_ext_in. intros rel Hrel. apply filter_In in Hrel as [Hrel _].
      unfold labelNameOf. rewrite B.
      rewrite Forall_forall in Hfk. specialize (Hfk rel Hrel).
      rewrite find_app_keep; [reflexivity|].
      eapply Forall_impl; [|exact Flab]. cbn. intros r Hr.
      apply Nat.eqb_neq. lia.
    + eapply Forall_impl; [|exact Fr]. cbn. intros r Hr.
      apply Nat.eqb_neq. lia.
  - apply (checklistsView_grow w w' ncl ni (cardId c) K I); [|exact Fi].
    eapply Forall_impl; [|exact Fcl]. cbn. intros cl Hcl. lia.
Qed.

(** X19. An import leaves the export of every other board as it was:
    whatever the payload and whatever the store does with each write, a
    board other than the one the import names exports the same document
    after the call as before it. The store is one whose list identifiers
    are distinct and whose card-to-label rows refer to labels it has. *)
Theorem import_leaves_other_boards_alone parse db colours ctx input
    (w : World) (other : nat) :
  keyed w ->
  option_map boardId (findBoard w (inputBoardPublicId input)) <> Some other ->
  exportData (snd (importCards parse db colours ctx input w)) other
  = exportData w other.
Proof.
  intros Hk Hne.
  destruct (validatePayload parse (data input)) as [ls|e] eqn:Hv.
  - destruct (importCards_cases parse db colours ctx input w ls Hv)
      as [->|(u & b & Hf & ->)]; [reflexivity|].
    rewrite !exportData_by_entity.
    apply (exportByEntity_other (boardId b)).
    + apply importWithLedger_imported.
    + exact Hk.
    + rewrite Hf in Hne. cbn in Hne. congruence.
  - now rewrite (importCards_invalid_world parse db colours ctx input w e Hv).
Qed.

Lemma import_leaves_other_boards_alone_witness :
  exportData
    (snd (importCards (Sample.parseAs Sample.roundTripDoc) Sample.allSucceed
            Sample.palette Sample.ctx (Sample.input "doc") Sample.twoBoards)) 2
  = exportData Sample.twoBoards 2.
Proof.
  apply (import_leaves_other_boards_alone
           (Sample.parseAs Sample.roundTripDoc) Sample.allSucceed
           Sample.palette Sample.ctx (Sample.input "doc") Sample.twoBoards 2).
  - split.
    + vm_compute. repeat constructor; simpl; intuition lia.
    + vm_compute. repeat constructor.
  - vm_compute. discriminate.
Defined.

(* ===================================================================== *)
(** ** The ledger record of an import *)
(* ===================================================================== *)

Lemma resolveLabels_imports db colours userId board importId existing ls :
  preserves (unchanged imports)
    (resolveLabels db colours userId board importId existing ls).
Proof. apply resolveLabels_preserves; frame_ops. Qed.

Lemma processLists_imports db userId board importId labelMap ls :
  preserves (onWorld (unchanged imports))
    (processLists db userId board importId labelMap ls).
Proof. apply processLists_preserves; frame_ops. Qed.

Lemma setStatus_others status id (rows : list ImportRow) :
  Forall (fun r => importId r <> id) rows ->
  map (importRepo.setStatus status id) rows = rows.
Proof.
  induction 1 as [|r rows Hr _ IH]; cbn; [reflexivity|]. rewrite IH.
  unfold importRepo.setStatus. apply Nat.eqb_neq in Hr. now rewrite Hr.
Qed.

Lemma setStatus_newest status (rows : list ImportRow) source by_ before :
  let id := nextId (map importId rows) in
  map (importRepo.setStatus status id)
      (rows ++ [{| importId := id; importSource := source;
                   importCreatedBy := by_; importStatus := before |}])
  = rows ++ [{| importId := id; importSource := source;
                importCreatedBy := by_; importStatus := status |}].
Proof.
  intros id. rewrite map_app. f_equal.
  - apply setStatus_others. apply Forall_forall. intros r Hr.
    pose proof (list_max_above _ _ (in_map importId _ _ Hr)).
    unfold id, nextId. lia.
  - cbn. unfold importRepo.setStatus. cbn [importId importSource importCreatedBy].
    now rewrite Nat.eqb_refl.
Qed.

Lemma importTry_ledger db colours userId board importId ls :
  (forall n, db ImportUpdate n = Succeeds) ->
  forall w,
    imports (snd (importTry db colours userId board importId ls w))
    = match fst (importTry db colours userId board importId ls w) with
      | Ok _ => map (importRepo.setStatus Success importId) (imports w)
      | Throw _ => imports w
      end.
Proof.
  intros Hu w. unfold importTry.
  pose proof (resolveLabels_imports db colours userId board importId
                (existingLabelsOf w board) ls w) as H1.
  unfold unchanged in H1.
  destruct (resolveLabels _ _ _ _ _ _ _ w) as [[labelMap|e] w1];
    cbn [fst snd] in *; [|exact H1].
  match goal with
  | |- context [processLists _ _ _ _ _ _ ?s0] =>
      pose proof (processLists_imports db userId board importId labelMap ls s0)
        as H2
  end.
  unfold onWorld, unchanged in H2. cbn [world] in H2.
  destruct (processLists _ _ _ _ _ _ _) as [[[]|e] st];
    cbn [fst snd] in *; [|congruence].
  unfold importRepo.update, repoCall. rewrite Hu. cbn [fst snd imports setImports].
  cbn [imports setStoreCalls]. now rewrite H2, H1.
Qed.

(** X20. An import that reaches its ledger leaves one record more in it,
    and that record tells how the call ended: on a store that carries out
    the writes to the ledger, whatever it does with the others, the
    ledger after the call is the ledger before it followed by one record
    of source json, by the calling user, in status success when the call
    returns and in status failed when it raises; no record stays pending
    and no earlier record is touched. *)
Theorem ledger_records_the_outcome
    (parse : string -> option json) (db : Behaviour) (colours : list string)
    (ctx : Ctx) (input : Input) (w : World) (userId : string) (board : BoardRow)
    (ls : list ListData) :
  accessGranted w ctx (inputBoardPublicId input) = Some (userId, board) ->
  validatePayload parse (data input) = Ok ls ->
  (forall n, db ImportCreate n = Succeeds) ->
  (forall n, db ImportUpdate n = Succeeds) ->
  imports (snd (importCards parse db colours ctx input w))
  = imports w
    ++ [{| importId := nextId (map importId (imports w));
           importSource := "json";
           importCreatedBy := userId;
           importStatus :=
             match fst (importCards parse db colours ctx input w) with
             | Ok _ => Success
             | Throw _ => Failed
             end |}].
Proof.
  intros Ha Hv Hc Hu.
  rewrite (importCards_granted parse db colours ctx input w userId board ls Ha Hv).
  unfold importWithLedger, bind. unfold importRepo.create, repoCall.
  rewrite Hc. cbn [fst snd importId].
  change (imports (setStoreCalls (S (storeCalls w)) w)) with (imports w).
  change (nextId (map importId (imports w)) =? 0) with false. cbv iota.
  set (id := nextId (map importId (imports w))).
  match goal with
  | |- context [tryCatch _ _ ?wa0] => set (wa := wa0)
  end.
  pose proof (importTry_ledger db colours userId (boardId board) id ls Hu wa)
    as Ht.
  unfold tryCatch.
  destruct (importTry db colours userId (boardId board) id ls wa)
    as [[out|e] w1]; cbn [fst snd] in *.
  - rewrite Ht. apply setStatus_newest.
  - rewrite importCatch_marks by apply Hu. cbn [fst snd].
    unfold markFailed. cbn [imports setImports setStoreCalls]. rewrite Ht.
    apply setStatus_newest.
Qed.

Lemma ledger_records_the_outcome_witness :
  imports (snd (importCards (Sample.parseAs Sample.roundTripDoc)
                  Sample.checklistsRaise Sample.palette Sample.ctx
                  (Sample.input "doc") Sample.world0))
  = [{| importId := 1; importSource := "json"; importCreatedBy := "user-1";
        importStatus := Failed |}].
Proof.
  apply (ledger_records_the_outcome
           (Sample.parseAs Sample.roundTripDoc) Sample.checklistsRaise
           Sample.palette Sample.ctx (Sample.input "doc") Sample.world0
           "user-1" Sample.board1 Sample.roundTripLists).
  - vm_compute. reflexivity.
  - vm_compute. reflexivity.
  - intros n. reflexivity.
  - intros n. reflexivity.
Defined.

(* ===================================================================== *)
(** ** The list names of a document, as written and as validated *)
(* ===================================================================== *)

Lemma preprocessList_writtenName (index : nat) (l l' : json) :
  preprocessList index l = Ok l' ->
  exists cards,
    l' = JObj [("listName", JStr (Js.trim (writtenName l))); ("cards", JArr cards)].
Proof.
  unfold preprocessList, writtenName.
  destruct (negb (isObjectLike l)); [discriminate|].
  unfold nonEmptyStringProp.
  destruct (prop "listName" l) as [[| | |n| |]|]; try discriminate.
  destruct (Js.truthy n); [|discriminate].
  destruct (preprocessCards _) as [cards|]; cbn [bindRes]; [|discriminate].
  intros H; injection H as <-. eauto.
Qed.

Lemma Forall2_compose_map {A B C D} (R : A -> B -> Prop) (S : B -> C -> Prop)
    (f : C -> D) (g : A -> D) (xs : list A) (ys : list B) (zs : list C) :
  (forall a b c, R a b -> S b c -> f c = g a) ->
  Forall2 R xs ys -> Forall2 S ys zs -> map f zs = map g xs.
Proof.
  intros H HR. revert zs.
  induction HR as [|a b xs ys Hab _ IH]; intros zs HS; inversion HS; subst.
  - reflexivity.
  - cbn. f_equal; eauto.
Qed.

(** The validator hands on the names of an array trimmed, and the name of
    a single list as it is written. *)
Lemma validated_names (parse : string -> option json) (d : string) (j : json)
    (ls : list ListData) :
  parse d = Some j ->
  validatePayload parse d = Ok ls ->
  map listName ls
  = match j with
    | JArr _ => map Js.trim (writtenNames j)
    | _ => writtenNames j
    end.
Proof.
  intros Hp Hv. destruct j as [| | | |js|fs].
  1-4: unfold validatePayload in Hv; rewrite Hp in Hv; cbn in Hv; discriminate.
  - unfold validatePayload in Hv. rewrite Hp in Hv. cbn [preprocess] in Hv.
    destruct (mapRes preprocessList 0 js) as [ls'|] eqn:Em; cbn [bindRes] in Hv;
      [|discriminate].
    unfold ImportJsonSchema in Hv. cbn [ListSchema isPlainObject] in Hv.
    destruct (zArray ListSchema 1 50 (JArr ls')) as [ls0|] eqn:Ea; [|discriminate].
    injection Hv as <-. cbn [listsToImportOf].
    apply zArray_inv in Ea as (x & Hx & Ht & _). injection Hx as <-.
    apply traverse_Forall2 in Ht. apply mapRes_Forall2 in Em.
    cbn [writtenNames]. rewrite map_map.
    refine (Forall2_compose_map _ _ _ _ _ _ _ _ Em Ht).
    intros a b c [i Hi] Hbc.
    apply preprocessList_writtenName in Hi as (cards & ->).
    apply ListSchema_name in Hbc as [Hname _]. cbn in Hname. congruence.
  - destruct (single_payload_inv parse d fs ls Hp Hv) as (l & -> & Hn).
    cbn [map writtenNames]. unfold writtenName. cbn [prop]. now rewrite Hn.
Qed.

Lemma map_fixed {A} (f : A -> A) (l : list A) :
  Forall (fun x => f x = x) l -> map f l = l.
Proof. induction 1; cbn; congruence. Qed.

Lemma sameContent_names (a b : list ListData) :
  sameContent a b -> map listName b = map listName a.
Proof.
  induction 1 as [|x y a b [Hn _] _ IH]; cbn; [reflexivity|]. congruence.
Qed.

(** C3 (as amended). Let a document be accepted by the validator, its list
    names written without surrounding white space, every list of it
    holding at least one card under a name that is not blank, no two list
    names equal when case is ignored, its label names not empty, free of
    surrounding white space, and no two of them differing by case only.
    Imported by a member of the workspace into a board that shows no list
    and no label, on a store that keeps its references within its tables
    and carries out every write, the import returns, and the export of the
    board then returns a document with the content of the imported one:
    the list names as the document writes them, in the same order; list by
    list the same cards in the same order, with the same title, the same
    description and the same set of label names; card by card the same
    checklists in the same order, with the same names; checklist by
    checklist the same items in the same order, with the same titles.
    Nothing is stated about the completed flags of the items. *)
Theorem export_reproduces_imported_document
    (parse : string -> option json) (db : Behaviour) (colours : list string)
    (ctx : Ctx) (input : Input) (w : World) (userId : string) (board : BoardRow)
    (j : json) (doc : list ListData) :
  alwaysSucceeds db ->
  accessGranted w ctx (inputBoardPublicId input) = Some (userId, board) ->
  parse (data input) = Some j ->
  validatePayload parse (data input) = Ok doc ->
  Forall (fun n => Js.trim n = n) (writtenNames j) ->
  emptyBoard w (boardId board) ->
  wellReferenced w ->
  plainLists doc ->
  plainLabels doc ->
  exists out w' exported,
    importCards parse db colours ctx input w = (Ok out, w')
    /\ exportCards ctx (inputBoardPublicId input) w' = (Ok exported, w')
    /\ map listName exported = writtenNames j
    /\ sameContent doc exported.
Proof.
  intros Hdb Ha Hp Hv Hnames Hempty Hwr Hlists Hlabels.
  pose proof (importCards_extends parse db colours ctx input doc Hv w) as Hext.
  rewrite (importCards_granted _ _ _ _ _ _ _ _ _ Ha Hv) in *.
  destruct (importWithLedger_written db Hdb userId colours (boardId board) doc w
              Hempty Hwr Hlists Hlabels) as (out & w' & E & Hexp).
  rewrite E in Hext. cbn [snd] in Hext.
  assert (Hsame : sameContent doc (exportData w' (boardId board))).
  { rewrite exportData_by_entity, Hexp.
    apply written_sameContent. exact (validatePayload_bounds _ _ _ Hv). }
  exists out, w', (exportData w' (boardId board)).
  split; [exact E|]. split; [|split; [|exact Hsame]].
  - apply exportCards_granted with (userId := userId).
    now rewrite (accessGranted_extends w w' ctx _ Hext).
  - rewrite (sameContent_names _ _ Hsame).
    rewrite (validated_names parse _ j doc Hp Hv).
    destruct j; try reflexivity. now apply map_fixed.
Qed.

Lemma export_reproduces_imported_document_witness :
  exists out w' exported,
    importCards (Sample.parseAs Sample.roundTripDoc) Sample.allSucceed
      Sample.palette Sample.ctx (Sample.input "doc") Sample.world0 = (Ok out, w')
    /\ exportCards Sample.ctx Sample.boardPid w' = (Ok exported, w')
    /\ map listName exported = ["To Do"; "Done"]%string
    /\ sameContent Sample.roundTripLists exported.
Proof.
  refine (export_reproduces_imported_document
            (Sample.parseAs Sample.roundTripDoc) Sample.allSucceed
            Sample.palette Sample.ctx (Sample.input "doc") Sample.world0
            "user-1" Sample.board1 Sample.roundTripDoc Sample.roundTripLists
            _ _ _ _ _ _ _ _ _).
  - intros op n. reflexivity.
  - vm_compute. reflexivity.
  - vm_compute. reflexivity.
  - vm_compute. reflexivity.
  - vm_compute. repeat constructor.
  - split; reflexivity.
  - repeat split; constructor.
  - split.
    + repeat constructor; discriminate.
    + vm_compute. repeat constructor; cbn; intuition discriminate.
  - split.
    + intros n Hn. vm_compute in Hn.
      destruct Hn as [<-|[<-|[<-|[]]]]; split; vm_compute; reflexivity.
    + intros a b Ha Hb. vm_compute in Ha, Hb.
      destruct Ha as [<-|[<-|[<-|[]]]]; destruct Hb as [<-|[<-|[<-|[]]]];
        vm_compute; intros H; first [reflexivity|discriminate H].
Defined.

(* ===================================================================== *)
(** ** Checklists on a store that may return no result *)
(* ===================================================================== *)

Section KeptChecklists.

Context (db : Behaviour).
Hypothesis db_faults : onlyChecklistsFail db.

Variable userId : string.

Lemma tablesGrow_calls (w : World) (n : nat) :
  tablesGrow w (setStoreCalls n w) [] [] [] [] [].
Proof. unfold tablesGrow. cbn. now rewrite !app_nil_r. Qed.

Lemma createItem_kept lname title j clid k item st :
  exists st',
    createItem db userId lname title j clid k item st = (Ok tt, st')
    /\ storeCalls (world st') = S (storeCalls (world st))
    /\ tablesGrow (world st) (world st') [] [] [] []
         (match db ChecklistItemCreate (storeCalls (world st)) with
          | Succeeds =>
              [checklistRepo.newItem (world st)
                 (Js.substring0 500 (itemTitle item)) clid userId]
          | _ => []
          end).
Proof.
  unfold createItem, bind, liftDb, checklistRepo.createItem, repoCall.
  destruct (db ChecklistItemCreate (storeCalls (world st))) eqn:E;
    cbn [fst snd setWorld].
  - destruct (500 <? _); cbn [when]; eexists; (split; [reflexivity|]);
      (split; [reflexivity|]);
      unfold tablesGrow; cbn; rewrite ?app_nil_r; auto 10.
  - destruct (500 <? _); cbn [when]; eexists; (split; [reflexivity|]);
      (split; [reflexivity|]);
      unfold tablesGrow; cbn; rewrite ?app_nil_r; auto 10.
  - destruct db_faults as (_ & H & _). now apply H in E.
Qed.

Lemma createItems_kept lname title j clid items :
  forall k st,
  exists st' ni,
    forEachM (createItem db userId lname title j clid) k items st = (Ok tt, st')
    /\ storeCalls (world st') = storeCalls (world st) + List.length items
    /\ tablesGrow (world st) (world st') [] [] [] [] ni
    /\ Forall (fun i => itemChecklistId i = clid) ni
    /\ itemsView (world st') clid
       = itemsView (world st) clid
         ++ map writtenItem (keptItems db (storeCalls (world st)) items).
Proof.
  induction items as [|item items IH]; intros k st; cbn [forEachM].
  - exists st, []. unfold ret. split; [reflexivity|].
    split; [cbn; lia|].
    split; [apply tablesGrow_refl|]. split; [constructor|].
    cbn. now rewrite app_nil_r.
  - destruct (createItem_kept lname title j clid k item st)
      as (s1 & E1 & C1 & G1).
    destruct (IH (S k) s1) as (s2 & ni & E2 & C2 & G2 & F2 & V2).
    unfold bind. rewrite E1, E2. cbn [keptItems].
    destruct (db ChecklistItemCreate (storeCalls (world st))) eqn:Edb.
    + exists s2, (checklistRepo.newItem (world st)
                    (Js.substring0 500 (itemTitle item)) clid userId :: ni).
      split; [reflexivity|].
      split; [cbn [List.length]; lia|].
      split; [exact (tablesGrow_trans _ _ _ _ _ _ _ _ _ _ _ _ _ G1 G2)|].
      split; [constructor; [reflexivity|assumption]|].
      rewrite V2, C1. unfold itemsView at 1.
      destruct G1 as (_ & _ & _ & _ & _ & G1).
      rewrite (itemsOfChecklist_snoc _ _ _ _ _ G1), map_app. cbn [map].
      unfold itemsView. rewrite <- app_assoc. reflexivity.
    + exists s2, ni. split; [reflexivity|].
      split; [cbn [List.length]; lia|].
      split; [exact (tablesGrow_trans _ _ _ _ _ _ _ _ _ _ _ _ _ G1 G2)|].
      split; [assumption|].
      rewrite V2, C1. f_equal. unfold itemsView. f_equal.
      destruct G1 as (_ & _ & _ & _ & _ & G1). rewrite app_nil_r in G1.
      unfold itemsOfChecklist. now rewrite G1.
    + destruct db_faults as (_ & H & _). now apply H in Edb.
Qed.

Lemma createChecklist_made lname createdCard cardData j cl st :
  db ChecklistCreate (storeCalls (world st)) = Succeeds ->
  itemsBounded (world st) ->
  exists st' ni,
    createChecklist db userId lname createdCard cardData j cl st = (Ok tt, st')
    /\ storeCalls (world st')
       = S (storeCalls (world st)) + List.length (checklistItemData cl)
    /\ let row := checklistRepo.newChecklist (world st)
                    (Js.substring0 255 (checklistName cl)) (cardId createdCard)
                    userId in
       tablesGrow (world st) (world st') [] [] [] [row] ni
       /\ Forall (fun i => itemChecklistId i = checklistId row) ni
       /\ itemsView (world st') (checklistId row)
          = map writtenItem
              (keptItems db (S (storeCalls (world st))) (checklistItemData cl)).
Proof.
  intros Hdb Hfresh.
  unfold createChecklist, bind, liftDb, checklistRepo.create, repoCall.
  rewrite Hdb. cbn [fst snd setWorld].
  set (row := checklistRepo.newChecklist _ _ _ _).
  change (checklistId row =? 0) with false. cbv iota beta.
  match goal with
  | |- context [when ?b ?m ?s] =>
      assert (Hw : exists s1, when b m s = (Ok tt, s1) /\ world s1 = world s)
        by (destruct b; cbn; eexists; split; reflexivity);
      destruct Hw as (s1 & Ew & Hs1); rewrite Ew
  end.
  destruct (createItems_kept lname (cardTitle cardData) j (checklistId row)
              (checklistItemData cl) 0 s1) as (s2 & ni & E2 & C2 & G2 & F2 & V2).
  exists s2, ni. split; [exact E2|]. cbv zeta.
  rewrite Hs1 in G2, V2, C2. cbn [world] in G2, V2, C2.
  split; [exact C2|].
  split; [|split; [exact F2|]].
  - destruct G2 as (A1 & A2 & A3 & A4 & A5 & A6).
    unfold tablesGrow. rewrite A1, A2, A3, A4, A5, A6. cbn.
    rewrite ?app_nil_r. auto 10.
  - rewrite V2.
    replace (itemsView _ (checklistId row)) with (@nil ChecklistItemData);
      [reflexivity|].
    unfold itemsView, itemsOfChecklist. cbn [checklistItems setChecklists setStoreCalls].
    rewrite filter_nothing; [reflexivity|].
    eapply Forall_impl; [|exact Hfresh]. cbn. intros i Hi.
    cbn [checklists setStoreCalls] in Hi.
    replace (itemChecklistId i =? _) with false; [reflexivity|].
    symmetry. apply Nat.eqb_neq. unfold nextId. lia.
Qed.

Lemma createChecklists_kept lname createdCard cardData cls :
  forall j st,
  itemsBounded (world st) ->
  exists st' ncl ni,
    forEachM (createChecklist db userId lname createdCard cardData) j cls st
    = (Ok tt, st')
    /\ tablesGrow (world st) (world st') [] [] [] ncl ni
    /\ Forall (fun cl => checklistCardId cl = cardId createdCard) ncl
    /\ Forall (fun i => list_max (map checklistId (checklists (world st)))
                        < itemChecklistId i) ni
    /\ itemsBounded (world st')
    /\ checklistsView (world st') (cardId createdCard)
       = checklistsView (world st) (cardId createdCard)
         ++ map writtenChecklist
              (keptChecklists db (storeCalls (world st)) cls).
Proof.
  induction cls as [|cl cls IH]; intros j st Hb; cbn [forEachM].
  - exists st, [], []. unfold ret. split; [reflexivity|].
    split; [apply tablesGrow_refl|]. repeat (split; [constructor|]).
    split; [exact Hb|]. cbn. now rewrite app_nil_r.
  - cbn [keptChecklists].
    destruct (db ChecklistCreate (storeCalls (world st))) eqn:Edb.
    + destruct (createChecklist_made lname createdCard cardData j cl st Edb Hb)
        as (s1 & ni1 & E1 & C1 & G1 & F1 & V1).
      cbv zeta in G1, F1, V1.
      set (row := checklistRepo.newChecklist (world st) _ _ _) in *.
      pose proof G1 as (_ & _ & _ & _ & Gc & Gi).
      assert (Hb1 : itemsBounded (world s1)).
      { apply (itemsBounded_grow _ _ _ _ Gc Gi Hb).
        eapply Forall_impl; [|exact F1]. cbn. intros i ->.
        rewrite Gc, map_app, list_max_app. cbn. unfold nextId. lia. }
      destruct (IH (S j) s1 Hb1)
        as (s2 & ncl & ni2 & E2 & G2 & Fc2 & Fi2 & Hb2 & V2).
      exists s2, (row :: ncl), (ni1 ++ ni2). unfold bind. rewrite E1, E2.
      split; [reflexivity|].
      split; [exact (tablesGrow_trans _ _ _ _ _ _ _ _ _ _ _ _ _ G1 G2)|].
      split; [constructor; [reflexivity|assumption]|].
      split.
      { apply Forall_app. split.
        - eapply Forall_impl; [|exact F1]. cbn. intros i ->. unfold nextId. lia.
        - eapply Forall_impl; [|exact Fi2]. cbn. intros i Hi.
          rewrite Gc, map_app, list_max_app in Hi. lia. }
      split; [exact Hb2|].
      rewrite V2, C1. cbn [map].
      match goal with
      | |- _ = _ ++ ?x :: ?rest =>
          change (x :: rest) with ([x] ++ rest)
      end.
      rewrite app_assoc. f_equal.
      unfold checklistsView.
      rewrite (checklistsOfCard_snoc _ _ _ _ _ Gc), map_app. cbn [map].
      f_equal.
      * apply map_ext_in. intros c0 Hc0. unfold exportChecklist. f_equal. f_equal.
        apply (itemsOfChecklist_grow _ _ _ _ Gi).
        unfold checklistsOfCard in Hc0.
        apply orderBy_In, filter_In in Hc0 as [Hc0 _].
        pose proof (list_max_above _ _ (in_map checklistId _ _ Hc0)) as Hle.
        eapply Forall_impl; [|exact F1]. cbn. intros i ->. unfold nextId. lia.
      * f_equal. unfold exportChecklist, writtenChecklist.
        cbn [checklistName checklistItemData]. f_equal. exact V1.
    + unfold bind.
      rewrite (createChecklist_skipped db userId lname createdCard
                 cardData j cl st Edb).
      match goal with
      | |- context [forEachM _ (S j) cls ?s] => set (s1 := s)
      end.
      assert (Hb1 : itemsBounded (world s1)) by exact Hb.
      destruct (IH (S j) s1 Hb1)
        as (s2 & ncl & ni2 & E2 & G2 & Fc2 & Fi2 & Hb2 & V2).
      exists s2, ncl, ni2. rewrite E2.
      split; [reflexivity|].
      split.
      { pose proof (tablesGrow_trans _ _ _ _ _ _ _ _ _ _ _ _ _
                      (tablesGrow_calls (world st) (S (storeCalls (world st))))
                      G2) as T. exact T. }
      split; [exact Fc2|]. split; [exact Fi2|]. split; [exact Hb2|].
      exact V2.
    + destruct db_faults as (H & _). now apply H in Edb.
Qed.

Lemma createChecklistsOfCard_kept lname m createdCard cardData st :
  mapGetNat (cardPublicId createdCard) m = Some cardData ->
  itemsBounded (world st) ->
  exists st' ncl ni,
    createChecklistsOfCard db userId lname m createdCard st = (Ok tt, st')
    /\ tablesGrow (world st) (world st') [] [] [] ncl ni
    /\ Forall (fun cl => checklistCardId cl = cardId createdCard) ncl
    /\ Forall (fun i => list_max (map checklistId (checklists (world st)))
                        < itemChecklistId i) ni
    /\ itemsBounded (world st')
    /\ checklistsView (world st') (cardId createdCard)
       = checklistsView (world st) (cardId createdCard)
         ++ map writtenChecklist
              (keptChecklists db (storeCalls (world st)) (cardChecklists cardData)).
Proof.
  intros Hm Hb. unfold createChecklistsOfCard. rewrite Hm.
  now apply createChecklists_kept.
Qed.

Lemma createAllChecklists_kept lname m createdCards datas :
  Forall2 (fun C cd => mapGetNat (cardPublicId C) m = Some cd) createdCards datas ->
  NoDup (map cardId createdCards) ->
  forall k st,
  itemsBounded (world st) ->
  exists st' ncl ni,
    forEachM (fun _ => createChecklistsOfCard db userId lname m) k createdCards st
    = (Ok tt, st')
    /\ tablesGrow (world st) (world st') [] [] [] ncl ni
    /\ Forall (fun cl => In (checklistCardId cl) (map cardId createdCards)) ncl
    /\ Forall (fun i => list_max (map checklistId (checklists (world st)))
                        < itemChecklistId i) ni
    /\ itemsBounded (world st')
    /\ Forall2 (fun C cd =>
                  exists n,
                    checklistsView (world st') (cardId C)
                    = checklistsView (world st) (cardId C)
                      ++ map writtenChecklist
                           (keptChecklists db n (cardChecklists cd)))
               createdCards datas.
Proof.
  induction 1 as [|C cd Cs cds Hm Hrest IH]; intros Hnd k st Hb; cbn [forEachM].
  - exists st, [], []. unfold ret. split; [reflexivity|].
    split; [apply tablesGrow_refl|]. repeat (split; [constructor|]).
    split; [exact Hb|constructor].
  - cbn [map] in Hnd. apply NoDup_cons_iff in Hnd as [Hnotin Hnd].
    destruct (createChecklistsOfCard_kept lname m C cd st Hm Hb)
      as (s1 & ncl1 & ni1 & E1 & G1 & Fc1 & Fi1 & Hb1 & V1).
    destruct (IH Hnd (S k) s1 Hb1)
      as (s2 & ncl2 & ni2 & E2 & G2 & Fc2 & Fi2 & Hb2 & V2).
    pose proof G1 as (_ & _ & _ & _ & Gc1 & Gi1).
    pose proof G2 as (_ & _ & _ & _ & Gc2 & Gi2).
    exists s2, (ncl1 ++ ncl2), (ni1 ++ ni2). unfold bind. rewrite E1, E2.
    split; [reflexivity|].
    split; [exact (tablesGrow_trans _ _ _ _ _ _ _ _ _ _ _ _ _ G1 G2)|].
    split.
    { apply Forall_app. split.
      - eapply Forall_impl; [|exact Fc1]. cbn. intros cl ->. now left.
      - eapply Forall_impl; [|exact Fc2]. cbn. intros cl Hcl. now right. }
    split.
    { apply Forall_app. split; [exact Fi1|].
      eapply Forall_impl; [|exact Fi2]. cbn. intros i Hi.
      rewrite Gc1, map_app, list_max_app in Hi. lia. }
    split; [exact Hb2|].
    constructor.
    + exists (storeCalls (world st)). rewrite <- V1.
      apply (checklistsView_grow _ _ _ _ _ Gc2 Gi2); [|exact Fi2].
      eapply Forall_impl; [|exact Fc2]. cbn. intros cl Hcl Heq.
      apply Hnotin. now rewrite <- Heq.
    + assert (Hne : Forall (fun C' => cardId C' <> cardId C) Cs).
      { apply Forall_forall. intros C' HC' Heq. apply Hnotin.
        rewrite <- Heq. now apply in_map. }
      eapply Forall2_impl; [|exact (Forall2_and_left _ _ _ _ Hne V2)].
      cbn. intros C' cd' [Hne' [n Hn]]. exists n. rewrite Hn. f_equal.
      apply (checklistsView_grow _ _ _ _ _ Gc1 Gi1); [|exact Fi1].
      eapply Forall_impl; [|exact Fc1]. cbn. intros cl ->. auto.
Qed.

End KeptChecklists.

Section KeptCards.

Context (db : Behaviour).
Hypothesis db_faults : onlyChecklistsFail db.

Variable userId : string.

Lemma writeCardDetails_kept labelMap l m createdCards datas st :
  Forall2 (fun C cd => mapGetNat (cardPublicId C) m = Some cd) createdCards datas ->
  NoDup (map cardId createdCards) ->
  itemsBounded (world st) ->
  exists st' ncl ni,
    writeCardDetails db userId labelMap l m createdCards st = (Ok tt, st')
    /\ tablesGrow (world st) (world st') [] []
         (flat_map fst (map (labelStepOfCard labelMap (listName l) m) createdCards))
         ncl ni
    /\ Forall (fun cl => In (checklistCardId cl) (map cardId createdCards)) ncl
    /\ Forall (fun i => list_max (map checklistId (checklists (world st)))
                        < itemChecklistId i) ni
    /\ itemsBounded (world st')
    /\ Forall2 (fun C cd =>
                  exists n,
                    checklistsView (world st') (cardId C)
                    = checklistsView (world st) (cardId C)
                      ++ map writtenChecklist
                           (keptChecklists db n (cardChecklists cd)))
               createdCards datas.
Proof.
  intros Hal Hnd Hb.
  unfold writeCardDetails, bind, pushCreatedCards, liftDb,
    cardActivityRepo.bulkCreate, repoCall. cbn [world].
  rewrite (db_succeeds db db_faults) by discriminate.
  cbn [snd fst setWorld world].
  unfold pushWarnings at 1. cbn [world].
  set (relations := flat_map fst (map (labelStepOfCard labelMap (listName l) m)
                                      createdCards)).
  destruct (0 <? List.length relations) eqn:E0; cbn [when].
  - unfold cardRepo.bulkCreateCardLabelRelationship, repoCall.
    cbn [world storeCalls setStoreCalls setCardActivities].
    rewrite (db_succeeds db db_faults) by discriminate.
    cbn [snd fst setWorld world].
    match goal with
    | |- context [forEachM ?f 0 ?cs ?s] =>
        destruct (createAllChecklists_kept db db_faults userId (listName l) m
                    createdCards datas Hal Hnd 0 s Hb)
          as (st' & ncl & ni & E & G & Fc & Fi & Hb' & V)
    end.
    exists st', ncl, ni. rewrite E. split; [reflexivity|].
    split; [|auto].
    destruct G as (G1 & G2 & G3 & G4 & G5 & G6).
    unfold tablesGrow. rewrite G1, G2, G3, G4, G5, G6. cbn.
    now rewrite !app_nil_r.
  - unfold ret.
    match goal with
    | |- context [forEachM ?f 0 ?cs ?s] =>
        destruct (createAllChecklists_kept db db_faults userId (listName l) m
                    createdCards datas Hal Hnd 0 s Hb)
          as (st' & ncl & ni & E & G & Fc & Fi & Hb' & V)
    end.
    exists st', ncl, ni. rewrite E. split; [reflexivity|].
    split; [|auto].
    apply Nat.ltb_ge in E0.
    assert (relations = []) as -> by (destruct relations; [reflexivity|cbn in E0; lia]).
    exact G.
Qed.

Lemma writeCards_kept importId labelMap l target st :
  listCards l <> [] ->
  itemsBounded (world st) ->
  let prepared :=
    preparedFrom userId importId (fst target) 0 (uidSeed (world st)) (listCards l) in
  let rows := cardRowsFrom (nextId (map cardId (cards (world st)))) (map snd prepared) in
  let m := fold_left (fun m p => mapSet (cardInputPublicId (snd p)) (fst p) m)
                     prepared [] in
  exists st' ncl ni,
    writeCards db userId importId labelMap l target st = (Ok tt, st')
    /\ tablesGrow (world st) (world st') [] rows
         (flat_map fst (map (labelStepOfCard labelMap (listName l) m) rows))
         ncl ni
    /\ Forall (fun cl => In (checklistCardId cl) (map cardId rows)) ncl
    /\ Forall (fun i => list_max (map checklistId (checklists (world st)))
                        < itemChecklistId i) ni
    /\ itemsBounded (world st')
    /\ Forall2 (fun C cd =>
                  exists n,
                    checklistsView (world st') (cardId C)
                    = checklistsView (world st) (cardId C)
                      ++ map writtenChecklist
                           (keptChecklists db n (cardChecklists cd)))
               rows (listCards l).
Proof.
  intros Hne Hb prepared rows m.
  unfold writeCards, bind, liftDb.
  rewrite prepareCards_run. cbn [world setWorld].
  unfold pushWarnings at 1. cbn [world].
  rewrite cardRepo_bulkCreate_run.
  cbn [world setWorld storeCalls setUidSeed cards].
  rewrite (db_succeeds db db_faults) by discriminate.
  fold prepared. fold rows. fold m.
  assert (Hlen : List.length rows = List.length (listCards l)).
  { subst rows prepared.
    now rewrite cardRowsFrom_length, length_map, preparedFrom_length. }
  destruct (List.length rows =? 0) eqn:E0.
  { apply Nat.eqb_eq in E0. destruct (listCards l); [congruence|cbn in *; lia]. }
  match goal with
  | |- context [fold_left cardRepo.insert ?i ?w0] =>
      pose proof (cardRepo_fold_tables i w0) as G0;
      set (w1 := fold_left cardRepo.insert i w0) in *
  end.
  cbn [cards setStoreCalls setUidSeed] in G0. fold rows in G0.
  assert (G0' : tablesGrow (world st) w1 [] rows [] [] []) by exact G0.
  clear G0. destruct G0' as (G1 & G2 & G3 & G4 & G5 & G6).
  assert (Hal : Forall2 (fun C cd => mapGetNat (cardPublicId C) m = Some cd)
                        rows (listCards l)).
  { eapply Forall2_impl; [|apply prepared_aligned]. cbn. intros C cd H. apply H. }
  assert (Hnd : NoDup (map cardId rows)).
  { subst rows. rewrite cardRowsFrom_ids. apply seq_NoDup. }
  match goal with
  | |- context [writeCardDetails db userId ?lm ?ld ?mm ?cs ?s] =>
      destruct (writeCardDetails_kept lm ld mm cs (listCards l) s Hal Hnd)
        as (st' & ncl & ni & E & G & Fc & Fi & Hb' & V)
  end.
  { cbn [world setWorld]. apply (itemsBounded_grow (world st) w1 [] [] G5 G6 Hb).
    constructor. }
  cbn [world setWorld] in G, Fi, V.
  exists st', ncl, ni. split; [exact E|].
  split.
  { pose proof (tablesGrow_trans _ _ _ _ _ _ _ _ _ _ _ _ _
                  (conj G1 (conj G2 (conj G3 (conj G4 (conj G5 G6))))) G) as T.
    cbn [app] in T. rewrite app_nil_r in T. exact T. }
  split; [exact Fc|].
  split. { rewrite G5, app_nil_r in Fi. exact Fi. }
  split; [exact Hb'|].
  eapply Forall2_impl; [|exact V]. cbn. intros C cd [n ->]. exists n. f_equal.
  apply (checklistsView_grow (world st) w1 [] [] _ G5 G6); constructor.
Qed.

End KeptCards.

(* ===================================================================== *)
(** ** What the loop over the lists writes *)
(* ===================================================================== *)

(** Rows appended later, for other cards, leave what was written for a
    card as it is. *)
Lemma cardWritten_stable db labelMap board (w1 w2 : World) target C cd :
  importedInto board w1 w2 ->
  cardId C <= list_max (map cardId (cards w1)) ->
  cardWritten db labelMap w1 target C cd ->
  cardWritten db labelMap w2 target C cd.
Proof.
  intros (nl & nlab & nc & nr & ncl & ni & L & B & Cc & R & K & I
          & Fl & Flab & Fc & Fr & Fcl & Fi) Hle
         (H1 & H2 & H3 & H4 & H5 & n & H6).
  repeat (split; [assumption|]). split.
  - rewrite R, filter_app, (filter_nothing _ nr), app_nil_r; [exact H5|].
    eapply Forall_impl; [|exact Fr]. cbn. intros r Hr. apply Nat.eqb_neq. lia.
  - exists n. rewrite <- H6.
    apply (checklistsView_grow w1 w2 ncl ni (cardId C) K I); [|exact Fi].
    eapply Forall_impl; [|exact Fcl]. cbn. intros cl Hcl. lia.
Qed.

Lemma cardWritten_same db labelMap (w1 w2 : World) target C cd :
  cardsToLabels w2 = cardsToLabels w1 ->
  checklists w2 = checklists w1 ->
  checklistItems w2 = checklistItems w1 ->
  cardWritten db labelMap w1 target C cd ->
  cardWritten db labelMap w2 target C cd.
Proof.
  intros R K I (H1 & H2 & H3 & H4 & H5 & n & H6).
  repeat (split; [assumption|]). split.
  - now rewrite R.
  - exists n. rewrite <- H6. unfold checklistsView, checklistsOfCard.
    rewrite K. apply map_ext. intros cl. unfold exportChecklist, itemsOfChecklist.
    now rewrite I.
Qed.

(** The rows of a batch of cards, once their associations and their
    checklists are written. *)
Lemma rows_cardWritten db labelMap lname m target (w1 w' : World)
    (rows : list CardRow) (cds : list CardData) ncl ni :
  Forall (fun r => relCardId r <= list_max (map cardId (cards w1)))
         (cardsToLabels w1) ->
  Forall (fun cl => checklistCardId cl <= list_max (map cardId (cards w1)))
         (checklists w1) ->
  map cardId rows = seq (nextId (map cardId (cards w1))) (List.length rows) ->
  tablesGrow w1 w' [] rows
    (flat_map fst (map (labelStepOfCard labelMap lname m) rows)) ncl ni ->
  Forall2 (fun C cd =>
             mapGetNat (cardPublicId C) m = Some cd
             /\ cardRowTitle C = Js.substring0 255 (cardTitle cd)
             /\ cardRowDescription C = Js.substring0 10000 (cardDescription cd)
             /\ cardListId C = target
             /\ cardDeleted C = false) rows cds ->
  Forall2 (fun C cd =>
             exists n,
               checklistsView w' (cardId C)
               = checklistsView w1 (cardId C)
                 ++ map writtenChecklist (keptChecklists db n (cardChecklists cd)))
          rows cds ->
  Forall2 (cardWritten db labelMap w' target) rows cds.
Proof.
  intros W2 W3 Hids (G1 & G2 & G3 & G4 & G5 & G6) Hal Hchk.
  assert (Hnew : Forall (fun C => list_max (map cardId (cards w1)) < cardId C) rows).
  { apply Forall_forall. intros C HC. apply (in_map cardId) in HC.
    rewrite Hids in HC. apply in_seq in HC. unfold nextId in HC. lia. }
  assert (Hnd : NoDup (map cardId rows)) by (rewrite Hids; apply seq_NoDup).
  assert (Hal' : Forall2 (fun C cd => mapGetNat (cardPublicId C) m = Some cd)
                         rows cds).
  { eapply Forall2_impl; [|exact Hal]. cbn. intros C cd H. apply H. }
  destruct (relations_by_card labelMap lname m rows cds Hal' Hnd) as [_ Hview].
  cbv zeta in Hview.
  pose proof (Forall2_and_left _ _ _ _ Hnew
                (Forall2_conj _ _ _ _ Hal (Forall2_conj _ _ _ _ Hview Hchk)))
    as Hall.
  eapply Forall2_impl; [|exact Hall]. cbn.
  intros C cd (Hlt & (_ & Ht & Hd & Hl & Hdel) & Hv & n & Hn).
  split; [exact Hl|]. split; [exact Hdel|]. split; [exact Ht|].
  split; [exact Hd|]. split.
  - rewrite G4, filter_app, (filter_nothing _ (cardsToLabels w1)); [exact Hv|].
    eapply Forall_impl; [|exact W2]. cbn. intros r Hr. apply Nat.eqb_neq. lia.
  - exists n. rewrite Hn, checklistsView_none; [reflexivity|].
    eapply Forall_impl; [|exact W3]. cbn. intros cl Hcl. lia.
Qed.

Lemma listsBacked_known board (s : ImportState) :
  listsBacked board s -> knownLists board s.
Proof.
  unfold listsBacked, knownLists. intros H.
  eapply Forall_impl; [|exact H]. cbn.
  intros e (row & Hin & Hid & _ & Hb). rewrite <- Hid.
  unfold listIdsOf. apply in_map. apply filter_In. split; [exact Hin|].
  now apply Nat.eqb_eq.
Qed.

Lemma listsBacked_grows board (s s' : ImportState) news :
  lists (world s') = lists (world s) ++ news ->
  existingLists s' = existingLists s ->
  listsBacked board s -> listsBacked board s'.
Proof.
  unfold listsBacked. intros L E H. rewrite E.
  eapply Forall_impl; [|exact H]. cbn. intros e (row & Hin & Hr).
  exists row. split; [|exact Hr]. rewrite L. apply in_or_app. now left.
Qed.

Lemma find_app_first {A} (p : A -> bool) (l1 l2 : list A) (x : A) :
  find p l1 = Some x -> find p (l1 ++ l2) = Some x.
Proof.
  induction l1 as [|a l1 IH]; cbn; [discriminate|].
  destruct (p a); [auto|exact IH].
Qed.

Section Described.

Context (db : Behaviour).
Hypothesis db_faults : onlyChecklistsFail db.

Variable userId : string.
Variable board importId : nat.
Variable labelMap : list (string * nat).

(** The list the cards of [l] go into: the one [existingLists.find]
    yields, or a list created on the board under the name of [l]. *)
Lemma findOrCreateList_described l st :
  wellReferenced (world st) ->
  listsBacked board st ->
  exists t s1,
    findOrCreateList db userId board importId l st = (Ok t, s1)
    /\ wellReferenced (world s1)
    /\ listsBacked board s1
    /\ (exists more, existingLists s1 = existingLists st ++ more)
    /\ cards (world s1) = cards (world st)
    /\ (exists row, In row (lists (world s1))
          /\ listId row = fst t /\ listBoardId row = board
          /\ Js.toLowerCase (listRowName row) = Js.toLowerCase (listName l))
    /\ (forall e, find (listMatches l) (existingLists st) = Some e ->
                  fst t = fst e).
Proof.
  intros Hwr Hback.
  destruct (find (listMatches l) (existingLists st)) as [t|] eqn:Ef.
  - exists t, st. rewrite (findOrCreateList_found _ _ _ _ _ _ _ Ef).
    split; [reflexivity|]. split; [exact Hwr|]. split; [exact Hback|].
    split; [exists []; now rewrite app_nil_r|]. split; [reflexivity|].
    split.
    + apply find_some in Ef as [Hin Hm].
      unfold listsBacked in Hback. rewrite Forall_forall in Hback.
      destruct (Hback t Hin) as (row & Hrow & Hid & Hn & Hb).
      exists row. repeat (split; [assumption|]).
      unfold listMatches in Hm. apply andb_prop in Hm as [_ Hm].
      apply String.eqb_eq in Hm. now rewrite Hn.
    + intros e He. now injection He as <-.
  - unfold findOrCreateList, bind, getExistingLists. rewrite Ef.
    unfold liftDb, listRepo.create, repoCall.
    rewrite (db_succeeds db db_faults) by discriminate. cbn [fst snd].
    set (row := listRepo.newList (world st) (listName l) userId board importId).
    change (listRepo.newList (setStoreCalls (S (storeCalls (world st))) (world st))
              (listName l) userId board importId) with row.
    assert (E0 : (listId row =? 0) = false) by reflexivity.
    rewrite E0. unfold pushExistingList, ret. cbn [world setWorld existingLists].
    eexists _, _. split; [reflexivity|]. cbn [existingLists world].
    assert (G : tablesGrow (world st)
                  (setLists (lists (world st) ++ [row])
                     (setStoreCalls (S (storeCalls (world st))) (world st)))
                  [row] [] [] [] []).
    { unfold tablesGrow. cbn. now rewrite !app_nil_r. }
    split.
    { apply (wellReferenced_grows _ _ _ _ _ _ _ Hwr G); try constructor.
      destruct Hwr as (_ & _ & _ & W4). exact W4. }
    split.
    { unfold listsBacked. cbn [existingLists world lists setLists].
      apply Forall_app. split.
      - eapply Forall_impl; [|exact Hback]. cbn. intros e (r & Hin & Hr).
        exists r. split; [|exact Hr]. apply in_or_app. now left.
      - repeat constructor. exists row. split; [apply in_or_app; right; now left|].
        cbn. auto. }
    split; [eexists; reflexivity|]. split; [reflexivity|].
    split.
    + exists row. split; [cbn; apply in_or_app; right; now left|]. cbn. auto.
    + discriminate.
Qed.

(** One turn of the loop over the lists. *)
Lemma processList_described l st :
  Js.truthy (Js.trim (listName l)) = true ->
  wellReferenced (world st) ->
  listsBacked board st ->
  exists st',
    processList db userId board importId labelMap l st = (Ok tt, st')
    /\ wellReferenced (world st')
    /\ listsBacked board st'
    /\ (exists more, existingLists st' = existingLists st ++ more)
    /\ labels (world st') = labels (world st)
    /\ if hasCards l
       then exists target rows,
              cards (world st') = cards (world st) ++ rows
              /\ listWrittenIn db board labelMap st st'
                   {| wList := l; wTarget := target; wRows := rows |}
       else st' = st.
Proof.
  intros Hname Hwr Hback.
  pose proof (processList_labels db userId board importId labelMap l st) as Hlab.
  unfold onWorld, unchanged in Hlab. revert Hlab.
  unfold processList. rewrite Hname. cbn [negb]. unfold hasCards.
  destruct (List.length (listCards l) =? 0) eqn:E0; cbn [negb].
  { intros _. exists st. unfold ret. split; [reflexivity|].
    split; [exact Hwr|]. split; [exact Hback|].
    split; [exists []; now rewrite app_nil_r|]. split; reflexivity. }
  assert (Hne : listCards l <> []).
  { intros H. rewrite H in E0. discriminate. }
  destruct (findOrCreateList_described l st Hwr Hback)
    as (t & s1 & E1 & Hwr1 & Hback1 & Hmore & Hc1 & Hrow & Hfound).
  unfold bind. rewrite E1.
  pose proof Hwr1 as (W1 & W2 & W3 & W4).
  pose proof (writeCards_kept db db_faults userId importId labelMap l t s1
                Hne W4) as Hw.
  cbv zeta in Hw.
  destruct Hw as (st' & ncl & ni & E2 & G & Fc & Fi & Hb' & V).
  pose proof (prepared_aligned userId importId (fst t) (listCards l)
                (nextId (map cardId (cards (world s1)))) (uidSeed (world s1)))
    as Hal.
  cbv zeta in Hal.
  set (prepared := preparedFrom userId importId (fst t) 0
                     (uidSeed (world s1)) (listCards l)) in *.
  set (rows := cardRowsFrom (nextId (map cardId (cards (world s1))))
                 (map snd prepared)) in *.
  set (m := fold_left (fun m p => mapSet (cardInputPublicId (snd p)) (fst p) m)
                      prepared []) in *.
  assert (Hids : map cardId rows
                 = seq (nextId (map cardId (cards (world s1)))) (List.length rows)).
  { subst rows. now rewrite cardRowsFrom_ids, cardRowsFrom_length. }
  pose proof (rows_cardWritten db labelMap (listName l) m (fst t) (world s1)
                (world st') rows (listCards l) ncl ni W2 W3 Hids G Hal V)
    as Hrows.
  pose proof (writeCards_existingLists db userId importId labelMap l t s1) as Hex.
  unfold unchanged in Hex. rewrite E2 in Hex. cbn [snd] in Hex.
  pose proof G as (G1 & G2 & G3 & G4 & G5 & G6).
  rewrite app_nil_r in G1.
  rewrite E2. cbn [snd]. intros Hlab.
  exists st'. split; [reflexivity|].
  assert (Hin : Forall (fun C => In (cardId C) (map cardId rows)) rows).
  { apply Forall_forall. intros C HC. now apply in_map. }
  assert (Hmax : forall x, In x (map cardId rows) ->
                   x <= list_max (map cardId (cards (world st')))).
  { intros x Hx. apply list_max_above. rewrite G3, map_app.
    apply in_or_app. now right. }
  split.
  { apply (wellReferenced_grows _ _ _ _ _ _ _ Hwr1 G); [| | |exact Hb'].
    - destruct Hrow as (row & Hr & Hid & _).
      assert (Hl : Forall (fun C => cardListId C = fst t) rows).
      { apply (Forall2_left _ rows (listCards l)).
        eapply Forall2_impl; [|exact Hal]. cbn. intros C cd H. apply H. }
      eapply Forall_impl; [|exact Hl].
      cbn. intros C ->. rewrite <- Hid. apply list_max_above, in_map.
      now rewrite G1.
    - assert (Hal' : Forall2 (fun C cd => mapGetNat (cardPublicId C) m = Some cd)
                             rows (listCards l)).
      { eapply Forall2_impl; [|exact Hal]. cbn. intros C cd H. apply H. }
      assert (Hnd : NoDup (map cardId rows)) by (rewrite Hids; apply seq_NoDup).
      destruct (relations_by_card labelMap (listName l) m rows (listCards l)
                  Hal' Hnd) as [Hrel _].
      cbv zeta in Hrel. eapply Forall_impl; [|exact Hrel]. cbn. auto.
    - eapply Forall_impl; [|exact Fc]. cbn. auto. }
  split.
  { apply (listsBacked_grows board s1 st' []); [now rewrite app_nil_r|exact Hex|].
    exact Hback1. }
  split; [now rewrite Hex|].
  split; [exact Hlab|].
  exists (fst t), rows. split; [now rewrite G3, Hc1|].
  split; [exact Hrows|]. cbn [wList wTarget]. split; [|exact Hfound].
  destruct Hrow as (row & Hr & Hrest). exists row. split; [|exact Hrest].
  now rewrite G1.
Qed.

End Described.

Section DescribedLoop.

Context (db : Behaviour).
Hypothesis db_faults : onlyChecklistsFail db.

Variable userId : string.
Variable board importId : nat.
Variable labelMap : list (string * nat).

Lemma listWrittenIn_later (s0 s1 s2 : ImportState) (g : ListWritten) :
  importedInto board (world s1) (world s2) ->
  Forall (fun C => cardId C <= list_max (map cardId (cards (world s1))))
         (wRows g) ->
  listWrittenIn db board labelMap s0 s1 g ->
  listWrittenIn db board labelMap s0 s2 g.
Proof.
  intros Himp Hle (Hc & (row & Hr & Hrest) & Hf). split; [|split; [|exact Hf]].
  - assert (H : Forall2 (fun C cd =>
                  cardId C <= list_max (map cardId (cards (world s1)))
                  /\ cardWritten db labelMap (world s1) (wTarget g) C cd)
                (wRows g) (listCards (wList g)))
      by (apply Forall2_and_left; assumption).
    eapply Forall2_impl; [|exact H]. cbn. intros C cd [Hle' Hw].
    exact (cardWritten_stable db labelMap board _ _ _ _ _ Himp Hle' Hw).
  - exists row. split; [|exact Hrest].
    destruct Himp as (nl & _ & _ & _ & _ & _ & L & _). rewrite L.
    apply in_or_app. now left.
Qed.

Lemma listWrittenIn_earlier (s0 s1 s2 : ImportState) (g : ListWritten) more :
  existingLists s1 = existingLists s0 ++ more ->
  listWrittenIn db board labelMap s1 s2 g ->
  listWrittenIn db board labelMap s0 s2 g.
Proof.
  intros E (Hc & Hrow & Hf). split; [exact Hc|]. split; [exact Hrow|].
  intros e He. apply Hf. rewrite E. now apply find_app_first.
Qed.

Lemma processLists_described ls :
  Forall (fun l => Js.truthy (Js.trim (listName l)) = true) ls ->
  forall i st,
  wellReferenced (world st) ->
  listsBacked board st ->
  exists st' groups,
    forEachM (fun _ => processList db userId board importId labelMap) i ls st
    = (Ok tt, st')
    /\ wellReferenced (world st')
    /\ listsBacked board st'
    /\ (exists more, existingLists st' = existingLists st ++ more)
    /\ labels (world st') = labels (world st)
    /\ importedInto board (world st) (world st')
    /\ cards (world st') = cards (world st) ++ flat_map wRows groups
    /\ map wList groups = filter hasCards ls
    /\ Forall (listWrittenIn db board labelMap st st') groups.
Proof.
  induction 1 as [|l ls Hl Hls IH]; intros i st Hwr Hback; cbn [forEachM].
  - exists st, []. unfold ret. split; [reflexivity|].
    split; [exact Hwr|]. split; [exact Hback|].
    split; [exists []; now rewrite app_nil_r|]. split; [reflexivity|].
    split; [apply importedInto_refl|]. cbn. rewrite app_nil_r.
    repeat split; constructor.
  - destruct (processList_described db db_faults userId board importId labelMap
                l st Hl Hwr Hback)
      as (s1 & E1 & Hwr1 & Hback1 & (more1 & Hm1) & Hlab1 & Hg1).
    pose proof (processList_beside db board userId importId labelMap l st
                  (listsBacked_known _ _ Hback)) as [_ Himp1].
    rewrite E1 in Himp1. cbn [snd] in Himp1.
    destruct (IH (S i) s1 Hwr1 Hback1)
      as (s2 & groups & E2 & Hwr2 & Hback2 & (more2 & Hm2) & Hlab2 & Himp2
          & Hc2 & Hn2 & Hg2).
    unfold bind. rewrite E1, E2.
    assert (Hrest : Forall (listWrittenIn db board labelMap st s2) groups).
    { eapply Forall_impl; [|exact Hg2]. cbn. intros g Hg.
      exact (listWrittenIn_earlier _ _ _ _ _ Hm1 Hg). }
    cbn [filter]. destruct (hasCards l).
    + destruct Hg1 as (target & rows & Hc1 & Hw1).
      exists s2, ({| wList := l; wTarget := target; wRows := rows |} :: groups).
      split; [reflexivity|]. split; [exact Hwr2|]. split; [exact Hback2|].
      split; [exists (more1 ++ more2); now rewrite Hm2, Hm1, app_assoc|].
      split; [congruence|].
      split; [exact (importedInto_trans _ _ _ _ Himp1 Himp2)|].
      split; [cbn; now rewrite Hc2, Hc1, app_assoc|].
      split; [cbn; now rewrite Hn2|].
      constructor; [|exact Hrest].
      apply (listWrittenIn_later st s1 s2 _ Himp2); [|exact Hw1].
      cbn [wRows]. apply Forall_forall. intros C HC.
      apply list_max_above, in_map. rewrite Hc1. apply in_or_app. now right.
    + subst s1. exists s2, groups.
      split; [reflexivity|]. split; [exact Hwr2|]. split; [exact Hback2|].
      split; [exists more2; exact Hm2|].
      split; [exact Hlab2|]. split; [exact Himp2|].
      split; [exact Hc2|]. split; [exact Hn2|].
      eapply Forall_impl; [|exact Hg2]. cbn. intros g Hg.
      apply (listWrittenIn_earlier st st s2 g []); [now rewrite app_nil_r|exact Hg].
Qed.

End DescribedLoop.

Lemma wellReferenced_same (w w' : World) :
  lists w' = lists w -> cards w' = cards w ->
  cardsToLabels w' = cardsToLabels w -> checklists w' = checklists w ->
  checklistItems w' = checklistItems w ->
  wellReferenced w -> wellReferenced w'.
Proof.
  unfold wellReferenced, itemsBounded. intros -> -> -> -> ->. auto.
Qed.

Lemma existingLists_backed board (w w1 : World) :
  lists w1 = lists w ->
  listsBacked board (startState w1 (existingListsOf w board)).
Proof.
  intros L. unfold listsBacked, startState, existingListsOf.
  cbn [existingLists world]. apply Forall_forall. intros e He.
  apply in_map_iff in He as (row & <- & Hrow).
  unfold listsOfBoard in Hrow. apply filter_In in Hrow as [Hin Hp].
  apply andb_prop in Hp as [Hb _]. apply Nat.eqb_eq in Hb.
  exists row. rewrite L. cbn. auto.
Qed.

(** The list [existingLists.find] yields among the lists the board showed
    at the start. *)
Lemma find_existing_list board (w : World) (l : ListData) (e : ListRow) :
  In e (listsOfBoard w board) ->
  Js.truthy (listRowName e) = true ->
  Js.toLowerCase (listRowName e) = Js.toLowerCase (listName l) ->
  exists e',
    In e' (listsOfBoard w board)
    /\ Js.toLowerCase (listRowName e') = Js.toLowerCase (listName l)
    /\ find (listMatches l) (existingListsOf w board)
       = Some (listId e', listRowName e').
Proof.
  intros He Ht Hn.
  destruct (find (listMatches l) (existingListsOf w board)) as [t|] eqn:Ef.
  - apply find_some in Ef as [Hin Hm]. unfold existingListsOf in Hin.
    apply in_map_iff in Hin as (e' & <- & He').
    exists e'. split; [exact He'|]. split; [|reflexivity].
    unfold listMatches in Hm. cbn [snd] in Hm.
    apply andb_prop in Hm as [_ Hm]. now apply String.eqb_eq in Hm.
  - exfalso.
    assert (Hin : In (listId e, listRowName e) (existingListsOf w board)).
    { unfold existingListsOf.
      exact (in_map (fun r => (listId r, listRowName r)) _ _ He). }
    pose proof (find_none_all _ _ Ef _ Hin) as Hm.
    unfold listMatches in Hm. cbn [snd] in Hm.
    rewrite Ht, Hn, String.eqb_refl in Hm. discriminate.
Qed.

Section DescribedImport.

Context (db : Behaviour).
Hypothesis db_faults : onlyChecklistsFail db.

Variable colours : list string.
Variable userId : string.
Variable board : nat.

(** An import on a store that fails on checklists only, once access is
    granted: it returns, and what it wrote is described list by list. *)
Lemma importWithLedger_described ls w :
  Forall (fun l => Js.truthy (Js.trim (listName l)) = true) ls ->
  wellReferenced w ->
  exists out w' labelMap,
    importWithLedger db colours userId board ls w = (Ok out, w')
    /\ (forall e, In e (existingLabelsOf w board) ->
          exists e', In e' (existingLabelsOf w board)
            /\ Js.toLowerCase (snd e') = Js.toLowerCase (snd e)
            /\ mapGet (Js.toLowerCase (snd e)) labelMap = Some (fst e'))
    /\ importWritten db board labelMap ls w w'.
Proof.
  intros Hnames Hwr.
  unfold importWithLedger, bind, importRepo.create, repoCall.
  rewrite (db_succeeds db db_faults) by discriminate.
  cbn [fst snd importId].
  change (imports (setStoreCalls (S (storeCalls w)) w)) with (imports w).
  change (nextId (map importId (imports w)) =? 0) with false. cbv iota.
  set (id := nextId (map importId (imports w))).
  unfold tryCatch, importTry.
  match goal with
  | |- context [resolveLabels _ _ _ _ _ _ _ ?w0] => set (wa := w0)
  end.
  assert (Hla : existingLabelsOf wa board = existingLabelsOf w board)
    by reflexivity.
  assert (Hli : existingListsOf wa board = existingListsOf w board)
    by reflexivity.
  rewrite Hla, Hli.
  destruct (resolveLabels_run db db_faults colours userId board id
              (existingLabelsOf w board) ls wa) as (labelMap & w1 & E1 & _).
  assert (F1 : lists w1 = lists w /\ cards w1 = cards w
               /\ cardsToLabels w1 = cardsToLabels w
               /\ checklists w1 = checklists w
               /\ checklistItems w1 = checklistItems w).
  { pose proof (resolveLabels_preserves (unchanged lists) db
                  (unchanged_refl _) (unchanged_trans _)
                  userId board id ltac:(frame_ops) colours
                  (existingLabelsOf w board) ls wa) as H1.
    pose proof (resolveLabels_preserves (unchanged cards) db
                  (unchanged_refl _) (unchanged_trans _)
                  userId board id ltac:(frame_ops) colours
                  (existingLabelsOf w board) ls wa) as H2.
    pose proof (resolveLabels_preserves (unchanged cardsToLabels) db
                  (unchanged_refl _) (unchanged_trans _)
                  userId board id ltac:(frame_ops) colours
                  (existingLabelsOf w board) ls wa) as H3.
    pose proof (resolveLabels_preserves (unchanged checklists) db
                  (unchanged_refl _) (unchanged_trans _)
                  userId board id ltac:(frame_ops) colours
                  (existingLabelsOf w board) ls wa) as H4.
    pose proof (resolveLabels_preserves (unchanged checklistItems) db
                  (unchanged_refl _) (unchanged_trans _)
                  userId board id ltac:(frame_ops) colours
                  (existingLabelsOf w board) ls wa) as H5.
    unfold unchanged in *. rewrite E1 in *. cbn [snd] in *. auto. }
  destruct F1 as (L1 & C1 & R1 & K1 & I1).
  rewrite E1.
  fold (startState w1 (existingListsOf w board)).
  destruct (processLists_described db db_faults userId board id labelMap ls
              Hnames 0 (startState w1 (existingListsOf w board)))
    as (st & groups & E2 & Hwr2 & Hback2 & _ & _ & _ & Hc2 & Hn2 & Hg2).
  { cbn [world startState].
    exact (wellReferenced_same w w1 L1 C1 R1 K1 I1 Hwr). }
  { now apply existingLists_backed. }
  unfold processLists. rewrite E2.
  unfold importRepo.update, repoCall.
  rewrite (db_succeeds db db_faults) by discriminate. cbn [fst snd].
  eexists _, _, labelMap. split; [reflexivity|]. split.
  { intros e He. exact (resolveLabels_reuses _ _ _ _ _ _ _ _ _ _ e E1 He). }
  exists groups. cbn [cards setImports setStoreCalls].
  cbn [world startState] in Hc2. split; [now rewrite Hc2, C1|].
  split; [exact Hn2|].
  eapply Forall_impl; [|exact Hg2]. cbn.
  intros g (Hcards & (row & Hr & Hrest) & Hfind). split; [|split].
  - eapply Forall2_impl; [|exact Hcards]. cbn. intros C cd H.
    eapply cardWritten_same; [| | |exact H]; reflexivity.
  - exists row. split; [exact Hr|exact Hrest].
  - intros e He Ht Hn.
    destruct (find_existing_list board w (wList g) e He Ht Hn)
      as (e' & He' & Hn' & Hf).
    exists e'. split; [exact He'|]. split; [exact Hn'|].
    exact (Hfind _ Hf).
Qed.

End DescribedImport.

(* ===================================================================== *)
(** ** Checklists and items the store returns no result for *)
(* ===================================================================== *)

(** On a store that returns no result for the first checklist of a card
    and for the first item of the second, the import returns and the card
    shows the second checklist with its second item. *)
Lemma later_checklists_are_written :
  let r := importCards (Sample.parseAs Sample.patchyDoc) Sample.patchyStore
             Sample.palette Sample.ctx (Sample.input "doc") Sample.world0 in
  validatePayload (Sample.parseAs Sample.patchyDoc) "doc" = Ok [Sample.patchyList]
  /\ fst r = Ok {| cardsCreated := 1; listsProcessed := 1; warningsReturned := [] |}
  /\ map cardRowTitle (cards (snd r)) = ["write"%string]
  /\ map checklistRowName (checklists (snd r)) = ["Later"%string]
  /\ map itemRowTitle (checklistItems (snd r)) = ["tell"%string]
  /\ keptChecklists Sample.patchyStore 4
       (cardChecklists (hd (Sample.plainCard "") (listCards Sample.patchyList)))
     = [{| checklistName := "Later";
           checklistItemData :=
             [{| itemTitle := "tell"; itemCompleted := false |}] |}].
Proof. cbv zeta. repeat split; vm_compute; reflexivity. Qed.

(** C9. On a store that, on the creation of a checklist or of a checklist
    item, may return no result but does not raise, and that carries out
    every other write: a checklist whose creation returns no result is
    passed over with its items, nothing being written or warned for it; an
    item whose creation returns no result is passed over; in both cases
    the loop goes on, and the import of a payload with non-blank list
    names returns, having created every card of every list, with its
    ledger record marked success. The loop over the checklists of a card
    leaves the card with the checklists it had followed by those the store
    created, counted from the store call the loop starts at. What the
    import has written is, on a store that keeps its references within its
    tables: for every list of the payload
    that holds a card, in the order of the payload, a row for each card in
    a list of the board that bears the name of the payload list, and for
    each row the checklists of its card that the store created, in order,
    each with the items of it that the store created, in order. *)
Theorem failed_checklists_are_skipped
    (parse : string -> option json) (db : Behaviour) (colours : list string)
    (ctx : Ctx) (input : Input) (w : World) (userId : string) (board : BoardRow)
    (ls : list ListData) :
  onlyChecklistsFail db ->
  accessGranted w ctx (inputBoardPublicId input) = Some (userId, board) ->
  validatePayload parse (data input) = Ok ls ->
  Forall (fun l => Js.truthy (Js.trim (listName l)) = true) ls ->
  (exists out w',
     importCards parse db colours ctx input w = (Ok out, w')
     /\ cardsCreated out = countCards ls
     /\ listsProcessed out = List.length ls
     /\ exists row, In row (imports w')
          /\ importId row = nextId (map importId (imports w))
          /\ importStatus row = Success)
  /\ (forall lname createdCard cardData j checklistData st,
        db ChecklistCreate (storeCalls (world st)) = NoResult ->
        createChecklist db userId lname createdCard cardData j checklistData st
        = (Ok tt,
           setWorld (setStoreCalls (S (storeCalls (world st))) (world st)) st))
  /\ (forall lname title j checklist k itemData st,
        db ChecklistItemCreate (storeCalls (world st)) = NoResult ->
        exists st',
          createItem db userId lname title j checklist k itemData st = (Ok tt, st')
          /\ checklistItems (world st') = checklistItems (world st))
  /\ (forall lname createdCard cardData cls j st,
        itemsBounded (world st) ->
        exists st',
          forEachM (createChecklist db userId lname createdCard cardData) j cls st
          = (Ok tt, st')
          /\ checklistsView (world st') (cardId createdCard)
             = checklistsView (world st) (cardId createdCard)
               ++ map writtenChecklist
                    (keptChecklists db (storeCalls (world st)) cls))
  /\ (wellReferenced w ->
      exists out w' labelMap,
        importCards parse db colours ctx input w = (Ok out, w')
        /\ importWritten db (boardId board) labelMap ls w w').
Proof.
  intros Hdb Ha Hv Hnames. split; [|split; [|split; [|split]]].
  - rewrite (importCards_granted _ _ _ _ _ _ _ _ _ Ha Hv).
    now apply importWithLedger_run.
  - intros. now apply createChecklist_skipped.
  - intros. now apply createItem_skipped.
  - intros lname C cd cls j st Hb.
    destruct (createChecklists_kept db Hdb userId lname C cd cls j st Hb)
      as (st' & ncl & ni & E & _ & _ & _ & _ & V).
    exists st'. split; [exact E|exact V].
  - intros Hwr. rewrite (importCards_granted _ _ _ _ _ _ _ _ _ Ha Hv).
    destruct (importWithLedger_described db Hdb colours userId (boardId board)
                ls w Hnames Hwr) as (out & w' & labelMap & E & _ & Hw).
    exists out, w', labelMap. split; [exact E|exact Hw].
Qed.

Lemma failed_checklists_are_skipped_witness :
  exists out w' labelMap,
    importCards (Sample.parseAs Sample.patchyDoc) Sample.patchyStore
      Sample.palette Sample.ctx (Sample.input "doc") Sample.world0 = (Ok out, w')
    /\ importWritten Sample.patchyStore 1 labelMap [Sample.patchyList]
         Sample.world0 w'.
Proof.
  refine (proj2 (proj2 (proj2 (proj2
            (failed_checklists_are_skipped
               (Sample.parseAs Sample.patchyDoc) Sample.patchyStore
               Sample.palette Sample.ctx (Sample.input "doc") Sample.world0
               "user-1" Sample.board1 [Sample.patchyList] _ _ _ _)))) _).
  - repeat split; intros; destruct op || idtac;
      try discriminate; try reflexivity; try contradiction;
      unfold Sample.patchyStore; destruct (n =? _); discriminate.
  - vm_compute. reflexivity.
  - vm_compute. reflexivity.
  - repeat constructor.
  - repeat split; constructor.
Defined.

(* ===================================================================== *)
(** ** Lists and labels the board already shows *)
(* ===================================================================== *)



(** A board that shows a list [to do] and a label [bug], and a payload
    naming them [To Do] and [Bug]: no list and no label is added, the
    card goes into the list found and is associated with the label found,
    which keeps its colour. *)
Lemma list_and_label_found_are_reused :
  let w' := snd (importCards (Sample.parseAs Sample.reuseDoc)
                   Sample.allSucceed Sample.palette Sample.ctx
                   (Sample.input "doc") Sample.worldWithList) in
  lists w' = lists Sample.worldWithList
  /\ labels w' = labels Sample.worldWithList
  /\ map (fun c => (cardId c, cardRowTitle c, cardListId c)) (cards w')
     = [(4, "old"%string, 7); (5, "new"%string, 7)]
  /\ cardsToLabels w' = [{| relCardId := 5; relLabelId := 3 |}].
Proof. cbv zeta. repeat split; vm_compute; reflexivity. Qed.


